(* ===== verification/_CoqProject ===== *)
-Q . S2P
Prelude.v
CMem.v
CString.v
CircularBuffer.v
RingSpec.v
RingFacts.v
BufferProps.v
Ioctl.v
CharDriver.v
DriverSpec.v
DriverRead.v
DriverWrite.v
DriverSeek.v
DriverModule.v
DriverTrace.v
DriverProps.v
DriverSteps.v
DriverLock.v
DriverPool.v
ConcurrentProps.v
CText.v
Slist.v
Server.v
ServerMain.v
ServerFacts.v
FlipFacts.v
ServerSpec.v
ServerConn.v
ServerProps.v
ServerStart.v
StartProps.v
ServerThreads.v
ThreadFacts.v
ThreadProps.v
ServerWhole.v
WholeFacts.v
WholeRuns.v
WholeProps.v
SystemCalls.v
Utilities.v
UtilityProps.v
CecTypes.v
CecRecord.v
CecControl.v
CecAudio.v
CecCommands.v
CecFacts.v
CecSend.v
CecReceive.v
CecArrive.v
CecSafe.v
CecProps.v
QueueMem.v
Queues.v
QueueFacts.v
QueueLinks.v
QueueTails.v
QueueSpec.v
QueueProps.v
ByteOrder.v
LittleEndian.v
BigEndian.v
Endian.v
Tlv.v
TlvFacts.v
TlvProps.v
Netlink.v
NetlinkProps.v
Bsearch.v
Vring.v
DevNumbers.v
BitSets.v
BitSetFacts.v
BitSetProps.v
TimeVals.v
Bcache.v
Obstack.v
ObstackFacts.v
ObstackProps.v
ObstackPortable.v
