(* ===== verification/Prelude.v ===== *)
(** * The AESD assignments: character driver, socket server and examples

    This library models the C programs of the repository and proves what they
    do.  The parts and how they interact:

    - the circular buffer (aesd-char-driver/aesd-circular-buffer.c and .h)
      keeps the ten newest commands as pointers to strings with their sizes;
    - the character driver (aesd-char-driver/main.c, aesdchar.h,
      aesd_ioctl.h) collects what is written into commands that end with a
      newline, puts them into the buffer, and serves reads, seeks and the
      ioctl AESDCHAR_IOCSEEKTO at a position in their concatenation;
    - the socket server (server/aesdsocket.c) writes each packet a client
      sends to the driver and sends the driver's whole contents back; a
      thread per connection, kept in a list of sys/queue.h;
    - the examples (examples/systemcalls, examples/threading,
      examples/autotest-validate) and the writer (finder-app/writer.c) stand
      alone;
    - the headers of the target image (finder-app/libc/usr/include) hold
      inline code: the linked queues of sys/queue.h, of which the server uses
      SLIST; the HDMI CEC message functions of linux/cec.h and
      linux/cec-funcs.h, a builder and a decoder per message; the byte order
      conversions of linux/swab.h, linux/byteorder, bits/byteswap.h and
      netinet/in.h, which the TIPC configuration messages of
      linux/tipc_config.h use; bsearch() of bits/stdlib-bsearch.h; the virtio
      ring of linux/virtio_ring.h; device numbers of bits/sysmacros.h; the
      CPU sets of bits/cpu-set.h and descriptor sets of bits/select.h; time
      values of sys/time.h; the object stacks of obstack.h; netlink messages,
      route attributes and ancillary data of linux/netlink.h,
      linux/rtnetlink.h and bits/socket.h; the keys of linux/bcache.h.

    ** Files

    - [Prelude] (this file): outcomes of C code as a value or a fault, machine
      integers, characters, the tactics and the hint database [aesd].
    - [CMem]: blocks of bytes, pointers, the string functions and the
      allocators.  An undefined operation is a [Fault].  The interface
      [Allocator] is what MEM_ALLOC promises; its instances are kmalloc and
      malloc.  [CString]: what the string functions do on strings.  [CText]:
      strncmp, strtok, atoi, local arrays.
    - [CircularBuffer]: the buffer as the sources have it.  [RingSpec]: the
      abstract buffer, a list of strings with a reference search.
      [RingFacts]: the invariant [ring] and the effect of each operation.
      [BufferProps]: the theorems.
    - [Ioctl]: error numbers and command numbers (asm-generic/ioctl.h).
      [CharDriver]: struct aesd_dev, every handler of main.c, the module's
      entry and exit.  [DriverSpec]: the abstract device, the invariant
      [dev_inv] and the relation [implements].  [DriverRead], [DriverWrite],
      [DriverSeek], [DriverModule]: what each handler does to them.
      [DriverTrace]: aesd_fops as one interface, all sequences of calls.
      [DriverProps]: the theorems.  [DriverSteps]: the handlers cut into the
      steps they take on what the processes share, and processes that take
      turns ([pool_run]); [DriverLock]: taken without interruption the
      steps are the handler, and what a handler does before, under and after
      the lock; [DriverPool]: the invariant of the runs;
      [ConcurrentProps]: the theorems.
    - [Slist]: the SLIST macros and their representation predicate.
      [Server]: what a connection's thread runs, in a state and error monad
      over the interfaces [Peer] (the network) and [CharDev] (the device).
      [ServerMain]: the main thread.  [ServerSpec]: what the server needs of
      the device ([CharDevSpec]), and the proof that the driver provides it.
      [ServerFacts], [FlipFacts], [ServerConn]: the lemmas.  [ServerProps]:
      the theorems.  [ServerStart]: the calls main makes before its loop, on
      the descriptors, signals and processes; [StartProps]: their
      lemmas and theorems.  [ServerThreads]: the threads of several connections,
      interleaved in steps of one device call; [ThreadFacts]: the invariant;
      [ThreadProps]: the theorems.  [ServerWhole]: main cut into steps and
      interleaved with the threads, [server_run]; [WholeFacts], [WholeRuns]:
      the invariant of list, flags and threads, and what runs keep;
      [WholeProps]: the theorems.
    - [SystemCalls], [Utilities]: the examples and the writer;
      [UtilityProps]: their theorems.
    - [CecTypes]: struct cec_msg, statements that change a message, and the
      functions of linux/cec.h.  [CecRecord], [CecControl], [CecAudio]: the
      functions of linux/cec-funcs.h, in the order of the file.
      [CecCommands]: the messages as values ([cec_command]), the builder and
      the header of each ([send], [opcode], [broadcast], [answer]), a
      receiver that decodes by the opcode ([receive]), the ranges of the
      operands and what arrives of them ([delivered]).  [CecFacts]: bit
      fields and the evaluation of builders.  [CecSend], [CecReceive],
      [CecArrive], [CecSafe]: what the builders and the decoders do.
      [CecProps]: the theorems.
    - [QueueMem]: the words of heads and elements, statements on them, and
      chains.  [Queues]: the LIST, STAILQ, SIMPLEQ, TAILQ and CIRCLEQ macros,
      a Module each.  [QueueFacts]: chains and evaluation.  [QueueLinks],
      [QueueTails]: what each macro does to its queue.  [QueueSpec]: edits of
      a list, the contract [LinkedQueue] and what a client may conclude from
      it.  [QueueProps]: the instances of the contract and the theorems.
    - [ByteOrder]: the reversals of bytes and halves, integers in memory on a
      machine of either byte order ([host], [load_uint], [store_uint]), and
      the host and network conversions.  [LittleEndian], [BigEndian]: the two
      headers of linux/byteorder.  [Endian]: the conversions as a class
      ([Conversions]) with its laws ([ConversionSpec]), an instance per
      header, and the theorems.
    - [Tlv]: the fields, lists of fields and messages of linux/tipc_config.h,
      the addresses of linux/tipc.h.  [TlvFacts]: what they do to a buffer.
      [TlvProps]: the theorems.
    - [Bsearch], [Vring], [DevNumbers], [TimeVals], [Bcache]: a header each,
      with its theorems.
    - [BitSets]: CPU sets and descriptor sets as arrays of masks, by address.
      [BitSetFacts]: the loops over the masks, and members.  [BitSetProps]:
      programs on sets, and the theorems.
    - [Obstack]: the macros of obstack.h on a flat memory, the invariant
      [inv], and what _obstack_newchunk() is documented to do
      ([NewChunkSpec]).  [ObstackFacts]: each macro keeps the invariant.
      [ObstackProps]: objects from pieces, a function that makes chunks as
      required, and the theorems.  [ObstackPortable]: the macros for other
      compilers, those that set up an object stack, and the theorems.
    - [Netlink]: the macros for netlink messages, route attributes, next hops
      and ancillary data.  [NetlinkProps]: records in a buffer as a class
      ([Records]) with its laws ([RecordsSpec]), an instance for messages and
      one for attributes, and the theorems.

    ** State and operations

    The driver's state is [kstate]: the memory ([mem]: a finite map from
    blocks to bytes, and a count of the allocations made) and [aesd_dev], the
    fields of struct aesd_dev.  [aesd_read], [aesd_write], [aesd_seek],
    [aesd_ioctl], [aesd_init_module] and [aesd_cleanup_module] are the
    functions of the same names, with every early return and [goto] path;
    parts of a long function have names of their own ([write_store],
    [write_grow], [write_commit], [write_exit], [read_deliver],
    [adjust_loop]).  What the kernel decides is a parameter: which block an
    allocation returns or that it fails ([AllocOracle]), interrupted locks
    and failed user copies ([kcall]), fixed_size_llseek() ([FixedSizeLlseek],
    with its documented behaviour as a hypothesis of one theorem).  Several
    processes in the driver are a [pool]: the driver's state, and of each
    process its file, the calls it has left and the rest of the handler it is
    in, as a [proc].  The state of a server thread is [tstate]; loops over the network have fuel,
    and the theorems say how much is enough.  The state of the whole server
    is [whole]: where main is, its list, its memory, the entry given to each
    thread, the threads with the device, and caught_signal.  The start-up acts
    on [os]: descriptors, open files, handled signals, directory and session.
    Integers are Z with the wrap-around of uint8_t, unsigned int, size_t,
    ssize_t and loff_t written out.

    ** What the theorems show

    - Buffer: adding refines the list that keeps the ten newest, the search
      equals the reference search and finds the byte at a position, the
      length and the loop macro are right; an addition loses a block.
    - Driver: write and read refine the abstract device; writing any sequence
      of buffers and reading to the end gives the ten newest commands; in all
      reachable states the invariant holds and well-formed calls return
      without a fault when allocations succeed; positions after seeks and
      ioctls; errors leave the device alone; loading and unloading.  Several
      processes at once whose ioctls keep to the lock see their calls one
      after the other, in the order in which they release the lock, and do
      not all get stuck; an ioctl with an index out of range lets a second process in beside the one that has the lock, and
      the memory of the device is overrun.  Further theorems pin down the
      calls that do fault, leak or misreport.
    - Server: a client whose packet arrives in any parts, while all commands
      fit the buffer of the thread, receives the whole contents of the
      device, from the socket down to the driver's memory;
      the list of threads; address reversal; and the inputs on which the
      threads fault, hang or keep the lock.  In every interleaving of the
      threads of several clients the device holds what was written in the
      order of the writes; packets that arrive whole are stored whole and no
      thread gets stuck; every merge of packets that arrive in parts happens
      in some interleaving, and one of them stores a command nobody sent.
      With main among them, in every run main joins a thread once and after
      its end and closes the connections of exactly those; before a signal,
      for addresses whose parts have two digits and with memory for the
      entries, it does not fault, and waits only for a thread that is about
      to return; the device holds what the threads wrote; a completion that is
      there when main waits is seen in the next round, one that falls between
      the test and the clearing of the flag is lost.  Started, exactly one
      process serves, on a listening socket; what descriptors it leaves open,
      and when its socket has no address.
    - CEC messages: the builder of each of the 83 commands ends within the
      message, keeps the types of the fields and sets the header of its
      command; what is built, sent and decoded is the command again or what
      [delivered] says, and exactly the commands that lose something on the
      way are named; replies and refusals go back;
      no message from the bus makes a decoder leave its buffers; the search
      for feature bytes equals a reference search.
    - Queues: for all five families any possible sequence of edits leaves
      the queue of the edited list and touches nothing else, and a removal
      undoes an insertion word by word; the loops in both directions,
      concatenation, the circular neighbours.
    - Byte order: all versions of the reversals reverse the bytes; what a
      machine of either order stores in a format, any machine reads back.
    - TIPC: fields that are set are read back in order on any machine, the
      layout of a message, the round trip of addresses; the copy that is four
      bytes too long and the field that stops the list.
    - Headers: bsearch() finds what there is within 65 rounds, the parts
      of a virtio ring fit its size and its event test is right where indices
      wrap, device numbers and pairs of parts correspond; sums, differences
      and comparisons of time values are those of their microseconds; setting
      a field of a block cache key changes that field alone, and keys that are
      copied one behind the other are found again.
    - Sets of bits: programs of CPU set and descriptor set macros refine the
      same programs on finite sets; a CPU behind the size is ignored, a
      descriptor behind FD_SETSIZE leaves the array, and a negative one is a
      shift by a negative count.
    - Object stacks: objects have their pieces in order (pointers and ints
      where the data so far has their alignment), are aligned, do not
      overlap and stay when chunks are added; freeing one releases it and
      what followed; the macros for other compilers do the same as those for
      GNU C; a stack that was set up is empty and can be used.
    - Messages in a buffer: the loops over messages and attributes end and
      stay in the buffer whatever it holds, and find what was laid out in it;
      so does the function for ancillary data; the test of a next hop reads
      behind the buffer.
    - Examples: argument vectors and results of do_exec and
      do_exec_redirect, the exit status of the writer, the threads.

    ** Bounds and fuel

    The scans for feature bytes have the sixteen bytes of a message as fuel
    and stop at a limit of 14 or 15; the loops over a queue and the walk of
    STAILQ_REMOVE need one round per element, and the theorems ask for more
    fuel than the queue has elements.  The search and the loop macro need ten
    and eleven rounds, the loop of aesd_adjust_file_offset twelve; reading the device to its end takes at
    most eleven calls.  Messages are below 2^55 or 2^62 bytes and contents
    below 2^60 bytes, far beyond any memory, so that sums of sizes do not
    wrap.  A write has at most [max_count] bytes, the kernel's limit for one
    call.  Walks over the list of threads have [list_fuel], more than its
    nodes; bsearch() 65 rounds, for arrays of at most 2^63 elements; a list of
    fields takes one round more than it has fields.  The loops over messages
    and ancillary data need no more rounds than the buffer has bytes, and one
    more than there are records when it holds what a sender laid out.  The
    fuel of [flip_loop] and [name_loop] is bounded by the arrays they split.
    The runs of processes and threads are relations and have no fuel.

    ** What is not modelled

    The kernel and the C library beyond the calls above; the text that
    syslog(), printf() and perror() produce (what they read is); signals
    other than the flag they set; the order in which a processor makes the
    accesses of one step of a handler visible to others (the steps of the
    processes happen one at a time); the time stamps beside the connections,
    which the configuration with the driver never starts ([timestamp_logger]
    is modelled by itself); the built-in functions of the compiler, taken to
    be the functions of the headers they replace; scripts and Makefiles; the
    headers of the target image that only declare functions, structures and
    constants, and the inline functions of others (linux/usb/ch9.h,
    linux/usb/audio.h, linux/phonet.h and the like) that read or set members
    of structures by fixed offsets or masks, which nothing in the repository
    calls.  A head and an element of a queue are different structures, and an
    element is in one queue at a time. *)

From stdpp Require Import base numbers strings gmap list.
From Stdlib Require Import ZArith Lia.

#[local] Open Scope Z_scope.

(** * Outcomes of C code

    A C fragment either runs to completion or performs an operation whose
    behaviour the language (or the kernel API) leaves undefined.  [fault]
    names the undefined operations, [OutOfFuel] the executions a fuelled
    loop does not finish. *)

Inductive fault : Set :=
| NullDeref        (* access through NULL or ZERO_SIZE_PTR *)
| OutOfBounds      (* access outside the object *)
| UseAfterFree     (* access to a block that is not allocated *)
| UninitRead       (* read of a byte that was never written *)
| Misaligned       (* access to a pointer or an int at an address that is no multiple of its size *)
| BadShift         (* shift by a negative count *)
| BadFree          (* free of a pointer that does not start a live block *)
| BadUnlock        (* unlock of a mutex the caller does not hold *)
| SelfDeadlock     (* lock of a non-recursive mutex the caller holds *)
| OutOfFuel.       (* the fuelled loop was cut off *)

#[global] Instance fault_eq_dec : EqDecision fault.
Proof. solve_decision. Defined.

Inductive res (A : Type) : Type :=
| Ok (a : A)
| Fault (f : fault).
Arguments Ok {A} a.
Arguments Fault {A} f.

#[global] Instance res_ret : MRet res := fun A a => Ok a.
#[global] Instance res_bind : MBind res := fun A B k m =>
  match m with Ok a => k a | Fault f => Fault f end.

Lemma bind_ok {A B} (a : A) (k : A -> res B) : mbind k (Ok a) = k a.
Proof. reflexivity. Qed.

Lemma bind_fault {A B} (f : fault) (k : A -> res B) : mbind k (Fault f) = Fault f.
Proof. reflexivity. Qed.

Lemma bind_ok_inv {A B} (m : res A) (k : A -> res B) (b : B) :
  mbind k m = Ok b -> exists a, m = Ok a /\ k a = Ok b.
Proof. destruct m as [a|f]; cbn; [eauto | discriminate]. Qed.

(** [lift_opt f o]: a C object that may be absent. *)
Definition lift_opt {A} (f : fault) (o : option A) : res A :=
  match o with Some a => Ok a | None => Fault f end.

(** * Machine integers *)

Definition u8 (z : Z) : Z := z mod 2 ^ 8.
Definition u16 (z : Z) : Z := z mod 2 ^ 16.
Definition u32 (z : Z) : Z := z mod 2 ^ 32.
Definition u64 (z : Z) : Z := z mod 2 ^ 64.

(** Conversion to a signed type of [w] bits, as gcc defines it. *)
Definition swrap (w z : Z) : Z := (z + 2 ^ (w - 1)) mod 2 ^ w - 2 ^ (w - 1).
Definition s32 (z : Z) : Z := swrap 32 z.
Definition s64 (z : Z) : Z := swrap 64 z.

Lemma u8_small z : 0 <= z < 256 -> u8 z = z.
Proof. intros. apply Z.mod_small. lia. Qed.

Lemma u16_small z : 0 <= z < 65536 -> u16 z = z.
Proof. intros. apply Z.mod_small. lia. Qed.

Lemma u64_small z : 0 <= z < 2 ^ 64 -> u64 z = z.
Proof. intros. apply Z.mod_small. lia. Qed.

Lemma u32_small z : 0 <= z < 2 ^ 32 -> u32 z = z.
Proof. intros. apply Z.mod_small. lia. Qed.

Lemma u64_neg z : - 2 ^ 64 <= z < 0 -> u64 z = z + 2 ^ 64.
Proof. intros Hz. unfold u64. symmetry. apply (Z.mod_unique _ _ (-1)); lia. Qed.

Lemma u64_range z : 0 <= u64 z < 2 ^ 64.
Proof. apply Z.mod_pos_bound. lia. Qed.

Lemma s64_small z : - 2 ^ 63 <= z < 2 ^ 63 -> s64 z = z.
Proof.
  intros. unfold s64, swrap.
  replace (64 - 1) with 63 by lia. rewrite Z.mod_small by lia. lia.
Qed.

Lemma s32_small z : - 2 ^ 31 <= z < 2 ^ 31 -> s32 z = z.
Proof.
  intros. unfold s32, swrap.
  replace (32 - 1) with 31 by lia. rewrite Z.mod_small by lia. lia.
Qed.

Lemma s64_u64 z : s64 (u64 z) = s64 z.
Proof.
  unfold s64, u64, swrap. f_equal.
  apply Zplus_mod_idemp_l.
Qed.

(** A bitwise or of parts that do not overlap is their sum. *)
Lemma lor_disjoint a b k : 0 <= k -> 0 <= b < 2 ^ k -> Z.lor (a * 2 ^ k) b = a * 2 ^ k + b.
Proof.
  intros Hk Hb. rewrite <- Z.add_lor_land.
  enough (Z.land (a * 2 ^ k) b = 0) as -> by (by rewrite Z.add_0_r).
  apply Z.bits_inj'. intros n Hn0. rewrite Z.land_spec, Z.bits_0.
  destruct (Z.lt_ge_cases n k).
  - by rewrite Z.mul_pow2_bits_low by lia.
  - destruct (decide (b = 0)) as [->|]; [by rewrite Z.bits_0, andb_false_r|].
    rewrite (Z.bits_above_log2 b n), andb_false_r; [done|lia|].
    apply Z.log2_lt_pow2; [lia|].
    apply Z.lt_le_trans with (2 ^ k); [lia|]. apply Z.pow_le_mono_r; lia.
Qed.

(** * Characters *)

Abbreviation char := Ascii.ascii.

Definition NUL : char := Ascii.zero.
Definition newline : char := Ascii.Ascii false true false true false false false false.

(** A literal of the source as the bytes it denotes, without the terminator. *)
Definition lit (s : string) : list char := String.list_ascii_of_string s.

(** * Lists *)

Definition zlen {A} (l : list A) : Z := Z.of_nat (length l).

Lemma zlen_nil {A} : zlen (@nil A) = 0.
Proof. reflexivity. Qed.
Lemma zlen_cons {A} (x : A) l : zlen (x :: l) = 1 + zlen l.
Proof. unfold zlen. simpl length. lia. Qed.
Lemma zlen_app {A} (l k : list A) : zlen (l ++ k) = zlen l + zlen k.
Proof. unfold zlen. rewrite length_app. lia. Qed.
Lemma zlen_nonneg {A} (l : list A) : 0 <= zlen l.
Proof. unfold zlen. lia. Qed.

(** The last [n] elements of a list. *)
Definition lastn {A} (n : nat) (l : list A) : list A := drop (length l - n) l.

Lemma lastn_all {A} n (l : list A) : (length l <= n)%nat -> lastn n l = l.
Proof. intros. unfold lastn. replace (length l - n)%nat with O by lia. apply drop_0. Qed.

Lemma elem_of_lastn {A} n (l : list A) x : x ∈ lastn n l -> x ∈ l.
Proof. intros Hx. rewrite <- (take_drop (length l - n) l). apply elem_of_app. by right. Qed.

Lemma length_lastn {A} n (l : list A) : length (lastn n l) = Nat.min n (length l).
Proof. unfold lastn. rewrite length_drop. lia. Qed.

(** The characters of a list before the first [NUL]. *)
Fixpoint until_nul (l : list char) : list char :=
  match l with
  | [] => []
  | c :: r => if decide (c = NUL) then [] else c :: until_nul r
  end.

Lemma until_nul_no_nul l : NUL ∉ until_nul l.
Proof. induction l; simpl; [set_solver | case_decide; set_solver]. Qed.

Lemma until_nul_id l : NUL ∉ l -> until_nul l = l.
Proof.
  induction l as [|c l IH]; simpl; [done|]. intros H.
  rewrite decide_False by set_solver. f_equal. set_solver.
Qed.

Lemma until_nul_app (s t : list char) : NUL ∉ s -> until_nul (s ++ t) = s ++ until_nul t.
Proof.
  induction s as [|c s IH]; intros Hs; simpl; [done|].
  rewrite decide_False by set_solver. by rewrite IH by set_solver.
Qed.

Lemma until_nul_sub (s : list char) c : c ∈ until_nul s -> c ∈ s.
Proof. induction s as [|x s IH]; simpl; [done|]. case_decide; set_solver. Qed.

Lemma length_until_nul l : (length (until_nul l) <= length l)%nat.
Proof. induction l; simpl; [lia | case_decide; simpl; lia]. Qed.

(** * Automation *)

Create HintDb aesd.
#[export] Hint Rewrite @bind_ok @bind_fault @zlen_nil @zlen_cons @zlen_app : aesd.
#[export] Hint Resolve @zlen_nonneg until_nul_no_nul length_until_nul : aesd.

(** Split a completed bind chain in [H] into its steps. *)
Ltac inv_bind H :=
  let a := fresh "a" in let Ha := fresh "Hs" in
  apply bind_ok_inv in H as (a & Ha & H).

(** Reduce one fault-free step of the goal with the equation [E]. *)
Ltac step_with E := rewrite E, bind_ok.

(** Destruct the innermost [match] or [if] on a boolean test of the goal. *)
Ltac zbool :=
  match goal with
  | |- context [ (?a <=? ?b)%Z ] => destruct (Z.leb_spec a b)
  | |- context [ (?a <? ?b)%Z ] => destruct (Z.ltb_spec a b)
  | |- context [ (?a =? ?b)%Z ] => destruct (Z.eqb_spec a b)
  end.

(** Look up a block through a chain of insertions and deletions of blocks
    known to be different. *)
Ltac heap_look :=
  repeat first [ rewrite lookup_insert_eq | rewrite lookup_insert_ne by congruence
               | rewrite lookup_delete_ne by congruence ]; try done.

(** Decide a closed proposition by evaluating its decision procedure. *)
Ltac by_decide := match goal with |- ?P => apply (bool_decide_unpack P); vm_compute; exact I end.
