(* ===== verification/CMem.v ===== *)
(** * C memory: objects, pointers, byte access and the allocators

    Byte objects are blocks of a heap; a byte that was never written is
    [None].  Every access is checked: what C leaves undefined is a [Fault].
    The allocators are those the driver and the circular buffer call:
    [kmalloc]/[krealloc]/[kfree] of the kernel and [malloc] of the C library.
    Which block an allocation returns, and whether it fails, is not decided
    here: it is the parameter [AllocOracle], asked once per call. *)

From stdpp Require Import base numbers strings gmap list.
From S2P Require Import Prelude.

#[local] Open Scope Z_scope.

Abbreviation block := (list (option char)).
Abbreviation heap := (gmap nat block).

Inductive ptr : Set :=
| PNull
| PZeroSize                 (* ZERO_SIZE_PTR, what kmalloc(0) returns *)
| PAddr (b o : nat).        (* byte [o] of block [b] *)

#[global] Instance ptr_eq_dec : EqDecision ptr.
Proof. solve_decision. Defined.

Definition is_null (p : ptr) : bool := bool_decide (p = PNull).

Lemma is_null_addr b o : is_null (PAddr b o) = false.
Proof. reflexivity. Qed.

Definition ptr_add (p : ptr) (n : Z) : ptr :=
  match p with PAddr b o => PAddr b (o + Z.to_nat n) | _ => p end.

(** ** Byte access *)

(** The bytes from [p] to the end of the object it points into. *)
Definition bytes_from (h : heap) (p : ptr) : res block :=
  match p with
  | PAddr b o =>
      blk ← lift_opt UseAfterFree (h !! b);
      if decide (o <= length blk)%nat then Ok (drop o blk) else Fault OutOfBounds
  | _ => Fault NullDeref
  end.

Fixpoint all_init (l : block) : res (list char) :=
  match l with
  | [] => Ok []
  | None :: _ => Fault UninitRead
  | Some c :: r => s ← all_init r; Ok (c :: s)
  end.

(** The [n] bytes at [p]. *)
Definition load_bytes (h : heap) (p : ptr) (n : Z) : res (list char) :=
  if (n <=? 0)%Z then Ok [] else
  l ← bytes_from h p;
  if (n <=? zlen l)%Z then all_init (take (Z.to_nat n) l) else Fault OutOfBounds.

(** Write [s] at [p]; writing nothing touches no memory. *)
Definition store_bytes (h : heap) (p : ptr) (s : list char) : res heap :=
  match s with
  | [] => Ok h
  | _ =>
      match p with
      | PAddr b o =>
          blk ← lift_opt UseAfterFree (h !! b);
          if decide (o + length s <= length blk)%nat
          then Ok (<[b := list_inserts o (Some <$> s) blk]> h)
          else Fault OutOfBounds
      | _ => Fault NullDeref
      end
  end.

(** ** The string functions of the C library the sources call *)

Fixpoint scan_str (l : block) : res (list char) :=
  match l with
  | [] => Fault OutOfBounds
  | None :: _ => Fault UninitRead
  | Some c :: r =>
      if decide (c = NUL) then Ok [] else s ← scan_str r; Ok (c :: s)
  end.

(** The characters before the terminator of the string at [p]. *)
Definition load_cstr (h : heap) (p : ptr) : res (list char) :=
  l ← bytes_from h p; scan_str l.

Definition strlen (h : heap) (p : ptr) : res Z :=
  s ← load_cstr h p; Ok (zlen s).

Fixpoint scan_chr (c : char) (l : block) (i : Z) : res (option Z) :=
  match l with
  | [] => Fault OutOfBounds
  | None :: _ => Fault UninitRead
  | Some d :: r =>
      if decide (d = c) then Ok (Some i)
      else if decide (d = NUL) then Ok None
      else scan_chr c r (i + 1)
  end.

Definition strchr (h : heap) (p : ptr) (c : char) : res ptr :=
  l ← bytes_from h p;
  o ← scan_chr c l 0;
  Ok (match o with Some i => ptr_add p i | None => PNull end).

Definition memset (h : heap) (p : ptr) (c : char) (n : Z) : res heap :=
  store_bytes h p (replicate (Z.to_nat n) c).

Definition strcpy (h : heap) (dst src : ptr) : res heap :=
  s ← load_cstr h src; store_bytes h dst (s ++ [NUL]).

(** Returns the new heap; the C function returns [dst]. *)
Definition strcat (h : heap) (dst src : ptr) : res heap :=
  d ← load_cstr h dst;
  s ← load_cstr h src;
  store_bytes h (ptr_add dst (zlen d)) (s ++ [NUL]).

(** What [strncpy] reads: at most [n] characters, up to the terminator. *)
Fixpoint scan_strn (n : nat) (l : block) : res (list char) :=
  match n with
  | O => Ok []
  | S n' =>
      match l with
      | [] => Fault OutOfBounds
      | None :: _ => Fault UninitRead
      | Some c :: r =>
          if decide (c = NUL) then Ok [] else s ← scan_strn n' r; Ok (c :: s)
      end
  end.

(** Copies at most [n] characters and fills up to [n] bytes with NUL. *)
Definition strncpy (h : heap) (dst src : ptr) (n : Z) : res heap :=
  l ← bytes_from h src;
  s ← scan_strn (Z.to_nat n) l;
  store_bytes h dst (s ++ replicate (Z.to_nat n - length s) NUL).

(** ** Allocation *)

(** [m_tick] counts the allocation requests made so far. *)
Record mem : Type := Mem { m_heap : heap; m_tick : nat }.

(** The allocator's choice at its [t]-th request for [n] bytes: [None] when
    it fails, else the block it hands out. *)
Class AllocOracle : Type := alloc_choice : nat -> heap -> Z -> option nat.

Section Allocators.
Context `{AllocOracle}.

(** A request for [n] > 0 bytes.  The contents are uninitialised, and a
    block in use is never handed out. *)
Definition alloc_block (m : mem) (n : Z) : ptr * mem :=
  let h := m_heap m in
  match alloc_choice (m_tick m) h n with
  | Some b =>
      match h !! b with
      | None => (PAddr b 0, Mem (<[b := replicate (Z.to_nat n) None]> h) (S (m_tick m)))
      | Some _ => (PNull, Mem h (S (m_tick m)))
      end
  | None => (PNull, Mem h (S (m_tick m)))
  end.

Definition kmalloc (m : mem) (n : Z) : ptr * mem :=
  if (n =? 0)%Z then (PZeroSize, m) else alloc_block m n.

(** [malloc(0)] of the C library returns a unique pointer to no bytes. *)
Definition malloc (m : mem) (n : Z) : ptr * mem := alloc_block m n.

Definition kfree (m : mem) (p : ptr) : res mem :=
  match p with
  | PNull | PZeroSize => Ok m
  | PAddr b o =>
      if decide (o = O /\ is_Some (m_heap m !! b))
      then Ok (Mem (delete b (m_heap m)) (m_tick m))
      else Fault BadFree
  end.

(** Contents are preserved up to the lesser of the two sizes; when no
    memory is available NULL is returned and the old block stays. *)
Definition krealloc (m : mem) (p : ptr) (n : Z) : res (ptr * mem) :=
  if (n =? 0)%Z then m' ← kfree m p; Ok (PZeroSize, m')
  else
    match p with
    | PNull | PZeroSize => Ok (kmalloc m n)
    | PAddr b o =>
        old ← lift_opt UseAfterFree (m_heap m !! b);
        if decide (o = O) then
          let '(q, m1) := kmalloc m n in
          match q with
          | PAddr b' _ =>
              let kept := take (Z.to_nat n) old in
              let blk := kept ++ replicate (Z.to_nat n - length kept) None in
              Ok (q, Mem (delete b (<[b' := blk]> (m_heap m1))) (m_tick m1))
          | _ => Ok (q, m1)
          end
        else Fault BadFree
    end.
End Allocators.

(** What a component may assume of the allocator it is built with: a request
    either fails and changes no object, or yields a block that was not in
    use, with uninitialised contents. *)
Class Allocator : Type := {
  mem_alloc : mem -> Z -> ptr * mem;
  mem_alloc_spec : forall m n p m', mem_alloc m n = (p, m') -> 0 <= n ->
    (m_heap m' = m_heap m /\ (p = PNull \/ p = PZeroSize)) \/
    (exists b, p = PAddr b 0 /\ m_heap m !! b = None /\
       m_heap m' = <[b := replicate (Z.to_nat n) None]> (m_heap m))
}.

Section AllocatorInstances.
Context `{AllocOracle}.

Lemma alloc_block_spec m n p m' : alloc_block m n = (p, m') ->
  (m_heap m' = m_heap m /\ p = PNull) \/
  (exists b, p = PAddr b 0 /\ m_heap m !! b = None /\
     m_heap m' = <[b := replicate (Z.to_nat n) None]> (m_heap m)).
Proof.
  unfold alloc_block. repeat case_match; intros ?; simplify_eq/=; eauto 10.
Qed.

(** [MEM_ALLOC] of a kernel build. *)
#[refine] Instance kmalloc_allocator : Allocator := {| mem_alloc := kmalloc |}.
Proof.
  unfold kmalloc. intros m n p m' Ha _. destruct (Z.eqb_spec n 0); [simplify_eq; eauto|].
  apply alloc_block_spec in Ha. naive_solver.
Defined.

(** [MEM_ALLOC] of a user-space build. *)
#[refine] Instance malloc_allocator : Allocator := {| mem_alloc := malloc |}.
Proof. intros m n p m' Ha _. apply alloc_block_spec in Ha. naive_solver. Defined.
End AllocatorInstances.

(** Every request is served from a block that is not in use. *)
Definition alloc_succeeds (o : AllocOracle) : Prop :=
  forall t (h : heap) n, exists b, o t h n = Some b /\ h !! b = None.

(** The allocator that always succeeds, handing out the next unused block. *)
Definition bump_oracle : AllocOracle := fun _ h _ => Some (fresh (dom h)).

Lemma bump_oracle_succeeds : alloc_succeeds bump_oracle.
Proof.
  intros t h n. exists (fresh (dom h)). split; [done|].
  apply not_elem_of_dom. apply is_fresh.
Qed.

(** The allocator that always fails. *)
Definition exhausted_oracle : AllocOracle := fun _ _ _ => None.

(** ** Freeing *)

Lemma kfree_live m b : is_Some (m_heap m !! b) ->
  kfree m (PAddr b 0) = Ok (Mem (delete b (m_heap m)) (m_tick m)).
Proof. intros Hb. unfold kfree. by rewrite decide_True. Qed.

Lemma kfree_dead m b i : m_heap m !! b = None -> kfree m (PAddr b i) = Fault BadFree.
Proof. intros Hb. unfold kfree. rewrite decide_False; [done|]. rewrite Hb. by intros [_ []]. Qed.

Lemma kfree_inner m b i : i <> O -> kfree m (PAddr b i) = Fault BadFree.
Proof. intros Hi. unfold kfree. rewrite decide_False; [done|]. by intros [? _]. Qed.
