(* ===== verification/CString.v ===== *)
(** * Facts about the C string functions

    [cstr_blk blk s]: the bytes [blk] start with the string [s] and its
    terminator.  The lemmas say what each string function of [CMem] returns
    on such bytes, and that it does not fault. *)

From stdpp Require Import base numbers strings gmap list.
From S2P Require Import Prelude CMem.

#[local] Open Scope Z_scope.

Definition cstr_blk (blk : block) (s : list char) : Prop :=
  NUL ∉ s /\ exists rest, blk = (Some <$> s) ++ Some NUL :: rest.

(** [str_at h b s]: block [b] holds the string [s]. *)
Definition str_at (h : heap) (b : nat) (s : list char) : Prop :=
  exists blk, h !! b = Some blk /\ cstr_blk blk s.

Lemma cstr_blk_length blk s : cstr_blk blk s -> (length s < length blk)%nat.
Proof.
  intros (_ & rest & ->). rewrite length_app, length_fmap. simpl. lia.
Qed.

Lemma cstr_blk_drop blk s i : cstr_blk blk s -> (i <= length s)%nat ->
  cstr_blk (drop i blk) (drop i s).
Proof.
  intros (Hn & rest & ->) Hi. split.
  { intros Hin. apply Hn. rewrite <- (take_drop i s). apply elem_of_app. auto. }
  exists rest. rewrite drop_app_le by (rewrite length_fmap; lia).
  by rewrite fmap_drop.
Qed.

Lemma cstr_blk_until_nul (data : list char) rest :
  cstr_blk ((Some <$> data) ++ Some NUL :: rest) (until_nul data).
Proof.
  split; [apply until_nul_no_nul|].
  induction data as [|c data IH]; simpl; [by exists rest|].
  case_decide as Hc; subst; simpl; [eauto|].
  destruct IH as [r Hr]. exists r. simpl. f_equal. exact Hr.
Qed.

Lemma scan_str_spec blk s : cstr_blk blk s -> scan_str blk = Ok s.
Proof.
  intros (Hn & rest & ->). induction s as [|c s IH]; csimpl; [done|].
  rewrite decide_False by set_solver. rewrite IH by set_solver. done.
Qed.

Lemma scan_str_inv blk s : scan_str blk = Ok s -> cstr_blk blk s.
Proof.
  revert s. induction blk as [|[c|] blk IH]; intros s; simpl; try discriminate.
  case_decide as Hc; [intros ?; simplify_eq|].
  { split; [set_solver|]. by exists blk. }
  intros Hs. inv_bind Hs. simplify_eq. apply IH in Hs0 as (Hn & rest & ->).
  split; [set_solver|]. by exists rest.
Qed.

Lemma bytes_from_ok h b blk o : h !! b = Some blk -> (o <= length blk)%nat ->
  bytes_from h (PAddr b o) = Ok (drop o blk).
Proof. intros Hb Ho. simpl. rewrite Hb. simpl. by rewrite decide_True. Qed.

Lemma load_cstr_at h b s i : str_at h b s -> (i <= length s)%nat ->
  load_cstr h (PAddr b i) = Ok (drop i s).
Proof.
  intros (blk & Hb & Hs) Hi. pose proof (cstr_blk_length _ _ Hs). unfold load_cstr.
  erewrite bytes_from_ok by (eauto; lia). rewrite bind_ok.
  apply scan_str_spec. by apply cstr_blk_drop.
Qed.

Lemma load_cstr_0 h b s : str_at h b s -> load_cstr h (PAddr b 0) = Ok s.
Proof. intros Hs. by rewrite (load_cstr_at _ _ s) by (done || lia). Qed.

Lemma strlen_at h b s : str_at h b s -> strlen h (PAddr b 0) = Ok (zlen s).
Proof. intros Hs. unfold strlen. by rewrite (load_cstr_0 _ _ s). Qed.

Lemma scan_chr_spec c blk s i : cstr_blk blk s -> c <> NUL ->
  exists o, scan_chr c blk i = Ok o /\ (is_Some o <-> c ∈ s).
Proof.
  intros (Hn & rest & ->) Hc. revert i.
  induction s as [|d s IH]; intros i; csimpl.
  - rewrite decide_False by congruence. exists None. split; [done|].
    split; [intros []; done | set_solver].
  - case_decide as Hd; subst.
    + eexists; split; [done|]. split; [set_solver | eauto].
    + rewrite decide_False by set_solver.
      destruct (IH ltac:(set_solver) (i + 1)) as (o & Ho & Hiff).
      exists o. split; [done|]. set_solver.
Qed.

Lemma strchr_at h b s c : str_at h b s -> c <> NUL ->
  exists p, strchr h (PAddr b 0) c = Ok p /\ (is_null p = false <-> c ∈ s).
Proof.
  intros (blk & Hb & Hs) Hc. unfold strchr.
  erewrite bytes_from_ok by (eauto; lia). rewrite bind_ok, drop_0.
  destruct (scan_chr_spec c blk s 0 Hs Hc) as (o & -> & Hiff). rewrite bind_ok.
  eexists. split; [done|]. rewrite <- Hiff. destruct o; simpl.
  - split; eauto.
  - split; [discriminate | intros []; done].
Qed.

(** ** Writes *)

Lemma store_bytes_ok h b blk o s : h !! b = Some blk ->
  (o + length s <= length blk)%nat ->
  store_bytes h (PAddr b o) s = Ok (<[b := list_inserts o (Some <$> s) blk]> h).
Proof.
  intros Hb Hl. destruct s as [|c s]; cbn [store_bytes].
  - simpl. by rewrite insert_id.
  - rewrite Hb. simpl lift_opt. rewrite bind_ok. by rewrite decide_True.
Qed.

Lemma store_bytes_null h p s : p = PNull \/ p = PZeroSize -> s <> [] ->
  store_bytes h p s = Fault NullDeref.
Proof. by destruct s as [|c s], 1 as [-> | ->]. Qed.

Lemma memset_whole h b blk c n : h !! b = Some blk -> length blk = Z.to_nat n ->
  memset h (PAddr b 0) c n = Ok (<[b := replicate (Z.to_nat n) (Some c)]> h).
Proof.
  intros Hb Hl. unfold memset. erewrite store_bytes_ok; eauto.
  - do 2 f_equal. rewrite fmap_replicate.
    rewrite <- (app_nil_r blk), list_inserts_0_r, app_nil_r;
      [done | by rewrite length_replicate].
  - rewrite length_replicate. lia.
Qed.

(** Appending to the string of a block that has room for it. *)
Lemma strcat_at h b b' blk d s : h !! b = Some blk -> cstr_blk blk d ->
  str_at h b' s -> (length d + length s + 1 <= length blk)%nat ->
  exists blk', strcat h (PAddr b 0) (PAddr b' 0) = Ok (<[b := blk']> h) /\
    length blk' = length blk /\ cstr_blk blk' (d ++ s).
Proof.
  intros Hb Hd Hs Hroom. unfold strcat.
  rewrite (load_cstr_0 h b d) by (eexists; eauto). rewrite bind_ok.
  rewrite (load_cstr_0 h b' s) by done. rewrite bind_ok.
  simpl ptr_add. unfold zlen. rewrite Nat2Z.id.
  erewrite store_bytes_ok by (eauto; rewrite length_app; simpl; lia).
  eexists; split; [done|]. split; [by rewrite length_inserts|].
  destruct Hs as (blk' & _ & Hns & _). destruct Hd as (Hnd & rest & ->).
  split; [set_solver|].
  rewrite length_app, length_fmap in Hroom. simpl in Hroom.
  replace (length d) with (length (Some <$> d) + 0)%nat by (rewrite length_fmap; lia).
  rewrite list_inserts_app_r.
  rewrite <- (take_drop (length s + 1) (Some NUL :: rest)).
  rewrite list_inserts_0_r.
  - rewrite !fmap_app. eexists. rewrite <- !app_assoc. simpl. done.
  - rewrite length_fmap, length_app, length_take. simpl. lia.
Qed.

(** Copying the tail of a string into a zeroed buffer that is longer than it. *)
Lemma strncpy_zeroed h b b' s i k : str_at h b' s ->
  (i <= length s)%nat -> (length s - i <= k)%nat ->
  h !! b = Some (replicate k (Some NUL)) ->
  strncpy h (PAddr b 0) (PAddr b' i) (zlen s - Z.of_nat i)
  = Ok (<[b := (Some <$> drop i s) ++ replicate (k - (length s - i)) (Some NUL)]> h).
Proof.
  intros (blk & Hb & Hs) Hi Hk Hz. unfold strncpy.
  pose proof (cstr_blk_length _ _ Hs).
  erewrite (bytes_from_ok h b') by (eauto; lia). rewrite bind_ok.
  assert (Hscan : scan_strn (Z.to_nat (zlen s - Z.of_nat i)) (drop i blk) = Ok (drop i s)).
  { pose proof (cstr_blk_drop _ _ i Hs Hi) as (Hn & rest & ->).
    replace (Z.to_nat (zlen s - Z.of_nat i)) with (length (drop i s))
      by (unfold zlen; rewrite length_drop; lia).
    revert Hn. generalize (drop i s). clear.
    induction l as [|c l IH]; intros Hn; csimpl; [done|].
    rewrite decide_False by set_solver. rewrite IH by set_solver. done. }
  rewrite Hscan, bind_ok.
  replace (Z.to_nat (zlen s - Z.of_nat i) - length (drop i s))%nat with O
    by (unfold zlen; rewrite length_drop; lia).
  simpl replicate. rewrite app_nil_r.
  erewrite store_bytes_ok by (eauto; rewrite length_replicate, length_drop; lia).
  do 2 f_equal.
  replace k with ((length s - i) + (k - (length s - i)))%nat at 1 by lia.
  rewrite replicate_add, list_inserts_0_r; [done|].
  rewrite length_fmap, length_drop, length_replicate. lia.
Qed.

Lemma all_init_fmap (l : list char) : all_init (Some <$> l) = Ok l.
Proof. induction l; csimpl; [done|]. by rewrite IHl. Qed.

Lemma load_bytes_ok h b (l : list char) rest n : h !! b = Some ((Some <$> l) ++ rest) ->
  n = zlen l -> load_bytes h (PAddr b 0) n = Ok l.
Proof.
  intros Hb ->. unfold load_bytes, zlen at 1. zbool.
  - destruct l; [done|]. simpl in *. lia.
  - erewrite bytes_from_ok by (eauto; lia). rewrite bind_ok, drop_0.
    rewrite (proj2 (Z.leb_le _ _)).
    + unfold zlen. rewrite Nat2Z.id, take_app_length' by (by rewrite length_fmap).
      apply all_init_fmap.
    + unfold zlen. rewrite length_app, length_fmap. lia.
Qed.

(** ** Bytes at an offset *)

Lemma all_init_inv (k : block) (m : list char) : all_init k = Ok m -> k = Some <$> m.
Proof.
  revert m. induction k as [|[c|] k IH]; intros m Hm; cbn in Hm; [by injection Hm as <-| |done].
  inv_bind Hm. injection Hm as <-. cbn. f_equal. by apply IH.
Qed.

(** [l] are the bytes of the block from [o] on. *)
Definition bytes_at (blk : block) (o : nat) (l : list char) : Prop := take (length l) (drop o blk) = Some <$> l.

Lemma bytes_at_length blk o l : bytes_at blk o l -> (length l <= length blk - o)%nat.
Proof. intros Hl. apply (f_equal length) in Hl. rewrite length_take, length_drop, length_fmap in Hl. lia. Qed.

Lemma load_bytes_at h b blk o l : h !! b = Some blk -> (o <= length blk)%nat -> bytes_at blk o l ->
  load_bytes h (PAddr b o) (zlen l) = Ok l.
Proof.
  intros Hb Ho Hl. pose proof (bytes_at_length _ _ _ Hl). unfold load_bytes. zbool.
  - destruct l; [done|]. unfold zlen in *. cbn in *. lia.
  - rewrite (bytes_from_ok h b blk o Hb Ho), bind_ok, (proj2 (Z.leb_le _ _))
      by (unfold zlen; rewrite length_drop; lia).
    unfold zlen. rewrite Nat2Z.id, Hl. apply all_init_fmap.
Qed.

Lemma load_bytes_inv h b o n l : load_bytes h (PAddr b o) n = Ok l -> 0 < n ->
  exists blk, h !! b = Some blk /\ (o <= length blk)%nat /\ bytes_at blk o l /\ length l = Z.to_nat n.
Proof.
  unfold load_bytes. intros Hl Hn. rewrite (proj2 (Z.leb_gt _ _)) in Hl by lia. inv_bind Hl.
  unfold bytes_from in Hs. destruct (h !! b) as [blk|] eqn:Hb; [|done]. cbn in Hs.
  case_decide as Ho; [|done]. injection Hs as <-. destruct (n <=? zlen (drop o blk)) eqn:Hle; [|done].
  apply Z.leb_le in Hle. unfold zlen in Hle. rewrite length_drop in Hle. apply all_init_inv in Hl.
  assert (length l = Z.to_nat n) as Hlen.
  { rewrite <- (length_fmap Some l), <- Hl, length_take, length_drop. lia. }
  exists blk. split; [done|]. split; [done|]. split; [|done]. unfold bytes_at. by rewrite Hlen.
Qed.

(** What was stored is there; the rest is as before. *)
Lemma bytes_at_inserts blk o (l : list char) : (o + length l <= length blk)%nat ->
  bytes_at (list_inserts o (Some <$> l) blk) o l.
Proof.
  intros Hlen. unfold bytes_at. apply list_eq. intros i. destruct (decide (i < length l)%nat) as [Hi|Hi].
  - rewrite lookup_take_lt, lookup_drop, list_lookup_inserts by (rewrite ?length_fmap; lia). f_equal. lia.
  - rewrite lookup_take_ge by lia. symmetry. apply lookup_ge_None. rewrite length_fmap. lia.
Qed.

Lemma bytes_at_other blk o o' (l k : list char) : bytes_at blk o l ->
  (o + length l <= o' \/ o' + length k <= o)%nat -> (o' + length k <= length blk)%nat ->
  bytes_at (list_inserts o' (Some <$> k) blk) o l.
Proof.
  intros Hl Hoo Hlen. unfold bytes_at in *. rewrite <- Hl. apply list_eq. intros i.
  destruct (decide (i < length l)%nat) as [Hi|Hi]; [|by rewrite !lookup_take_ge by lia].
  rewrite !lookup_take_lt, !lookup_drop by lia. destruct Hoo.
  - apply list_lookup_inserts_lt. lia.
  - apply list_lookup_inserts_ge. rewrite length_fmap. lia.
Qed.

Lemma inserts_same blk o (l : list char) : (o <= length blk)%nat -> bytes_at blk o l -> list_inserts o (Some <$> l) blk = blk.
Proof.
  intros Ho Hl. pose proof (bytes_at_length _ _ _ Hl). apply list_eq. intros i.
  destruct (decide (o <= i < o + length l)%nat) as [Hi|Hi].
  - rewrite list_lookup_inserts by (rewrite ?length_fmap; lia). unfold bytes_at in Hl. rewrite <- Hl.
    rewrite lookup_take_lt, lookup_drop by lia. f_equal. lia.
  - destruct (decide (i < o)%nat); [apply list_lookup_inserts_lt; lia|].
    apply list_lookup_inserts_ge. rewrite length_fmap. lia.
Qed.

(** A second store of the same length replaces the first one. *)
Lemma inserts_again (blk : list (option char)) o (l k : list char) : length l = length k ->
  list_inserts o (Some <$> k) (list_inserts o (Some <$> l) blk) = list_inserts o (Some <$> k) blk.
Proof.
  intros Hlk. apply list_eq. intros i. destruct (decide (o <= i < o + length k)%nat) as [Hi|Hi].
  - destruct (decide (i < length blk)%nat).
    + rewrite !list_lookup_inserts by (rewrite ?length_inserts, ?length_fmap; lia). done.
    + rewrite !lookup_ge_None_2 by (rewrite ?length_inserts; lia). done.
  - destruct (decide (i < o)%nat); [by rewrite !list_lookup_inserts_lt by lia|].
    by rewrite !list_lookup_inserts_ge by (rewrite length_fmap; lia).
Qed.

(** Storing what is there changes nothing. *)
Lemma store_same h b o n l : load_bytes h (PAddr b o) n = Ok l -> store_bytes h (PAddr b o) l = Ok h.
Proof.
  intros Hl. destruct (Z.le_gt_cases n 0) as [Hn|Hn].
  { unfold load_bytes in Hl. rewrite (proj2 (Z.leb_le _ _)) in Hl by lia. by injection Hl as <-. }
  destruct (load_bytes_inv _ _ _ _ _ Hl Hn) as (blk & Hb & Ho & Hat & Hlen). pose proof (bytes_at_length _ _ _ Hat).
  rewrite (store_bytes_ok h b blk o l Hb), inserts_same by (done || lia). by rewrite insert_id.
Qed.

(** Reading back what was stored. *)
Lemma load_store h b o l h' : store_bytes h (PAddr b o) l = Ok h' -> load_bytes h' (PAddr b o) (zlen l) = Ok l.
Proof.
  intros Hs. destruct l as [|c l]; [done|]. cbn [store_bytes] in Hs.
  destruct (h !! b) as [blk|] eqn:Hb; [|done]. cbn [lift_opt] in Hs. rewrite bind_ok in Hs.
  case_decide as Hlen; [|done]. injection Hs as <-.
  apply (load_bytes_at _ b (list_inserts o (Some <$> c :: l) blk)); [apply lookup_insert_eq | rewrite length_inserts; cbn in *; lia | by apply bytes_at_inserts].
Qed.

(** ** Frame rules: strings of other blocks are not affected *)

Lemma str_at_insert_ne h b b' blk s : b <> b' -> str_at h b s ->
  str_at (<[b' := blk]> h) b s.
Proof. intros Hne (k & Hk & Hs). exists k. by rewrite lookup_insert_ne. Qed.

Lemma str_at_delete_ne h b b' s : b <> b' -> str_at h b s -> str_at (delete b' h) b s.
Proof. intros Hne (k & Hk & Hs). exists k. by rewrite lookup_delete_ne. Qed.

Lemma str_at_insert_eq h b blk s : cstr_blk blk s -> str_at (<[b := blk]> h) b s.
Proof. intros Hs. exists blk. by rewrite lookup_insert_eq. Qed.

Lemma str_at_live h b s : str_at h b s -> is_Some (h !! b).
Proof. intros (blk & -> & _). eauto. Qed.

(** The block that holds just the string [s]. *)
Definition cstring (s : list char) : block := (Some <$> s) ++ [Some NUL].

Lemma str_at_cstring h b s : h !! b = Some (cstring s) -> forallb (fun c => negb (bool_decide (c = NUL))) s = true ->
  str_at h b s.
Proof.
  intros Hb Hs. exists (cstring s). split; [done|]. split; [|by exists []].
  intros Hin%list_elem_of_In. rewrite forallb_forall in Hs. by specialize (Hs _ Hin).
Qed.

#[export] Hint Resolve str_at_insert_ne str_at_delete_ne str_at_insert_eq str_at_live : aesd.
