(* ===== verification/CircularBuffer.v ===== *)
(** * The circular buffer (aesd-char-driver/aesd-circular-buffer.{h,c})

    The state and the operations of the buffer as the sources define them.
    Array accesses are checked against the array's bounds, [uint8_t] and
    [size_t] arithmetic wraps.  The operations are proved in [RingFacts]. *)

From stdpp Require Import base numbers strings gmap list.
From S2P Require Import Prelude CMem.

#[local] Open Scope Z_scope.

Definition AESDCHAR_MAX_WRITE_OPERATIONS_SUPPORTED : Z := 10.
Definition BUFFER_SIZE : Z := 10.

Record aesd_buffer_entry : Type := BufEntry {
  buffptr : ptr;
  ent_size : Z               (* the field [size], a size_t *)
}.

Record aesd_circular_buffer : Type := CircBuf {
  entry : list aesd_buffer_entry;   (* the array entry[10] *)
  in_offs : Z;                      (* uint8_t *)
  out_offs : Z;                     (* uint8_t *)
  full : bool
}.

#[global] Instance aesd_buffer_entry_eq_dec : EqDecision aesd_buffer_entry.
Proof. solve_decision. Defined.

Definition null_entry : aesd_buffer_entry := BufEntry PNull 0.

Definition set_in_offs (b : aesd_circular_buffer) (v : Z) :=
  CircBuf (entry b) v (out_offs b) (full b).
Definition set_out_offs (b : aesd_circular_buffer) (v : Z) :=
  CircBuf (entry b) (in_offs b) v (full b).
Definition set_entries (b : aesd_circular_buffer) (l : list aesd_buffer_entry) :=
  CircBuf l (in_offs b) (out_offs b) (full b).

(** [buffer->entry[i]] as a value, and the assignments to its two fields. *)
Definition get_entry (b : aesd_circular_buffer) (i : Z) : res aesd_buffer_entry :=
  if i <? 0 then Fault OutOfBounds
  else lift_opt OutOfBounds (entry b !! Z.to_nat i).

Definition set_entry_buffptr (b : aesd_circular_buffer) (i : Z) (p : ptr)
  : res aesd_circular_buffer :=
  e ← get_entry b i;
  Ok (set_entries b (<[Z.to_nat i := BufEntry p (ent_size e)]> (entry b))).

Definition set_entry_size (b : aesd_circular_buffer) (i : Z) (n : Z)
  : res aesd_circular_buffer :=
  e ← get_entry b i;
  Ok (set_entries b (<[Z.to_nat i := BufEntry (buffptr e) n]> (entry b))).

(** [x = x + 1; if(x >= 10) x = 0;] on a [uint8_t]. *)
Definition advance (x : Z) : Z :=
  let x' := u8 (x + 1) in if BUFFER_SIZE <=? x' then 0 else x'.

(** ** aesd_circular_buffer_find_entry_offset_for_fpos

    The [while(1)] loop.  [total_end] is total_end_entry; the result is the
    index of the entry returned and the value stored through
    entry_offset_byte_rtn, or [None] for NULL. *)
Fixpoint find_loop (fuel : nat) (b : aesd_circular_buffer)
    (char_offset restore_out_offs loop_count total_end : Z)
  : res (option (Z * Z) * aesd_circular_buffer) :=
  match fuel with
  | O => Fault OutOfFuel
  | S fuel' =>
      let loop_count := loop_count + 1 in
      e ← get_entry b (out_offs b);
      let total_beginning := total_end in
      let total_end := u64 (ent_size e + total_beginning) in
      if total_end <=? char_offset then
        let b := set_out_offs b (advance (out_offs b)) in
        if BUFFER_SIZE <=? loop_count
        then Ok (None, set_out_offs b restore_out_offs)
        else find_loop fuel' b char_offset restore_out_offs loop_count total_end
      else if total_beginning <=? char_offset then
        Ok (Some (out_offs b, u64 (char_offset - total_beginning)),
            set_out_offs b restore_out_offs)
      else find_loop fuel' b char_offset restore_out_offs loop_count total_end
  end.

(** The loop leaves through one of its returns in at most BUFFER_SIZE rounds
    unless the sizes sum up past the end of size_t. *)
Definition find_fuel : nat := Z.to_nat BUFFER_SIZE.

Definition aesd_circular_buffer_find_entry_offset_for_fpos
    (b : aesd_circular_buffer) (char_offset : Z)
  : res (option (Z * Z) * aesd_circular_buffer) :=
  find_loop find_fuel b char_offset (out_offs b) 0 0.

(** ** aesd_print_circular_buffer

    What the ten "%s" directives and the two "%d" directives print; a NULL
    string prints as "(null)". *)
Definition print_entry (h : heap) (e : aesd_buffer_entry) : res (list char) :=
  if is_null (buffptr e) then Ok (lit "(null)") else load_cstr h (buffptr e).

Fixpoint print_entries (h : heap) (b : aesd_circular_buffer) (idxs : list Z)
  : res (list (list char)) :=
  match idxs with
  | [] => Ok []
  | i :: idxs' =>
      e ← get_entry b i;
      s ← print_entry h e;
      rest ← print_entries h b idxs';
      Ok (s :: rest)
  end.

Definition aesd_print_circular_buffer (h : heap) (b : aesd_circular_buffer)
  : res (list (list char) * Z * Z) :=
  ss ← print_entries h b [0; 1; 2; 3; 4; 5; 6; 7; 8; 9];
  Ok (ss, in_offs b, out_offs b).

(** ** aesd_circular_buffer_add_entry

    Built with the allocator behind MEM_ALLOC.  The result is the pointer
    returned, the memory and the buffer. *)
Definition aesd_circular_buffer_add_entry `{Allocator} (m : mem)
    (b : aesd_circular_buffer) (add_entry : aesd_buffer_entry)
  : res (ptr * mem * aesd_circular_buffer) :=
  n ← strlen (m_heap m) (buffptr add_entry);
  let '(return_buffer, m) := mem_alloc m n in
  if is_null return_buffer then Ok (PNull, m, b)
  else
    e ← get_entry b (in_offs b);
    let '(return_buffer, b) :=
      if negb (is_null (buffptr e))
      then (buffptr e, set_out_offs b (advance (out_offs b)))
      else (PNull, b) in
    b ← set_entry_buffptr b (in_offs b) (buffptr add_entry);
    n ← strlen (m_heap m) (buffptr add_entry);
    b ← set_entry_size b (in_offs b) n;
    let b := set_in_offs b (advance (in_offs b)) in
    _ ← aesd_print_circular_buffer (m_heap m) b;
    Ok (return_buffer, m, b).

(** ** get_aesd_buffer_length: a long long summed with size_t operands *)
Fixpoint length_loop (b : aesd_circular_buffer) (idxs : list Z) (size : Z) : res Z :=
  match idxs with
  | [] => Ok size
  | i :: idxs' =>
      e ← get_entry b i;
      length_loop b idxs' (s64 (u64 (ent_size e + u64 size)))
  end.

Definition get_aesd_buffer_length (b : aesd_circular_buffer) : res Z :=
  length_loop b [0; 1; 2; 3; 4; 5; 6; 7; 8; 9] 0.

(** ** aesd_circular_buffer_init: memset of the whole struct to 0 *)
Definition aesd_circular_buffer_init : aesd_circular_buffer :=
  CircBuf (replicate 10 null_entry) 0 0 false.

(** ** AESD_CIRCULAR_BUFFER_FOREACH

    The entries the macro's loop body runs on, from [index] on. *)
Fixpoint foreach_loop (fuel : nat) (b : aesd_circular_buffer) (index : Z)
  : res (list aesd_buffer_entry) :=
  match fuel with
  | O => Fault OutOfFuel
  | S fuel' =>
      if index <? AESDCHAR_MAX_WRITE_OPERATIONS_SUPPORTED then
        e ← get_entry b index;
        rest ← foreach_loop fuel' b (u8 (index + 1));
        Ok (e :: rest)
      else Ok []
  end.

Definition AESD_CIRCULAR_BUFFER_FOREACH (b : aesd_circular_buffer)
  : res (list aesd_buffer_entry) := foreach_loop 11 b 0.
