(* ===== verification/RingSpec.v ===== *)
(** * What the circular buffer promises

    The abstract buffer is the list of the strings it keeps, oldest first.
    Adding keeps the ten newest; a file position is an index into their
    concatenation, and [locate] finds the string a position falls in. *)

From stdpp Require Import base numbers strings gmap list.
From S2P Require Import Prelude.

#[local] Open Scope Z_scope.

Fixpoint zsum (l : list Z) : Z :=
  match l with [] => 0 | x :: r => x + zsum r end.

(** The abstract buffer and its operations. *)
Abbreviation ring_model := (list (list char)).

Definition model_add (r : ring_model) (s : list char) : ring_model := lastn 10 (r ++ [s]).

(** Reference search: walk over the sizes, subtracting as we go. *)
Fixpoint locate (sizes : list Z) (off : Z) : option (nat * Z) :=
  match sizes with
  | [] => None
  | n :: r =>
      if off <? n then Some (O, off)
      else match locate r (off - n) with
           | Some (i, o) => Some (S i, o)
           | None => None
           end
  end.

(** The device's contents seen as one file. *)
Definition contents (r : ring_model) : list char := concat r.

(** What one read at [pos] yields: the rest of the string [pos] falls in. *)
Definition model_read (r : ring_model) (pos : Z) : list char :=
  match locate (zlen <$> r) pos with
  | Some (i, o) => match r !! i with Some s => drop (Z.to_nat o) s | None => [] end
  | None => []
  end.

Lemma zsum_app l k : zsum (l ++ k) = zsum l + zsum k.
Proof. induction l; simpl; lia. Qed.

Lemma zsum_nonneg l : Forall (fun n => 0 <= n) l -> 0 <= zsum l.
Proof. induction 1; simpl; lia. Qed.

Lemma zsum_replicate_0 n : zsum (replicate n 0) = 0.
Proof. induction n; simpl; lia. Qed.

Lemma zsum_lengths (r : ring_model) : zsum (zlen <$> r) = zlen (contents r).
Proof.
  induction r as [|s r IH]; csimpl; [done|]. unfold contents in *. simpl.
  rewrite zlen_app. lia.
Qed.

Lemma lengths_nonneg (r : ring_model) : Forall (fun n => 0 <= n) (zlen <$> r).
Proof. induction r; csimpl; constructor; auto with aesd. Qed.

(** Empty slots after the strings are never found. *)
Lemma locate_zeros l k off : Forall (fun n => 0 <= n) l -> 0 <= off ->
  locate (l ++ replicate k 0) off = locate l off.
Proof.
  intros Hl. revert off. induction Hl as [|n l Hn Hl IH]; intros off Hoff; simpl.
  - revert off Hoff. induction k as [|k IHk]; intros off Hoff; simpl; [done|].
    zbool; [lia|]. rewrite IHk by lia. done.
  - zbool; [done|]. rewrite IH by lia. done.
Qed.

(** A position is found exactly when it lies before the end. *)
Lemma locate_None l off : Forall (fun n => 0 <= n) l -> 0 <= off ->
  locate l off = None <-> zsum l <= off.
Proof.
  intros Hl. revert off. induction Hl as [|n l Hn Hl IH]; intros off Hoff; simpl.
  - split; [lia | done].
  - pose proof (zsum_nonneg _ Hl). zbool.
    + split; [discriminate | lia].
    + specialize (IH (off - n) ltac:(lia)).
      destruct (locate l (off - n)) as [[i o]|].
      * split; [discriminate|]. intros. destruct IH as [_ IH]. discriminate IH. lia.
      * split; [|done]. intros _. destruct IH as [IH _]. specialize (IH eq_refl). lia.
Qed.

Lemma locate_Some l off i o : 0 <= off -> locate l off = Some (i, o) ->
  exists n, l !! i = Some n /\ 0 <= o < n /\ off = zsum (take i l) + o.
Proof.
  revert off i. induction l as [|n l IH]; intros off i Hoff; simpl; [discriminate|].
  zbool.
  - intros ?. simplify_eq/=. eexists. split; [done|]. lia.
  - destruct (locate l (off - n)) as [[j o']|] eqn:Hl; [|discriminate].
    intros ?. simplify_eq/=. apply IH in Hl as (n' & Hn' & Ho & Heq); [|lia].
    exists n'. split; [done|]. lia.
Qed.

Lemma drop_concat (r : ring_model) i s o : r !! i = Some s -> (o <= length s)%nat ->
  drop (length (concat (take i r)) + o) (concat r) = drop o s ++ concat (drop (S i) r).
Proof.
  intros Hi Ho. rewrite <- (take_drop_middle r i s Hi) at 2. rewrite concat_app. simpl.
  rewrite drop_app_add, drop_app_le by lia. done.
Qed.

(** One string is no longer than all of them. *)
Lemma contents_ge (r : ring_model) i s : r !! i = Some s -> zlen s <= zlen (contents r).
Proof.
  intros Hi. unfold contents. rewrite <- (take_drop_middle r i s Hi), concat_app. simpl.
  rewrite !zlen_app. pose proof (zlen_nonneg (concat (take i r))).
  pose proof (zlen_nonneg (concat (drop (S i) r))). lia.
Qed.

(** The string a position falls in continues the contents at that position. *)
Lemma model_read_prefix (r : ring_model) pos : 0 <= pos ->
  model_read r pos `prefix_of` drop (Z.to_nat pos) (contents r).
Proof.
  intros Hpos. unfold model_read.
  destruct (locate (zlen <$> r) pos) as [[i o]|] eqn:Hl; [|apply prefix_nil].
  apply locate_Some in Hl as (n & Hn & Ho & ->); [|done].
  rewrite list_lookup_fmap in Hn. destruct (r !! i) as [s|] eqn:Hi; [|done].
  simplify_eq/=. unfold contents.
  rewrite <- fmap_take, zsum_lengths. unfold contents, zlen in *.
  rewrite Z2Nat.inj_add, Nat2Z.id by lia.
  rewrite (drop_concat r i s) by (done || lia). by eexists.
Qed.

(** Before the end of the contents a read makes progress. *)
Lemma model_read_progress (r : ring_model) pos : 0 <= pos < zlen (contents r) ->
  0 < zlen (model_read r pos).
Proof.
  intros Hpos. unfold model_read.
  destruct (locate (zlen <$> r) pos) as [[i o]|] eqn:Hl.
  - apply locate_Some in Hl as (n & Hn & Ho & ->); [|lia].
    rewrite list_lookup_fmap in Hn. destruct (r !! i) as [s|] eqn:Hi; [|done].
    simplify_eq/=. unfold zlen in *. rewrite length_drop. lia.
  - apply locate_None in Hl; [|apply lengths_nonneg|lia]. rewrite zsum_lengths in Hl. lia.
Qed.

Lemma model_read_past (r : ring_model) pos : zlen (contents r) <= pos ->
  model_read r pos = [].
Proof.
  intros Hpos. unfold model_read. pose proof (zlen_nonneg (contents r)).
  rewrite (proj2 (locate_None (zlen <$> r) pos (lengths_nonneg r) ltac:(lia))); [done|].
  by rewrite zsum_lengths.
Qed.

(** A read stays inside the contents. *)
Lemma model_read_bound (r : ring_model) pos : 0 <= pos ->
  pos <= zlen (contents r) -> pos + zlen (model_read r pos) <= zlen (contents r).
Proof.
  intros Hp Hle. destruct (model_read_prefix r pos Hp) as [k Hk].
  apply (f_equal (fun l => zlen l)) in Hk. rewrite zlen_app in Hk.
  pose proof (zlen_nonneg k). unfold zlen in *. rewrite length_drop in Hk. lia.
Qed.

#[export] Hint Resolve lengths_nonneg : aesd.

(** ** Reading one string after the other *)

Lemma contents_take_le (r : ring_model) i j : (i <= j)%nat ->
  zlen (contents (take i r)) <= zlen (contents (take j r)).
Proof.
  intros Hij. unfold contents. rewrite <- (take_drop i (take j r)), concat_app, zlen_app.
  rewrite take_take, Nat.min_l by done. pose proof (zlen_nonneg (concat (drop i (take j r)))). lia.
Qed.

(** A read from a position at or after the [j]-th string ends at or after
    the end of that string. *)
Lemma model_read_next (r : ring_model) pos j : 0 <= pos < zlen (contents r) ->
  zlen (contents (take j r)) <= pos ->
  zlen (contents (take (S j) r)) <= pos + zlen (model_read r pos).
Proof.
  intros Hpos Hj. unfold model_read. destruct (locate (zlen <$> r) pos) as [[i o]|] eqn:Hl.
  - apply locate_Some in Hl as (n & Hn & Ho & ->); [|lia].
    rewrite list_lookup_fmap in Hn. destruct (r !! i) as [s|] eqn:Hi; [|done].
    injection Hn as <-. rewrite <- fmap_take, zsum_lengths in *.
    assert (Hs : zlen (contents (take (S i) r)) = zlen (contents (take i r)) + zlen s).
    { unfold contents. rewrite (take_S_r _ _ _ Hi), concat_app, zlen_app. simpl.
      by rewrite app_nil_r. }
    assert (zlen (drop (Z.to_nat o) s) = zlen s - o)
      by (unfold zlen in *; rewrite length_drop; lia).
    destruct (decide (j <= i)%nat); [pose proof (contents_take_le r (S j) (S i)); lia|].
    pose proof (contents_take_le r (S i) j ltac:(lia)). lia.
  - apply locate_None in Hl; [|apply lengths_nonneg|lia]. rewrite zsum_lengths in Hl. lia.
Qed.

(** One read is no longer than the string it reads from. *)
(** Byte [off] of the [n]-th string. *)
Lemma locate_take (r : ring_model) s off : forall n, r !! n = Some s -> 0 <= off < zlen s ->
  locate (zlen <$> r) (zlen (contents (take n r)) + off) = Some (n, off).
Proof.
  induction r as [|x r IH]; intros [|n] Hs Ho; try done.
  - injection Hs as ->. change (zlen (contents (take 0 (s :: r)))) with 0. rewrite Z.add_0_l. cbn [fmap list_fmap locate].
    by rewrite (proj2 (Z.ltb_lt _ _)) by lia.
  - change (contents (take (S n) (x :: r))) with (x ++ contents (take n r)). rewrite zlen_app. cbn [fmap list_fmap locate].
    pose proof (zlen_nonneg (contents (take n r))). rewrite (proj2 (Z.ltb_ge _ _)) by lia.
    replace (_ - _) with (zlen (contents (take n r)) + off) by lia. by rewrite (IH n Hs Ho).
Qed.

Lemma model_read_short (r : ring_model) pos n : (0 < n)%nat ->
  Forall (fun s => (length s < n)%nat) r -> (length (model_read r pos) < n)%nat.
Proof.
  intros Hn Hr. unfold model_read. destruct (locate _ _) as [[i o]|]; [|done].
  destruct (r !! i) as [s|] eqn:Hi; [|done]. rewrite length_drop.
  pose proof (Forall_lookup_1 _ _ _ _ Hr Hi). simpl in *. lia.
Qed.
