(* ===== verification/RingFacts.v ===== *)
(** * The circular buffer implements its abstract buffer

    [ring b L] is the representation invariant: [L] are the occupied
    entries, oldest first, starting at out_offs and wrapping around the
    array; [in_offs] is the slot after the newest one; the buffer is empty
    in the other slots. *)

From stdpp Require Import base numbers strings gmap list.
From S2P Require Import Prelude CMem CString CircularBuffer RingSpec.

#[local] Open Scope Z_scope.

Record ring (b : aesd_circular_buffer) (L : list aesd_buffer_entry) : Prop := {
  ring_len : length (entry b) = 10%nat;
  ring_out : 0 <= out_offs b < 10;
  ring_rot : rotate (Z.to_nat (out_offs b)) (entry b)
             = L ++ replicate (10 - length L) null_entry;
  ring_in : in_offs b = (out_offs b + zlen L) mod 10;
  ring_cap : (length L <= 10)%nat;
  ring_start : (length L < 10)%nat -> out_offs b = 0;
  ring_nonnull : Forall (fun e => is_null (buffptr e) = false) L
}.

(** [entry_holds h e s]: the entry refers to a block that holds the string
    [s], and its size is the string's length. *)
Definition entry_holds (h : heap) (e : aesd_buffer_entry) (s : list char) : Prop :=
  exists b, buffptr e = PAddr b 0 /\ str_at h b s /\ ent_size e = zlen s.

(** ** Array slots *)

Lemma advance_mod x : 0 <= x < 10 -> advance x = (x + 1) mod 10.
Proof.
  intros Hx. unfold advance, BUFFER_SIZE. rewrite u8_small by lia.
  zbool; [replace (x + 1) with 10 by lia; done | by rewrite Z.mod_small by lia].
Qed.

Lemma get_entry_ok b i e : 0 <= i -> entry b !! Z.to_nat i = Some e -> get_entry b i = Ok e.
Proof. intros Hi He. unfold get_entry. zbool; [lia|]. by rewrite He. Qed.

Lemma get_entry_oob b i : zlen (entry b) <= i -> get_entry b i = Fault OutOfBounds.
Proof.
  intros Hi. unfold get_entry. zbool; [done|].
  by rewrite lookup_ge_None_2 by (unfold zlen in *; lia).
Qed.

(** The [k]-th slot counted from out_offs. *)
Lemma ring_slot b L k e : ring b L -> (k < 10)%nat ->
  (L ++ replicate (10 - length L) null_entry) !! k = Some e ->
  get_entry b ((out_offs b + Z.of_nat k) mod 10) = Ok e.
Proof.
  intros HR Hk He. rewrite <- (ring_rot _ _ HR) in He.
  rewrite lookup_rotate_r in He by (rewrite (ring_len _ _ HR); lia).
  apply get_entry_ok; [apply Z.mod_pos_bound; lia|].
  rewrite <- He. unfold rotate_nat_add. f_equal.
  rewrite (ring_len _ _ HR). pose proof (ring_out _ _ HR).
  by rewrite Z2Nat.id by lia.
Qed.

Lemma ring_slot_in b L : ring b L ->
  get_entry b (in_offs b) = Ok (if decide (length L < 10)%nat then null_entry
                                else default null_entry (head L)).
Proof.
  intros HR. rewrite (ring_in _ _ HR). pose proof (ring_cap _ _ HR).
  case_decide.
  - apply (ring_slot b L (length L)); [done..|].
    rewrite lookup_app_r by lia. apply lookup_replicate. split; [done|lia].
  - replace ((out_offs b + zlen L) mod 10) with ((out_offs b + Z.of_nat 0) mod 10).
    + destruct L as [|e L]; [simpl in *; lia|]. apply (ring_slot b (e :: L) 0); [done | lia | done].
    + unfold zlen. replace (length L) with 10%nat by lia.
      change (Z.of_nat 10) with (1 * 10). rewrite Z_mod_plus_full. f_equal. lia.
Qed.

(** ** The empty buffer *)

Lemma ring_init : ring aesd_circular_buffer_init [].
Proof. split; simpl; try done; lia. Qed.

(** ** Searching *)

Definition ring_sizes (L : list aesd_buffer_entry) : list Z := ent_size <$> L.

(** One more round of the loop: [k] slots passed, [T] bytes counted. *)
(** The sizes of all ten slots: none is negative, and they sum up to those
    of the occupied ones. *)
Lemma slot_sizes b L : ring b L -> Forall (fun n => 0 <= n) (ring_sizes L) ->
  let sizes := ring_sizes (L ++ replicate (10 - length L) null_entry) in
  length sizes = 10%nat /\ Forall (fun n => 0 <= n) sizes /\ zsum sizes = zsum (ring_sizes L).
Proof.
  intros HR Hnn sizes. unfold sizes, ring_sizes. split.
  - rewrite length_fmap, length_app, length_replicate. pose proof (ring_cap _ _ HR). lia.
  - rewrite fmap_app, fmap_replicate, zsum_app. simpl. rewrite zsum_replicate_0. split; [|lia].
    apply Forall_app. split; [done|]. apply Forall_replicate. lia.
Qed.

Lemma find_loop_rounds b0 b L off fuel k T :
  ring b0 L -> entry b = entry b0 -> in_offs b = in_offs b0 -> full b = full b0 ->
  Forall (fun n => 0 <= n) (ring_sizes L) -> zsum (ring_sizes L) < 2 ^ 64 ->
  0 <= off < 2 ^ 64 -> (k < 10)%nat -> (10 - k <= fuel)%nat ->
  out_offs b = (out_offs b0 + Z.of_nat k) mod 10 ->
  let sizes := ring_sizes (L ++ replicate (10 - length L) null_entry) in
  T = zsum (take k sizes) -> T <= off ->
  find_loop fuel b off (out_offs b0) (Z.of_nat k) T
  = Ok (match locate (drop k sizes) (off - T) with
        | Some (i, o) => Some ((out_offs b0 + Z.of_nat (k + i)) mod 10, o)
        | None => None
        end, b0).
Proof.
  intros HR He Hin Hfull Hnn Hsum Hoff. revert b k T He Hin Hfull.
  induction fuel as [|fuel IH]; intros b k T He Hin Hfull Hk Hfuel Ho sizes HT HTo; [lia|].
  destruct (slot_sizes _ _ HR Hnn) as (Hlen & Hall & Htot). fold sizes in Hlen, Hall, Htot.
  rewrite <- Htot in Hsum. clear Htot. pose proof Hsum as Htot.
  destruct (lookup_lt_is_Some_2 sizes k) as [n Hn]; [lia|].
  rewrite <- (take_drop_middle sizes k n Hn), zsum_app in Htot. simpl in Htot.
  pose proof Hn as Hn'. unfold sizes, ring_sizes in Hn'. rewrite list_lookup_fmap in Hn'.
  destruct (_ !! k) as [e|] eqn:Hek in Hn'; [|done]. simplify_eq/=.
  assert (0 <= ent_size e) by (eapply (Forall_lookup_1 _ _ _ _ Hall Hn)).
  assert (0 <= zsum (drop (S k) sizes)) by (apply zsum_nonneg, Forall_drop, Hall).
  assert (0 <= zsum (take k sizes)) by (apply zsum_nonneg, Forall_take, Hall).
  assert (Hge : get_entry b (out_offs b) = Ok e).
  { rewrite Ho. pose proof (ring_slot b0 L k e HR Hk Hek) as Hs.
    unfold get_entry in *. by rewrite He. }
  rewrite Hge, bind_ok. rewrite u64_small by lia.
  rewrite (drop_S sizes (ent_size e) k Hn). simpl locate.
  pose proof (ring_out _ _ HR).
  assert (Hb0 : forall v, set_out_offs (set_out_offs b v) (out_offs b0) = b0)
    by (intros; destruct b, b0; unfold set_out_offs; simpl in *; congruence).
  assert (Hb0' : set_out_offs b (out_offs b0) = b0)
    by (destruct b, b0; unfold set_out_offs; simpl in *; congruence).
  destruct (Z.leb_spec (ent_size e + zsum (take k sizes)) off).
  - rewrite (proj2 (Z.ltb_ge _ _)) by lia. rewrite Hb0.
    unfold BUFFER_SIZE. destruct (Z.leb_spec 10 (Z.of_nat k + 1)).
    + rewrite (drop_ge sizes (S k)) by lia. done.
    + replace (Z.of_nat k + 1) with (Z.of_nat (S k)) by lia.
      rewrite (IH _ (S k)); try done; try lia.
      * fold sizes.
        replace (off - (ent_size e + zsum (take k sizes)))
          with (off - zsum (take k sizes) - ent_size e) by lia.
        destruct (locate _ _) as [[i o]|]; [|done].
        by replace (S k + i)%nat with (k + S i)%nat by lia.
      * simpl. rewrite Ho, advance_mod by (apply Z.mod_pos_bound; lia).
        rewrite Zplus_mod_idemp_l. f_equal. lia.
      * fold sizes. rewrite (take_S_r _ _ (ent_size e)), zsum_app by done. simpl. lia.
  - rewrite (proj2 (Z.ltb_lt _ _)) by lia. rewrite (proj2 (Z.leb_le _ _)) by lia.
    rewrite Hb0', u64_small, Ho by lia. rewrite Nat.add_0_r. done.
Qed.

(** The search, for every amount of fuel that covers the ten slots. *)
Lemma find_loop_spec b L off fuel : ring b L -> (10 <= fuel)%nat ->
  Forall (fun n => 0 <= n) (ring_sizes L) -> zsum (ring_sizes L) < 2 ^ 64 ->
  0 <= off < 2 ^ 64 ->
  find_loop fuel b off (out_offs b) 0 0
  = Ok (match locate (ring_sizes L) off with
        | Some (i, o) => Some ((out_offs b + Z.of_nat i) mod 10, o)
        | None => None
        end, b).
Proof.
  intros HR Hf Hnn Hsum Hoff. change 0 with (Z.of_nat 0) at 1.
  rewrite (find_loop_rounds b b L off fuel 0 0); try done; try lia.
  - rewrite drop_0, Z.sub_0_r. unfold ring_sizes at 1.
    rewrite fmap_app, fmap_replicate. simpl ent_size.
    rewrite locate_zeros by (done || lia). done.
  - rewrite Z.add_0_r, Z.mod_small by apply (ring_out _ _ HR). done.
Qed.

(** ** Adding *)

(** The pointer an addition evicts: the oldest entry's when all slots are
    taken, NULL otherwise. *)
Definition evicted (L : list aesd_buffer_entry) : ptr :=
  if decide (length L < 10)%nat then PNull else buffptr (default null_entry (head L)).

(** The buffer after an addition. *)
Definition ring_put (b : aesd_circular_buffer) (L : list aesd_buffer_entry)
    (new : aesd_buffer_entry) : aesd_circular_buffer :=
  CircBuf (<[Z.to_nat (in_offs b) := new]> (entry b)) (advance (in_offs b))
    (if decide (length L < 10)%nat then out_offs b else advance (out_offs b)) (full b).

Lemma rotate_0 {A} (l : list A) : rotate 0 l = l.
Proof. unfold rotate. rewrite Nat.Div0.mod_0_l, drop_0, take_0. apply app_nil_r. Qed.

Lemma rotate_put {A} (l : list A) (o : nat) (x : A) : length l = 10%nat -> (o < 10)%nat ->
  rotate ((o + 1) mod 10) (<[o := x]> l) = tail (rotate o l) ++ [x].
Proof.
  intros Hl Ho. do 10 (destruct l as [|? l]; [discriminate|]). destruct l; [|discriminate].
  do 10 (destruct o as [|o]; [reflexivity|]). lia.
Qed.

Lemma ring_put_partial b L new : ring b L -> (length L < 10)%nat ->
  is_null (buffptr new) = false -> ring (ring_put b L new) (L ++ [new]).
Proof.
  intros HR Hlt Hn. pose proof (ring_start _ _ HR Hlt) as Ho.
  pose proof (ring_rot _ _ HR) as Hrot. pose proof (ring_in _ _ HR) as Hin.
  pose proof (ring_len _ _ HR).
  rewrite Ho in Hrot, Hin. rewrite rotate_0 in Hrot.
  rewrite Z.add_0_l, Z.mod_small in Hin by (unfold zlen; lia).
  split; unfold ring_put; simpl; rewrite ?decide_True by done; rewrite ?Ho.
  - by rewrite length_insert.
  - lia.
  - rewrite rotate_0, Hrot, Hin. unfold zlen. rewrite Nat2Z.id, length_app. simpl.
    rewrite insert_app_r_alt, Nat.sub_diag by lia.
    replace (10 - length L)%nat with (S (10 - (length L + 1))) by lia.
    simpl. by rewrite <- app_assoc.
  - rewrite advance_mod, Hin, zlen_app by (rewrite Hin; unfold zlen; lia). f_equal.
  - rewrite length_app. simpl. lia.
  - done.
  - apply Forall_app. split; [apply (ring_nonnull _ _ HR) | by repeat constructor].
Qed.

Lemma ring_put_full b L new : ring b L -> length L = 10%nat ->
  is_null (buffptr new) = false -> ring (ring_put b L new) (tail L ++ [new]).
Proof.
  intros HR Hlen Hn. pose proof (ring_out _ _ HR) as Ho.
  pose proof (ring_rot _ _ HR) as Hrot. pose proof (ring_in _ _ HR) as Hin.
  pose proof (ring_len _ _ HR) as Hel. pose proof (ring_nonnull _ _ HR) as Hnn.
  unfold zlen in Hin. rewrite Hlen in Hrot, Hin. simpl replicate in Hrot.
  rewrite app_nil_r in Hrot. change (Z.of_nat 10) with (1 * 10) in Hin.
  rewrite Z_mod_plus_full, Z.mod_small in Hin by lia.
  assert (Hl' : length (tail L ++ [new]) = 10%nat).
  { destruct L; [done|]. rewrite length_app. simpl in *. lia. }
  split; unfold ring_put; simpl; rewrite ?decide_False by lia;
    rewrite ?Hin, ?advance_mod, ?Hl' by lia.
  - by rewrite length_insert.
  - apply Z.mod_pos_bound. lia.
  - rewrite Nat.sub_diag, app_nil_r, <- Hrot, <- (rotate_put _ _ new) by lia.
    f_equal. rewrite Z2Nat.inj_mod, Z2Nat.inj_add by lia. done.
  - unfold zlen. rewrite Hl'. change (Z.of_nat 10) with (1 * 10).
    by rewrite Z_mod_plus_full, Zmod_mod.
  - lia.
  - lia.
  - apply Forall_app. split; [|by repeat constructor]. destruct L; [done|].
    simpl. by inversion Hnn.
Qed.

Lemma ring_put_ring b L new : ring b L -> is_null (buffptr new) = false ->
  ring (ring_put b L new) (lastn 10 (L ++ [new])).
Proof.
  intros HR Hn. pose proof (ring_cap _ _ HR). unfold lastn. rewrite length_app. simpl.
  destruct (decide (length L < 10)%nat).
  - replace (length L + 1 - 10)%nat with O by lia. by apply ring_put_partial.
  - replace (length L + 1 - 10)%nat with 1%nat by lia.
    destruct L as [|e L]; [simpl in *; lia|]. simpl.
    apply (ring_put_full b (e :: L)); simpl in *; done || lia.
Qed.

(** ** Printing *)

Lemma print_entries_ok h b idxs :
  Forall (fun i => exists e s, get_entry b i = Ok e /\ print_entry h e = Ok s) idxs ->
  exists r, print_entries h b idxs = Ok r.
Proof.
  induction 1 as [|i idxs (e & s & He & Hs) _ [r IH]]; simpl; [eauto|].
  rewrite He, bind_ok, Hs, bind_ok, IH, bind_ok. eauto.
Qed.

Lemma print_ok h b : length (entry b) = 10%nat ->
  Forall (fun e => exists s, print_entry h e = Ok s) (entry b) ->
  exists r, aesd_print_circular_buffer h b = Ok r.
Proof.
  intros Hl Hall. unfold aesd_print_circular_buffer.
  destruct (print_entries_ok h b [0; 1; 2; 3; 4; 5; 6; 7; 8; 9]) as [r ->].
  - assert (Hidx : Forall (fun i => 0 <= i < 10) [0; 1; 2; 3; 4; 5; 6; 7; 8; 9])
      by (repeat constructor; lia).
    eapply Forall_impl; [exact Hidx|]. intros i Hi. cbv beta in Hi.
    destruct (lookup_lt_is_Some_2 (entry b) (Z.to_nat i)) as [e He]; [lia|].
    destruct (Forall_lookup_1 _ _ _ _ Hall He) as [s Hs].
    exists e, s. split; [apply get_entry_ok; [lia | done] | done].
  - rewrite bind_ok. eauto.
Qed.

Lemma entry_holds_prints h e s : entry_holds h e s -> print_entry h e = Ok s.
Proof.
  intros (b & Hp & Hs & _). unfold print_entry. rewrite Hp. simpl.
  by apply load_cstr_0.
Qed.

Lemma ring_prints h b L S : ring b L -> Forall2 (entry_holds h) L S ->
  exists r, aesd_print_circular_buffer h b = Ok r.
Proof.
  intros HR HS. apply print_ok; [apply (ring_len _ _ HR)|].
  apply Forall_forall. intros e He.
  rewrite <- (elem_of_rotate _ (Z.to_nat (out_offs b))), (ring_rot _ _ HR) in He.
  apply elem_of_app in He as [He|He].
  - apply list_elem_of_lookup in He as [i Hi].
    destruct (Forall2_lookup_l _ _ _ _ _ HS Hi) as (s & _ & Hs).
    exists s. by apply entry_holds_prints.
  - apply elem_of_replicate in He as [-> _]. by eexists.
Qed.

(** ** aesd_circular_buffer_add_entry *)

Section AddEntry.
Context `{Allocator}.

(** An allocation leaves the strings in memory alone. *)
Lemma mem_alloc_frame m n p m' b s : mem_alloc m n = (p, m') -> 0 <= n ->
  str_at (m_heap m) b s -> str_at (m_heap m') b s.
Proof.
  intros Ha Hn Hs. destruct (mem_alloc_spec m n p m' Ha Hn) as [[-> _]|(b' & _ & Hb' & ->)];
    [done|].
  apply str_at_insert_ne; [|done]. intros ->. apply str_at_live in Hs as [? ?]. congruence.
Qed.

Lemma set_entry_compute b p n e : get_entry b (in_offs b) = Ok e -> 0 <= in_offs b ->
  (b' ← set_entry_buffptr b (in_offs b) p; set_entry_size b' (in_offs b') n)
  = Ok (set_entries b (<[Z.to_nat (in_offs b) := BufEntry p n]> (entry b))).
Proof.
  intros He Hin. unfold set_entry_buffptr. rewrite He, !bind_ok.
  unfold set_entry_size. rewrite (get_entry_ok _ _ (BufEntry p (ent_size e))); [|done|].
  - rewrite bind_ok. simpl. by rewrite list_insert_insert_eq.
  - simpl. apply list_lookup_insert_eq. unfold get_entry in He.
    destruct (in_offs b <? 0); [done|]. destruct (entry b !! _) eqn:Hi; [|done].
    by eapply lookup_lt_Some.
Qed.

Lemma Forall2_lastn {A B} (R : A -> B -> Prop) n l k :
  Forall2 R l k -> Forall2 R (lastn n l) (lastn n k).
Proof.
  intros HR. unfold lastn. rewrite (Forall2_length _ _ _ HR). by apply Forall2_drop.
Qed.

Lemma entry_holds_frame m n p m' L S : mem_alloc m n = (p, m') -> 0 <= n ->
  Forall2 (entry_holds (m_heap m)) L S -> Forall2 (entry_holds (m_heap m')) L S.
Proof.
  intros Ha Hn HS. eapply Forall2_impl; [exact HS|]. intros e s (b & Hp & Hs & Hz).
  exists b. eauto using mem_alloc_frame.
Qed.

(** A successful addition. *)
Lemma add_entry_ok m b L S nb s sz q m' :
  ring b L -> Forall2 (entry_holds (m_heap m)) L S -> str_at (m_heap m) nb s ->
  mem_alloc m (zlen s) = (q, m') -> is_null q = false ->
  let new := BufEntry (PAddr nb 0) (zlen s) in
  aesd_circular_buffer_add_entry m b (BufEntry (PAddr nb 0) sz)
    = Ok (evicted L, m', ring_put b L new) /\
  ring (ring_put b L new) (lastn 10 (L ++ [new])) /\
  Forall2 (entry_holds (m_heap m')) (lastn 10 (L ++ [new])) (model_add S s).
Proof.
  intros HR HS Hs Ha Hq new. assert (Hs' : str_at (m_heap m') nb s)
    by eauto using mem_alloc_frame, zlen_nonneg.
  assert (HR' : ring (ring_put b L new) (lastn 10 (L ++ [new]))) by (by apply ring_put_ring).
  assert (HS' : Forall2 (entry_holds (m_heap m')) (lastn 10 (L ++ [new])) (model_add S s)).
  { apply Forall2_lastn, Forall2_app; [eauto using entry_holds_frame, zlen_nonneg|].
    repeat constructor. by exists nb. }
  split; [|done]. unfold aesd_circular_buffer_add_entry. simpl buffptr.
  rewrite (strlen_at _ _ s), bind_ok, Ha, Hq by done.
  pose proof (ring_slot_in _ _ HR) as Hslot. rewrite Hslot, bind_ok.
  rewrite (strlen_at _ _ s) by done.
  destruct (ring_prints _ _ _ _ HR' HS') as [r Hr].
  assert (Hin : 0 <= in_offs b) by (rewrite (ring_in _ _ HR); apply Z.mod_pos_bound; lia).
  unfold evicted. pose proof (ring_cap _ _ HR). unfold ring_put in *.
  destruct (decide (length L < 10)%nat).
  - simpl is_null. simpl negb. pose proof (set_entry_compute b (PAddr nb 0) (zlen s) _ Hslot Hin) as Hset.
    inv_bind Hset. rewrite Hs0, bind_ok, bind_ok, Hset, bind_ok.
    unfold set_in_offs, set_entries. cbn [entry in_offs out_offs full]. fold new.
    by rewrite Hr, bind_ok.
  - destruct L as [|e L]; [simpl in *; lia|].
    pose proof (ring_nonnull _ _ HR) as Hnn. inversion_clear Hnn as [|? ? He _].
    simpl default in *. rewrite He. simpl negb.
    set (b1 := set_out_offs b (advance (out_offs b))).
    pose proof (set_entry_compute b1 (PAddr nb 0) (zlen s) e Hslot Hin) as Hset.
    inv_bind Hset. rewrite Hs0, bind_ok, bind_ok, Hset, bind_ok.
    unfold b1, set_in_offs, set_out_offs, set_entries.
    cbn [entry in_offs out_offs full]. fold new.
    by rewrite Hr, bind_ok.
Qed.

(** When no memory is left the buffer stays as it is. *)
Lemma add_entry_nomem m b nb s sz m' :
  str_at (m_heap m) nb s -> mem_alloc m (zlen s) = (PNull, m') ->
  aesd_circular_buffer_add_entry m b (BufEntry (PAddr nb 0) sz) = Ok (PNull, m', b).
Proof.
  intros Hs Ha. unfold aesd_circular_buffer_add_entry. simpl buffptr.
  by rewrite (strlen_at _ _ s), bind_ok, Ha by done.
Qed.
End AddEntry.

(** ** get_aesd_buffer_length and AESD_CIRCULAR_BUFFER_FOREACH *)

Lemma zsum_fmap_rotate {A} (f : A -> Z) n (l : list A) :
  zsum (f <$> rotate n l) = zsum (f <$> l).
Proof.
  unfold rotate. rewrite <- (take_drop (n mod length l) l) at 5.
  rewrite !fmap_app, !zsum_app. lia.
Qed.

Lemma ring_total b L : ring b L -> zsum (ring_sizes (entry b)) = zsum (ring_sizes L).
Proof.
  intros HR. unfold ring_sizes.
  rewrite <- (zsum_fmap_rotate _ (Z.to_nat (out_offs b))), (ring_rot _ _ HR).
  rewrite fmap_app, fmap_replicate, zsum_app, zsum_replicate_0. lia.
Qed.

Lemma length_loop_spec b (n k : nat) acc : (n + k = length (entry b))%nat ->
  Forall (fun s => 0 <= s) (ring_sizes (entry b)) ->
  zsum (ring_sizes (entry b)) < 2 ^ 63 ->
  acc = zsum (ring_sizes (take n (entry b))) ->
  length_loop b (Z.of_nat <$> seq n k) acc = Ok (zsum (ring_sizes (entry b))).
Proof.
  intros Hnk Hnn Htot. revert n acc Hnk.
  induction k as [|k IH]; intros n acc Hnk ->; csimpl.
  - by rewrite take_ge by lia.
  - destruct (lookup_lt_is_Some_2 (entry b) n) as [e He]; [lia|].
    rewrite (get_entry_ok b (Z.of_nat n) e) by (rewrite ?Nat2Z.id; done || lia).
    rewrite bind_ok.
    assert (Hn' : zsum (ring_sizes (take (S n) (entry b)))
                  = zsum (ring_sizes (take n (entry b))) + ent_size e).
    { unfold ring_sizes. rewrite (take_S_r _ _ e), fmap_app, zsum_app by done. simpl. lia. }
    assert (Hpart : forall j, 0 <= zsum (ring_sizes (take j (entry b)))
                         <= zsum (ring_sizes (entry b))).
    { intros j. unfold ring_sizes in *. rewrite <- (take_drop j (entry b)) in Hnn |- * at 3.
      rewrite fmap_app, zsum_app. rewrite fmap_app in Hnn. apply Forall_app in Hnn as [? ?].
      pose proof (zsum_nonneg (ent_size <$> take j (entry b))).
      pose proof (zsum_nonneg (ent_size <$> drop j (entry b))). naive_solver lia. }
    apply IH; [lia|]. pose proof (Hpart n). pose proof (Hpart (S n)).
    rewrite (u64_small (zsum _)), s64_u64, s64_small by lia. lia.
Qed.

Lemma buffer_length_ring b L : ring b L ->
  Forall (fun n => 0 <= n) (ring_sizes L) -> zsum (ring_sizes L) < 2 ^ 63 ->
  get_aesd_buffer_length b = Ok (zsum (ring_sizes L)).
Proof.
  intros HR Hnn Htot. rewrite <- (ring_total _ _ HR).
  pose proof (ring_len _ _ HR) as Hlen.
  apply (length_loop_spec b 0 10); [by rewrite Hlen| |by rewrite (ring_total _ L) |done].
  apply Forall_forall. intros n Hn.
  apply list_elem_of_fmap in Hn as (e & -> & He).
  rewrite <- (elem_of_rotate _ (Z.to_nat (out_offs b))), (ring_rot _ _ HR) in He.
  apply elem_of_app in He as [He|He].
  - assert (Hin : ent_size e ∈ ring_sizes L) by (by apply list_elem_of_fmap_2).
    by apply (proj1 (Forall_forall _ _) Hnn).
  - apply elem_of_replicate in He as [-> _]. done.
Qed.

Lemma foreach_loop_spec b n k fuel : length (entry b) = 10%nat -> (n + k = 10)%nat ->
  (k < fuel)%nat -> foreach_loop fuel b (Z.of_nat n) = Ok (drop n (entry b)).
Proof.
  intros Hlen. revert n fuel.
  induction k as [|k IH]; intros n [|fuel] Hnk Hf; try lia; cbn [foreach_loop].
  - replace n with 10%nat by lia. by rewrite drop_ge by lia.
  - unfold AESDCHAR_MAX_WRITE_OPERATIONS_SUPPORTED. rewrite (proj2 (Z.ltb_lt _ _)) by lia.
    destruct (lookup_lt_is_Some_2 (entry b) n) as [e He]; [lia|].
    rewrite (get_entry_ok b (Z.of_nat n) e) by (rewrite ?Nat2Z.id; done || lia).
    rewrite bind_ok, u8_small by lia.
    replace (Z.of_nat n + 1) with (Z.of_nat (S n)) by lia.
    rewrite IH, bind_ok by lia. by rewrite (drop_S _ e n) by done.
Qed.

(** ** Sizes of entries that hold strings *)

Lemma holds_sizes h L S : Forall2 (entry_holds h) L S -> ring_sizes L = zlen <$> S.
Proof.
  induction 1 as [|e s L S (b & _ & _ & Hz) _ IH]; [done|].
  unfold ring_sizes in *. csimpl. by rewrite Hz, IH.
Qed.

Lemma holds_total h L S : Forall2 (entry_holds h) L S ->
  zsum (ring_sizes L) = zlen (contents S).
Proof. intros HS. by rewrite (holds_sizes _ _ _ HS), zsum_lengths. Qed.

Lemma holds_nonneg h L S : Forall2 (entry_holds h) L S ->
  Forall (fun n => 0 <= n) (ring_sizes L).
Proof. intros HS. rewrite (holds_sizes _ _ _ HS). apply lengths_nonneg. Qed.

(** What the search finds in a buffer that holds the commands [S]. *)
Lemma find_locates b L h S off :
  ring b L -> Forall2 (entry_holds h) L S -> zlen (contents S) < 2 ^ 64 ->
  0 <= off < 2 ^ 64 ->
  match locate (zlen <$> S) off with
  | None => zlen (contents S) <= off /\
      aesd_circular_buffer_find_entry_offset_for_fpos b off = Ok (None, b)
  | Some (i, o) => exists e s, S !! i = Some s /\ L !! i = Some e /\
      entry_holds h e s /\ 0 <= o < zlen s /\
      off = zlen (contents (take i S)) + o /\
      let idx := (out_offs b + Z.of_nat i) mod 10 in
      get_entry b idx = Ok e /\
      aesd_circular_buffer_find_entry_offset_for_fpos b off = Ok (Some (idx, o), b)
  end.
Proof.
  intros HR HS Ht Ho.
  assert (Hf : (10 <= find_fuel)%nat) by (unfold find_fuel, BUFFER_SIZE; lia).
  pose proof (find_loop_spec b L off find_fuel HR Hf) as Hfind.
  rewrite (holds_total _ _ _ HS) in Hfind.
  specialize (Hfind (holds_nonneg _ _ _ HS) Ht Ho). rewrite (holds_sizes _ _ _ HS) in Hfind.
  destruct (locate (zlen <$> S) off) as [[i o]|] eqn:Hl.
  - apply locate_Some in Hl as (n & Hn & Hon & Hoff); [|lia].
    rewrite list_lookup_fmap in Hn. destruct (S !! i) as [s|] eqn:Hi; [|done]. injection Hn as <-.
    destruct (Forall2_lookup_r _ _ _ _ _ HS Hi) as (e & He & Hh).
    exists e, s. rewrite <- zsum_lengths, fmap_take.
    split; [reflexivity|]. split; [exact He|]. split; [exact Hh|]. split; [exact Hon|].
    split; [exact Hoff|]. split; [|exact Hfind].
    pose proof (lookup_lt_Some _ _ _ He). pose proof (ring_cap _ _ HR).
    apply (ring_slot b L i e HR); [lia|]. by rewrite lookup_app_l.
  - apply locate_None in Hl; [|auto with aesd|lia]. by rewrite zsum_lengths in Hl.
Qed.

Lemma find_holds b L h S off :
  ring b L -> Forall2 (entry_holds h) L S -> zlen (contents S) < 2 ^ 64 ->
  0 <= off < 2 ^ 64 ->
  exists r, aesd_circular_buffer_find_entry_offset_for_fpos b off = Ok (r, b) /\
    match r with
    | None => zlen (contents S) <= off
    | Some (idx, o) => exists e s,
        get_entry b idx = Ok e /\ entry_holds h e s /\ 0 <= o < zlen s /\
        contents S !! Z.to_nat off = s !! Z.to_nat o
    end.
Proof.
  intros HR HS Ht Ho. pose proof (find_locates b L h S off HR HS Ht Ho) as Hf.
  destruct (locate (zlen <$> S) off) as [[i o]|].
  - destruct Hf as (e & s & Hi & _ & Hh & Hos & Hoff & He & Hf). eexists. split; [exact Hf|].
    exists e, s. do 3 (split; [done|]). unfold contents, zlen in *.
    rewrite Hoff, Z2Nat.inj_add, Nat2Z.id by lia.
    rewrite <- (take_drop_middle S i s Hi) at 2. rewrite concat_app. simpl.
    rewrite lookup_app_r, lookup_app_l by lia. f_equal. lia.
  - destruct Hf as [Hle Hf]. eexists. split; [exact Hf | done].
Qed.

#[export] Hint Resolve ring_init holds_nonneg : aesd.
