(* ===== verification/BufferProps.v ===== *)
(** * Properties of the circular buffer

    Theorems about the operations of aesd-circular-buffer.c, each with a
    witness at a concrete buffer: one that holds two commands. *)

From stdpp Require Import base numbers strings gmap list.
From S2P Require Import Prelude CMem CString CircularBuffer RingSpec RingFacts.

#[local] Open Scope Z_scope.

(** ** A concrete buffer *)

Definition demo_strings : ring_model := [lit "write1"; lit "write22"].

Definition demo_heap : heap :=
  {[ 0%nat := cstring (lit "write1"); 1%nat := cstring (lit "write22");
     2%nat := cstring (lit "write333") ]}.

Definition demo_entries : list aesd_buffer_entry :=
  [BufEntry (PAddr 0 0) 6; BufEntry (PAddr 1 0) 7].

Definition demo_buffer : aesd_circular_buffer :=
  CircBuf (demo_entries ++ replicate 8 null_entry) 2 0 false.

Lemma demo_ring : ring demo_buffer demo_entries.
Proof. split; simpl; try done; try lia. by repeat constructor. Qed.

Lemma demo_str b s : demo_heap !! b = Some (cstring s) ->
  forallb (fun c => negb (bool_decide (c = NUL))) s = true -> str_at demo_heap b s.
Proof. apply str_at_cstring. Qed.

Lemma demo_holds : Forall2 (entry_holds demo_heap) demo_entries demo_strings.
Proof.
  repeat constructor; [exists 0%nat | exists 1%nat];
    (split; [done|]; split; [by apply demo_str|done]).
Qed.

(** ** Properties *)

(** C16: adding a command to a buffer that holds the commands [S], oldest
    first, never faults and leaves a well-formed buffer that holds the ten
    newest of [S] and the new command; the pointer returned is the evicted
    oldest command's when the buffer was full, NULL otherwise. *)
Theorem add_entry_refines `{Allocator} m b L S nb s sz q m' :
  ring b L -> Forall2 (entry_holds (m_heap m)) L S -> str_at (m_heap m) nb s ->
  mem_alloc m (zlen s) = (q, m') -> is_null q = false ->
  exists b' L',
    aesd_circular_buffer_add_entry m b (BufEntry (PAddr nb 0) sz) = Ok (evicted L, m', b')
    /\ ring b' L' /\ Forall2 (entry_holds (m_heap m')) L' (model_add S s).
Proof. intros. edestruct @add_entry_ok as (? & ? & ?); eauto 10. Qed.

Lemma add_entry_refines_witness :
  exists b' L' m',
    @aesd_circular_buffer_add_entry (@kmalloc_allocator bump_oracle)
      (Mem demo_heap 0) demo_buffer (BufEntry (PAddr 2 0) 9) = Ok (PNull, m', b')
    /\ ring b' L'
    /\ Forall2 (entry_holds (m_heap m')) L'
         [lit "write1"; lit "write22"; lit "write333"].
Proof.
  edestruct (@add_entry_refines (@kmalloc_allocator bump_oracle) (Mem demo_heap 0)
    demo_buffer demo_entries demo_strings 2 (lit "write333") 9) as (b' & L' & H1 & H2 & H3).
  - apply demo_ring.
  - apply demo_holds.
  - by apply demo_str.
  - vm_compute. reflexivity.
  - reflexivity.
  - eexists b', L', _. split; [exact H1|]. split; [exact H2 | exact H3].
Defined.

(** C18: the search agrees with the reference search over the sizes of the
    occupied entries, leaves the buffer as it found it, and its loop needs
    at most ten rounds: any larger amount of fuel gives the same result. *)
Theorem find_entry_equiv b L char_offset fuel :
  ring b L -> Forall (fun n => 0 <= n) (ring_sizes L) ->
  zsum (ring_sizes L) < 2 ^ 64 -> 0 <= char_offset < 2 ^ 64 -> (10 <= fuel)%nat ->
  let result :=
    (match locate (ring_sizes L) char_offset with
     | Some (i, o) => Some ((out_offs b + Z.of_nat i) mod 10, o)
     | None => None
     end, b) in
  aesd_circular_buffer_find_entry_offset_for_fpos b char_offset = Ok result /\
  find_loop fuel b char_offset (out_offs b) 0 0 = Ok result.
Proof.
  intros HR Hnn Hs Ho Hf. split; apply find_loop_spec; auto.
Qed.

Lemma find_entry_equiv_witness :
  aesd_circular_buffer_find_entry_offset_for_fpos demo_buffer 8 = Ok (Some (1, 2), demo_buffer)
  /\ find_loop 12 demo_buffer 8 0 0 0 = Ok (Some (1, 2), demo_buffer).
Proof.
  apply (find_entry_equiv demo_buffer demo_entries 8 12); [apply demo_ring | repeat constructor; done | done | done | lia].
Defined.

(** C17: for a buffer that holds the commands [S] the search returns NULL
    exactly when [char_offset] lies past their concatenation; otherwise the
    entry it returns holds a command [s] and the byte offset it stores is
    the place of that position inside [s]. *)
Theorem find_entry_correct b L h S char_offset :
  ring b L -> Forall2 (entry_holds h) L S -> zlen (contents S) < 2 ^ 64 ->
  0 <= char_offset < 2 ^ 64 ->
  exists r, aesd_circular_buffer_find_entry_offset_for_fpos b char_offset = Ok (r, b) /\
    match r with
    | None => zlen (contents S) <= char_offset
    | Some (idx, o) => exists e s,
        get_entry b idx = Ok e /\ entry_holds h e s /\ 0 <= o < zlen s /\
        contents S !! Z.to_nat char_offset = s !! Z.to_nat o
    end.
Proof. apply find_holds. Qed.

Lemma find_entry_correct_witness :
  exists r, aesd_circular_buffer_find_entry_offset_for_fpos demo_buffer 12 = Ok (r, demo_buffer) /\
    match r with
    | None => zlen (contents demo_strings) <= 12
    | Some (idx, o) => exists e s,
        get_entry demo_buffer idx = Ok e /\ entry_holds demo_heap e s /\ 0 <= o < zlen s /\
        contents demo_strings !! Z.to_nat 12 = s !! Z.to_nat o
    end.
Proof.
  apply (find_entry_correct demo_buffer demo_entries demo_heap demo_strings 12);
    [apply demo_ring | apply demo_holds | done | done].
Defined.

(** Get_aesd_buffer_length returns the total length of the commands the
    buffer holds. *)
Theorem buffer_length_correct b L h S :
  ring b L -> Forall2 (entry_holds h) L S -> zlen (contents S) < 2 ^ 63 ->
  get_aesd_buffer_length b = Ok (zlen (contents S)).
Proof.
  intros HR HS Ht. rewrite <- (holds_total _ _ _ HS) in *.
  apply buffer_length_ring; eauto with aesd.
Qed.

Lemma buffer_length_correct_witness :
  get_aesd_buffer_length demo_buffer = Ok 13.
Proof.
  apply (buffer_length_correct demo_buffer demo_entries demo_heap demo_strings);
    [apply demo_ring | apply demo_holds | done].
Defined.

(** AESD_CIRCULAR_BUFFER_FOREACH ends and runs its body once on each of
    the ten slots, in array order. *)
Theorem foreach_visits_all b : length (entry b) = 10%nat ->
  AESD_CIRCULAR_BUFFER_FOREACH b = Ok (entry b).
Proof. intros Hl. apply (foreach_loop_spec b 0 10); [done | lia | lia]. Qed.

Lemma foreach_visits_all_witness :
  AESD_CIRCULAR_BUFFER_FOREACH demo_buffer = Ok (entry demo_buffer).
Proof. apply foreach_visits_all. reflexivity. Defined.

(** Every command that is added leaves one block behind: the copy that
    aesd_circular_buffer_add_entry allocates is neither in the buffer nor
    returned, and nothing frees it. *)
Theorem add_entry_leaks `{Allocator} m b L S nb s sz q m' :
  ring b L -> Forall2 (entry_holds (m_heap m)) L S -> str_at (m_heap m) nb s ->
  mem_alloc m (zlen s) = (q, m') -> is_null q = false -> q <> PZeroSize ->
  exists lost b' L', m_heap m !! lost = None /\
    aesd_circular_buffer_add_entry m b (BufEntry (PAddr nb 0) sz) = Ok (evicted L, m', b') /\
    m_heap m' = <[lost := replicate (length s) None]> (m_heap m) /\
    ring b' L' /\ PAddr lost 0 ∉ evicted L :: (buffptr <$> L').
Proof.
  intros HR HS Hs Ha Hq Hz.
  destruct (mem_alloc_spec _ _ _ _ Ha (zlen_nonneg _)) as [ [_ [ -> | -> ] ] | (lost & -> & Hl & Hm)];
    [done|done|].
  edestruct @add_entry_ok as (Hadd & Hring & _); [exact HR|exact HS|exact Hs|exact Ha|done|].
  exists lost. do 2 eexists. split; [done|]. split; [exact Hadd|].
  split; [rewrite Hm; unfold zlen; by rewrite Nat2Z.id|]. split; [exact Hring|].
  assert (Hlive : forall e, e ∈ L -> buffptr e <> PAddr lost 0).
  { intros e He Heq. apply list_elem_of_lookup in He as [i Hi].
    destruct (Forall2_lookup_l _ _ _ _ _ HS Hi) as (str & _ & bb & Hb & Hstr & _).
    destruct (str_at_live _ _ _ Hstr). rewrite Heq in Hb. injection Hb as <-. congruence. }
  assert (Hnb : nb <> lost) by (intros ->; destruct (str_at_live _ _ _ Hs); congruence).
  apply not_elem_of_cons. split.
  - unfold evicted. case_decide; [done|]. destruct L as [|e L]; [done|]. simpl.
    intros Heq. apply (Hlive e); [set_solver|done].
  - intros Hin. apply list_elem_of_fmap in Hin as (e & He & Hin).
    assert (Hin' : e ∈ L ++ [BufEntry (PAddr nb 0) (zlen s)]) by (eapply elem_of_lastn; exact Hin).
    apply elem_of_app in Hin' as [Hin'|Hin']; [by eapply Hlive|].
    apply list_elem_of_singleton in Hin' as ->. simpl in He. congruence.
Qed.

Lemma add_entry_leaks_witness :
  exists lost b' L' m', demo_heap !! lost = None /\
    @aesd_circular_buffer_add_entry (@kmalloc_allocator bump_oracle)
      (Mem demo_heap 0) demo_buffer (BufEntry (PAddr 2 0) 9) = Ok (PNull, m', b') /\
    m_heap m' = <[lost := replicate 8 None]> demo_heap /\
    ring b' L' /\ PAddr lost 0 ∉ PNull :: (buffptr <$> L').
Proof.
  edestruct (@add_entry_leaks (@kmalloc_allocator bump_oracle) (Mem demo_heap 0)
    demo_buffer demo_entries demo_strings 2 (lit "write333") 9)
    as (lost & b' & L' & H1 & H2 & H3 & H4 & H5).
  - apply demo_ring.
  - apply demo_holds.
  - by apply demo_str.
  - vm_compute. reflexivity.
  - reflexivity.
  - discriminate.
  - eexists lost, b', L', _. split; [exact H1|]. split; [exact H2|]. split; [exact H3|].
    split; [exact H4 | exact H5].
Defined.
