(* ===== verification/Ioctl.v ===== *)
(** * Error numbers and ioctl command numbers

    The constants the driver returns (asm-generic/errno-base.h), the command
    encoding of asm-generic/ioctl.h and the driver's own command
    (aesd_ioctl.h). *)

From stdpp Require Import base numbers.
From S2P Require Import Prelude.

#[local] Open Scope Z_scope.

Definition EINTR : Z := 4.
Definition EAGAIN : Z := 11.
Definition ENOMEM : Z := 12.
Definition EFAULT : Z := 14.
Definition EINVAL : Z := 22.
Definition ENOTTY : Z := 25.

(** Kernel-internal: the call is restarted or fails with EINTR. *)
Definition ERESTARTSYS : Z := 512.

Definition IOC_NRBITS : Z := 8.
Definition IOC_TYPEBITS : Z := 8.
Definition IOC_SIZEBITS : Z := 14.
Definition IOC_DIRBITS : Z := 2.

Definition IOC_NRMASK : Z := Z.shiftl 1 IOC_NRBITS - 1.
Definition IOC_TYPEMASK : Z := Z.shiftl 1 IOC_TYPEBITS - 1.
Definition IOC_SIZEMASK : Z := Z.shiftl 1 IOC_SIZEBITS - 1.
Definition IOC_DIRMASK : Z := Z.shiftl 1 IOC_DIRBITS - 1.

Definition IOC_NRSHIFT : Z := 0.
Definition IOC_TYPESHIFT : Z := IOC_NRSHIFT + IOC_NRBITS.
Definition IOC_SIZESHIFT : Z := IOC_TYPESHIFT + IOC_TYPEBITS.
Definition IOC_DIRSHIFT : Z := IOC_SIZESHIFT + IOC_SIZEBITS.

Definition IOC_NONE : Z := 0.
Definition IOC_WRITE : Z := 1.
Definition IOC_READ : Z := 2.

(** A 32-bit command number. *)
Definition IOC (dir type nr size : Z) : Z :=
  u32 (Z.lor (Z.lor (Z.lor (Z.shiftl dir IOC_DIRSHIFT) (Z.shiftl type IOC_TYPESHIFT))
                    (Z.shiftl nr IOC_NRSHIFT))
             (Z.shiftl size IOC_SIZESHIFT)).

Definition IO (type nr : Z) : Z := IOC IOC_NONE type nr 0.
Definition IOR (type nr size : Z) : Z := IOC IOC_READ type nr size.
Definition IOW (type nr size : Z) : Z := IOC IOC_WRITE type nr size.
Definition IOWR (type nr size : Z) : Z := IOC (Z.lor IOC_READ IOC_WRITE) type nr size.

Definition IOC_DIR (nr : Z) : Z := Z.land (Z.shiftr nr IOC_DIRSHIFT) IOC_DIRMASK.
Definition IOC_TYPE (nr : Z) : Z := Z.land (Z.shiftr nr IOC_TYPESHIFT) IOC_TYPEMASK.
Definition IOC_NR (nr : Z) : Z := Z.land (Z.shiftr nr IOC_NRSHIFT) IOC_NRMASK.
Definition IOC_SIZE (nr : Z) : Z := Z.land (Z.shiftr nr IOC_SIZESHIFT) IOC_SIZEMASK.

(** aesd_ioctl.h *)
Record aesd_seekto : Set := Seekto {
  seek_write_cmd : Z;           (* uint32_t *)
  seek_write_cmd_offset : Z     (* uint32_t *)
}.

Definition sizeof_aesd_seekto : Z := 8.
Definition AESD_IOC_MAGIC : Z := 0x16.
Definition AESDCHAR_IOCSEEKTO : Z := IOWR AESD_IOC_MAGIC 1 sizeof_aesd_seekto.
Definition AESDCHAR_IOC_MAXNR : Z := 1.

(** ** Encoding and decoding *)

(** The fields do not overlap, so the encoding is a positional number. *)
Lemma IOC_sum dir type nr size :
  0 <= dir < 2 ^ 2 -> 0 <= type < 2 ^ 8 -> 0 <= nr < 2 ^ 8 -> 0 <= size < 2 ^ 14 ->
  IOC dir type nr size = dir * 2 ^ 30 + size * 2 ^ 16 + type * 2 ^ 8 + nr.
Proof.
  intros Hd Ht Hn Hs. unfold IOC.
  change IOC_DIRSHIFT with 30. change IOC_TYPESHIFT with 8.
  change IOC_NRSHIFT with 0. change IOC_SIZESHIFT with 16.
  rewrite Z.shiftl_0_r, !Z.shiftl_mul_pow2 by lia.
  replace (Z.lor (Z.lor (Z.lor (dir * 2 ^ 30) (type * 2 ^ 8)) nr) (size * 2 ^ 16))
    with (Z.lor (dir * 2 ^ 30) (Z.lor (size * 2 ^ 16) (Z.lor (type * 2 ^ 8) nr))).
  - rewrite (lor_disjoint type nr 8), (lor_disjoint size _ 16), (lor_disjoint dir _ 30) by lia.
    rewrite u32_small by lia. lia.
  - rewrite <- !Z.lor_assoc. f_equal. rewrite (Z.lor_comm (size * 2 ^ 16)).
    by rewrite !Z.lor_assoc.
Qed.

Lemma land_mask x k : 0 <= k -> Z.land x (Z.shiftl 1 k - 1) = x mod 2 ^ k.
Proof.
  intros Hk. rewrite Z.shiftl_mul_pow2, Z.mul_1_l by done.
  rewrite <- Z.land_ones by done. f_equal. rewrite Z.ones_equiv. lia.
Qed.
