(* ===== verification/CharDriver.v ===== *)
(** * The character driver (aesd-char-driver/main.c, aesdchar.h)

    The device structure, the file operations and the module's entry and
    exit points.  Each operation is the whole handler: lock, early returns,
    the [goto] paths, the debug prints that read strings, and every call
    that changes the device, the memory or the file position. *)

From stdpp Require Import base numbers strings gmap list.
From S2P Require Import Prelude CMem CircularBuffer Ioctl.

#[local] Open Scope Z_scope.

(** ** State *)

(** [dev->read_entry]: NULL, a block of its own, or [&dev->buffer->entry[i]]. *)
Inductive entry_ptr : Set :=
| ENull
| EOwn (p : ptr)
| ESlot (i : Z).

(** struct aesd_dev.  [buffer_at] and [buffer_entry_at] are the two pointers
    to structures, [buffer] and [buffer_entry] the structures they point to. *)
Record aesd_dev : Type := AesdDev {
  buffer_at : ptr;
  buffer : aesd_circular_buffer;
  buffer_entry_at : ptr;
  buffer_entry : aesd_buffer_entry;
  read_entry : entry_ptr;
  end_of_packet : Z;
  first_packet : Z;
  lock : bool                    (* held by the running call *)
}.

Record kstate : Type := KState { k_mem : mem; k_dev : aesd_dev }.

(** struct file: the device [aesd_open] found, and the position. *)
Record file : Set := File { private_data : bool; f_pos : Z }.

(** What the kernel answers during one call: whether
    mutex_lock_interruptible() is interrupted, and how many bytes
    copy_to_user()/copy_from_user() could not copy. *)
Record kcall : Set := KCall { lock_interrupted : bool; user_left : Z }.

Definition quiet_call : kcall := KCall false 0.

(** Field assignments. *)
Definition set_buffer (d : aesd_dev) (b : aesd_circular_buffer) : aesd_dev :=
  AesdDev (buffer_at d) b (buffer_entry_at d) (buffer_entry d) (read_entry d)
    (end_of_packet d) (first_packet d) (lock d).
Definition set_buffer_entry (d : aesd_dev) (e : aesd_buffer_entry) : aesd_dev :=
  AesdDev (buffer_at d) (buffer d) (buffer_entry_at d) e (read_entry d)
    (end_of_packet d) (first_packet d) (lock d).
Definition set_read_entry (d : aesd_dev) (r : entry_ptr) : aesd_dev :=
  AesdDev (buffer_at d) (buffer d) (buffer_entry_at d) (buffer_entry d) r
    (end_of_packet d) (first_packet d) (lock d).
Definition set_end_of_packet (d : aesd_dev) (v : Z) : aesd_dev :=
  AesdDev (buffer_at d) (buffer d) (buffer_entry_at d) (buffer_entry d) (read_entry d)
    v (first_packet d) (lock d).
Definition set_first_packet (d : aesd_dev) (v : Z) : aesd_dev :=
  AesdDev (buffer_at d) (buffer d) (buffer_entry_at d) (buffer_entry d) (read_entry d)
    (end_of_packet d) v (lock d).
Definition set_lock (d : aesd_dev) (v : bool) : aesd_dev :=
  AesdDev (buffer_at d) (buffer d) (buffer_entry_at d) (buffer_entry d) (read_entry d)
    (end_of_packet d) (first_packet d) v.

(** ** The kernel services the handlers use *)

(** [filp->private_data] and the structures behind the device's pointers. *)
Definition device_of (filp : file) : res unit :=
  if private_data filp then Ok tt else Fault NullDeref.
Definition the_buffer (d : aesd_dev) : res aesd_circular_buffer :=
  if is_null (buffer_at d) then Fault NullDeref else Ok (buffer d).
Definition the_buffer_entry (d : aesd_dev) : res aesd_buffer_entry :=
  if is_null (buffer_entry_at d) then Fault NullDeref else Ok (buffer_entry d).

(** The entry [dev->read_entry] points to. *)
Definition the_read_entry (d : aesd_dev) : res aesd_buffer_entry :=
  match read_entry d with
  | ENull => Fault NullDeref
  | EOwn _ => Ok null_entry
  | ESlot i => b ← the_buffer d; get_entry b i
  end.

(** A lock that is not interrupted is taken; the running call must not hold it. *)
Definition mutex_lock (d : aesd_dev) : res aesd_dev :=
  if lock d then Fault SelfDeadlock else Ok (set_lock d true).
Definition mutex_unlock (d : aesd_dev) : res aesd_dev :=
  if lock d then Ok (set_lock d false) else Fault BadUnlock.

(** The bytes the user copy leaves uncopied, of [n]. *)
Definition uncopied (k : kcall) (n : Z) : Z := Z.max 0 (Z.min n (user_left k)).

(** copy_from_user: [ubuf] are the user's bytes; the result is the number of
    bytes not copied. *)
Definition copy_from_user (k : kcall) (h : heap) (dst : ptr) (ubuf : list char) (n : Z)
  : res (Z * heap) :=
  h ← store_bytes h dst (take (Z.to_nat (n - uncopied k n)) ubuf);
  Ok (uncopied k n, h).

(** copy_to_user: also the bytes that reached the user's buffer. *)
Definition copy_to_user (k : kcall) (h : heap) (src : ptr) (n : Z) : res (Z * list char) :=
  data ← load_bytes h src n;
  Ok (uncopied k n, take (Z.to_nat (n - uncopied k n)) data).

(** PDEBUG with a "%s" argument reads the string. *)
Definition pdebug_s (h : heap) (p : ptr) : res unit :=
  if is_null p then Ok tt else _ ← load_cstr h p; Ok tt.

(** ** Opening and closing *)

Definition aesd_open (filp : file) : Z * file := (0, File true (f_pos filp)).
Definition aesd_release (filp : file) : Z := 0.

Section Handlers.
Context `{AllocOracle}.

(** The second half of aesd_read, from "Malloc local buffer" on: [e] is the
    entry found, [fpos] and [retval] are already set. *)
Definition read_deliver (k : kcall) (m : mem) (dev : aesd_dev) (e : aesd_buffer_entry)
    (rtn_byte retval fpos : Z) : res (Z * Z * list char * kstate) :=
  let '(read_buffer, m) := kmalloc m (u64 (retval * 8)) in
  if is_null read_buffer then
    (* free: *)
    m ← kfree m read_buffer;
    dev ← mutex_unlock dev;
    Ok (retval, fpos, [], KState m dev)
  else
    h ← memset (m_heap m) read_buffer NUL (u64 (retval * 8));
    _ ← pdebug_s h (ptr_add (buffptr e) rtn_byte);
    h ← strncpy h read_buffer (ptr_add (buffptr e) rtn_byte) (u64 (ent_size e - rtn_byte));
    _ ← strlen h read_buffer;
    '(nleft, delivered) ← copy_to_user k h read_buffer (retval + 1);
    let retval := if negb (nleft =? 0) then - EFAULT else retval in
    (* free: *)
    m ← kfree (Mem h (m_tick m)) read_buffer;
    dev ← mutex_unlock dev;
    Ok (retval, fpos, delivered, KState m dev).

(** ** aesd_read

    The result is the value returned, the new file position, the bytes
    stored into the user's buffer and the state.  [count] is the size of
    that buffer. *)
Definition aesd_read (k : kcall) (st : kstate) (filp : file) (count fpos : Z)
  : res (Z * Z * list char * kstate) :=
  _ ← device_of filp;
  let m := k_mem st in
  let dev := k_dev st in
  if lock_interrupted k then Ok (- ERESTARTSYS, fpos, [], st) else
  dev ← mutex_lock dev;
  b ← the_buffer dev;
  '(found, b) ← aesd_circular_buffer_find_entry_offset_for_fpos b (u64 fpos);
  let dev := set_buffer dev b in
  match found with
  | None =>
      (* exit: *)
      dev ← mutex_unlock (set_read_entry dev ENull);
      Ok (0, fpos, [], KState m dev)
  | Some (i, rtn_byte) =>
      let dev := set_read_entry dev (ESlot i) in
      e ← the_read_entry dev;
      let fpos := s64 (u64 (fpos + ent_size e - rtn_byte)) in
      let retval := s64 (u64 (ent_size e - rtn_byte)) in
      read_deliver k m dev e rtn_byte retval fpos
  end.

(** ** aesd_write

    [ubuf] are the [count] bytes of the user's buffer.  The result is the
    value returned, the new file position and the state. *)

(** The label exit: of aesd_write. *)
Definition write_exit (m : mem) (dev : aesd_dev) (write_buffer : ptr) (retval fpos : Z)
  : res (Z * Z * kstate) :=
  m ← kfree m write_buffer;
  dev ← mutex_unlock dev;
  Ok (retval, fpos, KState m dev).

(** The part from "Add to circular buffer if end of packet" to exit:. *)
Definition write_commit (m : mem) (dev : aesd_dev) (write_buffer : ptr) (retval fpos : Z)
  : res (Z * Z * kstate) :=
  if end_of_packet dev =? 1 then
    b ← the_buffer dev;
    be ← the_buffer_entry dev;
    '(buffer_to_free, m, b) ←
      @aesd_circular_buffer_add_entry kmalloc_allocator m b be;
    let dev := set_buffer dev b in
    let fpos := s64 (u64 (fpos + ent_size be)) in
    m ← (if negb (is_null buffer_to_free) then
           _ ← pdebug_s (m_heap m) buffer_to_free; kfree m buffer_to_free
         else Ok m);
    let dev := set_end_of_packet (set_first_packet dev 0) 0 in
    write_exit m dev write_buffer retval fpos
  else write_exit m dev write_buffer retval fpos.

(** Memory for the new or the continued message: the two branches on
    [dev->first_packet]. *)
Definition write_grow (m : mem) (dev : aesd_dev) (be : aesd_buffer_entry) (len : Z)
  : res (Z * ptr * mem) :=
  if first_packet dev =? 0 then
    let new_length := u64 (len + 1) in
    let '(p, m) := kmalloc m new_length in
    h ← memset (m_heap m) p NUL new_length;
    Ok (new_length, p, Mem h (m_tick m))
  else
    let new_length := u64 (ent_size be + len + 1) in
    '(p, m) ← krealloc m (buffptr be) new_length;
    Ok (new_length, p, m).

(** From the check for a newline to the commit. *)
Definition write_store (m : mem) (dev : aesd_dev) (write_buffer : ptr) (count fpos : Z)
  : res (Z * Z * kstate) :=
  nl ← strchr (m_heap m) write_buffer newline;
  let dev := if negb (is_null nl) then set_end_of_packet dev 1 else dev in
  be ← the_buffer_entry dev;
  len ← strlen (m_heap m) write_buffer;
  '(new_length, p, m) ← write_grow m dev be len;
  let dev := set_buffer_entry dev (BufEntry p (ent_size be)) in
  if is_null p then write_exit m dev write_buffer (- ENOMEM) fpos else
  h ← strcat (m_heap m) p write_buffer;
  let m := Mem h (m_tick m) in
  let retval := count in
  _ ← pdebug_s (m_heap m) p;
  let dev := set_first_packet (set_buffer_entry dev (BufEntry p new_length)) 1 in
  write_commit m dev write_buffer retval fpos.

Definition aesd_write (k : kcall) (st : kstate) (filp : file) (ubuf : list char)
    (count fpos : Z) : res (Z * Z * kstate) :=
  _ ← device_of filp;
  let m := k_mem st in
  let dev := k_dev st in
  if lock_interrupted k then Ok (- ERESTARTSYS, fpos, st) else
  dev ← mutex_lock dev;
  let '(write_buffer, m) := kmalloc m (u64 (count * 8)) in
  if is_null write_buffer then write_exit m dev write_buffer (- ENOMEM) fpos else
  h ← memset (m_heap m) write_buffer NUL (u64 (count * 8));
  '(nleft, h) ← copy_from_user k h write_buffer ubuf count;
  let m := Mem h (m_tick m) in
  if negb (nleft =? 0) then write_exit m dev write_buffer (- EFAULT) fpos else
  write_store m dev write_buffer count fpos.
End Handlers.

(** ** aesd_seek

    fixed_size_llseek() is kernel code: from the file position, the offset,
    the origin and the size it yields the value it returns and the position
    it leaves in the file. *)
Class FixedSizeLlseek : Type := fixed_size_llseek : Z -> Z -> Z -> Z -> Z * Z.

Definition aesd_seek `{FixedSizeLlseek} (st : kstate) (filp : file) (offset whence : Z)
  : res (Z * file) :=
  _ ← device_of filp;
  b ← the_buffer (k_dev st);
  buffer_size ← get_aesd_buffer_length b;
  let '(requested_location, _) := fixed_size_llseek (f_pos filp) offset whence buffer_size in
  Ok (requested_location, File (private_data filp) requested_location).

(** ** aesd_adjust_file_offset *)

(** The loop [for(i=0;i<=10;i++)]; [total] is total_size. *)
Fixpoint adjust_loop (fuel : nat) (b : aesd_circular_buffer)
    (i write_cmd write_cmd_offset total : Z) : res Z :=
  match fuel with
  | O => Fault OutOfFuel
  | S fuel' =>
      if i <=? 10 then
        let current_out_offs := u8 (out_offs b + i) in
        if negb (u32 i =? write_cmd) then
          e ← get_entry b current_out_offs;
          adjust_loop fuel' b (i + 1) write_cmd write_cmd_offset (u64 (ent_size e + total))
        else Ok (u64 (total + write_cmd_offset))
      else Ok total
  end.

(** The result is the value returned, the file and the state.  Every path
    ends at the label fail:, which unlocks. *)
Definition adjust_fail (filp : file) (m : mem) (dev : aesd_dev) (retval : Z)
  : res (Z * file * kstate) :=
  dev ← mutex_unlock dev;
  Ok (retval, filp, KState m dev).

Definition aesd_adjust_file_offset (k : kcall) (st : kstate) (filp : file)
    (write_cmd write_cmd_offset : Z) : res (Z * file * kstate) :=
  _ ← device_of filp;
  let m := k_mem st in
  let dev := k_dev st in
  if (10 <=? write_cmd) || (write_cmd <? 0) then adjust_fail filp m dev (- EINVAL) else
  if lock_interrupted k then adjust_fail filp m dev (- ERESTARTSYS) else
  dev ← mutex_lock dev;
  b ← the_buffer dev;
  let seeked_out_offs := u8 (u32 (out_offs b + write_cmd) mod 10) in
  e ← get_entry b seeked_out_offs;
  if is_null (buffptr e) then adjust_fail filp m dev (- EINVAL) else
  if ent_size e <? write_cmd_offset then adjust_fail filp m dev (- EINVAL) else
  total_size ← adjust_loop 12 b 0 write_cmd write_cmd_offset 0;
  let filp := File (private_data filp) (s64 total_size) in
  adjust_fail filp m dev 0.

(** ** aesd_ioctl: [arg] is the structure the user passes *)
Definition aesd_ioctl (k : kcall) (st : kstate) (filp : file) (cmd : Z) (arg : aesd_seekto)
  : res (Z * file * kstate) :=
  if cmd =? AESDCHAR_IOCSEEKTO then
    if negb (uncopied k sizeof_aesd_seekto =? 0) then Ok (EFAULT, filp, st)
    else
      '(retval, filp, st) ←
        aesd_adjust_file_offset k st filp (seek_write_cmd arg) (seek_write_cmd_offset arg);
      Ok (s32 retval, filp, st)
  else Ok (- ENOTTY, filp, st).

(** ** Module entry and exit

    [chrdev_region] and [cdev_added] record the registrations with the
    kernel, [cdev_set] whether cdev_init() ran on the embedded cdev, and
    [cdev_misused] whether cdev_del() was called on a cdev that was never
    initialised. *)
Record modstate : Type := ModState {
  mod_k : kstate;
  chrdev_region : bool;
  cdev_set : bool;
  cdev_added : bool;
  cdev_misused : bool
}.

Definition sizeof_circular_buffer : Z := 168.
Definition sizeof_buffer_entry : Z := 16.

(** [memset(&aesd_device,0,...)]; the structures behind NULL pointers are
    not there, any value stands for them. *)
Definition zero_dev : aesd_dev :=
  AesdDev PNull aesd_circular_buffer_init PNull null_entry ENull 0 0 false.

(** The address a [struct aesd_buffer_entry *] has. *)
Definition entry_ptr_addr (d : aesd_dev) (r : entry_ptr) : ptr :=
  match r with
  | ENull => PNull
  | EOwn p => p
  | ESlot i => ptr_add (buffer_at d) (i * sizeof_buffer_entry)
  end.

Definition aesd_cleanup_module (s : modstate) : res modstate :=
  let misused := cdev_misused s || negb (cdev_set s) in
  let st := mod_k s in
  let dev := k_dev st in
  m ← kfree (k_mem st) (entry_ptr_addr dev (read_entry dev));
  m ← kfree m (buffer_entry_at dev);
  m ← kfree m (buffer_at dev);
  Ok (ModState (KState m dev) false (cdev_set s) false misused).

(** cdev_add() answers [err]. *)
Definition aesd_setup_cdev (s : modstate) (err : Z) : Z * modstate :=
  (err, ModState (mod_k s) (chrdev_region s) true (err =? 0) (cdev_misused s)).

Section Init.
Context `{AllocOracle}.

(** [region_result] is what alloc_chrdev_region() returns, [cdev_err] what
    cdev_add() returns. *)
Definition aesd_init_module (m : mem) (region_result cdev_err : Z) : res (Z * modstate) :=
  if region_result <? 0
  then Ok (region_result, ModState (KState m zero_dev) false false false false)
  else
    let result := region_result in
    let fail m dev :=
      s ← aesd_cleanup_module (ModState (KState m dev) true false false false); Ok (result, s) in
    let dev := zero_dev in
    let '(pb, m) := kmalloc m sizeof_circular_buffer in
    let dev := AesdDev pb (buffer dev) PNull null_entry ENull 0 0 false in
    if is_null pb then fail m dev else
    let '(pe, m) := kmalloc m sizeof_buffer_entry in
    let dev := AesdDev pb (buffer dev) pe null_entry ENull 0 0 false in
    if is_null pe then fail m dev else
    let '(pr, m) := kmalloc m sizeof_buffer_entry in
    let dev := AesdDev pb (buffer dev) pe null_entry (EOwn pr) 0 0 false in
    if is_null pr then fail m dev else
    h ← memset (m_heap m) pb NUL sizeof_circular_buffer;
    h ← memset h pe NUL sizeof_buffer_entry;
    h ← memset h pr NUL sizeof_buffer_entry;
    let m := Mem h (m_tick m) in
    let dev := AesdDev pb aesd_circular_buffer_init pe null_entry (EOwn pr) 0 0 false in
    let '(result, s) := aesd_setup_cdev (ModState (KState m dev) true false false false) cdev_err in
    if negb (result =? 0)
    then Ok (result, ModState (mod_k s) false (cdev_set s) (cdev_added s) (cdev_misused s))
    else Ok (result, s).
End Init.
