(* ===== verification/DriverSpec.v ===== *)
(** * What the driver promises

    The abstract device is the list of the commands it keeps and the
    unfinished command.  [dev_inv] relates a state of the driver to it: the
    ring, the string of every entry, the pending string, the ownership of
    the blocks (no block is referred to twice) and a free lock. *)

From stdpp Require Import base numbers strings gmap list.
From S2P Require Import Prelude CMem CString CircularBuffer RingSpec RingFacts CharDriver.

#[local] Open Scope Z_scope.

(** ** The abstract device *)

Record device_model : Type := DevModel {
  commands : ring_model;       (* complete commands, oldest first *)
  unfinished : list char       (* written since the last newline *)
}.

Definition model_init : device_model := DevModel [] [].

(** A write appends the bytes before the first NUL; if there is a newline
    among them the command is complete. *)
Definition model_write (d : device_model) (data : list char) : device_model :=
  let w := until_nul data in
  let p := unfinished d ++ w in
  if bool_decide (newline ∈ w) then DevModel (model_add (commands d) p) []
  else DevModel (commands d) p.

(** ** The concrete state *)

(** An entry as a block and the string it holds. *)
Abbreviation slot := (nat * list char)%type.

Definition slot_entry (x : slot) : aesd_buffer_entry := BufEntry (PAddr x.1 0) (zlen x.2).

Definition ptr_block (p : ptr) : list nat :=
  match p with PAddr b O => [b] | _ => [] end.

(** The blocks of the structures the device points to. *)
Definition dev_cells (d : aesd_dev) : list nat :=
  ptr_block (buffer_at d) ++ ptr_block (buffer_entry_at d) ++
  match read_entry d with EOwn p => ptr_block p | _ => [] end.

(** Every block the device refers to. *)
Definition owned (d : aesd_dev) (es : list slot) (pend : option slot) : list nat :=
  es.*1 ++ (match pend with Some x => [x.1] | None => [] end) ++ dev_cells d.

Definition pending_ok (h : heap) (d : aesd_dev) (pend : option slot) : Prop :=
  match pend with
  | None => first_packet d = 0
  | Some (b, s) => first_packet d = 1 /\ buffptr (buffer_entry d) = PAddr b 0 /\
      exists blk, h !! b = Some blk /\ cstr_blk blk s /\ zlen blk = ent_size (buffer_entry d)
  end.

Record dev_inv (st : kstate) (es : list slot) (pend : option slot) : Prop := {
  inv_ring : ring (buffer (k_dev st)) (slot_entry <$> es);
  inv_strs : Forall (fun x => str_at (m_heap (k_mem st)) x.1 x.2) es;
  inv_pend : pending_ok (m_heap (k_mem st)) (k_dev st) pend;
  inv_nodup : NoDup (owned (k_dev st) es pend);
  inv_cells : Forall (fun b => is_Some (m_heap (k_mem st) !! b)) (dev_cells (k_dev st));
  inv_buffer_at : is_null (buffer_at (k_dev st)) = false;
  inv_buffer_entry_at : is_null (buffer_entry_at (k_dev st)) = false;
  inv_eop : end_of_packet (k_dev st) = 0;
  inv_lock : lock (k_dev st) = false;
  inv_addrs : exists b1 b2, buffer_at (k_dev st) = PAddr b1 0 /\
                buffer_entry_at (k_dev st) = PAddr b2 0
}.

Definition pend_str (pend : option slot) : list char :=
  match pend with Some x => x.2 | None => [] end.

(** The state implements the abstract device [d]. *)
Definition implements (st : kstate) (d : device_model) : Prop :=
  exists es pend, dev_inv st es pend /\ d = DevModel es.*2 (pend_str pend).

(** ** Facts *)

Lemma inv_holds st es pend : dev_inv st es pend ->
  Forall2 (entry_holds (m_heap (k_mem st))) (slot_entry <$> es) es.*2.
Proof.
  intros Hinv. pose proof (inv_strs _ _ _ Hinv) as Hs.
  apply Forall2_fmap, Forall_Forall2_diag. eapply Forall_impl; [exact Hs|].
  intros [b s] Hb. exists b. done.
Qed.

Lemma inv_total st es pend : dev_inv st es pend ->
  zsum (ring_sizes (slot_entry <$> es)) = zlen (contents es.*2).
Proof. intros Hinv. eapply holds_total, inv_holds, Hinv. Qed.

(** A block that is referred to is allocated. *)
Lemma owned_live st es pend b : dev_inv st es pend -> b ∈ owned (k_dev st) es pend ->
  is_Some (m_heap (k_mem st) !! b).
Proof.
  intros Hinv Hb. unfold owned in Hb. rewrite !elem_of_app in Hb.
  destruct Hb as [Hb|[Hb|Hb]].
  - apply list_elem_of_fmap in Hb as ([x s] & -> & Hx).
    pose proof (proj1 (Forall_forall _ _) (inv_strs _ _ _ Hinv) _ Hx) as Hs.
    simpl in *. eauto with aesd.
  - pose proof (inv_pend _ _ _ Hinv) as Hp. destruct pend as [[x s]|]; [|set_solver].
    destruct Hp as (_ & _ & blk & Hblk & _). simpl in Hb.
    assert (b = x) as -> by set_solver. eauto.
  - by apply (proj1 (Forall_forall _ _) (inv_cells _ _ _ Hinv)).
Qed.

(** A block that is not allocated is not referred to. *)
Lemma fresh_not_owned st es pend b : dev_inv st es pend ->
  m_heap (k_mem st) !! b = None -> b ∉ owned (k_dev st) es pend.
Proof. intros Hinv Hb Hin. destruct (owned_live _ _ _ _ Hinv Hin). congruence. Qed.

(** The invariant survives any change of the heap that keeps the blocks the
    device refers to. *)
Lemma dev_inv_heap st m' es pend : dev_inv st es pend ->
  (forall b, b ∈ owned (k_dev st) es pend -> m_heap m' !! b = m_heap (k_mem st) !! b) ->
  dev_inv (KState m' (k_dev st)) es pend.
Proof.
  intros Hinv Hkeep. destruct Hinv as [Hr Hs Hp Hn Hc H1 H2 H3 H4 H5].
  split; simpl; try done.
  - apply Forall_forall. intros x Hx. pose proof (proj1 (Forall_forall _ _) Hs _ Hx) as Hx'.
    destruct Hx' as (blk & Hb & Hc'). exists blk. split; [|done]. rewrite Hkeep; [done|].
    apply elem_of_app. left. by apply list_elem_of_fmap_2.
  - destruct pend as [[b s]|]; [|done]. destruct Hp as (? & ? & blk & Hb & ?).
    split; [done|]. split; [done|]. exists blk. rewrite Hkeep; [done|].
    unfold owned. set_solver.
  - apply Forall_forall. intros b Hb. rewrite Hkeep.
    + by apply (proj1 (Forall_forall _ _) Hc).
    + unfold owned. set_solver.
Qed.

(** ** Ownership *)

Lemma NoDup_middle {A} (l1 l2 : list A) x :
  NoDup (l1 ++ x :: l2) <-> x ∉ l1 ++ l2 /\ NoDup (l1 ++ l2).
Proof. by rewrite <- Permutation_middle, NoDup_cons. Qed.

Lemma owned_some d es x :
  owned d es (Some x) = es.*1 ++ x.1 :: dev_cells d.
Proof. done. Qed.

Lemma owned_none d es : owned d es None = es.*1 ++ dev_cells d.
Proof. done. Qed.

Lemma owned_subseteq d es pend : owned d es None ⊆ owned d es pend.
Proof. unfold owned. set_solver. Qed.

Lemma owned_nodup_none d es pend : NoDup (owned d es pend) -> NoDup (owned d es None).
Proof.
  destruct pend as [x|]; [|done]. rewrite owned_some, owned_none, NoDup_middle. naive_solver.
Qed.

(** A new block for the pending message. *)
Lemma pending_inv st es pend h t p blk s nl : dev_inv st es pend ->
  m_heap (k_mem st) !! p = None -> h !! p = Some blk -> cstr_blk blk s -> zlen blk = nl ->
  (forall b, b ∈ owned (k_dev st) es None -> h !! b = m_heap (k_mem st) !! b) ->
  dev_inv (KState (Mem h t)
    (set_first_packet (set_buffer_entry (k_dev st) (BufEntry (PAddr p 0) nl)) 1))
    es (Some (p, s)).
Proof.
  intros Hinv Hfresh Hp Hs Hl Hkeep.
  assert (Hpn : p ∉ owned (k_dev st) es None).
  { intros Hin. apply (fresh_not_owned _ _ _ _ Hinv Hfresh). by apply owned_subseteq. }
  pose proof (owned_nodup_none _ _ _ (inv_nodup _ _ _ Hinv)) as Hnd.
  destruct Hinv as [Hr Hst Hpe Hn Hc H1 H2 H3 H4 H5]. split; simpl; try done.
  - apply Forall_forall. intros x Hx.
    destruct (proj1 (Forall_forall _ _) Hst _ Hx) as (k & Hk & Hk'). exists k.
    split; [|done]. rewrite Hkeep; [done|]. rewrite owned_none.
    apply elem_of_app. left. by apply list_elem_of_fmap_2.
  - eauto 10.
  - rewrite owned_some. apply NoDup_middle. rewrite owned_none in Hpn, Hnd. done.
  - apply Forall_forall. intros b Hb. rewrite Hkeep; [by apply (proj1 (Forall_forall _ _) Hc)|].
    rewrite owned_none. set_solver.
Qed.

(** The pending message becomes the newest entry of the ring. *)
Lemma commit_inv st es p s h t b' : dev_inv st es (Some (p, s)) ->
  let es' := lastn 10 (es ++ [(p, s)]) in
  ring b' (slot_entry <$> es') ->
  (forall b, b ∈ owned (k_dev st) es' None -> h !! b = m_heap (k_mem st) !! b) ->
  dev_inv (KState (Mem h t)
    (set_end_of_packet (set_first_packet (set_buffer (k_dev st) b') 0) 0)) es' None.
Proof.
  intros Hinv es' Hring Hkeep. destruct Hinv as [Hr Hst Hpe Hn Hc H1 H2 H3 H4 H5].
  assert (Hall : Forall (fun x => str_at (m_heap (k_mem st)) x.1 x.2) (es ++ [(p, s)])).
  { apply Forall_app. split; [done|]. apply Forall_singleton.
    destruct Hpe as (_ & _ & blk & Hb & Hs & _). by exists blk. }
  split; simpl; try done.
  - apply Forall_forall. intros x Hx.
    pose proof (elem_of_lastn _ _ _ Hx) as Hx'.
    destruct (proj1 (Forall_forall _ _) Hall _ Hx') as (k & Hk & Hk'). exists k.
    split; [|done]. rewrite Hkeep; [done|]. rewrite owned_none.
    apply elem_of_app. left. by apply list_elem_of_fmap_2.
  - rewrite owned_none. rewrite owned_some in Hn. unfold es', lastn.
    rewrite fmap_drop. set (n := (length _ - 10)%nat).
    assert (Hn' : NoDup ((es ++ [(p, s)]).*1 ++ dev_cells (k_dev st))).
    { rewrite fmap_app, <- app_assoc. done. }
    rewrite <- (take_drop n ((es ++ [(p, s)]).*1)), <- app_assoc in Hn'.
    by apply NoDup_app in Hn' as (_ & _ & ?).
  - apply Forall_forall. intros b Hb. rewrite Hkeep; [by apply (proj1 (Forall_forall _ _) Hc)|].
    rewrite owned_none. set_solver.
Qed.
