(* ===== verification/DriverRead.v ===== *)
(** * aesd_read implements the abstract read *)

From stdpp Require Import base numbers strings gmap list.
From S2P Require Import Prelude CMem CString CircularBuffer RingSpec RingFacts Ioctl CharDriver.
From S2P Require Import DriverSpec.

#[local] Open Scope Z_scope.

(** ** Allocation that succeeds *)

Section Allocation.
Context (o : AllocOracle) (Hok : alloc_succeeds o).

Lemma kmalloc_ok m n : 0 < n -> exists b, m_heap m !! b = None /\
  kmalloc m n = (PAddr b 0, Mem (<[b := replicate (Z.to_nat n) None]> (m_heap m)) (S (m_tick m))).
Proof.
  intros Hn. unfold kmalloc, alloc_block. rewrite (proj2 (Z.eqb_neq _ _)) by lia.
  destruct (Hok (m_tick m) (m_heap m) n) as (b & Hc & Hb). exists b. split; [done|].
  unfold alloc_choice. by rewrite Hc, Hb.
Qed.

(** kmalloc followed by memset to zero. *)
Lemma kmalloc_zeroed m n : 0 < n -> exists b m1, m_heap m !! b = None /\
  kmalloc m n = (PAddr b 0, m1) /\
  memset (m_heap m1) (PAddr b 0) NUL n
    = Ok (<[b := replicate (Z.to_nat n) (Some NUL)]> (m_heap m)).
Proof.
  intros Hn. destruct (kmalloc_ok m n Hn) as (b & Hb & Hk). eexists b, _.
  split; [done|]. split; [exact Hk|]. simpl.
  erewrite memset_whole; [|by rewrite lookup_insert_eq|by rewrite length_replicate].
  by rewrite insert_insert_eq.
Qed.
End Allocation.

(** Giving back a block that was not there before restores the heap. *)
Lemma kfree_fresh m b blk t : m_heap m !! b = None ->
  kfree (Mem (<[b := blk]> (m_heap m)) t) (PAddr b 0) = Ok (Mem (m_heap m) t).
Proof.
  intros Hb. unfold kfree. simpl. rewrite decide_True.
  - by rewrite delete_insert_id.
  - split; [done|]. rewrite lookup_insert_eq. eauto.
Qed.

Lemma pdebug_at h b s i : str_at h b s -> (i <= length s)%nat ->
  pdebug_s h (PAddr b i) = Ok tt.
Proof. intros Hs Hi. unfold pdebug_s. simpl. by rewrite (load_cstr_at _ _ s). Qed.

(** ** The device after a read *)

Definition after_read (st : kstate) (r : entry_ptr) : aesd_dev := set_read_entry (k_dev st) r.

Lemma after_read_inv st es pend m' r :
  dev_inv st es pend -> m_heap m' = m_heap (k_mem st) ->
  (match r with EOwn _ => False | _ => True end) ->
  dev_inv (KState m' (after_read st r)) es pend.
Proof.
  intros Hinv Hm Hr.
  apply (dev_inv_heap _ m') in Hinv; [|by rewrite Hm].
  destruct Hinv as [? ? ? Hn Hc ? ? ? ? ?]. split; try done; simpl in *.
  - unfold owned, dev_cells in *. simpl. destruct r; [|done|].
    all: rewrite ?app_assoc in Hn |- *; rewrite ?app_nil_r; by apply NoDup_app in Hn as [? _].
  - unfold dev_cells in *. simpl. rewrite !Forall_app in Hc |- *. destruct r; naive_solver.
Qed.

Lemma set_lock_restore d b r : lock d = false -> buffer d = b ->
  mutex_unlock (set_read_entry (set_buffer (set_lock d true) b) r) = Ok (set_read_entry d r).
Proof. intros Hl <-. unfold mutex_unlock. simpl. destruct d; simpl in *. by subst. Qed.

(** ** Reads *)

Section Read.
Context (o : AllocOracle).

(** Past the end: nothing is delivered and only read_entry changes. *)
Lemma read_past_end k st es pend filp count fpos :
  dev_inv st es pend -> private_data filp = true -> lock_interrupted k = false ->
  zlen (contents es.*2) < 2 ^ 64 -> zlen (contents es.*2) <= u64 fpos ->
  aesd_read k st filp count fpos = Ok (0, fpos, [], KState (k_mem st) (after_read st ENull)).
Proof.
  intros Hinv Hf Hk Ht Hp. unfold aesd_read, device_of. rewrite Hf, bind_ok, Hk.
  unfold mutex_lock. rewrite (inv_lock _ _ _ Hinv), bind_ok.
  unfold the_buffer. simpl buffer_at. rewrite (inv_buffer_at _ _ _ Hinv), bind_ok.
  change (buffer (set_lock (k_dev st) true)) with (buffer (k_dev st)).
  pose proof (find_locates _ _ _ _ (u64 fpos) (inv_ring _ _ _ Hinv) (inv_holds _ _ _ Hinv)
    Ht (u64_range _)) as Hfind.
  destruct (locate _ _) as [[i off]|] eqn:Hl.
  - exfalso. assert (Hn : locate (zlen <$> es.*2) (u64 fpos) = None); [|congruence].
    apply locate_None; [auto with aesd | apply u64_range |]. by rewrite zsum_lengths.
  - destruct Hfind as [_ ->]. rewrite bind_ok.
    rewrite (set_lock_restore _ _ _ (inv_lock _ _ _ Hinv)), bind_ok by done. done.
Qed.

Lemma model_read_at (S : ring_model) pos i off s :
  locate (zlen <$> S) pos = Some (i, off) -> S !! i = Some s ->
  model_read S pos = drop (Z.to_nat off) s.
Proof. intros Hl Hs. unfold model_read. by rewrite Hl, Hs. Qed.

(** The copy of the rest of a command, from byte [off] on, to the user. *)
Lemma read_deliver_ok k m dev b s off fpos :
  alloc_succeeds o -> str_at (m_heap m) b s -> 0 <= off < zlen s -> zlen s < 2 ^ 60 ->
  lock dev = true ->
  let d := drop (Z.to_nat off) s in
  let c := uncopied k (zlen d + 1) in
  exists t,
    read_deliver k m dev (BufEntry (PAddr b 0) (zlen s)) off (zlen d) fpos
    = Ok (if c =? 0 then zlen d else - EFAULT, fpos,
          take (Z.to_nat (zlen d + 1 - c)) (d ++ [NUL]),
          KState (Mem (m_heap m) t) (set_lock dev false)).
Proof.
  intros Hok Hs Hoff Hsz Hl d c. unfold read_deliver. cbn [buffptr ent_size].
  assert (Hdl : zlen d = zlen s - off) by (unfold d, zlen in *; rewrite length_drop; lia).
  rewrite (u64_small (zlen s - off)), (u64_small (zlen d * 8)) by lia. rewrite <- Hdl.
  destruct (kmalloc_zeroed o Hok m (zlen d * 8)) as (rb & m1 & Hrb & -> & Hms); [lia|].
  simpl is_null. cbv iota. rewrite Hms, bind_ok. clear Hms.
  set (h1 := <[rb := _]> (m_heap m)).
  assert (Hne : b <> rb) by (intros ->; destruct (str_at_live _ _ _ Hs); congruence).
  assert (Hs1 : str_at h1 b s) by (by apply str_at_insert_ne).
  cbn [ptr_add]. rewrite Nat.add_0_l.
  assert (Hoffn : (Z.to_nat off <= length s)%nat) by (unfold zlen in *; lia).
  rewrite (pdebug_at _ _ _ _ Hs1 Hoffn), bind_ok.
  pose proof (strncpy_zeroed h1 rb b s _ (Z.to_nat (zlen d * 8)) Hs1 Hoffn
    ltac:(unfold zlen in *; lia) ltac:(unfold h1; apply lookup_insert_eq)) as Hcpy.
  replace (zlen s - Z.of_nat (Z.to_nat off)) with (zlen d) in Hcpy by lia.
  rewrite Hcpy, bind_ok. unfold h1. rewrite insert_insert_eq. fold d. clear Hcpy.
  replace (Z.to_nat (zlen d * 8) - (length s - Z.to_nat off))%nat
    with (Datatypes.S (Z.to_nat (zlen d * 7 - 1))) by (unfold zlen in *; lia).
  set (blk := (Some <$> d) ++ _).
  assert (Hblk : cstr_blk blk d).
  { split; [|by eexists]. destruct Hs as (? & _ & Hn & _). unfold d.
    intros Hin. apply Hn. rewrite <- (take_drop (Z.to_nat off) s). set_solver. }
  rewrite (strlen_at _ _ d), bind_ok by (by apply str_at_insert_eq).
  unfold copy_to_user.
  rewrite (load_bytes_ok _ _ (d ++ [NUL]) (replicate (Z.to_nat (zlen d * 7 - 1)) (Some NUL)));
    [|rewrite lookup_insert_eq; unfold blk; simpl; by rewrite fmap_app, <- app_assoc
     |by rewrite zlen_app].
  rewrite !bind_ok. rewrite kfree_fresh, bind_ok by done.
  unfold mutex_unlock. rewrite Hl, bind_ok. eexists. fold c. by destruct (c =? 0).
Qed.

(** Up to the copy: the search finds block [b] with the string [str], and
    the rest of the call delivers it from byte [off] on. *)
Lemma read_found_entry k st es pend filp count fpos :
  dev_inv st es pend -> private_data filp = true -> lock_interrupted k = false ->
  zlen (contents es.*2) < 2 ^ 60 -> 0 <= fpos < zlen (contents es.*2) ->
  let d := model_read es.*2 fpos in
  exists b str off i, str_at (m_heap (k_mem st)) b str /\ (0 <= off < zlen str /\ zlen str < 2 ^ 60) /\
    0 <= i < 10 /\ d = drop (Z.to_nat off) str /\ zlen d = zlen str - off /\
    aesd_read k st filp count fpos
    = read_deliver k (k_mem st)
        (set_read_entry (set_buffer (set_lock (k_dev st) true) (buffer (k_dev st))) (ESlot i))
        (BufEntry (PAddr b 0) (zlen str)) off (zlen d) (fpos + zlen d).
Proof.
  intros Hinv Hf Hk Ht Hp d. unfold aesd_read, device_of. rewrite Hf, bind_ok, Hk.
  unfold mutex_lock. rewrite (inv_lock _ _ _ Hinv), bind_ok.
  unfold the_buffer at 1. simpl buffer_at. rewrite (inv_buffer_at _ _ _ Hinv), bind_ok.
  change (buffer (set_lock (k_dev st) true)) with (buffer (k_dev st)).
  assert (Hu : u64 fpos = fpos) by (apply u64_small; lia). rewrite Hu.
  pose proof (find_locates _ _ _ _ fpos (inv_ring _ _ _ Hinv) (inv_holds _ _ _ Hinv)
    ltac:(lia) ltac:(lia)) as Hfind.
  destruct (locate _ _) as [[i off]|] eqn:Hl; [|destruct Hfind; lia].
  destruct Hfind as ([bp sz] & s & Hsi & _ & (b & Hb & Hs & Hz) & Hoff & Hpos & Hge & ->).
  simpl in Hb, Hz. subst bp sz. rewrite bind_ok. set (idx := (out_offs _ + _) mod 10) in *.
  unfold the_read_entry. simpl read_entry. unfold the_buffer at 1. simpl buffer_at.
  rewrite (inv_buffer_at _ _ _ Hinv), bind_ok. simpl buffer. rewrite Hge, bind_ok.
  cbn [ent_size].
  assert (Hd : d = drop (Z.to_nat off) s) by (by eapply model_read_at).
  assert (Hdl : zlen d = zlen s - off) by (rewrite Hd; unfold zlen in *; rewrite length_drop; lia).
  assert (Hsz : zlen s < 2 ^ 60) by (pose proof (contents_ge _ _ _ Hsi); lia).
  rewrite (u64_small (zlen s - off)), (s64_small (zlen s - off)), s64_u64, s64_small by lia.
  replace (fpos + zlen s - off) with (fpos + zlen d) by lia. rewrite <- Hdl.
  exists b, s, off, idx. split; [done|]. split; [lia|].
  split; [apply Z.mod_pos_bound; lia|]. done.
Qed.

(** Before the end: [d] is the rest of the command the position falls in. *)
Lemma read_found k st es pend filp count fpos :
  alloc_succeeds o -> dev_inv st es pend -> private_data filp = true ->
  lock_interrupted k = false ->
  zlen (contents es.*2) < 2 ^ 60 -> 0 <= fpos < zlen (contents es.*2) ->
  let d := model_read es.*2 fpos in
  let c := uncopied k (zlen d + 1) in
  exists m' i, m_heap m' = m_heap (k_mem st) /\ 0 <= i < 10 /\
    aesd_read k st filp count fpos
    = Ok (if c =? 0 then zlen d else - EFAULT, fpos + zlen d,
          take (Z.to_nat (zlen d + 1 - c)) (d ++ [NUL]),
          KState m' (after_read st (ESlot i))).
Proof.
  intros Hok Hinv Hf Hk Ht Hp d c.
  destruct (read_found_entry k st es pend filp count fpos Hinv Hf Hk Ht Hp)
    as (b & s & off & i & Hs & Hoff & Hi & Hd & _ & ->). fold d in Hd |- *.
  set (dev := set_read_entry _ _). subst c. rewrite Hd.
  destruct (read_deliver_ok k (k_mem st) dev b s off (fpos + zlen (drop (Z.to_nat off) s))
    Hok Hs ltac:(lia) ltac:(lia) eq_refl) as [t ->].
  eexists (Mem (m_heap (k_mem st)) t), i. do 2 (split; [done|]).
  assert (set_lock dev false = after_read st (ESlot i)) as ->; [|done].
  unfold dev, after_read, set_lock, set_read_entry, set_buffer; simpl.
  by rewrite (inv_lock _ _ _ Hinv).
Qed.
End Read.
