(* ===== verification/DriverWrite.v ===== *)
(** * aesd_write implements the abstract write

    The write buffer, the growth of the pending message and the commit are
    proved one by one; [write_ok] puts them together. *)

From stdpp Require Import base numbers strings gmap list.
From S2P Require Import Prelude CMem CString CircularBuffer RingSpec RingFacts Ioctl CharDriver.
From S2P Require Import DriverSpec DriverRead.

#[local] Open Scope Z_scope.

(** The largest count the kernel passes to a write (MAX_RW_COUNT). *)
Definition max_count : Z := 0x7ffff000.

Section Write.
Context (o : AllocOracle) (Hok : alloc_succeeds o).

(** ** The write buffer: zeroed memory of 8 * count bytes, then the user's *)

Lemma write_buffer_filled (W : list char) (n : nat) : (length W < n)%nat ->
  cstr_blk (list_inserts 0 (Some <$> W) (replicate n (Some NUL))) (until_nul W).
Proof.
  intros Hn. replace n with (length W + S (n - length W - 1))%nat by lia.
  rewrite replicate_add, list_inserts_0_r by (by rewrite length_fmap, length_replicate).
  apply cstr_blk_until_nul.
Qed.

(** [W] is the write buffer after the copy; it holds the user's bytes when
    all of them could be copied. *)
Lemma write_fetch k m ubuf : 0 < zlen ubuf <= max_count ->
  exists wb m1, m_heap m !! wb = None /\
    kmalloc m (u64 (zlen ubuf * 8)) = (PAddr wb 0, m1) /\
    exists W,
      (h ← memset (m_heap m1) (PAddr wb 0) NUL (u64 (zlen ubuf * 8));
       copy_from_user k h (PAddr wb 0) ubuf (zlen ubuf))
      = Ok (uncopied k (zlen ubuf), <[wb := W]> (m_heap m)) /\
      (user_left k <= 0 -> cstr_blk W (until_nul ubuf)).
Proof.
  unfold max_count. intros Hc. rewrite u64_small by lia.
  destruct (kmalloc_zeroed o Hok m (zlen ubuf * 8)) as (wb & m1 & Hwb & Hk & Hms); [lia|].
  exists wb, m1. split; [done|]. split; [exact Hk|].
  set (n := Z.to_nat (zlen ubuf - uncopied k (zlen ubuf))).
  exists (list_inserts 0 (Some <$> take n ubuf)
            (replicate (Z.to_nat (zlen ubuf * 8)) (Some NUL))). split.
  - rewrite Hms, bind_ok. unfold copy_from_user. fold n.
    rewrite (store_bytes_ok _ _ (replicate (Z.to_nat (zlen ubuf * 8)) (Some NUL))).
    + by rewrite bind_ok, insert_insert_eq.
    + apply lookup_insert_eq.
    + rewrite length_replicate, length_take. unfold zlen in *. lia.
  - intros Hu. rewrite take_ge by (unfold n, uncopied, zlen in *; lia).
    apply write_buffer_filled. unfold zlen in *. lia.
Qed.

(** ** Growing the pending message *)

(** The heap without the old block of the pending message. *)
Definition drop_pending (pend : option slot) (h : heap) : heap :=
  match pend with Some x => delete x.1 h | None => h end.

(** The size the driver records for the pending message. *)
Definition pend_size (dev : aesd_dev) (pend : option slot) : Z :=
  match pend with Some _ => ent_size (buffer_entry dev) | None => 0 end.

(** The same, as the driver's own fields tell it. *)
Definition message_size (dev : aesd_dev) : Z :=
  if first_packet dev =? 1 then ent_size (buffer_entry dev) else 0.

Lemma message_size_pend h dev pend : pending_ok h dev pend ->
  message_size dev = pend_size dev pend.
Proof.
  unfold message_size. destruct pend as [[b s]|]; simpl.
  - by intros (-> & _).
  - by intros ->.
Qed.

Lemma write_grow_ok m dev pend len : pending_ok (m_heap m) dev pend ->
  0 <= len < 2 ^ 32 -> pend_size dev pend < 2 ^ 62 ->
  exists p blk nl t, m_heap m !! p = None /\
    write_grow m dev (buffer_entry dev) len
    = Ok (nl, PAddr p 0, Mem (drop_pending pend (<[p := blk]> (m_heap m))) t) /\
    nl = pend_size dev pend + len + 1 /\
    zlen blk = nl /\ cstr_blk blk (pend_str pend) /\ zlen (pend_str pend) + len + 1 <= nl.
Proof.
  intros Hp Hlen Hsz. unfold write_grow. destruct pend as [[b s]|]; simpl in Hp, Hsz.
  - destruct Hp as (-> & Hbp & old & Hold & Hs & Hzl). simpl. rewrite Hbp.
    pose proof (zlen_nonneg old). pose proof (cstr_blk_length _ _ Hs).
    rewrite (u64_small (_ + _ + 1)) by lia. unfold krealloc.
    rewrite (proj2 (Z.eqb_neq _ _)) by lia. rewrite Hold. simpl lift_opt.
    rewrite bind_ok, decide_True by done.
    destruct (kmalloc_ok o Hok m (ent_size (buffer_entry dev) + len + 1)) as (p & Hpn & ->); [lia|].
    rewrite bind_ok. simpl. rewrite insert_insert_eq, take_ge by (unfold zlen in *; lia).
    eexists p, _, _, _. do 3 (split; [done|]).
    destruct Hs as (Hn & rest & ->). split; [|split].
    + rewrite zlen_app in *. unfold zlen in *. rewrite length_replicate.
      rewrite length_app in *. lia.
    + split; [done|]. eexists. rewrite <- app_assoc. simpl. done.
    + unfold zlen in *. lia.
  - rewrite Hp. simpl. rewrite u64_small by lia.
    destruct (kmalloc_zeroed o Hok m (len + 1)) as (p & m1 & Hpn & -> & ->); [lia|].
    rewrite bind_ok. eexists p, _, _, _. do 3 (split; [done|]). simpl.
    split; [unfold zlen; rewrite length_replicate; lia|]. split; [|rewrite zlen_nil; lia].
    split; [set_solver|]. exists (replicate (Z.to_nat len) (Some NUL)).
    by replace (Z.to_nat (len + 1)) with (S (Z.to_nat len)) by lia.
Qed.

Lemma grown_heap st es pend wb W w p blk : dev_inv st es pend ->
  m_heap (k_mem st) !! wb = None -> cstr_blk W w ->
  <[wb := W]> (m_heap (k_mem st)) !! p = None ->
  let h := drop_pending pend (<[p := blk]> (<[wb := W]> (m_heap (k_mem st)))) in
  h !! p = Some blk /\ str_at h wb w /\ wb <> p /\ m_heap (k_mem st) !! p = None /\
  (forall b, b ∈ owned (k_dev st) es None -> h !! b = m_heap (k_mem st) !! b).
Proof.
  intros Hinv Hwb HW Hp h. pose proof (inv_nodup _ _ _ Hinv) as Hnd.
  assert (wb <> p) by (intros ->; by rewrite lookup_insert_eq in Hp).
  rewrite lookup_insert_ne in Hp by done.
  assert (Hout : forall b, b ∈ owned (k_dev st) es pend -> b <> p /\ b <> wb)
    by (intros b Hb; destruct (owned_live _ _ _ _ Hinv Hb); split; congruence).
  assert (Hdrop : forall b, b ∉ match pend with Some x => [x.1] | None => [] end ->
    h !! b = <[p := blk]> (<[wb := W]> (m_heap (k_mem st))) !! b).
  { intros b Hb. unfold h, drop_pending. destruct pend as [x|]; [|done].
    apply lookup_delete_ne. set_solver. }
  assert (Hpx : forall b, b ∈ match pend with Some x => [x.1] | None => [] end ->
    b <> p /\ b <> wb) by (intros b Hb; apply Hout; unfold owned; set_solver).
  split; [|split; [|split; [done|split; [done|]]]].
  - rewrite Hdrop by (intros Hb; by destruct (Hpx _ Hb)). apply lookup_insert_eq.
  - exists W. rewrite Hdrop by (intros Hb; by destruct (Hpx _ Hb)).
    rewrite lookup_insert_ne, lookup_insert_eq by done. done.
  - intros b Hb. destruct (Hout b) as [? ?]; [by apply (owned_subseteq _ _ pend)|].
    rewrite Hdrop; [by rewrite !lookup_insert_ne|].
    destruct pend as [x|]; [|set_solver].
    rewrite owned_some, NoDup_middle in Hnd. rewrite owned_none in Hb. set_solver.
Qed.

Lemma pending_frame st es pend wb W dev : dev_inv st es pend ->
  m_heap (k_mem st) !! wb = None -> first_packet dev = first_packet (k_dev st) ->
  buffer_entry dev = buffer_entry (k_dev st) ->
  pending_ok (<[wb := W]> (m_heap (k_mem st))) dev pend.
Proof.
  intros Hinv Hwb Hf He. pose proof (inv_pend _ _ _ Hinv) as Hp. unfold pending_ok in *.
  rewrite Hf, He. destruct pend as [[b s]|]; [|done].
  destruct Hp as (? & ? & blk & Hb & ?). split; [done|]. split; [done|]. exists blk.
  by rewrite lookup_insert_ne by congruence.
Qed.

(** ** Leaving through the label exit: *)

Lemma write_exit_ok h t dev wb retval fpos : lock dev = true -> is_Some (h !! wb) ->
  write_exit (Mem h t) dev (PAddr wb 0) retval fpos
  = Ok (retval, fpos, KState (Mem (delete wb h) t) (set_lock dev false)).
Proof.
  intros Hl Hwb. unfold write_exit, kfree. simpl. rewrite decide_True by done.
  unfold mutex_unlock. rewrite bind_ok, Hl, bind_ok. done.
Qed.

(** ** Adding the complete message to the ring *)

(** The heap after the evicted entry, if any, is freed. *)
Definition drop_evicted (es : list slot) (h : heap) : heap :=
  if decide (length es < 10)%nat then h
  else match es with x :: _ => delete x.1 h | [] => h end.

Lemma free_evicted es h t : (length es <= 10)%nat ->
  Forall (fun x => str_at h x.1 x.2) es ->
  (if negb (is_null (evicted (slot_entry <$> es))) then
     _ ← pdebug_s h (evicted (slot_entry <$> es)); kfree (Mem h t) (evicted (slot_entry <$> es))
   else Ok (Mem h t))
  = Ok (Mem (drop_evicted es h) t).
Proof.
  intros Hle Hs. unfold evicted, drop_evicted. rewrite length_fmap.
  destruct (decide (length es < 10)%nat); [done|].
  destruct es as [|[b s] es]; [simpl in *; lia|]. simpl.
  inversion_clear Hs as [|? ? Hb _]. simpl in Hb.
  rewrite (pdebug_at _ _ s) by (done || lia). rewrite bind_ok. unfold kfree. simpl.
  rewrite decide_True by (eauto with aesd). done.
Qed.

Lemma drop_evicted_keep es x h b : NoDup (es ++ [x]).*1 ->
  b ∈ (lastn 10 (es ++ [x])).*1 -> (length es <= 10)%nat -> drop_evicted es h !! b = h !! b.
Proof.
  intros Hn Hb Hle. unfold drop_evicted. case_decide; [done|].
  destruct es as [|y es]; [done|]. apply lookup_delete_ne. intros <-.
  unfold lastn in Hb. rewrite length_app in Hb. simpl in *.
  replace (length es + 1 - 9)%nat with 1%nat in Hb by lia. simpl in Hb.
  rewrite NoDup_cons in Hn. naive_solver.
Qed.

Lemma drop_evicted_keep_out es h b : b ∉ es.*1 -> drop_evicted es h !! b = h !! b.
Proof.
  intros Hb. unfold drop_evicted. case_decide; [done|].
  destruct es as [|y es]; [done|]. apply lookup_delete_ne. set_solver.
Qed.

Lemma lastn_fmap {A B} (f : A -> B) n (l : list A) : f <$> lastn n l = lastn n (f <$> l).
Proof. unfold lastn. by rewrite fmap_drop, length_fmap. Qed.

(** The heap after a commit: the message and the entries are kept, the
    evicted entry and the write buffer are gone, and the block [rb] that
    aesd_circular_buffer_add_entry allocates stays behind. *)
Definition commit_heap (es : list slot) (x : list char) (wb rb : nat) (h : heap) : heap :=
  delete wb (drop_evicted es (<[rb := replicate (length x) None]> h)).

Lemma commit_heap_keep st es p x wb rb b : dev_inv st es (Some (p, x)) ->
  m_heap (k_mem st) !! rb = None -> wb ∉ owned (k_dev st) es (Some (p, x)) ->
  b ∈ owned (k_dev st) (lastn 10 (es ++ [(p, x)])) None ->
  commit_heap es x wb rb (m_heap (k_mem st)) !! b = m_heap (k_mem st) !! b.
Proof.
  intros Hinv Hrb Hwb Hb. pose proof (inv_nodup _ _ _ Hinv) as Hn.
  pose proof (ring_cap _ _ (inv_ring _ _ _ Hinv)) as Hle. rewrite length_fmap in Hle.
  assert (Hn' : NoDup ((es ++ [(p, x)]).*1 ++ dev_cells (k_dev st)))
    by (rewrite fmap_app, <- app_assoc; done).
  apply NoDup_app in Hn' as (Hn1 & Hdisj & _).
  assert (Hsub : b ∈ owned (k_dev st) es (Some (p, x))).
  { rewrite owned_some. rewrite owned_none in Hb. apply elem_of_app in Hb as [Hb|Hb]; [|set_solver].
    unfold lastn in Hb. rewrite fmap_drop in Hb.
    assert (b ∈ (es ++ [(p, x)]).*1) as Hb'.
    { rewrite <- (take_drop (length (es ++ [(p, x)]) - 10) ((es ++ [(p, x)]).*1)). set_solver. }
    rewrite fmap_app in Hb'. set_solver. }
  assert (b <> rb) by (intros ->; by eapply fresh_not_owned).
  unfold commit_heap. rewrite lookup_delete_ne by set_solver.
  transitivity ((<[rb := replicate (length x) None]> (m_heap (k_mem st))) !! b);
    [|by apply lookup_insert_ne].
  rewrite owned_none in Hb. apply elem_of_app in Hb as [Hb|Hb].
  - by apply (drop_evicted_keep _ (p, x)).
  - apply drop_evicted_keep_out. intros Hin. apply (Hdisj b); [|done].
    rewrite fmap_app. set_solver.
Qed.

Lemma write_commit_ok st es p x wb retval fpos :
  dev_inv st es (Some (p, x)) -> x <> [] -> is_Some (m_heap (k_mem st) !! wb) ->
  wb ∉ owned (k_dev st) es (Some (p, x)) ->
  exists rb t' b', m_heap (k_mem st) !! rb = None /\
    let st' := KState (Mem (commit_heap es x wb rb (m_heap (k_mem st))) t')
      (set_end_of_packet (set_first_packet (set_buffer (k_dev st) b') 0) 0) in
    write_commit (k_mem st) (set_end_of_packet (set_lock (k_dev st) true) 1) (PAddr wb 0)
      retval fpos
    = Ok (retval, s64 (u64 (fpos + ent_size (buffer_entry (k_dev st)))), st')
    /\ dev_inv st' (lastn 10 (es ++ [(p, x)])) None.
Proof.
  intros Hinv Hx Hwb Hwbo. unfold write_commit. simpl end_of_packet. cbv beta iota.
  change (1 =? 1) with true. cbv iota.
  unfold the_buffer. simpl buffer_at. rewrite (inv_buffer_at _ _ _ Hinv), bind_ok.
  unfold the_buffer_entry. simpl buffer_entry_at.
  rewrite (inv_buffer_entry_at _ _ _ Hinv), bind_ok. simpl buffer. simpl buffer_entry.
  destruct (inv_pend _ _ _ Hinv) as (_ & Hbp & blk & Hblk & Hcs & Hzl).
  set (be := buffer_entry (k_dev st)) in *. destruct be as [bp nl] eqn:Hbe. simpl in Hbp. subst bp.
  assert (Hxl : 0 < zlen x) by (destruct x; [done|]; unfold zlen; simpl; lia).
  destruct (kmalloc_ok o Hok (k_mem st) (zlen x) Hxl) as (rb & Hrb & Hkm).
  destruct (@add_entry_ok (@kmalloc_allocator o) (k_mem st) (buffer (k_dev st))
    (slot_entry <$> es) es.*2 p x nl _ _ (inv_ring _ _ _ Hinv) (inv_holds _ _ _ Hinv)
    (ex_intro _ blk (conj Hblk Hcs)) Hkm eq_refl) as (Hadd & Hring & Hholds).
  rewrite Hadd, bind_ok. cbn [m_heap].
  unfold zlen in Hkm |- *. rewrite Nat2Z.id in *.
  pose proof (ring_cap _ _ (inv_ring _ _ _ Hinv)) as Hle. rewrite length_fmap in Hle.
  rewrite free_evicted; [|done|].
  - rewrite bind_ok. rewrite write_exit_ok; [|done|].
    + eexists rb, _, (ring_put _ _ _). split; [done|]. split.
      { unfold set_lock, set_end_of_packet, set_first_packet, set_buffer; simpl.
        by rewrite (inv_lock _ _ _ Hinv). }
      apply (commit_inv _ _ _ _ _ _ _ Hinv).
      * rewrite lastn_fmap, fmap_app. exact Hring.
      * intros b Hb. by apply (commit_heap_keep _ _ p).
    + rewrite owned_some in Hwbo. rewrite drop_evicted_keep_out by set_solver.
      rewrite lookup_insert_ne; [done|]. intros ->. destruct Hwb. congruence.
  - eapply Forall_impl; [exact (inv_strs _ _ _ Hinv)|]. intros y Hy. simpl in *.
    apply str_at_insert_ne; [|done]. intros Heq.
    destruct (str_at_live _ _ _ Hy) as [? Hl]. rewrite Heq in Hl. congruence.
Qed.

(** ** The whole handler *)

(** What a write of the bytes [w] leaves behind. *)
Definition write_result (st : kstate) (es : list slot) (pend : option slot) (w : list char)
    (fpos ret : Z) (r : res (Z * Z * kstate)) : Prop :=
  let s := pend_str pend ++ w in
  let nl := message_size (k_dev st) + zlen w + 1 in
  exists p st',
    if bool_decide (newline ∈ w) then
      r = Ok (ret, s64 (u64 (fpos + nl)), st') /\ dev_inv st' (lastn 10 (es ++ [(p, s)])) None
    else
      r = Ok (ret, fpos, st') /\ dev_inv st' es (Some (p, s)) /\
      message_size (k_dev st') = nl.

(** The flag end_of_packet after the search for a newline. *)
Lemma newline_flag st es pend q (w : list char) : dev_inv st es pend ->
  (is_null q = false <-> newline ∈ w) ->
  (if negb (is_null q) then set_end_of_packet (set_lock (k_dev st) true) 1
   else set_lock (k_dev st) true)
  = set_end_of_packet (set_lock (k_dev st) true) (if bool_decide (newline ∈ w) then 1 else 0).
Proof.
  intros Hinv Hq. destruct (is_null q); simpl negb; cbv iota.
  - rewrite bool_decide_eq_false_2 by naive_solver. pose proof (inv_eop _ _ _ Hinv) as He.
    unfold set_end_of_packet; simpl. by rewrite <- He.
  - by rewrite bool_decide_eq_true_2 by naive_solver.
Qed.

(** From the state that holds the grown message to the end. *)
Lemma write_finish st es p s (w : list char) wb ret fpos : dev_inv st es (Some (p, s)) ->
  (newline ∈ w -> s <> []) ->
  is_Some (m_heap (k_mem st) !! wb) -> wb ∉ owned (k_dev st) es (Some (p, s)) ->
  exists st',
    let r := write_commit (k_mem st)
      (set_end_of_packet (set_lock (k_dev st) true) (if bool_decide (newline ∈ w) then 1 else 0))
      (PAddr wb 0) ret fpos in
    if bool_decide (newline ∈ w) then
      r = Ok (ret, s64 (u64 (fpos + ent_size (buffer_entry (k_dev st)))), st') /\
      dev_inv st' (lastn 10 (es ++ [(p, s)])) None
    else
      r = Ok (ret, fpos, st') /\ dev_inv st' es (Some (p, s)) /\
      buffer_entry (k_dev st') = buffer_entry (k_dev st).
Proof.
  intros Hinv Hsw Hwb Hwbo. case_bool_decide as Hw.
  - destruct (write_commit_ok st es p s wb ret fpos Hinv (Hsw Hw) Hwb Hwbo)
      as (rb & t' & b' & _ & Hc & Hi). eauto.
  - eexists (KState (Mem (delete wb (m_heap (k_mem st))) (m_tick (k_mem st))) (k_dev st)).
    split; [|split].
    + unfold write_commit. simpl end_of_packet. change (0 =? 1) with false. cbv iota.
      destruct st as [[h t] dev]. simpl in Hwb |- *. rewrite write_exit_ok by done.
      pose proof (inv_lock _ _ _ Hinv) as Hl. pose proof (inv_eop _ _ _ Hinv) as He.
      simpl in Hl, He. destruct dev; simpl in *. by subst.
    + apply (dev_inv_heap st _ _ _ Hinv). intros b Hb. simpl.
      apply lookup_delete_ne. set_solver.
    + done.
Qed.

(** From the write buffer on: [W] are its bytes, [w] their string. *)
Lemma write_store_ok st es pend wb W w t0 ret fpos : dev_inv st es pend ->
  m_heap (k_mem st) !! wb = None -> cstr_blk W w -> zlen w <= max_count ->
  message_size (k_dev st) < 2 ^ 62 ->
  write_result st es pend w fpos ret
    (write_store (Mem (<[wb := W]> (m_heap (k_mem st))) t0) (set_lock (k_dev st) true)
       (PAddr wb 0) ret fpos).
Proof.
  intros Hinv Hwb HW Hwl Hsz. unfold write_store, write_result, max_count in *. cbn [m_heap].
  rewrite (message_size_pend _ _ _ (inv_pend _ _ _ Hinv)) in *.
  set (s := pend_str pend ++ w). set (nl := pend_size _ _ + _ + 1).
  destruct (strchr_at (<[wb := W]> (m_heap (k_mem st))) wb w newline) as (q & -> & Hq);
    [by apply str_at_insert_eq | done |].
  rewrite bind_ok, (newline_flag _ _ _ _ _ Hinv Hq). set (dev1 := set_end_of_packet _ _).
  unfold the_buffer_entry. simpl buffer_entry_at.
  rewrite (inv_buffer_entry_at _ _ _ Hinv), bind_ok.
  rewrite (strlen_at _ _ w), bind_ok by (by apply str_at_insert_eq).
  pose proof (zlen_nonneg w).
  destruct (write_grow_ok (Mem (<[wb := W]> (m_heap (k_mem st))) t0) dev1 pend (zlen w))
    as (p & blk & nl' & t & Hp & -> & Hnl & Hbl & Hcb & Hroom);
    [by apply (pending_frame st es) | lia | done |].
  cbn [m_heap] in Hp |- *. rewrite bind_ok. simpl is_null. cbv iota.
  destruct (grown_heap _ _ _ _ _ _ _ blk Hinv Hwb HW Hp) as (Hp2 & Hw2 & Hne & Hp0 & Hkeep).
  set (h2 := drop_pending _ _) in *. cbn [m_heap m_tick].
  destruct (strcat_at h2 p wb blk (pend_str pend) w Hp2 Hcb Hw2) as (blk' & -> & Hbl' & Hcb');
    [unfold zlen in *; lia|]. rewrite bind_ok.
  rewrite (pdebug_at _ _ (pend_str pend ++ w)), bind_ok by (eauto with aesd || lia).
  change (pend_size dev1 pend) with (pend_size (k_dev st) pend) in Hnl. fold nl in Hnl. subst nl'.
  assert (Hk3 : forall b, b ∈ owned (k_dev st) es None ->
    <[p := blk']> h2 !! b = m_heap (k_mem st) !! b).
  { intros b Hb. rewrite lookup_insert_ne; [by apply Hkeep|]. intros <-.
    apply (fresh_not_owned _ _ _ _ Hinv Hp0). by apply owned_subseteq. }
  pose proof (pending_inv st es pend (<[p := blk']> h2) t p blk' s nl Hinv Hp0
    (lookup_insert_eq _ _ _) Hcb' ltac:(unfold zlen in *; lia) Hk3) as Hinv3.
  destruct (write_finish _ _ _ _ w wb ret fpos Hinv3) as [st' Hst'].
  - unfold s. destruct w; [set_solver|]. by destruct (pend_str pend).
  - simpl. rewrite lookup_insert_ne by congruence. destruct Hw2 as (? & -> & _). eauto.
  - rewrite owned_some. pose proof (fresh_not_owned _ _ _ _ Hinv Hwb) as Hwn.
    pose proof (owned_subseteq (k_dev st) es pend) as Hsub. rewrite owned_none in Hsub.
    unfold dev_cells in *. simpl. set_solver.
  - exists p, st'. unfold dev1. destruct (bool_decide (newline ∈ w)); [exact Hst'|].
    destruct Hst' as (? & Hi' & Hbe).
    rewrite (message_size_pend _ _ _ (inv_pend _ _ _ Hi')). simpl. by rewrite Hbe.
Qed.

Lemma write_ok k st es pend filp ubuf fpos :
  dev_inv st es pend -> private_data filp = true -> 0 < zlen ubuf <= max_count ->
  lock_interrupted k = false -> user_left k <= 0 ->
  message_size (k_dev st) < 2 ^ 62 ->
  write_result st es pend (until_nul ubuf) fpos (zlen ubuf)
    (aesd_write k st filp ubuf (zlen ubuf) fpos).
Proof.
  intros Hinv Hf Hc Hk Hu Hsz. unfold aesd_write, device_of. rewrite Hf, bind_ok, Hk.
  unfold mutex_lock. rewrite (inv_lock _ _ _ Hinv), bind_ok.
  destruct (write_fetch k (k_mem st) ubuf Hc) as (wb & m1 & Hwb & -> & W & Hcopy & HW).
  simpl is_null. cbv iota. inv_bind Hcopy. rewrite Hs, bind_ok, Hcopy, bind_ok.
  unfold uncopied. replace (Z.max 0 (Z.min (zlen ubuf) (user_left k))) with 0 by lia.
  change (negb (0 =? 0)) with false. cbv iota.
  apply (write_store_ok _ _ _ _ W); try done; [by apply HW|].
  pose proof (length_until_nul ubuf). unfold zlen in *. lia.
Qed.

(** A user buffer that cannot be read: the device and every block it refers
    to are as before. *)
Lemma write_fault k st es pend filp ubuf fpos :
  dev_inv st es pend -> private_data filp = true -> 0 < zlen ubuf <= max_count ->
  lock_interrupted k = false -> 0 < user_left k ->
  exists t, aesd_write k st filp ubuf (zlen ubuf) fpos
    = Ok (- EFAULT, fpos, KState (Mem (m_heap (k_mem st)) t) (k_dev st)).
Proof.
  intros Hinv Hf Hc Hk Hu. unfold aesd_write, device_of. rewrite Hf, bind_ok, Hk.
  unfold mutex_lock. rewrite (inv_lock _ _ _ Hinv), bind_ok.
  destruct (write_fetch k (k_mem st) ubuf Hc) as (wb & m1 & Hwb & -> & W & Hcopy & _).
  exists (m_tick m1).
  simpl is_null. cbv iota. inv_bind Hcopy. rewrite Hs, bind_ok, Hcopy, bind_ok.
  rewrite (proj2 (Z.eqb_neq (uncopied _ _) 0)) by (unfold uncopied; lia).
  simpl negb. cbv iota. rewrite write_exit_ok by (done || (rewrite lookup_insert_eq; eauto)).
  rewrite delete_insert_id by done. destruct st as [m d]. destruct d.
  pose proof (inv_lock _ _ _ Hinv) as Hl. simpl in *. by subst.
Qed.
End Write.

(** ** Allocations that fail *)

Section NoMemory.
Context (o : AllocOracle).

Lemma kmalloc_fails m n : (forall h n, o (m_tick m) h n = None) -> n <> 0 ->
  kmalloc m n = (PNull, Mem (m_heap m) (S (m_tick m))).
Proof.
  intros Ho Hn. unfold kmalloc, alloc_block, alloc_choice.
  by rewrite (proj2 (Z.eqb_neq _ _) Hn), Ho.
Qed.

(** No memory for the write buffer. *)
Lemma write_nomem k st es pend filp ubuf fpos :
  dev_inv st es pend -> private_data filp = true -> 0 < zlen ubuf <= max_count ->
  lock_interrupted k = false -> (forall h n, o (m_tick (k_mem st)) h n = None) ->
  exists t, aesd_write k st filp ubuf (zlen ubuf) fpos
    = Ok (- ENOMEM, fpos, KState (Mem (m_heap (k_mem st)) t) (k_dev st)).
Proof.
  intros Hinv Hf Hc Hk Ho. unfold aesd_write, device_of. rewrite Hf, bind_ok, Hk.
  unfold mutex_lock. rewrite (inv_lock _ _ _ Hinv), bind_ok. unfold max_count in *.
  rewrite kmalloc_fails by (done || (rewrite u64_small; lia)).
  change (is_null PNull) with true. cbv iota. unfold write_exit, kfree.
  rewrite bind_ok. unfold mutex_unlock. simpl. exists (S (m_tick (k_mem st))).
  destruct st as [m d]. destruct d. pose proof (inv_lock _ _ _ Hinv) as Hl.
  simpl in *. by subst.
Qed.
End NoMemory.
