(* ===== verification/DriverSeek.v ===== *)
(** * Facts about aesd_adjust_file_offset and aesd_ioctl *)

From stdpp Require Import base numbers strings gmap list.
From S2P Require Import Prelude CMem CString CircularBuffer RingSpec RingFacts Ioctl CharDriver.
From S2P Require Import DriverSpec.

#[local] Open Scope Z_scope.

(** ** The loop that adds up the sizes *)

(** The entry of the [k]-th newest-from-oldest command, while the sum
    out_offs + k stays inside the array. *)
Lemma slot_no_wrap b L k e : ring b L -> out_offs b + Z.of_nat k < 10 -> L !! k = Some e ->
  get_entry b (u8 (out_offs b + Z.of_nat k)) = Ok e.
Proof.
  intros HR Hk He. pose proof (ring_out _ _ HR). rewrite u8_small by lia.
  pose proof (lookup_lt_Some _ _ _ He). pose proof (ring_cap _ _ HR).
  pose proof (ring_slot b L k e HR ltac:(lia)) as Hs.
  rewrite Z.mod_small in Hs by lia. apply Hs. by rewrite lookup_app_l.
Qed.

Lemma adjust_loop_sum b L cmd off fuel (i : nat) total : ring b L ->
  (i <= cmd)%nat -> (cmd <= length L)%nat -> (cmd < 10)%nat -> (cmd - i < fuel)%nat ->
  out_offs b + Z.of_nat cmd <= 10 ->
  Forall (fun n => 0 <= n) (ring_sizes L) -> zsum (ring_sizes L) < 2 ^ 63 ->
  0 <= off < 2 ^ 32 -> total = zsum (ring_sizes (take i L)) ->
  adjust_loop fuel b (Z.of_nat i) (Z.of_nat cmd) off total
  = Ok (u64 (zsum (ring_sizes (take cmd L)) + off)).
Proof.
  intros HR Hi Hcmd Hcmd10 Hf Ho Hnn Htot Hoff. revert i total Hi Hf.
  induction fuel as [|fuel IH]; intros i total Hi Hf ->; [lia|]. cbn [adjust_loop].
  rewrite (proj2 (Z.leb_le _ _)), u32_small by lia.
  destruct (Z.eqb_spec (Z.of_nat i) (Z.of_nat cmd)); simpl negb; cbv iota.
  - by replace i with cmd by lia.
  - destruct (lookup_lt_is_Some_2 L i) as [e He]; [lia|].
    rewrite (slot_no_wrap b L i e HR ltac:(lia) He), bind_ok.
    replace (Z.of_nat i + 1) with (Z.of_nat (S i)) by lia.
    apply IH; [lia | lia |].
    assert (Hs : zsum (ring_sizes (take (S i) L)) = zsum (ring_sizes (take i L)) + ent_size e).
    { unfold ring_sizes. rewrite (take_S_r _ _ e), fmap_app, zsum_app by done. simpl. lia. }
    assert (Hb : forall j, 0 <= zsum (ring_sizes (take j L)) <= zsum (ring_sizes L)).
    { intros j. unfold ring_sizes in *. rewrite <- (take_drop j L) in Hnn |- * at 3.
      rewrite fmap_app, zsum_app. rewrite fmap_app in Hnn. apply Forall_app in Hnn as [? ?].
      pose proof (zsum_nonneg (ent_size <$> take j L)).
      pose proof (zsum_nonneg (ent_size <$> drop j L)). naive_solver lia. }
    pose proof (Hb i). pose proof (Hb (S i)). rewrite u64_small by lia. lia.
Qed.

(** The loop leaves the array when out_offs + write_cmd exceeds ten. *)
Lemma adjust_loop_overrun b cmd off fuel (i : nat) total : length (entry b) = 10%nat ->
  0 <= out_offs b < 10 -> (cmd < 10)%nat -> (i < cmd)%nat -> (10 - i < fuel)%nat ->
  10 < out_offs b + Z.of_nat cmd -> out_offs b + Z.of_nat i <= 10 ->
  adjust_loop fuel b (Z.of_nat i) (Z.of_nat cmd) off total = Fault OutOfBounds.
Proof.
  intros Hlen Ho Hcmd Hi Hf Hover Hin. revert i total Hi Hf Hin.
  induction fuel as [|fuel IH]; intros i total Hi Hf Hin; [lia|]. cbn [adjust_loop].
  rewrite (proj2 (Z.leb_le _ _)), u32_small, u8_small by lia.
  rewrite (proj2 (Z.eqb_neq _ _)) by lia. simpl negb. cbv iota.
  destruct (Z.eq_dec (out_offs b + Z.of_nat i) 10) as [Heq|Hneq].
  - rewrite Heq, get_entry_oob by (unfold zlen; lia). done.
  - destruct (lookup_lt_is_Some_2 (entry b) (Z.to_nat (out_offs b + Z.of_nat i))) as [e He]; [lia|].
    rewrite (get_entry_ok _ _ e) by (done || lia). rewrite bind_ok.
    replace (Z.of_nat i + 1) with (Z.of_nat (S i)) by lia. apply IH; lia.
Qed.

(** ** The slot of a command *)

Lemma seek_slot b L (cmd : nat) : ring b L -> (cmd < 10)%nat ->
  get_entry b (u8 (u32 (out_offs b + Z.of_nat cmd) mod 10))
  = Ok (default null_entry (L !! cmd)).
Proof.
  intros HR Hc. pose proof (ring_out _ _ HR).
  rewrite u32_small, u8_small by (try lia; pose proof (Z.mod_pos_bound (out_offs b + Z.of_nat cmd) 10); lia).
  apply (ring_slot b L); [done..|]. pose proof (ring_cap _ _ HR).
  destruct (decide (cmd < length L)%nat) as [Hlt|Hge].
  - rewrite lookup_app_l by done. destruct (lookup_lt_is_Some_2 L cmd Hlt) as [e He].
    by rewrite He.
  - rewrite lookup_app_r, (lookup_ge_None_2 L) by lia. simpl.
    apply lookup_replicate. split; [done|lia].
Qed.

Lemma adjust_fail_unlock st m filp retval : lock (k_dev st) = false -> m = k_mem st ->
  adjust_fail filp m (set_lock (k_dev st) true) retval = Ok (retval, filp, st).
Proof.
  intros Hl ->. unfold adjust_fail, mutex_unlock. simpl. destruct st as [m d].
  destruct d; simpl in *. by subst.
Qed.

(** Everything up to the check of the entry's pointer. *)
Lemma adjust_entry k st es pend filp (cmd : nat) off : dev_inv st es pend ->
  private_data filp = true -> lock_interrupted k = false -> (cmd < 10)%nat ->
  aesd_adjust_file_offset k st filp (Z.of_nat cmd) off
  = match es !! cmd with
    | None => Ok (- EINVAL, filp, st)
    | Some x =>
        if zlen x.2 <? off then Ok (- EINVAL, filp, st)
        else
          total_size ← adjust_loop 12 (buffer (k_dev st)) 0 (Z.of_nat cmd) off 0;
          Ok (0, File (private_data filp) (s64 total_size), st)
    end.
Proof.
  intros Hinv Hf Hk Hc. unfold aesd_adjust_file_offset, device_of. rewrite Hf, bind_ok.
  rewrite (proj2 (Z.leb_gt 10 _)), (proj2 (Z.ltb_ge _ 0)) by lia. simpl orb. cbv iota.
  rewrite Hk. unfold mutex_lock. rewrite (inv_lock _ _ _ Hinv), bind_ok.
  unfold the_buffer. simpl buffer_at. rewrite (inv_buffer_at _ _ _ Hinv), bind_ok.
  simpl buffer. rewrite (seek_slot _ _ _ (inv_ring _ _ _ Hinv) Hc), bind_ok.
  rewrite list_lookup_fmap. pose proof (inv_lock _ _ _ Hinv) as Hl.
  set (r := adjust_loop 12 _ _ _ _ _). clearbody r.
  destruct (es !! cmd) as [x|]; simpl.
  - destruct (zlen x.2 <? off); [by rewrite adjust_fail_unlock|].
    destruct r as [v|f]; simpl; [|done].
    by rewrite adjust_fail_unlock.
  - by rewrite adjust_fail_unlock.
Qed.

(** ** The new position *)

Lemma take_sum h L S n : Forall2 (entry_holds h) L S ->
  zsum (ring_sizes (take n L)) = zlen (contents (take n S)).
Proof. intros HS. eapply holds_total, Forall2_take, HS. Qed.

(** A written command, an offset within it, and no wrap-around between the
    oldest command and this one. *)
Lemma adjust_ok k st es pend filp (cmd : nat) x off : dev_inv st es pend ->
  private_data filp = true -> lock_interrupted k = false -> (cmd < 10)%nat ->
  zlen (contents es.*2) < 2 ^ 60 -> es !! cmd = Some x -> 0 <= off <= zlen x.2 ->
  off < 2 ^ 32 -> out_offs (buffer (k_dev st)) + Z.of_nat cmd <= 10 ->
  aesd_adjust_file_offset k st filp (Z.of_nat cmd) off
  = Ok (0, File true (zlen (contents (take cmd es.*2)) + off), st).
Proof.
  intros Hinv Hf Hk Hc Ht Hx Hoff Ho32 Ho. rewrite (adjust_entry _ _ es pend), Hx by done.
  rewrite (proj2 (Z.ltb_ge _ _)) by lia.
  pose proof (inv_holds _ _ _ Hinv) as Hh. pose proof (inv_total _ _ _ Hinv) as Htot.
  pose proof (lookup_lt_Some _ _ _ Hx).
  change (adjust_loop 12 (buffer (k_dev st)) 0) with
    (adjust_loop 12 (buffer (k_dev st)) (Z.of_nat 0)).
  rewrite (adjust_loop_sum _ (slot_entry <$> es)); try done; try lia.
  - rewrite bind_ok, (take_sum _ _ _ cmd Hh), Hf.
    assert (Hle : zlen (contents (take cmd es.*2)) + zlen x.2 <= zlen (contents es.*2)).
    { assert (Hi : es.*2 !! cmd = Some x.2) by (by rewrite list_lookup_fmap, Hx).
      rewrite <- (take_drop_middle _ _ _ Hi) at 2. unfold contents.
      rewrite concat_app, zlen_app. simpl. rewrite zlen_app.
      pose proof (zlen_nonneg (concat (drop (S cmd) es.*2))). lia. }
    pose proof (zlen_nonneg (contents (take cmd es.*2))).
    rewrite s64_u64, s64_small by lia. done.
  - apply (inv_ring _ _ _ Hinv).
  - by rewrite length_fmap; lia.
  - by eapply holds_nonneg.
Qed.

Lemma ioctl_seekto k st filp cmd off : user_left k <= 0 ->
  aesd_ioctl k st filp AESDCHAR_IOCSEEKTO (Seekto cmd off)
  = '(r, f, st) ← aesd_adjust_file_offset k st filp cmd off; Ok (s32 r, f, st).
Proof.
  intros Hu. unfold aesd_ioctl. rewrite Z.eqb_refl.
  by assert (uncopied k sizeof_aesd_seekto = 0) as -> by (unfold uncopied, sizeof_aesd_seekto; lia).
Qed.
