(* ===== verification/DriverModule.v ===== *)
(** * Facts about the module's entry and exit points *)

From stdpp Require Import base numbers strings gmap list.
From S2P Require Import Prelude CMem CString CircularBuffer RingSpec RingFacts Ioctl CharDriver.
From S2P Require Import DriverSpec DriverRead.

#[local] Open Scope Z_scope.

(** ** Loading *)

Section Load.
Context (o : AllocOracle) (Hok : alloc_succeeds o).

Lemma init_inv h t pb pe pr : NoDup [pb; pe; pr] ->
  Forall (fun b => is_Some (h !! b)) [pb; pe; pr] ->
  dev_inv (KState (Mem h t) (AesdDev (PAddr pb 0) aesd_circular_buffer_init (PAddr pe 0)
    null_entry (EOwn (PAddr pr 0)) 0 0 false)) [] None.
Proof. intros Hn Hl. split; simpl; try done; [apply ring_init | by eexists _, _]. Qed.

(** A successful load: both registrations in place, an empty device. *)
Lemma init_ok m : exists s, aesd_init_module m 0 0 = Ok (0, s) /\
  dev_inv (mod_k s) [] None /\ chrdev_region s = true /\ cdev_added s = true /\
  cdev_misused s = false /\ cdev_set s = true /\
  (exists p, read_entry (k_dev (mod_k s)) = EOwn (PAddr p 0)) /\
  (forall b, (b ∈ dev_cells (k_dev (mod_k s)) /\ m_heap m !! b = None) \/
     (b ∉ dev_cells (k_dev (mod_k s)) /\ m_heap m !! b = m_heap (k_mem (mod_k s)) !! b)).
Proof.
  unfold aesd_init_module. change (0 <? 0) with false. cbv iota.
  destruct (kmalloc_ok o Hok m sizeof_circular_buffer eq_refl) as (pb & Hpb & ->).
  rewrite is_null_addr.
  set (m1 := Mem _ _).
  destruct (kmalloc_ok o Hok m1 sizeof_buffer_entry eq_refl) as (pe & Hpe & ->).
  rewrite is_null_addr. set (m2 := Mem _ (S (m_tick m1))).
  destruct (kmalloc_ok o Hok m2 sizeof_buffer_entry eq_refl) as (pr & Hpr & ->).
  rewrite is_null_addr. simpl in Hpe, Hpr.
  assert (pe <> pb) by (intros ->; by rewrite lookup_insert_eq in Hpe).
  assert (pr <> pe) by (intros ->; by rewrite lookup_insert_eq in Hpr).
  rewrite lookup_insert_ne in Hpr by done.
  assert (pr <> pb) by (intros ->; by rewrite lookup_insert_eq in Hpr).
  rewrite lookup_insert_ne in Hpe, Hpr by done.
  subst m2 m1. cbn [m_heap m_tick] in *.
  eexists. split.
  { erewrite memset_whole; [rewrite bind_ok|heap_look|by rewrite length_replicate].
    do 2 (erewrite memset_whole; [rewrite bind_ok|heap_look|by rewrite length_replicate]).
    reflexivity. }
  split; [|do 4 (split; [done|]); split; [by eexists|]].
  - simpl. apply init_inv.
    + rewrite !NoDup_cons. set_solver by (auto using NoDup_nil_2).
    + repeat apply Forall_cons_2; try apply Forall_nil_2.
      all: eexists; heap_look.
  - intros b. cbn -[lookup].
    destruct (decide (b ∈ [pb; pe; pr])) as [Hb|Hb]; [left|right]; (split; [done|]).
    + set_solver.
    + rewrite !lookup_insert_ne by set_solver. done.
Qed.
End Load.

(** ** Unloading *)

(** With read_entry still its own block the three structures are freed, and
    nothing else. *)
Lemma cleanup_own s es pend p : dev_inv (mod_k s) es pend -> cdev_set s = true ->
  read_entry (k_dev (mod_k s)) = EOwn (PAddr p 0) ->
  exists s', aesd_cleanup_module s = Ok s' /\ chrdev_region s' = false /\ cdev_added s' = false /\
    cdev_misused s' = cdev_misused s /\
    (forall b, b ∈ dev_cells (k_dev (mod_k s)) -> m_heap (k_mem (mod_k s')) !! b = None) /\
    (forall b, b ∉ dev_cells (k_dev (mod_k s)) ->
       m_heap (k_mem (mod_k s')) !! b = m_heap (k_mem (mod_k s)) !! b).
Proof.
  intros Hinv Hset Hre. unfold aesd_cleanup_module. rewrite Hre. cbn [entry_ptr_addr].
  destruct (inv_addrs _ _ _ Hinv) as (b1 & b2 & Hb1 & Hb2).
  pose proof (inv_cells _ _ _ Hinv) as Hc. pose proof (inv_nodup _ _ _ Hinv) as Hn.
  unfold owned in Hn. rewrite app_assoc in Hn. apply NoDup_app in Hn as (_ & _ & Hn).
  unfold dev_cells in *. rewrite Hre, Hb1, Hb2 in *. cbn [ptr_block app] in *. cbv zeta.
  rewrite !Forall_cons in Hc. destruct Hc as (H1 & H2 & H3 & _).
  rewrite !NoDup_cons in Hn. destruct Hn as (Hn1 & Hn2 & _).
  assert (b1 <> b2 /\ b1 <> p /\ b2 <> p) as (Hd1 & Hd2 & Hd3) by set_solver.
  eexists. split.
  { rewrite kfree_live, bind_ok by done.
    rewrite kfree_live, bind_ok by (simpl; by rewrite lookup_delete_ne).
    rewrite kfree_live, bind_ok by (simpl; by rewrite !lookup_delete_ne by congruence).
    reflexivity. }
  simpl. rewrite Hset, orb_false_r. do 3 (split; [done|]). split.
  - intros b Hb. rewrite !lookup_delete. repeat case_decide; try done. set_solver.
  - intros b Hb. rewrite !lookup_delete_ne by set_solver. done.
Qed.

(** With read_entry pointing into the ring the unload frees an address that
    is not the start of a block, or the ring's block twice. *)
Lemma cleanup_slot s es pend i : dev_inv (mod_k s) es pend ->
  read_entry (k_dev (mod_k s)) = ESlot i -> 0 <= i ->
  aesd_cleanup_module s = Fault BadFree.
Proof.
  intros Hinv Hre Hi. unfold aesd_cleanup_module. rewrite Hre. cbn [entry_ptr_addr]. cbv zeta.
  destruct (inv_addrs _ _ _ Hinv) as (b1 & b2 & Hb1 & Hb2). rewrite Hb1, Hb2. cbn [ptr_add].
  pose proof (inv_cells _ _ _ Hinv) as Hc. pose proof (inv_nodup _ _ _ Hinv) as Hn.
  unfold owned in Hn. rewrite app_assoc in Hn. apply NoDup_app in Hn as (_ & _ & Hn).
  unfold dev_cells in *. rewrite Hb1, Hb2, Hre in *. cbn [ptr_block app] in *.
  rewrite !Forall_cons in Hc. destruct Hc as (H1 & H2 & _).
  rewrite !NoDup_cons in Hn. destruct Hn as (Hn1 & _).
  assert (b1 <> b2) by set_solver.
  destruct (Z.eq_dec i 0) as [->|Hne].
  - change (0 + Z.to_nat (0 * sizeof_buffer_entry))%nat with O.
    rewrite kfree_live, bind_ok by done.
    rewrite kfree_live, bind_ok by (cbn [m_heap]; by rewrite lookup_delete_ne).
    rewrite kfree_dead; [done|]. cbn [m_heap]. rewrite lookup_delete_ne by done.
    apply lookup_delete_eq.
  - rewrite kfree_inner; [done|]. unfold sizeof_buffer_entry. lia.
Qed.
