(* ===== verification/DriverTrace.v ===== *)
(** * Sequences of system calls on the device

    A client opens the device and calls its file operations in any order and
    at any file position; the kernel may interrupt a lock or fail to copy
    user memory.  [driver_step] is one such call, [reachable] any sequence
    of them after a successful load of the module. *)

From stdpp Require Import base numbers strings gmap list.
From S2P Require Import Prelude CMem CString CircularBuffer RingSpec RingFacts Ioctl CharDriver.
From S2P Require Import DriverSpec DriverRead DriverWrite DriverSeek DriverModule.

#[local] Open Scope Z_scope.

(** ** The file operations as one interface (struct file_operations aesd_fops) *)

Inductive syscall : Type :=
| SysRead (count : Z)
| SysWrite (data : list char)
| SysSeek (offset whence : Z)
| SysIoctl (cmd : Z) (arg : aesd_seekto).

Record reply : Type := Reply {
  ret : Z;                    (* the value the handler returns *)
  pos : Z;                    (* the file position it leaves *)
  out : list char             (* what reached the user's buffer *)
}.

Section Fops.
Context (o : AllocOracle) (L : FixedSizeLlseek).

(** The table of file operations: which handler serves which call. *)
Definition aesd_fops (k : kcall) (st : kstate) (filp : file) (c : syscall)
  : res (reply * kstate) :=
  match c with
  | SysRead count =>
      '(r, p, d, st) ← aesd_read k st filp count (f_pos filp); Ok (Reply r p d, st)
  | SysWrite data =>
      '(r, p, st) ← aesd_write k st filp data (zlen data) (f_pos filp); Ok (Reply r p [], st)
  | SysSeek offset whence =>
      '(r, f) ← aesd_seek st filp offset whence; Ok (Reply r (f_pos f) [], st)
  | SysIoctl cmd arg =>
      '(r, f, st) ← aesd_ioctl k st filp cmd arg; Ok (Reply r (f_pos f) [], st)
  end.

(** Messages stay below 2^55 bytes, more than any memory holds. *)
Definition max_message : Z := 2 ^ 55.

(** The calls the handlers cope with: writes of at least one byte, and an
    ioctl whose command index stays clear of the two defects of
    aesd_adjust_file_offset (the unlock of a lock that is not held, and the
    size loop that runs past the array). *)
Definition well_formed (k : kcall) (st : kstate) (c : syscall) : Prop :=
  match c with
  | SysRead _ => True
  | SysWrite data => 0 < zlen data <= max_count /\ message_size (k_dev st) < max_message
  | SysSeek _ _ => True
  | SysIoctl _ arg =>
      lock_interrupted k = false /\ 0 <= seek_write_cmd arg < 10 /\
      0 <= seek_write_cmd_offset arg < 2 ^ 32 /\
      out_offs (buffer (k_dev st)) + seek_write_cmd arg <= 10
  end.

Inductive driver_step (st : kstate) : kstate -> Prop :=
| step_call k filp c r st' :
    private_data filp = true -> - 2 ^ 63 <= f_pos filp < 2 ^ 63 -> well_formed k st c ->
    aesd_fops k st filp c = Ok (r, st') -> driver_step st st'.

Inductive reachable : kstate -> Prop :=
| reach_init m s : aesd_init_module m 0 0 = Ok (0, s) -> cdev_added s = true ->
    reachable (mod_k s)
| reach_step st st' : reachable st -> driver_step st st' -> reachable st'.

(** ** The invariant with its size bound *)

Definition bounded (st : kstate) (es : list slot) (pend : option slot) : Prop :=
  dev_inv st es pend /\ Forall (fun x => zlen x.2 < 2 ^ 56) es.

Lemma contents_bound (S : ring_model) n : Forall (fun s => zlen s < n) S ->
  (length S <= 10)%nat -> 0 < n -> zlen (contents S) <= 10 * n.
Proof.
  intros HS Hl Hn. unfold contents.
  enough (zlen (concat S) <= zlen S * n) by (unfold zlen in *; nia). clear Hl.
  induction HS as [|s S Hs HS IH]; [done|]. simpl. rewrite zlen_app.
  change (zlen (s :: S)) with (Z.of_nat (Datatypes.S (length S))). unfold zlen in *. lia.
Qed.

Lemma bounded_contents st es pend : bounded st es pend -> zlen (contents es.*2) < 2 ^ 60.
Proof.
  intros [Hinv Hb]. pose proof (ring_cap _ _ (inv_ring _ _ _ Hinv)) as Hc.
  rewrite length_fmap in Hc.
  assert (zlen (contents es.*2) <= 10 * 2 ^ 56); [|lia].
  apply contents_bound; [|by rewrite length_fmap|lia].
  by rewrite Forall_fmap.
Qed.

(** ** Each call returns, and keeps the invariant *)

Definition call_ok (r : res (reply * kstate)) : Prop :=
  exists v st' es' pend', r = Ok (v, st') /\ bounded st' es' pend'.

Lemma read_call_ok k st es pend filp count : alloc_succeeds o -> bounded st es pend ->
  private_data filp = true -> - 2 ^ 63 <= f_pos filp < 2 ^ 63 ->
  call_ok (aesd_fops k st filp (SysRead count)).
Proof.
  intros Hok Hb Hf Hp. pose proof (bounded_contents _ _ _ Hb) as Hc. destruct Hb as [Hinv Hb].
  unfold call_ok. simpl aesd_fops. destruct (lock_interrupted k) eqn:Hk.
  - unfold aesd_read, device_of. rewrite Hf, Hk. simpl.
    do 2 eexists. exists es, pend. split; [reflexivity|]. by split.
  - destruct (decide (0 <= f_pos filp < zlen (contents es.*2))) as [Hin|Hout].
    + destruct (read_found o k st es pend filp count (f_pos filp) Hok Hinv Hf Hk Hc Hin)
        as (m' & i & Hm & _ & Hr). rewrite Hr.
      do 2 eexists. exists es, pend. split; [reflexivity|]. split; [|done].
      by apply after_read_inv.
    + rewrite (read_past_end o k st es pend).
      2-4: done. 2: lia.
      2: destruct (decide (0 <= f_pos filp)); [rewrite u64_small | rewrite u64_neg]; lia.
      do 2 eexists. exists es, pend. split; [reflexivity|]. split; [|done].
      by apply after_read_inv.
Qed.

Lemma lastn_incl {A} (P : A -> Prop) n (l : list A) : Forall P l -> Forall P (lastn n l).
Proof. apply Forall_drop. Qed.

(** The pending string is shorter than the size recorded for it. *)
Lemma pend_str_size st es pend : dev_inv st es pend ->
  zlen (pend_str pend) <= message_size (k_dev st).
Proof.
  intros Hinv. pose proof (inv_pend _ _ _ Hinv) as Hp.
  rewrite (message_size_pend _ _ _ Hp). destruct pend as [[b s]|]; simpl.
  - destruct Hp as (_ & _ & blk & _ & Hs & <-). apply cstr_blk_length in Hs. unfold zlen. lia.
  - rewrite zlen_nil. lia.
Qed.

Lemma write_call_ok k st es pend filp data : alloc_succeeds o -> bounded st es pend ->
  private_data filp = true -> well_formed k st (SysWrite data) ->
  call_ok (aesd_fops k st filp (SysWrite data)).
Proof.
  intros Hok [Hinv Hb] Hf [Hn Hm]. unfold call_ok, max_message in *. simpl aesd_fops.
  destruct (lock_interrupted k) eqn:Hk.
  { unfold aesd_write, device_of. rewrite Hf, Hk. simpl.
    do 2 eexists. exists es, pend. split; [reflexivity|]. by split. }
  destruct (decide (user_left k <= 0)) as [Hu|Hu].
  - destruct (write_ok o Hok k st es pend filp data (f_pos filp)) as (p & st' & Hr);
      [done|done|done|done|done|lia|].
    set (w := until_nul data) in *.
    assert (Hsz : zlen (pend_str pend ++ w) < 2 ^ 56).
    { pose proof (pend_str_size _ _ _ Hinv). pose proof (length_until_nul data).
      rewrite zlen_app. unfold max_count, w, zlen in *. lia. }
    destruct (bool_decide (newline ∈ w)).
    + destruct Hr as [-> Hi]. do 3 eexists. exists None. split; [reflexivity|].
      split; [exact Hi|]. apply lastn_incl, Forall_app. split; [done|].
      by apply Forall_singleton.
    + destruct Hr as (-> & Hi & _). do 3 eexists. eexists. split; [reflexivity|].
      split; [exact Hi|done].
  - destruct (write_fault o Hok k st es pend filp data (f_pos filp)) as [t ->];
      [done|done|done|done|lia|].
    do 2 eexists. exists es, pend. split; [reflexivity|]. split; [|done].
    by apply (dev_inv_heap st _ es pend Hinv).
Qed.

Lemma seek_length st es pend : dev_inv st es pend -> zlen (contents es.*2) < 2 ^ 63 ->
  (b ← the_buffer (k_dev st); get_aesd_buffer_length b) = Ok (zlen (contents es.*2)).
Proof.
  intros Hinv Hc. unfold the_buffer. rewrite (inv_buffer_at _ _ _ Hinv), bind_ok.
  rewrite <- (inv_total _ _ _ Hinv) in *.
  apply buffer_length_ring; [apply (inv_ring _ _ _ Hinv) | | done].
  eapply holds_nonneg, inv_holds, Hinv.
Qed.

Lemma seek_call_ok k st es pend filp offset whence : bounded st es pend ->
  private_data filp = true -> call_ok (aesd_fops k st filp (SysSeek offset whence)).
Proof.
  intros Hb Hf. pose proof (bounded_contents _ _ _ Hb) as Hc. destruct Hb as [Hinv Hb].
  pose proof (seek_length _ _ _ Hinv ltac:(lia)) as Hl. inv_bind Hl.
  unfold call_ok. simpl aesd_fops. unfold aesd_seek, device_of.
  rewrite Hf, bind_ok, Hs, bind_ok, Hl, bind_ok.
  destruct (fixed_size_llseek _ _ _ _) as [q ?]. rewrite bind_ok.
  do 2 eexists. exists es, pend. split; [reflexivity|]. by split.
Qed.

(** The whole range of well-formed commands; the state is as before. *)
Lemma adjust_total k st es pend filp (cmd : nat) off : bounded st es pend ->
  private_data filp = true -> lock_interrupted k = false -> (cmd < 10)%nat ->
  0 <= off < 2 ^ 32 -> out_offs (buffer (k_dev st)) + Z.of_nat cmd <= 10 ->
  exists r f, aesd_adjust_file_offset k st filp (Z.of_nat cmd) off = Ok (r, f, st).
Proof.
  intros Hb Hf Hk Hc Hoff Ho. pose proof (bounded_contents _ _ _ Hb) as Ht.
  destruct Hb as [Hinv Hb]. destruct (es !! cmd) as [x|] eqn:Hx.
  - destruct (decide (off <= zlen x.2)) as [Hle|Hgt].
    + do 2 eexists. apply (adjust_ok k st es pend filp cmd x off); (done || lia).
    + rewrite (adjust_entry _ _ es pend), Hx by done.
      rewrite (proj2 (Z.ltb_lt _ _)) by lia. eauto.
  - rewrite (adjust_entry _ _ es pend), Hx by done. eauto.
Qed.

Lemma ioctl_call_ok k st es pend filp cmd arg : bounded st es pend ->
  private_data filp = true -> well_formed k st (SysIoctl cmd arg) ->
  call_ok (aesd_fops k st filp (SysIoctl cmd arg)).
Proof.
  intros Hb Hf (Hk & Hc & Hoff & Ho). unfold call_ok. simpl aesd_fops. unfold aesd_ioctl.
  destruct (adjust_total k st es pend filp (Z.to_nat (seek_write_cmd arg))
    (seek_write_cmd_offset arg) Hb Hf Hk ltac:(lia) Hoff ltac:(lia)) as (r & f & Ha).
  rewrite Z2Nat.id in Ha by lia. rewrite Ha, bind_ok.
  destruct (cmd =? AESDCHAR_IOCSEEKTO); [destruct (negb _)|].
  all: rewrite bind_ok; do 2 eexists; exists es, pend; by split.
Qed.

Lemma call_returns k st es pend filp c : alloc_succeeds o -> bounded st es pend ->
  private_data filp = true -> - 2 ^ 63 <= f_pos filp < 2 ^ 63 -> well_formed k st c ->
  call_ok (aesd_fops k st filp c).
Proof.
  intros. destruct c; eauto using read_call_ok, write_call_ok, seek_call_ok, ioctl_call_ok.
Qed.

Lemma reachable_bounded st : alloc_succeeds o -> reachable st ->
  exists es pend, bounded st es pend.
Proof.
  intros Hok. induction 1 as [m s Hi _|st st' _ (es & pend & IH) Hstep].
  - destruct (init_ok o Hok m) as (s' & Hi' & Hinv & _).
    rewrite Hi in Hi'. injection Hi' as <-. exists [], None. by split.
  - destruct Hstep as [k filp c r st' Hf Hp Hw Hr].
    destruct (call_returns k st es pend filp c Hok IH Hf Hp Hw) as (? & ? & es' & pend' & Hr' & Hb).
    rewrite Hr in Hr'. injection Hr' as _ <-. eauto.
Qed.
End Fops.

(** ** Reading the device to its end

    The loop a client runs: read at the position the last read left, until a
    read returns 0; the bytes kept are the number the call returned. *)

Section ReadAll.
Context (o : AllocOracle).

Fixpoint read_all (fuel : nat) (st : kstate) (filp : file) (count fpos : Z)
  : res (list char * Z * kstate) :=
  match fuel with
  | O => Fault OutOfFuel
  | S fuel' =>
      '(r, p, d, st) ← aesd_read quiet_call st filp count fpos;
      if r =? 0 then Ok ([], p, st) else
      '(rest, p, st) ← read_all fuel' st filp count p;
      Ok (take (Z.to_nat r) d ++ rest, p, st)
  end.

(** [j] strings lie before the position: [length es - j] reads and a last
    empty one are enough. *)
Lemma read_all_from (j fuel : nat) st es pend filp count fpos : alloc_succeeds o ->
  dev_inv st es pend -> private_data filp = true -> zlen (contents es.*2) < 2 ^ 60 ->
  zlen (contents (take j es.*2)) <= fpos <= zlen (contents es.*2) ->
  (length es - j < fuel)%nat ->
  exists st', read_all fuel st filp count fpos
    = Ok (drop (Z.to_nat fpos) (contents es.*2), zlen (contents es.*2), st') /\
    dev_inv st' es pend.
Proof.
  intros Hok Hinv Hf Ht. revert j st fpos Hinv.
  induction fuel as [|fuel IH]; intros j st fpos Hinv Hp Hfuel; [lia|]. cbn [read_all].
  pose proof (zlen_nonneg (contents (take j es.*2))). pose proof (zlen_nonneg (contents es.*2)).
  destruct (decide (fpos = zlen (contents es.*2))) as [->|Hne].
  - rewrite (read_past_end o quiet_call st es pend); try done; [|lia|rewrite u64_small; lia].
    rewrite bind_ok. change (0 =? 0) with true. cbv iota. eexists. split.
    + rewrite drop_ge; [reflexivity|]. unfold zlen. lia.
    + by apply after_read_inv.
  - assert (Hin : 0 <= fpos < zlen (contents es.*2)) by lia.
    destruct (read_found o quiet_call st es pend filp count fpos Hok Hinv Hf eq_refl Ht Hin)
      as (m' & i & Hm & _ & Hr).
    pose proof (model_read_progress _ fpos Hin) as Hprog.
    pose proof (model_read_prefix es.*2 fpos (proj1 Hin)) as [k Hk].
    pose proof (model_read_next _ fpos j Hin (proj1 Hp)) as Hnext.
    pose proof (model_read_bound _ fpos (proj1 Hin) (proj2 Hp)) as Hbound.
    set (d := model_read es.*2 fpos) in *.
    assert (Hu : uncopied quiet_call (zlen d + 1) = 0) by (unfold uncopied; simpl; lia).
    rewrite Hu in Hr. rewrite Hr, bind_ok. change (0 =? 0) with true. cbv iota.
    rewrite (proj2 (Z.eqb_neq (zlen d) 0)) by lia.
    assert (Hj : (j < length es)%nat).
    { destruct (decide (j < length es)%nat); [done|].
      rewrite take_ge in Hp by (rewrite length_fmap; lia). lia. }
    destruct (IH (S j) (KState m' (after_read st (ESlot i))) (fpos + zlen d)) as (st' & Hst & Hi);
      [by apply after_read_inv | lia | lia |].
    rewrite Hst, bind_ok. exists st'. split; [|done]. do 2 f_equal. f_equal.
    rewrite take_take, Nat.min_l by (unfold zlen; lia).
    rewrite take_app_le, take_ge by (unfold zlen; lia).
    replace (drop (Z.to_nat (fpos + zlen d)) (contents es.*2)) with k; [done|].
    rewrite Z2Nat.inj_add, <- drop_drop, Hk by lia.
    rewrite drop_app_le, drop_ge by (unfold zlen; lia). done.
Qed.
End ReadAll.

(** ** Writing a sequence of buffers *)

Section WriteAll.
Context (o : AllocOracle).

(** One write after the other; the values they return are collected. *)
Fixpoint write_all (st : kstate) (filp : file) (fpos : Z) (datas : list (list char))
  : res (list Z * Z * kstate) :=
  match datas with
  | [] => Ok ([], fpos, st)
  | data :: rest =>
      '(r, p, st) ← aesd_write quiet_call st filp data (zlen data) fpos;
      '(rs, p, st) ← write_all st filp p rest;
      Ok (r :: rs, p, st)
  end.

(** A write as a step of the abstract device. *)
Lemma write_implements k st d filp data fpos : alloc_succeeds o -> implements st d ->
  private_data filp = true -> lock_interrupted k = false -> user_left k <= 0 ->
  0 < zlen data <= max_count -> message_size (k_dev st) < 2 ^ 62 ->
  exists p st', aesd_write k st filp data (zlen data) fpos = Ok (zlen data, p, st') /\
    implements st' (model_write d data) /\
    (newline ∉ until_nul data -> p = fpos) /\
    message_size (k_dev st') <= message_size (k_dev st) + zlen data + 1.
Proof.
  intros Hok (es & pend & Hinv & ->) Hf Hk Hu Hn Hsz.
  destruct (write_ok o Hok k st es pend filp data fpos Hinv Hf Hn Hk Hu Hsz) as (p & st' & Hr).
  unfold model_write. cbn [unfinished commands].
  pose proof (length_until_nul data) as Hl.
  pose proof (pend_str_size _ _ _ Hinv). pose proof (zlen_nonneg (pend_str pend)).
  case_bool_decide as Hw.
  - destruct Hr as [-> Hi]. do 2 eexists. split; [reflexivity|]. split; [|split].
    + exists (lastn 10 (es ++ [(p, pend_str pend ++ until_nul data)])), None. split; [done|].
      f_equal. unfold model_add. by rewrite lastn_fmap, fmap_app.
    + done.
    + rewrite (message_size_pend _ _ _ (inv_pend _ _ _ Hi)). simpl. unfold zlen in *. lia.
  - destruct Hr as (-> & Hi & Hms). do 2 eexists. split; [reflexivity|]. split; [|split].
    + by exists es, (Some (p, pend_str pend ++ until_nul data)).
    + done.
    + rewrite Hms. unfold zlen in *. lia.
Qed.

Lemma write_all_ok st d filp fpos datas : alloc_succeeds o -> implements st d ->
  private_data filp = true -> Forall (fun data => 0 < zlen data <= max_count) datas ->
  message_size (k_dev st) + zsum ((fun data => zlen data + 1) <$> datas) < 2 ^ 62 ->
  exists p st', write_all st filp fpos datas = Ok (zlen <$> datas, p, st') /\
    implements st' (fold_left model_write datas d).
Proof.
  intros Hok Hst Hf Hd. revert st d fpos Hst.
  induction Hd as [|data datas Hn Hd IH]; intros st d fpos Hst Hsz.
  - exists fpos, st. by split.
  - csimpl in Hsz. cbn [write_all].
    assert (0 <= zsum ((fun data => zlen data + 1) <$> datas)).
    { apply zsum_nonneg. rewrite Forall_fmap. apply Forall_true.
      intros x. simpl. pose proof (zlen_nonneg x). lia. }
    destruct (write_implements quiet_call st d filp data fpos) as (p & st' & -> & Hst' & _ & Hm);
      [done..|simpl; lia|done|lia|]. rewrite bind_ok.
    destruct (IH st' (model_write d data) p Hst') as (p2 & st2 & -> & H2); [lia|].
    rewrite bind_ok. csimpl. eauto.
Qed.
End WriteAll.
