(* ===== verification/DriverProps.v ===== *)
(** * Properties of the character driver

    The theorems about the handlers of main.c, each with a witness at a
    concrete device that holds two commands and the start of a third. *)

From stdpp Require Import base numbers strings gmap list.
From S2P Require Import Prelude CMem CString CircularBuffer RingSpec RingFacts Ioctl CharDriver.
From S2P Require Import DriverSpec DriverRead DriverWrite DriverSeek DriverModule DriverTrace.

#[local] Open Scope Z_scope.

(** ** A concrete device *)

Definition line (s : string) : list char := lit s ++ [newline].

Definition demo_slots : list slot := [(0%nat, line "write1"); (1%nat, line "write22")].
Definition demo_pend : option slot := Some (2%nat, lit "wri").

Definition demo_mem : mem :=
  Mem {[ 0%nat := cstring (line "write1"); 1%nat := cstring (line "write22");
         2%nat := cstring (lit "wri");
         10%nat := replicate 168 (Some NUL); 11%nat := replicate 16 (Some NUL);
         12%nat := replicate 16 (Some NUL) ]} 7.

Definition demo_dev : aesd_dev :=
  AesdDev (PAddr 10 0)
    (CircBuf ((slot_entry <$> demo_slots) ++ replicate 8 null_entry) 2 0 false)
    (PAddr 11 0) (BufEntry (PAddr 2 0) 4) (EOwn (PAddr 12 0)) 0 1 false.

Definition demo_state : kstate := KState demo_mem demo_dev.
Definition demo_file : file := File true 0.
Definition demo_model : device_model :=
  DevModel [line "write1"; line "write22"] (lit "wri").

Lemma demo_line b s : m_heap demo_mem !! b = Some (cstring s) ->
  forallb (fun c => negb (bool_decide (c = NUL))) s = true -> str_at (m_heap demo_mem) b s.
Proof. apply str_at_cstring. Qed.

Lemma demo_inv : dev_inv demo_state demo_slots demo_pend.
Proof.
  split; simpl; try done.
  - split; simpl; try done; try lia. by repeat constructor.
  - repeat constructor; by apply demo_line.
  - do 2 (split; [done|]). destruct (demo_line 2 (lit "wri")) as (blk & Hb & Hs); [done..|].
    exists blk. split; [done|]. split; [done|]. vm_compute in Hb. by injection Hb as <-.
  - by_decide.
  - repeat constructor; by eexists.
  - by eexists _, _.
Qed.

Lemma demo_implements : implements demo_state demo_model.
Proof. exists demo_slots, demo_pend. split; [apply demo_inv | reflexivity]. Qed.

(** ** Writing and reading *)

(** C1: aesd_write implements the abstract write.  On a device that
    implements [d] a write of at least one byte returns the number of bytes
    it was given and leaves a device that implements [model_write d data]:
    the bytes before the first NUL are appended to the unfinished command,
    and if there is a newline among them the command joins the buffer, which
    keeps the ten newest.  Without a newline the position stays. *)
Theorem write_refines (o : AllocOracle) k st d filp data fpos :
  alloc_succeeds o -> implements st d -> private_data filp = true ->
  lock_interrupted k = false -> user_left k <= 0 ->
  0 < zlen data <= max_count -> message_size (k_dev st) < 2 ^ 62 ->
  exists p st', aesd_write k st filp data (zlen data) fpos = Ok (zlen data, p, st') /\
    implements st' (model_write d data) /\ (newline ∉ until_nul data -> p = fpos).
Proof.
  intros. edestruct (write_implements o k st d filp data fpos) as (p & st' & ? & ? & ? & _); eauto.
Qed.

Lemma write_refines_witness :
  exists p st', @aesd_write bump_oracle quiet_call demo_state demo_file (line "te333") 6 0
    = Ok (6, p, st') /\
    implements st' (DevModel [line "write1"; line "write22"; line "write333"] []).
Proof.
  destruct (write_refines bump_oracle quiet_call demo_state demo_model demo_file (line "te333") 0)
    as (p & st' & H1 & H2 & _);
    [apply bump_oracle_succeeds | apply demo_implements | done | done | done | by vm_compute | done |].
  exists p, st'. split; [exact H1 | exact H2].
Defined.

(** A read at a position before the end. *)
Lemma read_inside (o : AllocOracle) k st d filp count fpos :
  alloc_succeeds o -> implements st d -> private_data filp = true ->
  lock_interrupted k = false -> user_left k <= 0 ->
  zlen (contents (commands d)) < 2 ^ 60 -> 0 <= fpos < zlen (contents (commands d)) ->
  let s := model_read (commands d) fpos in
  exists st', aesd_read k st filp count fpos = Ok (zlen s, fpos + zlen s, s ++ [NUL], st') /\ implements st' d.
Proof.
  intros Hok (es & pend & Hinv & ->) Hf Hk Hu Ht Hin s. cbn [commands] in *.
  pose proof (model_read_progress _ _ Hin) as Hpr. fold s in Hpr.
  destruct (read_found o k st es pend filp count fpos Hok Hinv Hf Hk Ht Hin) as (m' & i & Hm & _ & Hr). fold s in Hr.
  assert (Hc : uncopied k (zlen s + 1) = 0) by (unfold uncopied; lia).
  rewrite Hc, take_ge in Hr by (rewrite length_app; unfold zlen; simpl; lia).
  exists (KState m' (after_read st (ESlot i))).
  split; [exact Hr | exists es, pend; split; [by apply after_read_inv|done]].
Qed.

(** C2: aesd_read implements the abstract read.  At a position before the
    end it returns the length of the rest of the command the position falls
    in, advances the position by it and stores those bytes and one NUL into
    the user's buffer, whatever [count] is; at or past the end it returns 0
    and stores nothing.  The device still implements [d]. *)
Theorem read_refines (o : AllocOracle) k st d filp count fpos :
  alloc_succeeds o -> implements st d -> private_data filp = true ->
  lock_interrupted k = false -> user_left k <= 0 ->
  zlen (contents (commands d)) < 2 ^ 60 -> 0 <= fpos < 2 ^ 63 ->
  let s := model_read (commands d) fpos in
  exists st', aesd_read k st filp count fpos
    = Ok (zlen s, fpos + zlen s, if decide (s = []) then [] else s ++ [NUL], st') /\
    implements st' d.
Proof.
  intros Hok Hi Hf Hk Hu Ht Hp s.
  destruct (decide (fpos < zlen (contents (commands d)))) as [Hlt|Hge].
  - assert (Hin : 0 <= fpos < zlen (contents (commands d))) by lia.
    pose proof (model_read_progress _ _ Hin) as Hpr. fold s in Hpr.
    rewrite decide_False by (by intros ->). by apply read_inside.
  - destruct Hi as (es & pend & Hinv & ->). cbn [commands] in *. assert (s = []) as -> by (apply model_read_past; lia).
    exists (KState (k_mem st) (after_read st ENull)).
    split; [|exists es, pend; split; [by apply after_read_inv|done]].
    rewrite decide_True, zlen_nil, Z.add_0_r by done.
    apply (read_past_end o k st es pend); try done; [lia|]. rewrite u64_small; lia.
Qed.

Lemma read_refines_witness :
  exists st', @aesd_read bump_oracle quiet_call demo_state demo_file 2 9
    = Ok (6, 15, line "ite22" ++ [NUL], st') /\ implements st' demo_model.
Proof.
  apply (read_refines bump_oracle quiet_call demo_state demo_model demo_file 2 9);
    [apply bump_oracle_succeeds | apply demo_implements | done | done | done | done | done].
Defined.

(** C19: a client that reads from any position until a read returns 0 gets
    exactly the rest of the device's contents, in at most eleven calls. *)
Theorem read_all_contents (o : AllocOracle) st d filp count fpos fuel :
  alloc_succeeds o -> implements st d -> private_data filp = true ->
  zlen (contents (commands d)) < 2 ^ 60 -> 0 <= fpos <= zlen (contents (commands d)) ->
  (11 <= fuel)%nat ->
  exists st', read_all o fuel st filp count fpos
    = Ok (drop (Z.to_nat fpos) (contents (commands d)), zlen (contents (commands d)), st') /\
    implements st' d.
Proof.
  intros Hok (es & pend & Hinv & ->) Hf Ht Hp Hfuel. cbn [commands] in *.
  pose proof (ring_cap _ _ (inv_ring _ _ _ Hinv)) as Hc. rewrite length_fmap in Hc.
  destruct (read_all_from o 0 fuel st es pend filp count fpos) as (st' & Hr & Hi); try done; [lia|].
  exists st'. split; [done|]. by exists es, pend.
Qed.

Lemma read_all_contents_witness :
  exists st', read_all bump_oracle 11 demo_state demo_file 100 3
    = Ok (lit "te1" ++ [newline] ++ line "write22", 15, st') /\ implements st' demo_model.
Proof.
  apply (read_all_contents bump_oracle demo_state demo_model demo_file 100 3 11);
    [apply bump_oracle_succeeds | apply demo_implements | done | done | done | lia].
Defined.

(** C3: the round trip of a session.  After any sequence of writes, cut in any
    way into buffers of at least one byte and at most max_count bytes, reading the device from its start gives the
    concatenation of the ten newest commands that were completed. *)
Theorem session_roundtrip (o : AllocOracle) st d filp fpos datas count :
  alloc_succeeds o -> implements st d -> private_data filp = true ->
  Forall (fun data => 0 < zlen data <= max_count) datas ->
  message_size (k_dev st) + zsum ((fun data => zlen data + 1) <$> datas) < 2 ^ 62 ->
  let d' := fold_left model_write datas d in
  zlen (contents (commands d')) < 2 ^ 60 ->
  exists p st1 st2,
    write_all o st filp fpos datas = Ok (zlen <$> datas, p, st1) /\
    read_all o 11 st1 filp count 0 = Ok (contents (commands d'), zlen (contents (commands d')), st2).
Proof.
  intros Hok Hst Hf Hd Hsz d' Ht.
  destruct (write_all_ok o st d filp fpos datas Hok Hst Hf Hd Hsz) as (p & st1 & Hw & H1).
  destruct H1 as (es & pend & Hinv & Heq). fold d' in Heq. rewrite Heq in *. cbn [commands] in *.
  pose proof (ring_cap _ _ (inv_ring _ _ _ Hinv)) as Hc. rewrite length_fmap in Hc.
  pose proof (zlen_nonneg (contents es.*2)).
  destruct (read_all_from o 0 11 st1 es pend filp count 0) as (st2 & Hr & _); try done; [lia|].
  by exists p, st1, st2.
Qed.

Lemma session_roundtrip_witness :
  exists p st1 st2,
    write_all bump_oracle demo_state demo_file 0 [line "te333"; lit "a"; line "b"]
    = Ok ([6; 1; 2], p, st1) /\
    read_all bump_oracle 11 st1 demo_file 100 0
    = Ok (line "write1" ++ line "write22" ++ line "write333" ++ line "ab", 27, st2).
Proof.
  apply (session_roundtrip bump_oracle demo_state demo_model demo_file 0
    [line "te333"; lit "a"; line "b"] 100);
    [apply bump_oracle_succeeds | apply demo_implements | done | repeat constructor; done
    | done | done].
Defined.

(** ** Every sequence of calls *)

(** A run of the driver: load it and write a command. *)
Definition demo_run : res kstate :=
  '(_, s) ← @aesd_init_module bump_oracle (Mem ∅ 0) 0 0;
  '(_, _, st) ← @aesd_write bump_oracle quiet_call (mod_k s) demo_file (line "ab") 3 0;
  Ok st.

Definition null_llseek : FixedSizeLlseek := fun fpos _ _ _ => (fpos, fpos).

Lemma demo_run_reachable st : demo_run = Ok st -> reachable bump_oracle null_llseek st.
Proof.
  unfold demo_run. intros H. inv_bind H. destruct a as [z s]. inv_bind H.
  destruct a as [[r p] st1]. injection H as <-.
  assert (Hr : reachable bump_oracle null_llseek (mod_k s)).
  { apply (reach_init bump_oracle null_llseek (Mem ∅ 0)).
    - rewrite Hs. vm_compute in Hs. injection Hs as <- _. reflexivity.
    - vm_compute in Hs. injection Hs as _ <-. reflexivity. }
  eapply (reach_step _ _ (mod_k s)); [done|].
  eapply (step_call _ _ _ quiet_call demo_file (SysWrite (line "ab"))); [done|done| |].
  - vm_compute in Hs. injection Hs as _ <-. clear. vm_compute. repeat split; discriminate.
  - simpl aesd_fops. change (zlen (line "ab")) with 3. rewrite Hs0. reflexivity.
Qed.

(** C12: the driver's invariant.  In every state that a load and any
    sequence of calls can reach - reads, writes, seeks and ioctls at any
    position, with locks interrupted and user copies failing at will - the
    device implements an abstract device of at most ten commands: the ring is
    well formed, every entry and the unfinished command are live strings of
    the recorded size, no block is shared, and the lock is free. *)
Theorem reachable_implements (o : AllocOracle) (L : FixedSizeLlseek) st :
  alloc_succeeds o -> reachable o L st ->
  exists d, implements st d /\ (length (commands d) <= 10)%nat /\ lock (k_dev st) = false.
Proof.
  intros Hok Hr. destruct (reachable_bounded o L st Hok Hr) as (es & pend & Hinv & _).
  eexists. split; [by exists es, pend|]. split; [|apply (inv_lock _ _ _ Hinv)].
  cbn [commands]. rewrite length_fmap.
  pose proof (ring_cap _ _ (inv_ring _ _ _ Hinv)) as Hc. by rewrite length_fmap in Hc.
Qed.

Lemma reachable_implements_witness :
  exists st, demo_run = Ok st /\
    exists d, implements st d /\ (length (commands d) <= 10)%nat /\ lock (k_dev st) = false.
Proof.
  destruct demo_run as [st|] eqn:Hd; [|vm_compute in Hd; discriminate Hd].
  exists st. split; [reflexivity|].
  apply (reachable_implements bump_oracle null_llseek st);
    [apply bump_oracle_succeeds | by apply demo_run_reachable].
Defined.

(** C13: no call faults.  In a reachable state, when allocations succeed,
    every well-formed call returns: no null or dangling pointer is followed, nothing is read or
    written out of bounds, the lock is taken and released once, and the
    state it leaves is reachable again. *)
Theorem reachable_calls_return (o : AllocOracle) (L : FixedSizeLlseek) k st filp c :
  alloc_succeeds o -> reachable o L st -> private_data filp = true ->
  - 2 ^ 63 <= f_pos filp < 2 ^ 63 -> well_formed k st c ->
  exists r st', aesd_fops o L k st filp c = Ok (r, st') /\ reachable o L st'.
Proof.
  intros Hok Hr Hf Hp Hw. destruct (reachable_bounded o L st Hok Hr) as (es & pend & Hb).
  destruct (call_returns o L k st es pend filp c Hok Hb Hf Hp Hw) as (r & st' & _ & _ & He & _).
  exists r, st'. split; [done|]. eapply reach_step; [done|]. by eapply step_call.
Qed.

Lemma reachable_calls_return_witness :
  exists st r st', demo_run = Ok st /\
    aesd_fops bump_oracle null_llseek (KCall false 3) st demo_file (SysRead 1) = Ok (r, st') /\
    reachable bump_oracle null_llseek st'.
Proof.
  destruct demo_run as [st|] eqn:Hd; [|vm_compute in Hd; discriminate Hd].
  destruct (reachable_calls_return bump_oracle null_llseek (KCall false 3) st demo_file (SysRead 1))
    as (r & st' & H1 & H2);
    [apply bump_oracle_succeeds | by apply demo_run_reachable | reflexivity | simpl; lia | exact I |].
  exists st, r, st'. split; [reflexivity|]. split; [exact H1 | exact H2].
Defined.

(** ** Positioning *)

Lemma seekto_moves k st d filp cmd off s :
  implements st d -> private_data filp = true -> lock_interrupted k = false ->
  user_left k <= 0 -> zlen (contents (commands d)) < 2 ^ 60 ->
  0 <= cmd < 10 -> commands d !! Z.to_nat cmd = Some s -> 0 <= off <= zlen s -> off < 2 ^ 32 ->
  out_offs (buffer (k_dev st)) + cmd <= 10 ->
  aesd_ioctl k st filp AESDCHAR_IOCSEEKTO (Seekto cmd off)
  = Ok (0, File true (zlen (contents (take (Z.to_nat cmd) (commands d))) + off), st).
Proof.
  intros (es & pend & Hinv & ->) Hf Hk Hu Ht Hc Hs Hoff Ho32 Ho. cbn [commands] in *.
  rewrite ioctl_seekto by done.
  rewrite list_lookup_fmap in Hs. destruct (es !! Z.to_nat cmd) as [x|] eqn:Hx; [|done].
  injection Hs as <-. rewrite <- (Z2Nat.id cmd) at 1 by lia.
  rewrite (adjust_ok k st es pend filp (Z.to_nat cmd) x off); try done; try lia.
Qed.

(** C36: for an offset below the size of the [write_cmd]-th oldest command,
    the ioctl AESDCHAR_IOCSEEKTO moves the position to that byte of that
    command, as an index into the device's contents, returns 0 and leaves the
    device alone, and the next read yields the rest of that command from that
    byte on - as long as the slots from the oldest command to that one do not
    wrap around the end of the array, and allocations, copies and the lock
    succeed. *)
Theorem ioctl_seekto_position (o : AllocOracle) k k' st d filp cmd off s count :
  alloc_succeeds o -> implements st d -> private_data filp = true ->
  lock_interrupted k = false -> lock_interrupted k' = false ->
  user_left k <= 0 -> user_left k' <= 0 -> zlen (contents (commands d)) < 2 ^ 60 ->
  0 <= cmd < 10 -> commands d !! Z.to_nat cmd = Some s -> 0 <= off < zlen s -> off < 2 ^ 32 ->
  out_offs (buffer (k_dev st)) + cmd <= 10 ->
  exists pos st', aesd_ioctl k st filp AESDCHAR_IOCSEEKTO (Seekto cmd off) = Ok (0, File true pos, st) /\
    pos = zlen (contents (take (Z.to_nat cmd) (commands d))) + off /\
    aesd_read k' st (File true pos) count pos
    = Ok (zlen s - off, pos + (zlen s - off), drop (Z.to_nat off) s ++ [NUL], st') /\ implements st' d.
Proof.
  intros Hok Hi Hf Hk Hk' Hu Hu' Ht Hc Hs Hoff Ho32 Ho.
  pose proof (seekto_moves k st d filp cmd off s Hi Hf Hk Hu Ht Hc Hs ltac:(lia) Ho32 Ho) as Hseek.
  set (pos := zlen (contents (take (Z.to_nat cmd) (commands d))) + off) in *.
  pose proof (model_read_at (commands d) pos _ _ s (locate_take _ _ _ _ Hs Hoff) Hs) as Hm.
  assert (Hpos : 0 <= pos < zlen (contents (commands d))).
  { pose proof (zlen_nonneg (contents (take (Z.to_nat cmd) (commands d)))). split; [lia|].
    destruct (Z.lt_ge_cases pos (zlen (contents (commands d)))) as [|Hge]; [done|].
    rewrite (model_read_past _ _ Hge) in Hm. apply (f_equal zlen) in Hm. unfold zlen in *. rewrite length_drop in Hm.
    cbn in Hm. lia. }
  destruct (read_inside o k' st d (File true pos) count pos Hok Hi eq_refl Hk' Hu' Ht Hpos) as (st' & Hr & Hi').
  rewrite Hm in Hr. assert (Hl : zlen (drop (Z.to_nat off) s) = zlen s - off) by (unfold zlen in *; rewrite length_drop; lia).
  rewrite Hl in Hr. by exists pos, st'.
Qed.

Lemma ioctl_seekto_position_witness : exists st',
  aesd_ioctl quiet_call demo_state demo_file AESDCHAR_IOCSEEKTO (Seekto 1 3) = Ok (0, File true 10, demo_state) /\
  @aesd_read bump_oracle quiet_call demo_state (File true 10) 100 10 = Ok (5, 15, line "te22" ++ [NUL], st').
Proof.
  destruct (ioctl_seekto_position bump_oracle quiet_call quiet_call demo_state demo_model demo_file 1 3 (line "write22") 100)
    as (pos & st' & H1 & Hpos & H2 & _); [apply bump_oracle_succeeds | apply demo_implements | done..|].
  assert (pos = 10) as -> by (rewrite Hpos; reflexivity). exists st'. split; [exact H1 | exact H2].
Defined.

(** The check also lets an offset equal to the size pass, which is the first
    byte of the next command, though the comment beside it asks for less. *)
Theorem ioctl_seekto_end k st d filp cmd s :
  implements st d -> private_data filp = true -> lock_interrupted k = false ->
  user_left k <= 0 -> zlen (contents (commands d)) < 2 ^ 60 ->
  0 <= cmd < 10 -> commands d !! Z.to_nat cmd = Some s -> zlen s < 2 ^ 32 ->
  out_offs (buffer (k_dev st)) + cmd <= 10 ->
  aesd_ioctl k st filp AESDCHAR_IOCSEEKTO (Seekto cmd (zlen s))
  = Ok (0, File true (zlen (contents (take (S (Z.to_nat cmd)) (commands d)))), st).
Proof.
  intros Hi Hf Hk Hu Ht Hc Hs Ho32 Ho. pose proof (zlen_nonneg s).
  rewrite (seekto_moves k st d filp cmd (zlen s) s) by (done || lia).
  do 3 f_equal. rewrite (take_S_r _ _ _ Hs). unfold contents. rewrite concat_app, zlen_app. cbn. by rewrite app_nil_r.
Qed.

(** C37: a command index that was not written yet, or an offset past the end
    of the command, is rejected with -EINVAL; position and device stay. *)
Theorem ioctl_seekto_rejects k st d filp cmd off :
  implements st d -> private_data filp = true -> lock_interrupted k = false ->
  user_left k <= 0 -> 0 <= cmd < 10 ->
  match commands d !! Z.to_nat cmd with Some s => zlen s < off | None => True end ->
  aesd_ioctl k st filp AESDCHAR_IOCSEEKTO (Seekto cmd off) = Ok (- EINVAL, filp, st).
Proof.
  intros (es & pend & Hinv & ->) Hf Hk Hu Hc Hs. cbn [commands] in *.
  rewrite ioctl_seekto by done.
  rewrite list_lookup_fmap in Hs. rewrite <- (Z2Nat.id cmd) by lia.
  rewrite (adjust_entry k st es pend filp _ off) by (done || lia).
  destruct (es !! Z.to_nat cmd) as [x|]; simpl in Hs.
  - rewrite (proj2 (Z.ltb_lt _ _)) by lia. done.
  - done.
Qed.

Lemma ioctl_seekto_rejects_witness :
  aesd_ioctl quiet_call demo_state demo_file AESDCHAR_IOCSEEKTO (Seekto 2 0)
  = Ok (- EINVAL, demo_file, demo_state).
Proof.
  apply (ioctl_seekto_rejects quiet_call demo_state demo_model demo_file 2 0);
    [apply demo_implements | done..].
Defined.

(** The size loop of aesd_adjust_file_offset does not wrap.  Seeking to
    a command that is there, with an offset inside it, reads past the end of
    the entry array as soon as out_offs + write_cmd exceeds ten. *)
Theorem ioctl_seekto_overrun k st d filp cmd off s :
  implements st d -> private_data filp = true -> lock_interrupted k = false ->
  user_left k <= 0 -> 0 <= cmd < 10 ->
  commands d !! Z.to_nat cmd = Some s -> off <= zlen s ->
  10 < out_offs (buffer (k_dev st)) + cmd ->
  aesd_ioctl k st filp AESDCHAR_IOCSEEKTO (Seekto cmd off) = Fault OutOfBounds.
Proof.
  intros (es & pend & Hinv & ->) Hf Hk Hu Hc Hs Hoff Ho. cbn [commands] in *.
  rewrite ioctl_seekto by done.
  rewrite list_lookup_fmap in Hs. rewrite <- (Z2Nat.id cmd) by lia.
  rewrite (adjust_entry k st es pend filp _ off) by (done || lia).
  destruct (es !! Z.to_nat cmd) as [x|]; [|done]. injection Hs as <-.
  rewrite (proj2 (Z.ltb_ge _ _)) by lia.
  pose proof (inv_ring _ _ _ Hinv) as HR. pose proof (ring_out _ _ HR).
  change (adjust_loop 12 (buffer (k_dev st)) 0) with
    (adjust_loop 12 (buffer (k_dev st)) (Z.of_nat 0)).
  rewrite (adjust_loop_overrun _ (Z.to_nat cmd)); try done; try lia.
  apply (ring_len _ _ HR).
Qed.

(** Twelve commands: the last two took the slots of the first two, and the
    oldest is in slot 2. *)
Definition wrapped_slots : list slot :=
  (fun i => (i, [Ascii.ascii_of_nat (97 + i); newline])) <$> [2; 3; 4; 5; 6; 7; 8; 9; 0; 1]%nat.

Definition wrapped_state : kstate :=
  KState
    (Mem (list_to_map ((10%nat, replicate 168 (Some NUL)) :: (11%nat, replicate 16 (Some NUL)) ::
            ((fun x => (x.1, cstring x.2)) <$> wrapped_slots))) 30)
    (AesdDev (PAddr 10 0)
       (CircBuf (slot_entry <$> (drop 8 wrapped_slots ++ take 8 wrapped_slots)) 2 2 false)
       (PAddr 11 0) (BufEntry PNull 0) ENull 0 0 false).

Lemma wrapped_inv : dev_inv wrapped_state wrapped_slots None.
Proof.
  split; simpl; try done.
  - split; simpl; try done; try lia. by repeat constructor.
  - repeat constructor; by apply str_at_cstring.
  - by_decide.
  - repeat constructor; by eexists.
  - by eexists _, _.
Qed.

Lemma ioctl_seekto_overrun_witness :
  aesd_ioctl quiet_call wrapped_state demo_file AESDCHAR_IOCSEEKTO (Seekto 9 1)
  = Fault OutOfBounds.
Proof.
  apply (ioctl_seekto_overrun quiet_call wrapped_state (DevModel wrapped_slots.*2 []) demo_file 9 1
    [Ascii.ascii_of_nat 98; newline]); [|done..].
  exists wrapped_slots, None. split; [apply wrapped_inv | reflexivity].
Defined.

(** An index of ten or more is answered by releasing a lock that was
    never taken; so is an interrupted wait for the lock. *)
Theorem ioctl_seekto_bad_unlock k st filp cmd off :
  private_data filp = true -> user_left k <= 0 -> lock (k_dev st) = false ->
  10 <= cmd < 2 ^ 32 \/ lock_interrupted k = true ->
  aesd_ioctl k st filp AESDCHAR_IOCSEEKTO (Seekto cmd off) = Fault BadUnlock.
Proof.
  intros Hf Hu Hl Hor. rewrite ioctl_seekto by done.
  unfold aesd_adjust_file_offset, device_of, adjust_fail, mutex_unlock. rewrite Hf, Hl.
  cbn [mbind res_bind]. destruct Hor as [Hc|Hk].
  - by rewrite (proj2 (Z.leb_le 10 cmd)) by lia.
  - rewrite Hk. by destruct (_ || _).
Qed.

Lemma ioctl_seekto_bad_unlock_witness :
  aesd_ioctl quiet_call demo_state demo_file AESDCHAR_IOCSEEKTO (Seekto 10 0) = Fault BadUnlock.
Proof. apply ioctl_seekto_bad_unlock; [done | done | done | left; lia]. Defined.

(** A command number other than AESDCHAR_IOCSEEKTO is refused with
    -ENOTTY, and the numbers AESDCHAR_IOCSEEKTO is made of can be read back
    from it: direction, magic, number and the size of struct aesd_seekto. *)
Theorem ioctl_dispatch k st filp cmd arg : cmd <> AESDCHAR_IOCSEEKTO ->
  aesd_ioctl k st filp cmd arg = Ok (- ENOTTY, filp, st) /\
  IOC_DIR AESDCHAR_IOCSEEKTO = Z.lor IOC_READ IOC_WRITE /\
  IOC_TYPE AESDCHAR_IOCSEEKTO = AESD_IOC_MAGIC /\
  IOC_NR AESDCHAR_IOCSEEKTO = AESDCHAR_IOC_MAXNR /\
  IOC_SIZE AESDCHAR_IOCSEEKTO = sizeof_aesd_seekto.
Proof.
  intros Hc. unfold aesd_ioctl. by rewrite (proj2 (Z.eqb_neq _ _) Hc).
Qed.

(** Every command number is decoded to the fields it was built from. *)
Theorem IOC_roundtrip dir type nr size :
  0 <= dir < 2 ^ 2 -> 0 <= type < 2 ^ 8 -> 0 <= nr < 2 ^ 8 -> 0 <= size < 2 ^ 14 ->
  let cmd := IOC dir type nr size in
  IOC_DIR cmd = dir /\ IOC_TYPE cmd = type /\ IOC_NR cmd = nr /\ IOC_SIZE cmd = size.
Proof.
  intros Hd Ht Hn Hs cmd. unfold cmd, IOC_DIR, IOC_TYPE, IOC_NR, IOC_SIZE.
  rewrite IOC_sum by done.
  unfold IOC_DIRMASK, IOC_TYPEMASK, IOC_NRMASK, IOC_SIZEMASK. rewrite !land_mask by done.
  change IOC_DIRSHIFT with 30. change IOC_TYPESHIFT with 8.
  change IOC_NRSHIFT with 0. change IOC_SIZESHIFT with 16.
  change IOC_DIRBITS with 2. change IOC_TYPEBITS with 8.
  change IOC_NRBITS with 8. change IOC_SIZEBITS with 14.
  rewrite !Z.shiftr_div_pow2 by lia.
  change (2 ^ 30) with 1073741824. change (2 ^ 16) with 65536. change (2 ^ 0) with 1.
  change (2 ^ 14) with 16384 in *. change (2 ^ 8) with 256 in *. change (2 ^ 2) with 4 in *.
  repeat split; Z.to_euclidean_division_equations; lia.
Qed.

Lemma IOC_roundtrip_witness :
  let cmd := IOC 3 0x16 1 8 in
  IOC_DIR cmd = 3 /\ IOC_TYPE cmd = 0x16 /\ IOC_NR cmd = 1 /\ IOC_SIZE cmd = 8.
Proof. apply (IOC_roundtrip 3 0x16 1 8); lia. Defined.

(** ** aesd_seek *)

(** The documented behaviour of fixed_size_llseek(): SEEK_SET, SEEK_CUR and
    SEEK_END choose the base, a target from 0 to the size becomes the new
    position and is returned, any other is refused with -EINVAL.  (SEEK_CUR
    by 0 only asks for the position.) *)
Definition seek_base (fpos whence size : Z) : option Z :=
  if whence =? 0 then Some 0
  else if whence =? 1 then Some fpos
  else if whence =? 2 then Some size
  else None.

Definition llseek_documented (L : FixedSizeLlseek) : Prop :=
  forall fpos offset whence size base,
    seek_base fpos whence size = Some base -> (whence = 1 -> offset <> 0) ->
    L fpos offset whence size
    = if (0 <=? base + offset) && (base + offset <=? size)
      then (base + offset, base + offset) else (- EINVAL, fpos).

(** aesd_seek moves the position to the target when it lies within the
    device's contents and returns it; otherwise it returns -EINVAL, and that
    number also becomes the position of the file. *)
Theorem seek_position (L : FixedSizeLlseek) st d filp offset whence base :
  llseek_documented L -> implements st d -> private_data filp = true ->
  zlen (contents (commands d)) < 2 ^ 63 ->
  seek_base (f_pos filp) whence (zlen (contents (commands d))) = Some base ->
  (whence = 1 -> offset <> 0) ->
  let target := base + offset in
  let p := if (0 <=? target) && (target <=? zlen (contents (commands d))) then target
           else - EINVAL in
  aesd_seek st filp offset whence = Ok (p, File true p).
Proof.
  intros HL (es & pend & Hinv & ->) Hf Ht Hb Hw target p. cbn [commands] in *.
  pose proof (seek_length _ _ _ Hinv Ht) as Hl. inv_bind Hl.
  unfold aesd_seek, device_of. rewrite Hf, bind_ok, Hs, bind_ok, Hl, bind_ok.
  unfold fixed_size_llseek. rewrite (HL _ _ _ _ base Hb Hw). fold target.
  unfold p. by destruct (_ && _).
Qed.

Definition model_llseek : FixedSizeLlseek := fun fpos offset whence size =>
  match seek_base fpos whence size with
  | Some base =>
      if (0 <=? base + offset) && (base + offset <=? size)
      then (base + offset, base + offset) else (- EINVAL, fpos)
  | None => (- EINVAL, fpos)
  end.

Lemma seek_position_witness :
  @aesd_seek model_llseek demo_state demo_file (-5) 2 = Ok (10, File true 10) /\
  @aesd_seek model_llseek demo_state demo_file 16 0 = Ok (-22, File true (-22)).
Proof.
  assert (HL : llseek_documented model_llseek)
    by (intros ? ? ? ? base Hb _; unfold model_llseek; by rewrite Hb).
  split.
  - apply (seek_position model_llseek demo_state demo_model demo_file (-5) 2 15);
      [exact HL | apply demo_implements | done..].
  - apply (seek_position model_llseek demo_state demo_model demo_file 16 0 0);
      [exact HL | apply demo_implements | done..].
Defined.

(** ** Loading and unloading *)

(** C10: when memory and the registrations are granted, a load registers the
    device once and leaves it empty; unloading it at once takes back the
    registrations and the three structures, so that memory is as before the
    load. *)
Theorem init_then_cleanup (o : AllocOracle) m : alloc_succeeds o ->
  exists s s', aesd_init_module m 0 0 = Ok (0, s) /\
    implements (mod_k s) model_init /\ chrdev_region s = true /\ cdev_added s = true /\
    aesd_cleanup_module s = Ok s' /\
    chrdev_region s' = false /\ cdev_added s' = false /\ cdev_misused s' = false /\
    (forall b, m_heap (k_mem (mod_k s')) !! b = m_heap m !! b).
Proof.
  intros Hok. destruct (init_ok o Hok m) as (s & Hi & Hinv & Hreg & Hadd & Hmis & Hset & Hre & Hh).
  destruct Hre as [p Hre].
  destruct (cleanup_own s [] None p Hinv Hset Hre) as (s' & Hc & Hr' & Ha' & Hm' & Hin & Hout).
  exists s, s'. do 2 (split; [done || (exists [], None; by split)|]).
  do 5 (split; [done || congruence|]). split; [congruence|]. intros b.
  destruct (Hh b) as [[Hb ->]|[Hb ->]]; [by apply Hin | by apply Hout].
Qed.

Lemma init_then_cleanup_witness :
  exists s s', @aesd_init_module bump_oracle demo_mem 0 0 = Ok (0, s) /\
    aesd_cleanup_module s = Ok s' /\
    (forall b, m_heap (k_mem (mod_k s')) !! b = m_heap demo_mem !! b).
Proof.
  destruct (init_then_cleanup bump_oracle demo_mem bump_oracle_succeeds)
    as (s & s' & H1 & _ & _ & _ & H2 & _ & _ & _ & H3).
  exists s, s'. split; [exact H1|]. split; [exact H2 | exact H3].
Defined.

(** After any read that found a command, dev->read_entry points into
    the buffer, and unloading the module frees an address inside the buffer
    (or the buffer twice). *)
Theorem cleanup_after_read (o : AllocOracle) k s d filp count fpos :
  alloc_succeeds o -> implements (mod_k s) d -> private_data filp = true ->
  lock_interrupted k = false -> zlen (contents (commands d)) < 2 ^ 60 ->
  0 <= fpos < zlen (contents (commands d)) ->
  exists r p out st',
    aesd_read k (mod_k s) filp count fpos = Ok (r, p, out, st') /\
    aesd_cleanup_module
      (ModState st' (chrdev_region s) (cdev_set s) (cdev_added s) (cdev_misused s))
    = Fault BadFree.
Proof.
  intros Hok (es & pend & Hinv & ->) Hf Hk Ht Hp. cbn [commands] in *.
  destruct (read_found o k (mod_k s) es pend filp count fpos Hok Hinv Hf Hk Ht Hp)
    as (m' & i & Hm & Hi & Hr).
  do 4 eexists. split; [exact Hr|].
  apply (cleanup_slot _ es pend i); [by apply after_read_inv | done | lia].
Qed.

Lemma cleanup_after_read_witness :
  exists r p out st',
    @aesd_read bump_oracle quiet_call demo_state demo_file 100 0 = Ok (r, p, out, st') /\
    aesd_cleanup_module (ModState st' true true true false) = Fault BadFree.
Proof.
  apply (cleanup_after_read bump_oracle quiet_call (ModState demo_state true true true false)
    demo_model demo_file 100 0);
    [apply bump_oracle_succeeds | apply demo_implements | done..].
Defined.

(** When memory for the buffer runs out during a load, the load
    reports success (the 0 of alloc_chrdev_region) although the region is
    given back and no device was added, and it deletes a cdev that was never
    set up. *)
Theorem init_nomem (o : AllocOracle) m :
  (forall h, o (m_tick m) h sizeof_circular_buffer = None) ->
  exists s, aesd_init_module m 0 0 = Ok (0, s) /\ chrdev_region s = false /\
    cdev_added s = false /\ cdev_misused s = true.
Proof.
  intros Ho. unfold aesd_init_module. change (0 <? 0) with false. cbv iota.
  unfold kmalloc at 1, alloc_block, alloc_choice.
  change (sizeof_circular_buffer =? 0) with false. cbv iota. rewrite Ho.
  eexists. by split.
Qed.

Lemma init_nomem_witness :
  exists s, @aesd_init_module exhausted_oracle (Mem ∅ 0) 0 0 = Ok (0, s) /\
    chrdev_region s = false /\ cdev_added s = false /\ cdev_misused s = true.
Proof. apply (init_nomem exhausted_oracle (Mem ∅ 0)). reflexivity. Defined.

(** ** Error paths *)

(** The failures the handlers report leave the device, its memory and
    the position as they were: an interrupted lock gives -ERESTARTSYS, no
    memory for the write buffer -ENOMEM, an unreadable user buffer -EFAULT. *)
Theorem write_errors_keep_device (o : AllocOracle) k st d filp data fpos :
  implements st d -> private_data filp = true -> 0 < zlen data <= max_count ->
  (lock_interrupted k = true ->
     aesd_write k st filp data (zlen data) fpos = Ok (- ERESTARTSYS, fpos, st)) /\
  (lock_interrupted k = false -> (forall h n, o (m_tick (k_mem st)) h n = None) ->
     exists t, aesd_write k st filp data (zlen data) fpos
       = Ok (- ENOMEM, fpos, KState (Mem (m_heap (k_mem st)) t) (k_dev st))) /\
  (lock_interrupted k = false -> alloc_succeeds o -> 0 < user_left k ->
     exists t, aesd_write k st filp data (zlen data) fpos
       = Ok (- EFAULT, fpos, KState (Mem (m_heap (k_mem st)) t) (k_dev st))).
Proof.
  intros (es & pend & Hinv & ->) Hf Hn. split; [|split].
  - intros Hk. unfold aesd_write, device_of. by rewrite Hf, Hk.
  - intros Hk Ho. by apply (write_nomem o k st es pend).
  - intros Hk Hok Hu. by apply (write_fault o Hok k st es pend).
Qed.

Lemma write_errors_keep_device_witness :
  (exists t, @aesd_write exhausted_oracle quiet_call demo_state demo_file (line "x") 2 5
     = Ok (- ENOMEM, 5, KState (Mem (m_heap demo_mem) t) demo_dev)) /\
  (exists t, @aesd_write bump_oracle (KCall false 1) demo_state demo_file (line "x") 2 5
     = Ok (- EFAULT, 5, KState (Mem (m_heap demo_mem) t) demo_dev)).
Proof.
  split.
  - apply (write_errors_keep_device exhausted_oracle quiet_call demo_state demo_model demo_file
      (line "x") 5 demo_implements eq_refl ltac:(by vm_compute)); reflexivity.
  - apply (write_errors_keep_device bump_oracle (KCall false 1) demo_state demo_model demo_file
      (line "x") 5 demo_implements eq_refl ltac:(by vm_compute));
      [reflexivity | apply bump_oracle_succeeds | simpl; lia].
Defined.

(** A write of no bytes does not return: the empty write buffer is the
    pointer of kmalloc(0), and strchr() reads from it. *)
Theorem write_empty_faults (o : AllocOracle) k st d filp ubuf fpos :
  implements st d -> private_data filp = true -> lock_interrupted k = false ->
  aesd_write k st filp ubuf 0 fpos = Fault NullDeref.
Proof.
  intros (es & pend & Hinv & ->) Hf Hk. unfold aesd_write, device_of. rewrite Hf, bind_ok, Hk.
  unfold mutex_lock. rewrite (inv_lock _ _ _ Hinv), bind_ok.
  change (kmalloc (k_mem st) (u64 (0 * 8))) with (PZeroSize, k_mem st). cbv iota beta.
  unfold copy_from_user. replace (uncopied k 0) with 0 by (unfold uncopied; lia). done.
Qed.

Lemma write_empty_faults_witness :
  @aesd_write bump_oracle quiet_call demo_state demo_file [] 0 0 = Fault NullDeref.
Proof.
  apply (write_empty_faults bump_oracle quiet_call demo_state demo_model);
    [apply demo_implements | done | done].
Defined.

(** No memory for the start of a new command: the result of kmalloc is
    cleared before it is checked, so the call does not reach the check. *)
Theorem write_grow_nomem (o : AllocOracle) m dev be len :
  first_packet dev = 0 -> (forall h n, o (m_tick m) h n = None) -> 0 <= len < max_count ->
  write_grow m dev be len = Fault NullDeref.
Proof.
  unfold max_count. intros Hf Ho Hl. unfold write_grow. rewrite Hf. change (0 =? 0) with true.
  cbv iota. rewrite u64_small by lia. rewrite (kmalloc_fails o) by (done || lia).
  unfold memset. destruct (Z.to_nat (len + 1)) eqn:Hz; [lia|]. done.
Qed.

Lemma write_grow_nomem_witness :
  @write_grow exhausted_oracle demo_mem (set_first_packet demo_dev 0) null_entry 7
  = Fault NullDeref.
Proof. apply write_grow_nomem; [done | done | unfold max_count; lia]. Defined.

(** A read that gets no memory for its buffer claims the bytes it could
    not deliver: it returns their number and advances the position past
    them, and nothing reaches the user. *)
Theorem read_nomem (o : AllocOracle) k st d filp count fpos :
  implements st d -> private_data filp = true -> lock_interrupted k = false ->
  (forall h n, o (m_tick (k_mem st)) h n = None) ->
  zlen (contents (commands d)) < 2 ^ 60 -> 0 <= fpos < zlen (contents (commands d)) ->
  let s := model_read (commands d) fpos in
  exists st', aesd_read k st filp count fpos = Ok (zlen s, fpos + zlen s, [], st') /\
    implements st' d.
Proof.
  intros (es & pend & Hinv & ->) Hf Hk Ho Ht Hp s. cbn [commands] in *.
  destruct (read_found_entry o k st es pend filp count fpos Hinv Hf Hk Ht Hp)
    as (b & str & off & i & Hs & Hoff & Hi & Hd & Hlen & ->). fold s in Hd, Hlen |- *.
  assert (0 < zlen s < 2 ^ 60) by lia.
  exists (KState (Mem (m_heap (k_mem st)) (S (m_tick (k_mem st)))) (after_read st (ESlot i))).
  split; [|exists es, pend; split; [by apply after_read_inv|done]].
  unfold read_deliver. rewrite kmalloc_fails by (done || (rewrite u64_small; lia)).
  change (is_null PNull) with true. cbv iota. unfold kfree. rewrite bind_ok.
  rewrite (set_lock_restore _ _ _ (inv_lock _ _ _ Hinv)) by done. by rewrite bind_ok.
Qed.

Lemma read_nomem_witness :
  exists st', @aesd_read exhausted_oracle quiet_call demo_state demo_file 100 0
    = Ok (7, 7, [], st') /\ implements st' demo_model.
Proof.
  apply (read_nomem exhausted_oracle quiet_call demo_state demo_model demo_file 100 0);
    [apply demo_implements | done..].
Defined.

(** Completing a command moves the writer's position by one byte more
    per write than the command holds: the size that is added counts the
    terminator of every buffer the command came in. *)
Theorem write_position (o : AllocOracle) st d filp data fpos :
  alloc_succeeds o -> implements st d -> private_data filp = true ->
  0 < zlen data <= max_count -> message_size (k_dev st) < 2 ^ 62 ->
  0 <= fpos -> fpos + message_size (k_dev st) + zlen data + 1 < 2 ^ 63 ->
  newline ∈ until_nul data ->
  exists st', aesd_write quiet_call st filp data (zlen data) fpos
    = Ok (zlen data, fpos + message_size (k_dev st) + zlen (until_nul data) + 1, st') /\
    (unfinished d <> [] -> zlen (unfinished d) < message_size (k_dev st)).
Proof.
  intros Hok (es & pend & Hinv & ->) Hf Hn Hsz Hp0 Hp Hw. cbn [unfinished].
  destruct (write_ok o Hok quiet_call st es pend filp data fpos Hinv Hf Hn eq_refl
    ltac:(simpl; lia) Hsz) as (p & st' & Hr).
  rewrite bool_decide_eq_true_2 in Hr by done. destruct Hr as [-> _].
  pose proof (length_until_nul data). pose proof (zlen_nonneg (until_nul data)).
  pose proof (pend_str_size _ _ _ Hinv). pose proof (zlen_nonneg (pend_str pend)).
  exists st'. split.
  - rewrite s64_u64, s64_small by (unfold zlen in *; lia). by rewrite !Z.add_assoc.
  - rewrite (message_size_pend _ _ _ (inv_pend _ _ _ Hinv)).
    pose proof (inv_pend _ _ _ Hinv) as Hpe. destruct pend as [[b s]|]; [|done]. intros _.
    destruct Hpe as (_ & _ & blk & _ & Hs & Hz). simpl. rewrite <- Hz.
    apply cstr_blk_length in Hs. unfold zlen. lia.
Qed.

Lemma write_position_witness :
  exists st', @aesd_write bump_oracle quiet_call demo_state demo_file (line "te") 3 0
    = Ok (3, 8, st').
Proof.
  destruct (write_position bump_oracle demo_state demo_model demo_file (line "te") 0)
    as (st' & H & _);
    [apply bump_oracle_succeeds | apply demo_implements | done | by vm_compute | done | lia
    | by vm_compute | | exists st'; exact H].
  by_decide.
Defined.
