(* ===== verification/DriverSteps.v ===== *)
(** * The file operations in steps

    Several processes may be in the driver at once; the handlers of
    aesd-char-driver/main.c keep each other out with dev->lock.  Here a
    handler is cut into the steps it takes on the shared state: the lock, each
    access to the device structure, each call of an allocator, each copy from
    or to the user, the unlock.  Between two steps of one process any other
    process may run.  A process that finds the lock taken waits.

    The documentation of the kernel lets only the owner of a mutex unlock it;
    a kernel without lock debugging does not check that, and mutex_unlock()
    releases the lock whoever took it.  So it does here: [unlock_return] of a
    process without the lock is a fault when the lock is free (as in the
    handlers by themselves), and releases the lock of another process when
    that one has it, which [bad_seek_unlocks] is about.  The theorems that the
    calls serialise and go on exclude such calls.

    aesd_seek takes no lock: it reads one entry of the buffer per step. *)

From stdpp Require Import base numbers strings gmap list.
From S2P Require Import Prelude CMem CircularBuffer Ioctl CharDriver DriverTrace.

#[local] Open Scope Z_scope.

(** A call in progress: what it does next. *)
Inductive proc : Type :=
| Done (r : reply)                              (* the handler has returned *)
| Lock (p : proc)                               (* in mutex_lock_interruptible() *)
| Act (f : kstate -> res (kstate * proc)).      (* one step on the shared state *)

(** Steps on the device, and on the memory. *)
Definition on_dev (f : aesd_dev -> res (aesd_dev * proc)) : proc :=
  Act (fun st => '(d, p) ← f (k_dev st); Ok (KState (k_mem st) d, p)).
Definition on_mem (f : mem -> res (mem * proc)) : proc :=
  Act (fun st => '(m, p) ← f (k_mem st); Ok (KState m (k_dev st), p)).

(** mutex_unlock (&dev->lock); return *)
Definition unlock_return (r : reply) : proc := on_dev (fun d => d ← mutex_unlock d; Ok (d, Done r)).

(** kfree (p); then on to [next] *)
Definition free_then (p : ptr) (next : proc) : proc := on_mem (fun m => m ← kfree m p; Ok (m, next)).

Section Steps.
Context (o : AllocOracle) (L : FixedSizeLlseek).

(** ** aesd_read *)

(** From the copy to the user's buffer on. *)
Definition read_copy (k : kcall) (read_buffer : ptr) (retval fpos : Z) : proc :=
  on_mem (fun m =>
    _ ← strlen (m_heap m) read_buffer;
    '(nleft, delivered) ← copy_to_user k (m_heap m) read_buffer (retval + 1);
    let retval := if negb (nleft =? 0) then - EFAULT else retval in
    Ok (m, free_then read_buffer (unlock_return (Reply retval fpos delivered)))).

(** strncpy() out of the entry that was found. *)
Definition read_fill (k : kcall) (read_buffer : ptr) (rtn_byte retval fpos : Z) : proc :=
  Act (fun st =>
    let m := k_mem st in
    e ← the_read_entry (k_dev st);
    _ ← pdebug_s (m_heap m) (ptr_add (buffptr e) rtn_byte);
    h ← strncpy (m_heap m) read_buffer (ptr_add (buffptr e) rtn_byte) (u64 (ent_size e - rtn_byte));
    Ok (KState (Mem h (m_tick m)) (k_dev st), read_copy k read_buffer retval fpos)).

(** kmalloc() and memset() of the local buffer. *)
Definition read_buffer_step (k : kcall) (rtn_byte retval fpos : Z) : proc :=
  on_mem (fun m =>
    let '(read_buffer, m) := @kmalloc o m (u64 (retval * 8)) in
    if is_null read_buffer then Ok (m, free_then read_buffer (unlock_return (Reply retval fpos [])))
    else
      h ← memset (m_heap m) read_buffer NUL (u64 (retval * 8));
      Ok (Mem h (m_tick m), read_fill k read_buffer rtn_byte retval fpos)).

(** The new position and the value to return. *)
Definition read_position (k : kcall) (rtn_byte fpos : Z) : proc :=
  on_dev (fun dev =>
    e ← the_read_entry dev;
    let fpos := s64 (u64 (fpos + ent_size e - rtn_byte)) in
    let retval := s64 (u64 (ent_size e - rtn_byte)) in
    Ok (dev, read_buffer_step k rtn_byte retval fpos)).

(** The search. *)
Definition read_search (k : kcall) (fpos : Z) : proc :=
  on_dev (fun dev =>
    b ← the_buffer dev;
    '(found, b) ← aesd_circular_buffer_find_entry_offset_for_fpos b (u64 fpos);
    let dev := set_buffer dev b in
    match found with
    | None => Ok (set_read_entry dev ENull, unlock_return (Reply 0 fpos []))
    | Some (i, rtn_byte) => Ok (set_read_entry dev (ESlot i), read_position k rtn_byte fpos)
    end).

Definition read_proc (k : kcall) (filp : file) (fpos : Z) : proc :=
  on_dev (fun dev =>
    _ ← device_of filp;
    Ok (dev, if lock_interrupted k then Done (Reply (- ERESTARTSYS) fpos []) else Lock (read_search k fpos))).

(** ** aesd_write *)

(** The label exit: *)
Definition write_leave (write_buffer : ptr) (retval fpos : Z) : proc :=
  free_then write_buffer (unlock_return (Reply retval fpos [])).

(** The flags after a command was added. *)
Definition write_reset (write_buffer : ptr) (retval fpos : Z) : proc :=
  on_dev (fun dev => Ok (set_end_of_packet (set_first_packet dev 0) 0, write_leave write_buffer retval fpos)).

(** The release of what was overwritten. *)
Definition write_release (write_buffer buffer_to_free : ptr) (retval fpos : Z) : proc :=
  on_mem (fun m =>
    m ← (if negb (is_null buffer_to_free) then
           _ ← pdebug_s (m_heap m) buffer_to_free; kfree m buffer_to_free
         else Ok m);
    Ok (m, write_reset write_buffer retval fpos)).

(** The command is added to the buffer, when it is complete. *)
Definition write_add (write_buffer : ptr) (retval fpos : Z) : proc :=
  Act (fun st =>
    let dev := k_dev st in
    if end_of_packet dev =? 1 then
      b ← the_buffer dev;
      be ← the_buffer_entry dev;
      '(buffer_to_free, m, b) ← @aesd_circular_buffer_add_entry (@kmalloc_allocator o) (k_mem st) b be;
      let fpos := s64 (u64 (fpos + ent_size be)) in
      Ok (KState m (set_buffer dev b), write_release write_buffer buffer_to_free retval fpos)
    else Ok (st, write_leave write_buffer retval fpos)).

(** strcat() behind the unfinished command, its size, and first_packet. *)
Definition write_append (write_buffer : ptr) (new_length count fpos : Z) : proc :=
  Act (fun st =>
    let m := k_mem st in
    let dev := k_dev st in
    be ← the_buffer_entry dev;
    if is_null (buffptr be) then Ok (st, write_leave write_buffer (- ENOMEM) fpos)
    else
      h ← strcat (m_heap m) (buffptr be) write_buffer;
      _ ← pdebug_s h (buffptr be);
      Ok (KState (Mem h (m_tick m)) (set_first_packet (set_buffer_entry dev (BufEntry (buffptr be) new_length)) 1),
          write_add write_buffer count fpos)).

(** Memory for the command: kmalloc() or krealloc(). *)
Definition write_space (write_buffer : ptr) (count fpos : Z) : proc :=
  Act (fun st =>
    let dev := k_dev st in
    be ← the_buffer_entry dev;
    len ← strlen (m_heap (k_mem st)) write_buffer;
    '(new_length, p, m) ← @write_grow o (k_mem st) dev be len;
    Ok (KState m (set_buffer_entry dev (BufEntry p (ent_size be))), write_append write_buffer new_length count fpos)).

(** The check for a newline. *)
Definition write_check (write_buffer : ptr) (count fpos : Z) : proc :=
  Act (fun st =>
    nl ← strchr (m_heap (k_mem st)) write_buffer newline;
    let dev := if negb (is_null nl) then set_end_of_packet (k_dev st) 1 else k_dev st in
    Ok (KState (k_mem st) dev, write_space write_buffer count fpos)).

(** The copy from the user's buffer. *)
Definition write_copy (k : kcall) (write_buffer : ptr) (ubuf : list char) (count fpos : Z) : proc :=
  on_mem (fun m =>
    '(nleft, h) ← copy_from_user k (m_heap m) write_buffer ubuf count;
    Ok (Mem h (m_tick m),
        if negb (nleft =? 0) then write_leave write_buffer (- EFAULT) fpos else write_check write_buffer count fpos)).

(** kmalloc() and memset() of the local buffer. *)
Definition write_buffer_step (k : kcall) (ubuf : list char) (count fpos : Z) : proc :=
  on_mem (fun m =>
    let '(write_buffer, m) := @kmalloc o m (u64 (count * 8)) in
    if is_null write_buffer then Ok (m, write_leave write_buffer (- ENOMEM) fpos)
    else
      h ← memset (m_heap m) write_buffer NUL (u64 (count * 8));
      Ok (Mem h (m_tick m), write_copy k write_buffer ubuf count fpos)).

Definition write_proc (k : kcall) (filp : file) (ubuf : list char) (count fpos : Z) : proc :=
  on_dev (fun dev =>
    _ ← device_of filp;
    Ok (dev, if lock_interrupted k then Done (Reply (- ERESTARTSYS) fpos [])
             else Lock (write_buffer_step k ubuf count fpos))).

(** ** aesd_seek: the entries one by one, without the lock *)

Fixpoint seek_sum (idxs : list Z) (filp : file) (offset whence size : Z) : proc :=
  match idxs with
  | [] =>
      let '(requested_location, _) := fixed_size_llseek (f_pos filp) offset whence size in
      Done (Reply requested_location requested_location [])
  | i :: idxs' =>
      on_dev (fun dev =>
        b ← the_buffer dev;
        e ← get_entry b i;
        Ok (dev, seek_sum idxs' filp offset whence (s64 (u64 (ent_size e + u64 size)))))
  end.

Definition seek_proc (filp : file) (offset whence : Z) : proc :=
  on_dev (fun dev => _ ← device_of filp; Ok (dev, seek_sum [0; 1; 2; 3; 4; 5; 6; 7; 8; 9] filp offset whence 0)).

(** ** aesd_ioctl *)

(** The label fail: of aesd_adjust_file_offset; aesd_ioctl returns an int. *)
Definition adjust_leave (filp : file) (retval : Z) : proc := unlock_return (Reply (s32 retval) (f_pos filp) []).

(** The loop over the sizes. *)
Definition adjust_position (filp : file) (write_cmd write_cmd_offset : Z) : proc :=
  on_dev (fun dev =>
    b ← the_buffer dev;
    total_size ← adjust_loop 12 b 0 write_cmd write_cmd_offset 0;
    Ok (dev, adjust_leave (File (private_data filp) (s64 total_size)) 0)).

(** The two checks of the entry. *)
Definition adjust_check (filp : file) (write_cmd write_cmd_offset : Z) : proc :=
  on_dev (fun dev =>
    b ← the_buffer dev;
    let seeked_out_offs := u8 (u32 (out_offs b + write_cmd) mod 10) in
    e ← get_entry b seeked_out_offs;
    Ok (dev, if is_null (buffptr e) then adjust_leave filp (- EINVAL)
             else if ent_size e <? write_cmd_offset then adjust_leave filp (- EINVAL)
             else adjust_position filp write_cmd write_cmd_offset)).

Definition adjust_proc (k : kcall) (filp : file) (write_cmd write_cmd_offset : Z) : proc :=
  on_dev (fun dev =>
    _ ← device_of filp;
    Ok (dev, if (10 <=? write_cmd) || (write_cmd <? 0) then adjust_leave filp (- EINVAL)
             else if lock_interrupted k then adjust_leave filp (- ERESTARTSYS)
             else Lock (adjust_check filp write_cmd write_cmd_offset))).

Definition ioctl_proc (k : kcall) (filp : file) (cmd : Z) (arg : aesd_seekto) : proc :=
  if cmd =? AESDCHAR_IOCSEEKTO then
    if negb (uncopied k sizeof_aesd_seekto =? 0) then Done (Reply EFAULT (f_pos filp) [])
    else adjust_proc k filp (seek_write_cmd arg) (seek_write_cmd_offset arg)
  else Done (Reply (- ENOTTY) (f_pos filp) []).

(** ** Which handler serves which call *)
Definition call_proc (k : kcall) (filp : file) (c : syscall) : proc :=
  match c with
  | SysRead count => read_proc k filp (f_pos filp)
  | SysWrite data => write_proc k filp data (zlen data) (f_pos filp)
  | SysSeek offset whence => seek_proc filp offset whence
  | SysIoctl cmd arg => ioctl_proc k filp cmd arg
  end.

(** A call that no other process interrupts. *)
Fixpoint alone (p : proc) (st : kstate) : res (reply * kstate) :=
  match p with
  | Done r => Ok (r, st)
  | Lock p => d ← mutex_lock (k_dev st); alone p (KState (k_mem st) d)
  | Act f => match f st with Ok (st', p') => alone p' st' | Fault e => Fault e end
  end.

(** ** Processes *)

(** A process: its open file, the calls it makes with what the kernel decides
    for each, the handler it is in (for the first of these calls), and the
    calls that were answered. *)
Record process : Type := Process {
  p_file : file;
  p_calls : list (kcall * syscall);
  p_now : option proc;
  p_answers : list (kcall * syscall * reply)
}.

(** The device and the processes. *)
Record pool : Type := Pool { p_state : kstate; p_procs : gmap nat process }.

(** A call that took the lock and has released it, with its answer. *)
Record event : Type := Event { ev_process : nat; ev_kcall : kcall; ev_file : file; ev_call : syscall; ev_reply : reply }.

Definition set_now (x : process) (p : option proc) : process := Process (p_file x) (p_calls x) p (p_answers x).

(** The lock was released by a step that ends the call. *)
Definition released (i : nat) (x : process) (st st' : kstate) (p : proc) : list event :=
  match p, p_calls x with
  | Done r, (k, c) :: _ => if lock (k_dev st) && negb (lock (k_dev st')) then [Event i k (p_file x) c r] else []
  | _, _ => []
  end.

(** Process [x], number [i], takes a step; [None] when it waits for the lock
    or has no more calls. *)
Definition process_step (i : nat) (st : kstate) (x : process) : option (res (list event * kstate * process)) :=
  match p_now x, p_calls x with
  | None, [] => None
  | None, (k, c) :: _ => Some (Ok ([], st, set_now x (Some (call_proc k (p_file x) c))))
  | Some (Done r), (k, c) :: rest =>
      Some (Ok ([], st, Process (File (private_data (p_file x)) (pos r)) rest None (p_answers x ++ [(k, c, r)])))
  | Some (Lock p), _ =>
      if lock (k_dev st) then None
      else Some (Ok ([], KState (k_mem st) (set_lock (k_dev st) true), set_now x (Some p)))
  | Some (Act f), _ =>
      Some ('(st', p) ← f st; Ok (released i x st st' p, st', set_now x (Some p)))
  | Some (Done _), [] => None
  end.

Definition pool_step (i : nat) (w : pool) : option (res (list event * pool)) :=
  x ← p_procs w !! i;
  r ← process_step i (p_state w) x;
  Some ('(ev, st, x') ← r; Ok (ev, Pool st (<[i := x']> (p_procs w)))).

Inductive pool_run : pool -> list event -> pool -> Prop :=
| pool_refl w : pool_run w [] w
| pool_next w evs w1 i ev w2 : pool_run w evs w1 -> pool_step i w1 = Some (Ok (ev, w2)) -> pool_run w (evs ++ ev) w2.

(** Turns in a given order. *)
Fixpoint pool_turns (order : list nat) (w : pool) : option (list event * pool) :=
  match order with
  | [] => Some ([], w)
  | i :: order =>
      match pool_step i w with
      | Some (Ok (ev, w1)) => '(evs, w2) ← pool_turns order w1; Some (ev ++ evs, w2)
      | _ => None
      end
  end.
End Steps.
