(* ===== verification/DriverLock.v ===== *)
(** * Processes in the driver: one handler

    A handler that runs without interruption is the function in one piece;
    what it does before it has the lock, and while it has it. *)

From stdpp Require Import base numbers strings gmap list.
From S2P Require Import Prelude CMem CircularBuffer Ioctl CharDriver DriverTrace DriverSteps.

#[local] Open Scope Z_scope.

(** ** A call that runs alone *)

(** On to the next result of a sequence; a fault ends both sides. *)
Tactic Notation "on" constr(x) "as" simple_intropattern(p) ident(H) :=
  destruct x as [p|] eqn:H; [|reflexivity]; cbn [mbind res_bind].

Section alone.
Context (o : AllocOracle) (L : FixedSizeLlseek).

Lemma alone_act f st : alone (Act f) st = ('(st', p) ← f st; alone p st').
Proof. cbn [alone]. by destruct (f st) as [[]|]. Qed.

Lemma alone_on_dev f m d : alone (on_dev f) (KState m d) = ('(d', p) ← f d; alone p (KState m d')).
Proof. unfold on_dev. rewrite alone_act. cbn. by destruct (f d) as [[]|]. Qed.

Lemma alone_on_mem f m d : alone (on_mem f) (KState m d) = ('(m', p) ← f m; alone p (KState m' d)).
Proof. unfold on_mem. rewrite alone_act. cbn. by destruct (f m) as [[]|]. Qed.

Lemma alone_unlock r m d : alone (unlock_return r) (KState m d) = (d ← mutex_unlock d; Ok (r, KState m d)).
Proof. unfold unlock_return. rewrite alone_on_dev. by destruct (mutex_unlock d). Qed.

Lemma alone_free p next m d : alone (free_then p next) (KState m d) = (m ← kfree m p; alone next (KState m d)).
Proof. unfold free_then. rewrite alone_on_mem. by destruct (kfree m p). Qed.

Lemma alone_leave wb v fp m d :
  alone (write_leave wb v fp) (KState m d) = ('(r, p, st) ← write_exit m d wb v fp; Ok (Reply r p [], st)).
Proof.
  unfold write_leave, write_exit. rewrite alone_free. destruct (kfree m wb) as [m'|]; [|done]. cbn [mbind res_bind].
  rewrite alone_unlock. by destruct (mutex_unlock d).
Qed.

Lemma alone_add wb v fp m d :
  alone (write_add o wb v fp) (KState m d) = ('(r, p, st) ← @write_commit o m d wb v fp; Ok (Reply r p [], st)).
Proof.
  unfold write_add, write_commit. rewrite alone_act. cbn [k_dev k_mem].
  destruct (end_of_packet d =? 1); [|cbn [mbind res_bind]; apply alone_leave].
  destruct (the_buffer d) as [b|]; [|done]. cbn [mbind res_bind].
  destruct (the_buffer_entry d) as [be|]; [|done]. cbn [mbind res_bind].
  destruct (aesd_circular_buffer_add_entry m b be) as [[[bf m'] b']|]; [|done]. cbn [mbind res_bind].
  unfold write_release. rewrite alone_on_mem.
  assert (Hm : forall r : res mem, ('(m'', p) ← (m0 ← r; Ok (m0, write_reset wb v (s64 (u64 (fp + ent_size be)))));
      alone p (KState m'' (set_buffer d b')))
    = ('(r0, p, st) ← (m0 ← r; write_exit m0 (set_end_of_packet (set_first_packet (set_buffer d b') 0) 0) wb v (s64 (u64 (fp + ent_size be))));
       Ok (Reply r0 p [], st))).
  { intros [m''|]; [|done]. cbn [mbind res_bind]. unfold write_reset. rewrite alone_on_dev. cbn [mbind res_bind]. apply alone_leave. }
  apply Hm.
Qed.

Lemma alone_append wb n count fp m d be : the_buffer_entry d = Ok be ->
  alone (write_append o wb n count fp) (KState m d)
  = ('(r, p, st) ← (if is_null (buffptr be) then write_exit m d wb (- ENOMEM) fp else
       h ← strcat (m_heap m) (buffptr be) wb;
       _ ← pdebug_s h (buffptr be);
       @write_commit o (Mem h (m_tick m)) (set_first_packet (set_buffer_entry d (BufEntry (buffptr be) n)) 1) wb count fp);
     Ok (Reply r p [], st)).
Proof.
  intros Hbe. unfold write_append. rewrite alone_act. cbn [k_dev k_mem]. rewrite Hbe. cbn [mbind res_bind].
  destruct (is_null (buffptr be)); [cbn [mbind res_bind]; apply alone_leave|].
  destruct (strcat _ _ _) as [h|]; [|done]. cbn [mbind res_bind].
  destruct (pdebug_s h _); [|done]. cbn [mbind res_bind]. apply alone_add.
Qed.

Lemma alone_write k st filp data count :
  alone (write_proc o k filp data count (f_pos filp)) st
  = ('(r, p, st) ← @aesd_write o k st filp data count (f_pos filp); Ok (Reply r p [], st)).
Proof.
  destruct st as [m d]. unfold write_proc, aesd_write. rewrite alone_on_dev. cbn [k_mem k_dev].
  on (device_of filp) as [] Ed. destruct (lock_interrupted k); [done|]. cbn [alone k_mem k_dev].
  on (mutex_lock d) as d1 El. unfold write_buffer_step. rewrite alone_on_mem.
  destruct (kmalloc m (u64 (count * 8))) as [wb m1].
  destruct (is_null wb); [cbn [mbind res_bind]; apply alone_leave|].
  on (memset (m_heap m1) wb NUL (u64 (count * 8))) as h1 E1. unfold write_copy. rewrite alone_on_mem. cbn [m_heap m_tick].
  destruct (copy_from_user k h1 wb data count) as [[nleft h2]|]; [|done]. cbn [mbind res_bind].
  destruct (nleft =? 0); cbn [negb]; [|apply alone_leave].
  unfold write_check, write_store. rewrite alone_act. cbn [k_dev k_mem].
  on (strchr (m_heap (Mem h2 (m_tick m1))) wb newline) as nl E2. unfold write_space. rewrite alone_act. cbn [k_dev k_mem].
  set (d2 := if negb (is_null nl) then set_end_of_packet d1 1 else d1). on (the_buffer_entry d2) as be Ebe.
  on (strlen (m_heap (Mem h2 (m_tick m1))) wb) as len E3.
  destruct (write_grow (Mem h2 (m_tick m1)) d2 be len) as [[[n p] m3]|]; [|done]. cbn [mbind res_bind].
  assert (Hbe : the_buffer_entry (set_buffer_entry d2 (BufEntry p (ent_size be))) = Ok (BufEntry p (ent_size be))).
  { unfold the_buffer_entry. cbn. unfold the_buffer_entry in Ebe. by destruct (is_null (buffer_entry_at d2)). }
  rewrite (alone_append _ _ _ _ _ _ _ Hbe). cbn [buffptr]. destruct (is_null p); [done|].
  on (strcat (m_heap m3) p wb) as h3 E4. cbn [m_heap]. by on (pdebug_s h3 p) as [] E5.
Qed.

Lemma alone_deliver k m d e rtn v fp : the_read_entry d = Ok e ->
  alone (read_buffer_step o k rtn v fp) (KState m d)
  = ('(r, p, out, st) ← @read_deliver o k m d e rtn v fp; Ok (Reply r p out, st)).
Proof.
  intros He. unfold read_buffer_step, read_deliver. rewrite alone_on_mem. destruct (kmalloc m (u64 (v * 8))) as [rb m1].
  destruct (is_null rb).
  { cbn [mbind res_bind]. rewrite alone_free. on (kfree m1 rb) as m2 E1. rewrite alone_unlock. by destruct (mutex_unlock d). }
  on (memset (m_heap m1) rb NUL (u64 (v * 8))) as h1 E1. unfold read_fill. rewrite alone_act. cbn [k_dev k_mem m_heap m_tick].
  rewrite He. cbn [mbind res_bind]. on (pdebug_s h1 (ptr_add (buffptr e) rtn)) as [] E2.
  on (strncpy h1 rb (ptr_add (buffptr e) rtn) (u64 (ent_size e - rtn))) as h2 E3.
  unfold read_copy. rewrite alone_on_mem. cbn [m_heap]. on (strlen h2 rb) as n E4.
  destruct (copy_to_user k h2 rb (v + 1)) as [[nleft out]|]; [|done]. cbn [mbind res_bind].
  rewrite alone_free. on (kfree (Mem h2 (m_tick m1)) rb) as m2 E5. rewrite alone_unlock. by destruct (mutex_unlock d).
Qed.

Lemma alone_read k st filp count :
  alone (read_proc o k filp (f_pos filp)) st
  = ('(r, p, out, st) ← @aesd_read o k st filp count (f_pos filp); Ok (Reply r p out, st)).
Proof.
  destruct st as [m d]. unfold read_proc, aesd_read. rewrite alone_on_dev. cbn [k_mem k_dev].
  on (device_of filp) as [] Ed. destruct (lock_interrupted k); [done|]. cbn [alone k_mem k_dev].
  on (mutex_lock d) as d1 El. unfold read_search. rewrite alone_on_dev. on (the_buffer d1) as b Eb.
  destruct (aesd_circular_buffer_find_entry_offset_for_fpos b (u64 (f_pos filp))) as [[[[i rtn]|] b']|]; [| |done]; cbn [mbind res_bind].
  - unfold read_position. rewrite alone_on_dev. on (the_read_entry (set_read_entry (set_buffer d1 b') (ESlot i))) as e Ee.
    by apply alone_deliver.
  - rewrite alone_unlock. by destruct (mutex_unlock _).
Qed.

Lemma alone_sum filp offset whence m d idxs : forall size,
  alone (seek_sum L idxs filp offset whence size) (KState m d)
  = (match idxs with [] => Ok tt | _ => _ ← the_buffer d; Ok tt end;;
     n ← (match the_buffer d with Ok b => length_loop b idxs size | Fault _ => Ok size end);
     let loc := (fixed_size_llseek (f_pos filp) offset whence n).1 in Ok (Reply loc loc [], KState m d)).
Proof.
  induction idxs as [|i idxs IH]; intros size; cbn [seek_sum].
  - destruct (the_buffer d); cbn; by destruct (fixed_size_llseek _ _ _ _).
  - rewrite alone_on_dev. destruct (the_buffer d) as [b|] eqn:Eb; [|done]. cbn [mbind res_bind length_loop].
    destruct (get_entry b i) as [e|]; [|done]. cbn [mbind res_bind]. rewrite IH. by destruct idxs.
Qed.

Lemma alone_seek st filp offset whence :
  alone (seek_proc L filp offset whence) st
  = ('(r, f) ← aesd_seek st filp offset whence; Ok (Reply r (f_pos f) [], st)).
Proof.
  destruct st as [m d]. unfold seek_proc, aesd_seek. rewrite alone_on_dev. on (device_of filp) as [] Ed. rewrite alone_sum. cbn [k_dev].
  destruct (the_buffer d) as [b|]; [|done]. cbn [mbind res_bind].
  unfold get_aesd_buffer_length. destruct (length_loop b _ 0) as [n|]; [|done]. cbn [mbind res_bind].
  by destruct (fixed_size_llseek (f_pos filp) offset whence n).
Qed.

Lemma alone_adjust_leave filp v m d : alone (adjust_leave filp v) (KState m d)
  = ('(r, f, st) ← adjust_fail filp m d v; Ok (Reply (s32 r) (f_pos f) [], st)).
Proof. unfold adjust_leave, adjust_fail. rewrite alone_unlock. by destruct (mutex_unlock d). Qed.

Lemma alone_adjust k st filp cmd off :
  alone (adjust_proc k filp cmd off) st
  = ('(r, f, st) ← aesd_adjust_file_offset k st filp cmd off; Ok (Reply (s32 r) (f_pos f) [], st)).
Proof.
  destruct st as [m d]. unfold adjust_proc, aesd_adjust_file_offset. rewrite alone_on_dev. on (device_of filp) as [] Ed. cbn [k_dev k_mem].
  destruct (_ || _); [apply alone_adjust_leave|]. destruct (lock_interrupted k); [apply alone_adjust_leave|].
  cbn [alone k_mem k_dev]. on (mutex_lock d) as d1 El. unfold adjust_check. rewrite alone_on_dev. on (the_buffer d1) as b Eb.
  on (get_entry b (u8 (u32 (out_offs b + cmd) mod 10))) as e Ee.
  destruct (is_null (buffptr e)); [apply alone_adjust_leave|]. destruct (ent_size e <? off); [apply alone_adjust_leave|].
  unfold adjust_position. rewrite alone_on_dev, Eb. cbn [mbind res_bind]. on (adjust_loop 12 b 0 cmd off 0) as t Et. apply alone_adjust_leave.
Qed.

(** A call that runs alone is the handler in one piece. *)
Lemma alone_call k st filp c : alone (call_proc o L k filp c) st = aesd_fops o L k st filp c.
Proof.
  destruct c as [count|data|offset whence|cmd arg]; cbn [call_proc aesd_fops].
  - apply alone_read.
  - apply alone_write.
  - apply alone_seek.
  - unfold ioctl_proc, aesd_ioctl. destruct (cmd =? AESDCHAR_IOCSEEKTO); [|done]. destruct (negb _); [done|].
    rewrite alone_adjust. by destruct (aesd_adjust_file_offset _ _ _ _ _) as [[[]]|].
Qed.
End alone.

(** ** With and without the lock *)

Definition locked (st : kstate) : bool := lock (k_dev st).

(** With the lock: it is kept until the last step, which releases it. *)
Inductive critical : proc -> Prop :=
| crit_act f :
    (forall st st' p, locked st = true -> f st = Ok (st', p) ->
       (locked st' = true /\ critical p) \/ (locked st' = false /\ exists r, p = Done r)) ->
    critical (Act f).

(** The buffer is there. *)
Definition ready (st : kstate) : Prop :=
  is_null (buffer_at (k_dev st)) = false /\
  forall i, 0 <= i < 10 -> exists e, get_entry (buffer (k_dev st)) i = Ok e.

(** Without the lock: nothing is changed.  [takes]: the call does not return
    before it had the lock, and with the lock the rest of it does [F]. *)
Inductive quiet (F : kstate -> res (reply * kstate)) (takes : bool) : proc -> Prop :=
| quiet_done r : takes = false -> quiet F takes (Done r)
| quiet_lock p : critical p ->
    (forall m d, lock d = false -> alone p (KState m (set_lock d true)) = F (KState m d)) -> quiet F takes (Lock p)
| quiet_act f : (forall st st' p, f st = Ok (st', p) -> st' = st /\ quiet F takes p) ->
    (forall st, ready st -> exists q, f st = Ok q) -> quiet F takes (Act f).

(** Calls that take the lock; and those that do not release it without having it. *)
Definition takes_lock (k : kcall) (c : syscall) : bool :=
  match c with
  | SysRead _ | SysWrite _ => negb (lock_interrupted k)
  | SysSeek _ _ => false
  | SysIoctl cmd _ => (cmd =? AESDCHAR_IOCSEEKTO) && (uncopied k sizeof_aesd_seekto =? 0)
  end.

Definition safe_call (k : kcall) (c : syscall) : Prop :=
  match c with
  | SysIoctl cmd arg => takes_lock k c = true -> 0 <= seek_write_cmd arg < 10 /\ lock_interrupted k = false
  | _ => True
  end.

(** ** The handlers *)

Lemma crit_on_mem f : (forall m m' p, f m = Ok (m', p) -> critical p) -> critical (on_mem f).
Proof.
  intros Hf. constructor. intros st st' p Hl He. destruct (f (k_mem st)) as [[m' q]|] eqn:E; [|done].
  cbn in He. injection He as <- <-. left. split; [done|]. by eapply Hf.
Qed.

Lemma crit_on_dev f : (forall d d' p, f d = Ok (d', p) -> lock d' = lock d /\ critical p) -> critical (on_dev f).
Proof.
  intros Hf. constructor. intros st st' p Hl He. destruct (f (k_dev st)) as [[d' q]|] eqn:E; [|done].
  cbn in He. injection He as <- <-. left. destruct (Hf _ _ _ E) as [Hd Hq]. split; [|done]. unfold locked in *. cbn. by rewrite Hd.
Qed.

Lemma crit_unlock r : critical (unlock_return r).
Proof.
  constructor. intros st st' p Hl He. unfold mutex_unlock in He. unfold locked in Hl. rewrite Hl in He. cbn in He.
  injection He as <- <-. right. split; [done|]. by exists r.
Qed.

Lemma crit_free p next : critical next -> critical (free_then p next).
Proof. intros Hn. apply crit_on_mem. intros m m' q He. destruct (kfree m p); [|done]. by injection He as <- <-. Qed.

(** A step on both, whose result is known. *)
Lemma crit_step f : (forall st st' p, f st = Ok (st', p) -> locked st' = locked st /\ critical p) -> critical (Act f).
Proof. intros Hf. constructor. intros st st' p Hl He. left. destruct (Hf _ _ _ He) as [-> ?]. done. Qed.

Create HintDb crit.
#[export] Hint Resolve crit_unlock crit_free crit_on_mem crit_on_dev crit_step : crit.

(** The results a sequence went through. *)
Ltac through H :=
  cbv beta zeta in H;
  repeat match type of H with
  | mbind _ ?m = Ok _ => let a := fresh "a" in let E := fresh "E" in destruct m as [a|] eqn:E; [|discriminate H]; cbn [mbind res_bind] in H; cbv beta zeta in H
  | (let '(_, _) := ?x in _) = _ => destruct x
  | (if ?b then _ else _) = Ok _ => destruct b eqn:?
  | match ?x with Some _ => _ | None => _ end = Ok _ => destruct x
  end; injection H as <- <-.

Section handlers.
Context (o : AllocOracle) (L : FixedSizeLlseek).

Lemma crit_leave wb v fp : critical (write_leave wb v fp).
Proof. unfold write_leave. auto with crit. Qed.

Lemma crit_add wb v fp : critical (write_add o wb v fp).
Proof.
  apply crit_step. intros ? ? p He. through He; (split; [done|]); [|apply crit_leave].
  apply crit_on_mem. intros ? ? q Hq. through Hq; apply crit_on_dev; intros ? ? q' Hq'; injection Hq' as <- <-; (split; [done|]);
    apply crit_leave.
Qed.

Lemma crit_write k data count fp : critical (write_buffer_step o k data count fp).
Proof.
  apply crit_on_mem. intros ? ? p He. through He; [apply crit_leave|].
  apply crit_on_mem. intros ? ? p1 He1. through He1. destruct (negb _); [apply crit_leave|].
  apply crit_step. intros ? ? p2 He2. through He2. split; [by destruct (negb _)|].
  apply crit_step. intros ? ? p3 He3. through He3. split; [done|].
  apply crit_step. intros ? ? p4 He4. through He4; (split; [done|]); [apply crit_leave | apply crit_add].
Qed.

Lemma crit_read k fp : critical (read_search o k fp).
Proof.
  apply crit_on_dev. intros ? ? p He. through He; (split; [done|]); [|apply crit_unlock].
  apply crit_on_dev. intros ? ? p1 He1. through He1. split; [done|].
  apply crit_on_mem. intros ? ? p2 He2. through He2; [auto with crit|].
  apply crit_step. intros ? ? p3 He3. through He3. split; [done|].
  apply crit_on_mem. intros ? ? p4 He4. through He4. auto with crit.
Qed.

Lemma crit_adjust filp cmd off : critical (adjust_check filp cmd off).
Proof.
  apply crit_on_dev. intros ? ? p He. through He. split; [done|].
  destruct (is_null _); [apply crit_unlock|]. destruct (_ <? _); [apply crit_unlock|].
  apply crit_on_dev. intros ? ? p1 He1. through He1. split; [done|]. apply crit_unlock.
Qed.

Lemma quiet_sum F filp offset whence idxs : Forall (fun i => 0 <= i < 10) idxs -> forall size,
  quiet F false (seek_sum L idxs filp offset whence size).
Proof.
  induction 1 as [|i idxs Hi Hidxs IH]; intros size; cbn [seek_sum].
  - destruct (fixed_size_llseek _ _ _ _). by constructor.
  - constructor.
    + intros [m d] st' p He. cbn in He. destruct (the_buffer d) as [b|]; [|done]. cbn in He.
      destruct (get_entry b i); [|done]. injection He as <- <-. by split.
    + intros [m d] [Hb He]. cbn in *. unfold the_buffer. rewrite Hb. cbn. destruct (He i Hi) as [e ->]. cbn. by eexists.
Qed.

(** The first step of every handler: the device of the file. *)
Lemma quiet_open F takes filp (g : proc) : private_data filp = true -> quiet F takes g ->
  quiet F takes (on_dev (fun dev => _ ← device_of filp; Ok (dev, g))).
Proof.
  intros Hf Hg. unfold device_of. rewrite Hf. constructor.
  - intros [m d] st' p He. cbn in He. by injection He as <- <-.
  - intros st _. by eexists.
Qed.

Lemma call_quiet k filp c : private_data filp = true -> safe_call k c ->
  quiet (fun st => aesd_fops o L k st filp c) (takes_lock k c) (call_proc o L k filp c).
Proof.
  intros Hf Hs.
  assert (Hlock : forall p, call_proc o L k filp c = on_dev (fun dev => _ ← device_of filp; Ok (dev, Lock p)) -> critical p ->
    quiet (fun st => aesd_fops o L k st filp c) (takes_lock k c) (call_proc o L k filp c)).
  { intros p Ep Hp. rewrite Ep. apply quiet_open; [done|]. constructor; [done|]. intros m d Hd.
    rewrite <- alone_call, Ep, alone_on_dev. unfold device_of. rewrite Hf. cbn [mbind res_bind alone k_dev k_mem].
    unfold mutex_lock. by rewrite Hd. }
  destruct c as [count|data|offset whence|cmd arg].
  - cbn [call_proc takes_lock] in *. unfold read_proc in *. destruct (lock_interrupted k).
    + apply quiet_open; [done|]. by constructor.
    + eapply Hlock; [done|]. apply crit_read.
  - cbn [call_proc takes_lock] in *. unfold write_proc in *. destruct (lock_interrupted k).
    + apply quiet_open; [done|]. by constructor.
    + eapply Hlock; [done|]. apply crit_write.
  - apply quiet_open; [done|]. apply quiet_sum. repeat constructor; lia.
  - cbn [call_proc safe_call takes_lock] in *. unfold ioctl_proc in *.
    destruct (cmd =? AESDCHAR_IOCSEEKTO); cbn [andb] in *; [|by constructor].
    destruct (uncopied k sizeof_aesd_seekto =? 0); cbn [negb] in *; [|by constructor].
    destruct (Hs eq_refl) as [Hc Hk]. unfold adjust_proc in *.
    rewrite Hk, (proj2 (Z.leb_gt 10 _)), (proj2 (Z.ltb_ge _ 0)) in * by lia. cbn [orb] in *.
    eapply Hlock; [done|]. apply crit_adjust.
Qed.
End handlers.
