(* ===== verification/DriverPool.v ===== *)
(** * Processes in the driver: the invariant

    The calls that took the lock and released it are, in this order, a
    sequential execution of the handlers; at most one more process is between
    its lock and its unlock, and its handler does what it would do from the
    state that execution ends in. *)

From stdpp Require Import base numbers strings gmap list.
From S2P Require Import Prelude CMem CircularBuffer Ioctl CharDriver DriverTrace DriverSteps DriverLock.

#[local] Open Scope Z_scope.

Section pool.
Context (o : AllocOracle) (L : FixedSizeLlseek).

(** Calls one after the other, each in one piece, with the answers they got. *)
Inductive serial (st0 : kstate) : list event -> kstate -> Prop :=
| serial_nil : serial st0 [] st0
| serial_snoc evs st i k f c r st' : serial st0 evs st -> aesd_fops o L k st f c = Ok (r, st') ->
    serial st0 (evs ++ [Event i k f c r]) st'.

(** A process that does not hold the lock. *)
Definition outside (i : nat) (evs : list event) (x : process) : Prop :=
  match p_now x, p_calls x with
  | None, _ => True
  | Some p, (k, c) :: _ =>
      quiet (fun st => aesd_fops o L k st (p_file x) c) (takes_lock k c) p \/
      (exists r, p = Done r /\ Event i k (p_file x) c r ∈ evs)
  | Some _, [] => False
  end.

(** What is true of any process: its file is open, its calls do not release
    a lock they do not have, and its answers are those of the events. *)
Definition proper (i : nat) (evs : list event) (x : process) : Prop :=
  private_data (p_file x) = true /\ Forall (fun '(k, c) => safe_call k c) (p_calls x) /\
  (forall k c r, (k, c, r) ∈ p_answers x -> takes_lock k c = true -> exists f, Event i k f c r ∈ evs).

(** The process that holds the lock, since the state [st1]. *)
Definition inside (st0 : kstate) (evs : list event) (st : kstate) (x : process) : Prop :=
  exists k c rest p st1, p_calls x = (k, c) :: rest /\ p_now x = Some p /\ critical p /\
    serial st0 evs st1 /\ locked st1 = false /\ alone p st = aesd_fops o L k st1 (p_file x) c.

Record pool_inv (st0 : kstate) (evs : list event) (w : pool) (owner : option nat) : Prop := PoolInv {
  pool_proper : forall i x, p_procs w !! i = Some x -> proper i evs x;
  pool_outside : forall i x, p_procs w !! i = Some x -> owner <> Some i -> outside i evs x;
  pool_lock : match owner with
              | None => locked (p_state w) = false /\ serial st0 evs (p_state w)
              | Some i => locked (p_state w) = true /\ exists x, p_procs w !! i = Some x /\ inside st0 evs (p_state w) x
              end }.

(** The processes before their first step. *)
Definition pool_start (w : pool) : Prop :=
  locked (p_state w) = false /\
  forall i x, p_procs w !! i = Some x ->
    private_data (p_file x) = true /\ Forall (fun '(k, c) => safe_call k c) (p_calls x) /\ p_now x = None /\ p_answers x = [].

Lemma pool_start_inv w : pool_start w -> pool_inv (p_state w) [] w None.
Proof.
  intros [Hl Hp]. split.
  - intros i x Hx. destruct (Hp i x Hx) as (? & ? & _ & Ha). split; [done|]. split; [done|]. rewrite Ha. by intros k c r Hin%not_elem_of_nil.
  - intros i x Hx _. destruct (Hp i x Hx) as (_ & _ & Hn & _). unfold outside. by rewrite Hn.
  - split; [done | constructor].
Qed.

(** More events change nothing about the others. *)
Lemma proper_more i evs ev x : proper i evs x -> proper i (evs ++ ev) x.
Proof.
  intros (Hf & Hs & Ha). split; [done|]. split; [done|]. intros k c r Hin Ht. destruct (Ha k c r Hin Ht) as [f Hev].
  exists f. apply elem_of_app. by left.
Qed.

Lemma outside_more i evs ev x : outside i evs x -> outside i (evs ++ ev) x.
Proof.
  unfold outside. destruct (p_now x); [|done]. destruct (p_calls x) as [|[]]; [done|].
  intros [?|(r & -> & Hr)]; [by left|]. right. exists r. split; [done|]. apply elem_of_app. by left.
Qed.

(** A step of process [i] that leaves the owner, or makes or unmakes it one. *)
Lemma step_inv st0 evs w owner i x ev st x' owner' :
  pool_inv st0 evs w owner -> p_procs w !! i = Some x ->
  (forall j, j <> i -> owner' = Some j <-> owner = Some j) ->
  proper i (evs ++ ev) x' -> (owner' <> Some i -> outside i (evs ++ ev) x') ->
  match owner' with
  | None => locked st = false /\ serial st0 (evs ++ ev) st
  | Some j => locked st = true /\ exists y, <[i := x']> (p_procs w) !! j = Some y /\ inside st0 (evs ++ ev) st y
  end ->
  pool_inv st0 (evs ++ ev) (Pool st (<[i := x']> (p_procs w))) owner'.
Proof.
  intros [Hp Ho _] Hx How Hp' Ho' Hl. split; cbn [p_procs p_state].
  - intros j y Hy. destruct (decide (j = i)) as [->|Hne].
    + rewrite lookup_insert_eq in Hy. by injection Hy as <-.
    + rewrite lookup_insert_ne in Hy by done. apply proper_more. by apply Hp.
  - intros j y Hy Hj. destruct (decide (j = i)) as [->|Hne].
    + rewrite lookup_insert_eq in Hy. injection Hy as <-. by apply Ho'.
    + rewrite lookup_insert_ne in Hy by done. apply outside_more. apply Ho; [done|]. intros E. apply Hj. by apply How.
  - done.
Qed.

(** The owner, and the lock. *)
Lemma owner_locked st0 evs w owner : pool_inv st0 evs w owner -> locked (p_state w) = false -> owner = None.
Proof. intros [_ _ Hl] Hf. destruct owner; [|done]. destruct Hl as [Hl _]. congruence. Qed.

(** A step that keeps the state and the owner. *)
Lemma same_inv st0 evs w owner i x x' : pool_inv st0 evs w owner -> p_procs w !! i = Some x -> owner <> Some i ->
  proper i evs x' -> outside i evs x' -> pool_inv st0 (evs ++ []) (Pool (p_state w) (<[i := x']> (p_procs w))) owner.
Proof.
  intros Hi Hx Hne Hp Ho. eapply step_inv; try done.
  - by rewrite app_nil_r.
  - by rewrite app_nil_r.
  - destruct Hi as [_ _ Hl]. rewrite app_nil_r. destruct owner as [j|]; [|done]. destruct Hl as (Hlk & y & Hy & Hin).
    split; [done|]. exists y. split; [|done]. rewrite lookup_insert_ne by congruence. done.
Qed.

(** The step of the process that holds the lock. *)
Lemma owner_step_inv st0 evs w i x ev st x' : pool_inv st0 evs w (Some i) -> p_procs w !! i = Some x ->
  process_step o L i (p_state w) x = Some (Ok (ev, st, x')) ->
  exists owner', pool_inv st0 (evs ++ ev) (Pool st (<[i := x']> (p_procs w))) owner'.
Proof.
  intros Hi Hx Hps. destruct (Hi) as [Hp _ Hl]. pose proof (Hp i x Hx) as (Hf & Hsafe & Hans).
  destruct Hl as (Hlk & y & Hy & k & c & rest & p & st1 & Hc & Hn & Hcrit & Hser & Hl1 & Hal).
  rewrite Hx in Hy. injection Hy as <-. unfold process_step in Hps. rewrite Hn, Hc in Hps. destruct Hcrit as [f Hf'].
  destruct (f (p_state w)) as [[st' q]|] eqn:Ef; [|done]. cbn in Hps. injection Hps as <- <- <-.
  cbn [alone] in Hal. rewrite Ef in Hal.
  destruct (Hf' _ _ _ Hlk Ef) as [[Hlk' Hq]|[Hlk' [r ->]]].
  - exists (Some i). assert (E : released i x (p_state w) st' q = []) by (by destruct Hq). rewrite E.
    eapply step_inv; try done; rewrite ?app_nil_r; [by split|].
    split; [done|]. eexists. split; [apply lookup_insert_eq|]. by exists k, c, rest, q, st1.
  - exists None. unfold released. rewrite Hc. unfold locked in *. rewrite Hlk, Hlk'. cbn [andb negb]. cbn [alone] in Hal.
    eapply step_inv; try done.
    + intros j Hj. split; [done|congruence].
    + apply (proper_more i evs _ (set_now x (Some (Done r)))). by split.
    + intros _. unfold outside. cbn [set_now p_now p_calls p_file]. rewrite Hc. right. exists r. split; [done|].
      apply elem_of_app. right. by apply list_elem_of_singleton.
    + split; [done|]. by eapply serial_snoc.
Qed.

(** The answer of a call is noted. *)
Lemma proper_answer i evs x k c r rest : proper i evs x -> p_calls x = (k, c) :: rest ->
  (takes_lock k c = true -> Event i k (p_file x) c r ∈ evs) ->
  proper i evs (Process (File (private_data (p_file x)) (pos r)) rest None (p_answers x ++ [(k, c, r)])).
Proof.
  intros (Hf & Hsafe & Hans) Hc Hr. rewrite Hc in Hsafe. apply Forall_cons in Hsafe as [_ Hsafe].
  split; [done|]. split; [done|]. cbn [p_answers]. intros k' c' r' [Hin|Hin]%elem_of_app Ht'; [by eapply Hans|].
  apply list_elem_of_singleton in Hin. injection Hin as -> -> ->. eexists. by apply Hr.
Qed.

(** A process that is let in. *)
Lemma enter_inv st0 evs w i x k c rest q : pool_inv st0 evs w None -> p_procs w !! i = Some x -> p_calls x = (k, c) :: rest ->
  critical q -> (forall m d, lock d = false -> alone q (KState m (set_lock d true)) = aesd_fops o L k (KState m d) (p_file x) c) ->
  pool_inv st0 (evs ++ []) (Pool (KState (k_mem (p_state w)) (set_lock (k_dev (p_state w)) true))
    (<[i := set_now x (Some q)]> (p_procs w))) (Some i).
Proof.
  intros Hi Hx Hc Hcrit Hal. destruct (Hi) as [Hp _ [Hlk Hser]]. eapply step_inv; try done; rewrite ?app_nil_r.
  - intros j Hj. split; congruence.
  - exact (Hp i x Hx).
  - split; [done|]. eexists. split; [apply lookup_insert_eq|]. exists k, c, rest, q, (p_state w).
    cbn [set_now p_calls p_now p_file]. do 5 (split; [done|]). rewrite Hal by done. by destruct (p_state w).
Qed.

(** The step of any other process. *)
Lemma other_step_inv st0 evs w owner i x ev st x' : pool_inv st0 evs w owner -> p_procs w !! i = Some x -> owner <> Some i ->
  process_step o L i (p_state w) x = Some (Ok (ev, st, x')) ->
  exists owner', pool_inv st0 (evs ++ ev) (Pool st (<[i := x']> (p_procs w))) owner'.
Proof.
  intros Hi Hx Hne Hps. destruct (Hi) as [Hp Ho Hl]. pose proof (Hp i x Hx) as Hpx. pose proof (Ho i x Hx Hne) as Hout.
  unfold process_step in Hps. unfold outside in Hout.
  destruct (p_now x) as [p|] eqn:Hn, (p_calls x) as [|[k c] rest] eqn:Hc; try done.
  - destruct Hout as [Hq|(r & -> & Hev)]; [destruct Hq as [r Ht|q Hcrit Hal|f Hfst Hok]|].
    + injection Hps as <- <- <-. exists owner. eapply same_inv; try done. eapply proper_answer; [done..|]. congruence.
    + destruct (lock (k_dev (p_state w))) eqn:Hlk; [done|]. injection Hps as <- <- <-.
      assert (owner = None) as -> by (by eapply owner_locked). exists (Some i). by eapply enter_inv.
    + destruct (f (p_state w)) as [[st' q]|] eqn:Ef; [|done]. cbn in Hps. injection Hps as <- <- <-.
      destruct (Hfst _ _ _ Ef) as [-> Hq].
      assert (E : released i x (p_state w) (p_state w) q = []).
      { unfold released. destruct q; [|done..]. destruct (p_calls x) as [|[]]; [done|]. by destruct (lock _). }
      rewrite E. exists owner. eapply same_inv; try done. unfold outside. cbn. rewrite Hc. by left.
    + injection Hps as <- <- <-. exists owner. eapply same_inv; try done. by eapply proper_answer.
  - injection Hps as <- <- <-. exists owner. eapply same_inv; try done. unfold outside. cbn. rewrite Hc. left.
    destruct Hpx as (Hf & Hsafe & _). rewrite Hc in Hsafe. apply Forall_cons in Hsafe as [? _]. by apply call_quiet.
Qed.

Lemma pool_step_inv st0 evs w owner i ev w' : pool_inv st0 evs w owner -> pool_step o L i w = Some (Ok (ev, w')) ->
  exists owner', pool_inv st0 (evs ++ ev) w' owner'.
Proof.
  intros Hi Hs. unfold pool_step in Hs. destruct (p_procs w !! i) as [x|] eqn:Hx; [|done]. cbn [mbind option_bind] in Hs.
  destruct (process_step o L i (p_state w) x) as [[[[ev0 st] x']|]|] eqn:Hps; [|done..]. cbn in Hs. injection Hs as <- <-.
  destruct (decide (owner = Some i)) as [->|Hne]; [by eapply owner_step_inv | by eapply other_step_inv].
Qed.

Lemma pool_run_inv w evs w' : pool_start w -> pool_run o L w evs w' -> exists owner, pool_inv (p_state w) evs w' owner.
Proof.
  intros Hst Hr. induction Hr as [w|w evs w1 i ev w2 Hr IH Hs]; [exists None; by apply pool_start_inv|].
  destruct (IH Hst) as [owner Hi]. by eapply pool_step_inv.
Qed.

Lemma pool_turns_run order : forall w0 evs0 w evs w', pool_run o L w0 evs0 w ->
  pool_turns o L order w = Some (evs, w') -> pool_run o L w0 (evs0 ++ evs) w'.
Proof.
  induction order as [|i order IH]; intros w0 evs0 w evs w' Hr Ht; cbn in Ht.
  - injection Ht as <- <-. by rewrite app_nil_r.
  - destruct (pool_step o L i w) as [[[ev w1]|]|] eqn:Hs; [|done..].
    destruct (pool_turns o L order w1) as [[l w2]|] eqn:Hl; [|done]. cbn in Ht. injection Ht as <- <-.
    rewrite app_assoc. eapply IH; [|exact Hl]. by eapply pool_next.
Qed.
End pool.
