(* ===== verification/ConcurrentProps.v ===== *)
(** * Properties of the driver with several processes

    The handlers are atomic where they keep to the lock, and no one gets
    stuck; and what happens where aesd_adjust_file_offset releases a lock
    that it does not hold. *)

From stdpp Require Import base numbers strings gmap list.
From S2P Require Import Prelude CMem CString CircularBuffer RingFacts Ioctl CharDriver DriverSpec DriverTrace.
From S2P Require Import DriverProps DriverSteps DriverLock DriverPool.

#[local] Open Scope Z_scope.

(** A process that is done. *)
Definition idle (x : process) : bool := match p_calls x, p_now x with [], None => true | _, _ => false end.

(** ** Facts *)

Section progress.
Context (o : AllocOracle) (L : FixedSizeLlseek).

Lemma bounded_ready st es pend : bounded st es pend -> ready st.
Proof.
  intros [Hinv _]. split; [apply (inv_buffer_at _ _ _ Hinv)|]. intros i Hi.
  destruct (lookup_lt_is_Some_2 (entry (buffer (k_dev st))) (Z.to_nat i)) as [e He].
  { rewrite (ring_len _ _ (inv_ring _ _ _ Hinv)). lia. }
  exists e. apply get_entry_ok; [lia | done].
Qed.

(** A process that does not hold the lock goes on when the lock is free. *)
Lemma outside_steps i evs st x : outside o L i evs x -> idle x = false -> locked st = false -> ready st ->
  exists r, process_step o L i st x = Some (Ok r).
Proof.
  intros Hout Hidle Hl Hr. unfold outside in Hout. unfold process_step, idle in *.
  destruct (p_now x) as [p|], (p_calls x) as [|[k c] rest]; try done; [|by eexists].
  destruct Hout as [Hq|(r & -> & _)]; [|by eexists]. destruct Hq as [r _|q _ _|f _ Hok]; [by eexists| |].
  - unfold locked in Hl. rewrite Hl. by eexists.
  - destruct (Hok st Hr) as [[st' q] ->]. by eexists.
Qed.

(** A handler that returns has found the device, or has not touched it. *)
Lemma fops_open k st f c r st' : aesd_fops o L k st f c = Ok (r, st') -> private_data f = true \/ st' = st.
Proof.
  destruct (private_data f) eqn:Hf; [by left|]. intros Hr. right. destruct c; cbn [aesd_fops] in Hr.
  - unfold aesd_read, device_of in Hr. rewrite Hf in Hr. discriminate Hr.
  - unfold aesd_write, device_of in Hr. rewrite Hf in Hr. discriminate Hr.
  - unfold aesd_seek, device_of in Hr. rewrite Hf in Hr. discriminate Hr.
  - unfold aesd_ioctl, aesd_adjust_file_offset, device_of in Hr. rewrite Hf in Hr.
    destruct (_ =? _); [destruct (negb _); [|discriminate Hr]|]; cbn in Hr; by injection Hr as _ <-.
Qed.

(** A sequential execution of well-formed calls stays reachable. *)
Definition calls_fine (st0 : kstate) (evs : list event) : Prop :=
  forall evs1 i k f c r evs2 st, evs = evs1 ++ Event i k f c r :: evs2 -> serial o L st0 evs1 st ->
    well_formed k st c /\ - 2 ^ 63 <= f_pos f < 2 ^ 63.

Lemma serial_reachable st0 evs st : reachable o L st0 -> serial o L st0 evs st -> calls_fine st0 evs -> reachable o L st.
Proof.
  intros Hr Hs. induction Hs as [|evs st i k f c r st' Hs IH Hc]; intros Hf; [done|].
  destruct (Hf evs i k f c r [] st eq_refl Hs) as [Hw Hp]. assert (Hst : reachable o L st).
  { apply IH. intros evs1 i1 k1 f1 c1 r1 evs2 st1 -> Hs1. eapply Hf; [|exact Hs1]. by rewrite <- app_assoc. }
  destruct (fops_open _ _ _ _ _ _ Hc) as [Hopen| ->]; [|done].
  eapply reach_step; [exact Hst|]. by eapply step_call.
Qed.

(** The process that holds the lock goes on when its call returns. *)
Lemma inside_steps i st0 evs st x : inside o L st0 evs st x ->
  (forall k c rest st1, p_calls x = (k, c) :: rest -> serial o L st0 evs st1 ->
     exists r, aesd_fops o L k st1 (p_file x) c = Ok r) ->
  exists r, process_step o L i st x = Some (Ok r).
Proof.
  intros (k & c & rest & p & st1 & Hc & Hn & Hcrit & Hser & _ & Hal) Hret. destruct (Hret _ _ _ _ Hc Hser) as [[r st2] Hr].
  unfold process_step. rewrite Hn, Hc. destruct Hcrit as [f _]. cbn [alone] in Hal. rewrite Hr in Hal.
  destruct (f st) as [[st' q]|]; [|done]. by eexists.
Qed.
End progress.

(** ** Runs of two writers *)

Definition writer (data : list char) : process := Process (File true 0) [(quiet_call, SysWrite data)] None [].

Definition fresh_state : kstate :=
  match @aesd_init_module bump_oracle (Mem ∅ 0) 0 0 with Ok (_, s) => mod_k s | Fault _ => KState (Mem ∅ 0) zero_dev end.

Lemma fresh_reachable : reachable bump_oracle null_llseek fresh_state.
Proof.
  unfold fresh_state. destruct (@aesd_init_module bump_oracle (Mem ∅ 0) 0 0) as [[z s]|] eqn:E; [|vm_compute in E; discriminate E].
  apply (reach_init bump_oracle null_llseek (Mem ∅ 0)).
  - rewrite E. vm_compute in E. injection E as <- _. reflexivity.
  - vm_compute in E. injection E as _ <-. reflexivity.
Qed.

Definition two_writers : pool := Pool fresh_state {[ 0%nat := writer (line "ab"); 1%nat := writer (line "cd") ]}.

Lemma two_writers_start : pool_start two_writers.
Proof.
  split; [vm_compute; reflexivity|]. intros i x Hx. cbn [two_writers p_procs] in Hx.
  apply lookup_insert_Some in Hx as [[_ <-]|[_ Hx]]; [by repeat constructor|].
  apply lookup_singleton_Some in Hx as [_ <-]. by repeat constructor.
Qed.

(** The second writer waits while the first one is inside, then both finish. *)
Definition demo_order : list nat :=
  [0; 0; 1; 0; 0; 1; 0; 0; 0; 0; 0; 0; 0; 0; 0; 1; 1; 1; 1; 1; 1; 1; 1; 1; 0; 1; 1; 1]%nat.

(** The final state of a run. *)
Definition after (order : list nat) (w : pool) : list event * pool :=
  match pool_turns bump_oracle null_llseek order w with Some r => r | None => ([], w) end.

Definition runs (order : list nat) (w : pool) : bool :=
  match pool_turns bump_oracle null_llseek order w with Some _ => true | None => false end.

Lemma after_run order w : runs order w = true ->
  pool_run bump_oracle null_llseek w (after order w).1 (after order w).2.
Proof.
  intros Hne. unfold after, runs in *. destruct (pool_turns bump_oracle null_llseek order w) as [[evs w']|] eqn:E; [|done].
  rewrite <- (app_nil_l (evs, w').1). eapply pool_turns_run; [constructor | exact E].
Qed.

(** In the middle of the run: the first writer is inside, the second waits. *)
Definition midway : pool := (after (take 8 demo_order) two_writers).2.

Lemma midway_run : pool_run bump_oracle null_llseek two_writers [] midway.
Proof. apply (after_run (take 8 demo_order) two_writers). vm_compute. reflexivity. Qed.

(** What can be seen of a process. *)
Definition seen (x : process) : Z * bool * list (kcall * syscall) := (f_pos (p_file x), idle x, p_calls x).

Lemma midway_seen : seen <$> p_procs midway
  = {[ 0%nat := (0, false, [(quiet_call, SysWrite (line "ab"))]); 1%nat := (0, false, [(quiet_call, SysWrite (line "cd"))]) ]}.
Proof. vm_compute. reflexivity. Qed.

Lemma midway_calls i x : p_procs midway !! i = Some x -> f_pos (p_file x) = 0 /\ idle x = false /\
  exists data, p_calls x = [(quiet_call, SysWrite data)] /\ (data = line "ab" \/ data = line "cd").
Proof.
  intros Hx. assert (Hs : (seen <$> p_procs midway) !! i = Some (seen x)) by (by rewrite lookup_fmap, Hx).
  rewrite midway_seen in Hs. unfold seen in Hs.
  apply lookup_insert_Some in Hs as [[_ E]|[_ [_ E]%lookup_singleton_Some]]; injection E as <- <- Hc;
    (split; [done|]; split; [done|]; eexists; split; [by rewrite <- Hc|]); [by left | by right].
Qed.

(** ** A call that releases a lock it does not hold *)

(** The ioctl with a command index that is out of range. *)
Definition bad_seek (arg : aesd_seekto) : Prop := 10 <= seek_write_cmd arg.
Definition bad_call (arg : aesd_seekto) : list (kcall * syscall) := [(quiet_call, SysIoctl AESDCHAR_IOCSEEKTO arg)].

Lemma bad_seek_steps o L arg w j f ans :
  p_procs w !! j = Some (Process f (bad_call arg) None ans) -> private_data f = true -> bad_seek arg -> locked (p_state w) = true ->
  exists w', pool_run o L w [Event j quiet_call f (SysIoctl AESDCHAR_IOCSEEKTO arg) (Reply (- EINVAL) (f_pos f) [])] w' /\
    locked (p_state w') = false /\ forall i, i <> j -> p_procs w' !! i = p_procs w !! i.
Proof.
  intros Hj Hf Hbad Hl. destruct w as [[m d] procs]. cbn [p_procs p_state] in *. unfold bad_seek in Hbad.
  pose (st := KState m d). pose (st' := KState m (set_lock d false)).
  assert (E1 : call_proc o L quiet_call f (SysIoctl AESDCHAR_IOCSEEKTO arg)
    = adjust_proc quiet_call f (seek_write_cmd arg) (seek_write_cmd_offset arg)) by done.
  set (x1 := Process f (bad_call arg) (Some (adjust_proc quiet_call f (seek_write_cmd arg) (seek_write_cmd_offset arg))) ans).
  set (x2 := Process f (bad_call arg) (Some (adjust_leave f (- EINVAL))) ans).
  set (x3 := Process f (bad_call arg) (Some (Done (Reply (- EINVAL) (f_pos f) []))) ans).
  assert (S1 : pool_step o L j (Pool st procs) = Some (Ok ([], Pool st (<[j := x1]> procs)))).
  { unfold pool_step. cbn [p_procs p_state]. rewrite Hj. done. }
  assert (S2 : pool_step o L j (Pool st (<[j := x1]> procs)) = Some (Ok ([], Pool st (<[j := x2]> (<[j := x1]> procs))))).
  { unfold pool_step. cbn [p_procs p_state]. rewrite lookup_insert_eq. cbn. unfold device_of. rewrite Hf.
    rewrite (proj2 (Z.leb_le _ _)) by lia. done. }
  assert (S3 : pool_step o L j (Pool st (<[j := x2]> (<[j := x1]> procs)))
    = Some (Ok ([Event j quiet_call f (SysIoctl AESDCHAR_IOCSEEKTO arg) (Reply (- EINVAL) (f_pos f) [])],
                Pool st' (<[j := x3]> (<[j := x2]> (<[j := x1]> procs)))))).
  { unfold pool_step. cbn [p_procs p_state]. rewrite lookup_insert_eq. unfold locked in Hl. cbn in Hl. cbn. unfold mutex_unlock.
    rewrite Hl. cbn. rewrite Hl. done. }
  exists (Pool st' (<[j := x3]> (<[j := x2]> (<[j := x1]> procs)))). split; [|split; [done|]].
  - eapply (pool_next _ _ _ []); [|exact S3]. eapply (pool_next _ _ _ []); [|exact S2]. eapply (pool_next _ _ _ []); [|exact S1]. constructor.
  - intros i Hi. cbn [p_procs]. by rewrite !lookup_insert_ne by done.
Qed.

(** The two writers, and a process that seeks to command 10. *)
Definition with_seeker : pool :=
  Pool fresh_state {[ 0%nat := writer (line "ab"); 1%nat := writer (line "cd");
                      2%nat := Process (File true 0) (bad_call (Seekto 10 0)) None [] ]}.

(** ** Theorems *)

(** C14: processes that make calls at the same time see them one after the
    other, when their files are open and none of their calls is an ioctl that
    jumps to the unlock without having the lock (a command index out of range
    or an interrupted lock, [safe_call]): the calls that take the lock, in the
    order in which they release it, are a sequential execution of the handlers
    with the answers they give; when the lock is free the device is in the
    state this execution ends in, and every answer a process got from such a
    call is one of them. *)
Theorem calls_linearize o L w evs w' : pool_start w -> pool_run o L w evs w' ->
  exists st, serial o L (p_state w) evs st /\
    (locked (p_state w') = false -> p_state w' = st) /\
    (forall i x k c r, p_procs w' !! i = Some x -> (k, c, r) ∈ p_answers x -> takes_lock k c = true ->
       exists f, Event i k f c r ∈ evs).
Proof.
  intros Hst Hr. destruct (pool_run_inv o L w evs w' Hst Hr) as [owner [Hp _ Hl]].
  assert (Hans : forall i x k c r, p_procs w' !! i = Some x -> (k, c, r) ∈ p_answers x -> takes_lock k c = true ->
    exists f, Event i k f c r ∈ evs).
  { intros i x k c r Hx. destruct (Hp i x Hx) as (_ & _ & Ha). apply Ha. }
  destruct owner as [i|].
  - destruct Hl as (Hlk & x & _ & k & c & rest & p & st1 & _ & _ & _ & Hser & _). exists st1. split; [done|]. split; [congruence|done].
  - destruct Hl as [_ Hser]. by exists (p_state w').
Qed.

Lemma calls_linearize_witness : exists st,
  serial bump_oracle null_llseek fresh_state (after demo_order two_writers).1 st /\
  p_state (after demo_order two_writers).2 = st /\ ev_process <$> (after demo_order two_writers).1 = [0; 1]%nat.
Proof.
  destruct (calls_linearize bump_oracle null_llseek two_writers (after demo_order two_writers).1 (after demo_order two_writers).2)
    as (st & Hs & Hl & _).
  - exact two_writers_start.
  - apply after_run. vm_compute. reflexivity.
  - exists st. split; [exact Hs|]. split; [apply Hl|]; vm_compute; reflexivity.
Defined.

(** C15: no deadlock.  From a state the driver reaches, when allocations
    succeed, the processes make no ioctl that releases the lock without
    having it, and every call, finished or in progress, is well formed in the
    state that the calls finished before it left, some process can take its
    next step without a fault, or all are done. *)
Theorem calls_progress o L w evs w' : alloc_succeeds o -> pool_start w -> reachable o L (p_state w) ->
  pool_run o L w evs w' -> calls_fine o L (p_state w) evs ->
  (forall st i x k c rest, serial o L (p_state w) evs st -> p_procs w' !! i = Some x -> p_calls x = (k, c) :: rest ->
     well_formed k st c /\ - 2 ^ 63 <= f_pos (p_file x) < 2 ^ 63) ->
  (forall i x, p_procs w' !! i = Some x -> idle x = true) \/
  (exists i ev w'', pool_step o L i w' = Some (Ok (ev, w''))).
Proof.
  intros Hok Hst Hr0 Hr Hdone Hpend.
  assert (Hfine : forall st, serial o L (p_state w) evs st -> reachable o L st) by (intros; by eapply serial_reachable).
  destruct (pool_run_inv o L w evs w' Hst Hr) as [owner [Hp Ho Hl]].
  assert (Hstep : forall i x r, p_procs w' !! i = Some x -> process_step o L i (p_state w') x = Some (Ok r) ->
    exists i ev w'', pool_step o L i w' = Some (Ok (ev, w''))).
  { intros i x [[ev st] x'] Hx Hs. exists i, ev, (Pool st (<[i := x']> (p_procs w'))). unfold pool_step. rewrite Hx. cbn. by rewrite Hs. }
  destruct owner as [i|].
  - right. destruct Hl as (_ & x & Hx & Hin). destruct (inside_steps o L i _ _ _ _ Hin) as [r Hs]; [|by eapply Hstep].
    intros k c rest st1 Hc Hser. pose proof (Hfine st1 Hser) as Hreach. destruct (Hpend st1 i x k c rest Hser Hx Hc) as [Hw Hpos].
    destruct (reachable_bounded o L st1 Hok Hreach) as (es & pend & Hb).
    destruct (call_returns o L k st1 es pend (p_file x) c Hok Hb (proj1 (Hp i x Hx)) Hpos Hw) as (v & st' & _ & _ & E & _). by eexists.
  - destruct Hl as [Hlk Hser]. pose proof (Hfine _ Hser) as Hreach.
    destruct (reachable_bounded o L _ Hok Hreach) as (es & pend & Hb).
    destruct (decide (map_Forall (fun _ x => idle x = true) (p_procs w'))) as [Hall|Hnot]; [left; exact Hall|right].
    apply map_not_Forall in Hnot as (i & x & Hx & Hidle); [|intros; apply _].
    destruct (outside_steps o L i evs (p_state w') x) as [r Hs]; [by apply Ho | by destruct (idle x) | done | by eapply bounded_ready |].
    by eapply Hstep.
Qed.

Lemma calls_progress_witness : exists i ev w'', pool_step bump_oracle null_llseek i midway = Some (Ok (ev, w'')).
Proof.
  destruct (calls_progress bump_oracle null_llseek two_writers [] midway) as [Hall|Hstep].
  - exact bump_oracle_succeeds.
  - exact two_writers_start.
  - exact fresh_reachable.
  - exact midway_run.
  - intros evs1 i k f c r evs2 st Hnil. by destruct evs1.
  - intros st i x k c rest Hs Hx Hc.
    inversion Hs as [|? ? ? ? ? ? ? ? ? ? Hnil]; [|by destruct (app_cons_not_nil _ _ _ (eq_sym Hnil))]. subst st. destruct (midway_calls i x Hx) as (-> & _ & data & Hd & Hdata).
    rewrite Hd in Hc. injection Hc as <- <- <-. split; [|lia]. destruct Hdata as [-> | ->]; vm_compute; repeat split; discriminate.
  - destruct (p_procs midway !! 0%nat) as [x|] eqn:Hx.
    + destruct (midway_calls 0 x Hx) as (_ & Hi & _). rewrite (Hall 0%nat x Hx) in Hi. discriminate Hi.
    + apply (f_equal (fmap idle)) in Hx. vm_compute in Hx. discriminate Hx.
  - exact Hstep.
Defined.

(** C40: aesd_adjust_file_offset with a command index out of range jumps to
    mutex_unlock() without having the lock: when it is called while another
    process is between its lock and its unlock, it releases the lock of that
    process, which stays where it was, and any process that waits for the
    lock is let in beside it. *)
Theorem bad_seek_unlocks o L arg w j f ans : p_procs w !! j = Some (Process f (bad_call arg) None ans) ->
  private_data f = true -> bad_seek arg -> locked (p_state w) = true ->
  exists ev w', pool_run o L w ev w' /\ (forall i, i <> j -> p_procs w' !! i = p_procs w !! i) /\
    forall i x p, i <> j -> p_procs w !! i = Some x -> p_now x = Some (Lock p) ->
      exists w'', pool_step o L i w' = Some (Ok ([], w'')) /\ locked (p_state w'') = true /\
        p_procs w'' !! i = Some (set_now x (Some p)) /\ forall k, k <> i -> k <> j -> p_procs w'' !! k = p_procs w !! k.
Proof.
  intros Hj Hf Hbad Hl. destruct (bad_seek_steps o L arg w j f ans Hj Hf Hbad Hl) as (w' & Hr & Hfree & Hsame).
  eexists _, w'. split; [exact Hr|]. split; [done|]. intros i x p Hi Hx Hn. unfold pool_step, process_step.
  rewrite Hsame, Hx by done. cbn [mbind option_bind]. rewrite Hn. unfold locked in Hfree. rewrite Hfree.
  eexists. split; [by destruct (p_calls x) as [|[]]|]. split; [done|]. cbn [p_procs]. split; [apply lookup_insert_eq|].
  intros k Hk Hkj. rewrite lookup_insert_ne by done. by apply Hsame.
Qed.

(** The first writer is inside, before its strcat(); the second one waits. *)
Definition inside_order : list nat := [0; 0; 0; 0; 0; 0; 0; 1; 1]%nat.
Definition caught : pool := (after inside_order with_seeker).2.

(** What the processes do next: in a step, at the lock, or nothing. *)
Definition at_lock (x : process) : bool := match p_now x with Some (Lock _) => true | _ => false end.

Lemma caught_seeker : p_procs caught !! 2%nat = Some (Process (File true 0) (bad_call (Seekto 10 0)) None []).
Proof. vm_compute. reflexivity. Qed.

Lemma caught_waiter : exists x p, p_procs caught !! 1%nat = Some x /\ p_now x = Some (Lock p).
Proof.
  assert (H : at_lock <$> p_procs caught !! 1%nat = Some true) by (vm_compute; reflexivity).
  destruct (p_procs caught !! 1%nat) as [x|]; [|discriminate H]. cbn in H. injection H as H. unfold at_lock in H.
  destruct (p_now x) as [[r|p|f]|] eqn:E; try discriminate H. by exists x, p.
Qed.

Lemma bad_seek_unlocks_witness : locked (p_state caught) = true /\ pool_step bump_oracle null_llseek 1 caught = None /\
  exists ev w' w'', pool_run bump_oracle null_llseek caught ev w' /\ pool_step bump_oracle null_llseek 1 w' = Some (Ok ([], w'')).
Proof.
  destruct (bad_seek_unlocks bump_oracle null_llseek (Seekto 10 0) caught 2 (File true 0) []) as (ev & w' & Hr & _ & Hin).
  - exact caught_seeker.
  - reflexivity.
  - unfold bad_seek. cbn. lia.
  - vm_compute. reflexivity.
  - destruct caught_waiter as (x & p & Hx & Hp). split; [vm_compute; reflexivity|]. split; [vm_compute; reflexivity|].
    destruct (Hin 1%nat x p ltac:(done) Hx Hp) as (w'' & Hs & _). by exists ev, w', w''.
Defined.

(** What comes of it: the second writer makes its whole call, and the first
    one then appends its command behind that of the second, past the end of
    the block that is in the buffer by now. *)
Theorem bad_seek_corrupts : exists evs w', pool_run bump_oracle null_llseek with_seeker evs w' /\
  ev_process <$> evs = [2; 1]%nat /\ pool_step bump_oracle null_llseek 0 w' = Some (Fault OutOfBounds).
Proof.
  pose (order := (inside_order ++ [2; 2; 2] ++ repeat 1 11)%nat).
  exists (after order with_seeker).1, (after order with_seeker).2. split; [apply after_run; vm_compute; reflexivity|].
  split; vm_compute; reflexivity.
Qed.
