(* ===== verification/CText.v ===== *)
(** * Comparing, splitting and converting C strings

    [strncmp], [strtok] and [atoi] of the C library, as far as the server
    uses them, with what they read and write checked like the functions of
    [CMem].  [strtok] keeps its position in a pointer of its own, which is
    passed along. *)

From stdpp Require Import base numbers strings gmap list.
From S2P Require Import Prelude CMem CString.

#[local] Open Scope Z_scope.

(** ** strncmp: the difference of the first two characters that differ *)

Definition char_code (c : char) : Z := Z.of_nat (Ascii.nat_of_ascii c).

Fixpoint compare_n (n : nat) (l1 l2 : block) : res Z :=
  match n with
  | O => Ok 0
  | S n' =>
      match l1, l2 with
      | Some a :: r1, Some b :: r2 =>
          if decide (a = b) then
            if decide (a = NUL) then Ok 0 else compare_n n' r1 r2
          else Ok (char_code a - char_code b)
      | None :: _, _ | _, None :: _ => Fault UninitRead
      | _, _ => Fault OutOfBounds
      end
  end.

(** Against a string constant. *)
Definition strncmp (h : heap) (p : ptr) (s : list char) (n : Z) : res Z :=
  l ← bytes_from h p;
  compare_n (Z.to_nat n) l (cstring s).

(** ** strtok with one delimiter *)

Fixpoint count_while (f : char -> bool) (s : list char) : nat :=
  match s with
  | c :: r => if f c then S (count_while f r) else O
  | [] => O
  end.

(** The token returned, the saved position and the memory. *)
Definition strtok (h : heap) (save s : ptr) (delim : char) : res (ptr * ptr * heap) :=
  let s := if is_null s then save else s in
  str ← load_cstr h s;
  let skip := count_while (fun c => bool_decide (c = delim)) str in
  let rest := drop skip str in
  match rest with
  | [] => Ok (PNull, ptr_add s (zlen str), h)
  | _ =>
      let n := count_while (fun c => negb (bool_decide (c = delim))) rest in
      let tok := ptr_add s (Z.of_nat skip) in
      if decide (n = length rest) then Ok (tok, ptr_add tok (Z.of_nat n), h)
      else
        h ← store_bytes h (ptr_add tok (Z.of_nat n)) [NUL];
        Ok (tok, ptr_add tok (Z.of_nat n + 1), h)
  end.

(** ** atoi: white space, a sign, digits; [(int)strtol(s, NULL, 10)] *)

Definition is_space (c : char) : bool :=
  let n := char_code c in (n =? 32) || ((9 <=? n) && (n <=? 13)).
Definition is_digit (c : char) : bool := (48 <=? char_code c) && (char_code c <=? 57).

Fixpoint digits_value (s : list char) (acc : Z) : Z :=
  match s with
  | c :: r => if is_digit c then digits_value r (acc * 10 + (char_code c - 48)) else acc
  | [] => acc
  end.

Definition long_clamp (z : Z) : Z := Z.max (- 2 ^ 63) (Z.min (2 ^ 63 - 1) z).

Definition strtol10 (s : list char) : Z :=
  let s := drop (count_while is_space s) s in
  match s with
  | c :: r =>
      if decide (c = Ascii.ascii_of_nat 45) then long_clamp (- digits_value r 0)
      else if decide (c = Ascii.ascii_of_nat 43) then long_clamp (digits_value r 0)
      else long_clamp (digits_value s 0)
  | [] => 0
  end.

Definition atoi (h : heap) (p : ptr) : res Z :=
  s ← load_cstr h p; Ok (s32 (strtol10 s)).

(** ** Arrays on the stack *)

(** An uninitialised local array; it is removed when the function returns. *)
Definition stack_array (h : heap) (n : nat) : nat * heap :=
  let b := fresh (dom h) in (b, <[b := replicate n None]> h).

(** A local array with the initialiser "". *)
Definition stack_array_zero (h : heap) (n : nat) : nat * heap :=
  let b := fresh (dom h) in (b, <[b := replicate n (Some NUL)]> h).

(** ** Facts *)

Lemma stack_array_fresh (h : heap) : h !! fresh (dom h) = None.
Proof. apply not_elem_of_dom, is_fresh. Qed.

Lemma count_while_none f s : forallb (fun c => negb (f c)) s = true -> count_while f s = O.
Proof. destruct s as [|c r]; [done|]. simpl. by destruct (f c). Qed.

Lemma count_while_all f s : forallb f s = true -> count_while f s = length s.
Proof. induction s as [|c r IH]; [done|]. simpl. destruct (f c); simpl; [|done]. auto. Qed.

(** [count_while] stops at the first character that fails the test. *)
Lemma count_while_app f s c r : forallb f s = true -> f c = false ->
  count_while f (s ++ c :: r) = length s.
Proof.
  intros Hs Hc. induction s as [|x s IH]; simpl in *; [by rewrite Hc|].
  destruct (f x); simpl in *; [|done]. auto.
Qed.

(** A comparison with a string constant. *)
Lemma compare_prefix (s t : list char) (r : block) : NUL ∉ s ->
  compare_n (length s) ((Some <$> s ++ t) ++ r) (cstring s) = Ok 0.
Proof.
  unfold cstring. intros Hn. induction s as [|c s IH]; [done|]. simpl.
  rewrite decide_True by done. rewrite decide_False by set_solver.
  apply IH. set_solver.
Qed.

Lemma compare_differs (s u : list char) : length u = length s -> NUL ∉ s -> u <> s ->
  forall (r : block), exists z, compare_n (length s) ((Some <$> u) ++ r) (cstring s) = Ok z /\ z <> 0.
Proof.
  unfold cstring. revert u. induction s as [|c s IH]; intros u Hl Hn Hne r.
  - destruct u; [done|simpl in Hl; lia].
  - destruct u as [|d u]; [simpl in Hl; lia|]. simpl. destruct (decide (d = c)) as [->|Hd].
    + rewrite decide_False by set_solver.
      apply IH; [simpl in Hl; lia | set_solver | congruence].
    + eexists. split; [done|]. unfold char_code. intros Heq. apply Hd.
      rewrite <- (Ascii.ascii_nat_embedding d), <- (Ascii.ascii_nat_embedding c). f_equal. lia.
Qed.

(** ** Strings inside a block *)

(** Block [b] holds the string [s] from byte [o] on. *)
Definition str_off (h : heap) (b o : nat) (s : list char) : Prop :=
  exists blk, h !! b = Some blk /\ (o <= length blk)%nat /\ cstr_blk (drop o blk) s.

Lemma str_off_0 h b s : str_off h b 0 s <-> str_at h b s.
Proof.
  split.
  - intros (blk & Hb & _ & Hs). exists blk. by rewrite drop_0 in Hs.
  - intros (blk & Hb & Hs). exists blk. rewrite drop_0. split; [done|]. split; [lia|done].
Qed.

Lemma load_cstr_off h b o s : str_off h b o s -> load_cstr h (PAddr b o) = Ok s.
Proof.
  intros (blk & Hb & Ho & Hs). unfold load_cstr. rewrite (bytes_from_ok _ _ blk) by done.
  rewrite bind_ok. by apply scan_str_spec.
Qed.

Lemma str_off_insert_ne h b b' o blk s : b <> b' -> str_off h b o s ->
  str_off (<[b' := blk]> h) b o s.
Proof. intros Hne (k & Hk & ?). exists k. by rewrite lookup_insert_ne. Qed.

Lemma str_off_delete_ne h b b' o s : b <> b' -> str_off h b o s -> str_off (delete b' h) b o s.
Proof. intros Hne (k & Hk & ?). exists k. by rewrite lookup_delete_ne. Qed.

Lemma forallb_not_in (delim : char) tok : delim ∉ tok ->
  forallb (fun c => negb (bool_decide (c = delim))) tok = true.
Proof.
  intros Hd. apply forallb_forall. intros c Hc. rewrite negb_true_iff.
  apply bool_decide_eq_false_2. intros ->. apply Hd. by apply list_elem_of_In.
Qed.

Lemma inserts_0 {A} (l k : list A) : (length l <= length k)%nat ->
  list_inserts 0 l k = l ++ drop (length l) k.
Proof.
  intros Hl. rewrite <- (take_drop (length l) k) at 1. apply list_inserts_0_r.
  rewrite length_take. lia.
Qed.

(** A string stored at the start of a block that has room for it. *)
Lemma stored_string (s : list char) (blk : block) : NUL ∉ s -> (length s < length blk)%nat ->
  cstr_blk (list_inserts 0 (Some <$> s ++ [NUL]) blk) s.
Proof.
  intros Hn Hl. split; [done|]. eexists.
  rewrite inserts_0 by (rewrite length_fmap, length_app; simpl; lia).
  rewrite fmap_app, <- app_assoc. reflexivity.
Qed.

Lemma scan_strn_cstr n blk s : cstr_blk blk s -> scan_strn n blk = Ok (take n s).
Proof.
  intros (Hn & r & ->). revert n. induction s as [|c s IH]; intros [|n]; csimpl; try done.
  rewrite decide_False by set_solver. rewrite IH by set_solver. done.
Qed.

(** Characters without a terminator among them. *)
Lemma scan_str_open (s : list char) (r : block) : NUL ∉ s ->
  scan_str ((Some <$> s) ++ r) = (t ← scan_str r; Ok (s ++ t)).
Proof.
  intros Hn. induction s as [|c s IH]; csimpl; [by destruct (scan_str r)|].
  rewrite decide_False by set_solver. rewrite IH by set_solver. by destruct (scan_str r).
Qed.

Section Strtok.
Context (h : heap) (save s : ptr) (b o : nat) (tok rest : list char) (delim : char).
Context (Hs : (if is_null s then save else s) = PAddr b o) (Htok : tok <> []) (Hd : delim ∉ tok).

Lemma strtok_skip str : (exists r, str = tok ++ r) ->
  count_while (fun c => bool_decide (c = delim)) str = O.
Proof.
  intros [r ->]. destruct tok as [|c t]; [done|]. simpl.
  rewrite bool_decide_eq_false_2; [done|]. set_solver.
Qed.

(** A token that a delimiter ends: the delimiter is overwritten. *)
Lemma strtok_token blk : h !! b = Some blk -> (o <= length blk)%nat ->
  cstr_blk (drop o blk) (tok ++ delim :: rest) ->
  exists blk', strtok h save s delim
    = Ok (PAddr b o, PAddr b (o + length tok + 1), <[b := blk']> h) /\
    length blk' = length blk /\ cstr_blk (drop o blk') tok /\
    cstr_blk (drop (o + length tok + 1) blk') rest.
Proof.
  intros Hb Ho [Hn [r Hr]]. unfold strtok. rewrite Hs.
  rewrite (load_cstr_off h b o (tok ++ delim :: rest))
    by (exists blk; split; [done|]; split; [done|]; split; [done|by exists r]).
  rewrite bind_ok, strtok_skip by eauto. rewrite drop_0.
  assert (Hc : count_while (fun c => negb (bool_decide (c = delim))) (tok ++ delim :: rest)
               = length tok).
  { apply count_while_app; [by apply forallb_not_in|]. by rewrite bool_decide_eq_true_2. }
  destruct (tok ++ delim :: rest) as [|c0 str] eqn:Hstr; [by destruct tok|]. rewrite <- Hstr in *.
  rewrite Hc, decide_False by (rewrite length_app; simpl; lia).
  cbn [ptr_add]. rewrite !Nat2Z.id, Nat.add_0_r.
  assert (Hlen : length blk = (o + length (tok ++ delim :: rest) + 1 + length r)%nat).
  { apply (f_equal length) in Hr. rewrite length_drop, length_app, length_fmap in Hr.
    simpl in Hr. lia. }
  rewrite length_app in Hlen. simpl in Hlen.
  rewrite (store_bytes_ok _ _ blk _ [NUL] Hb) by (simpl; lia). rewrite bind_ok.
  eexists. split; [by replace (Z.to_nat (Z.of_nat (length tok) + 1)) with (length tok + 1)%nat by lia;
    rewrite Nat.add_assoc|].
  rewrite length_inserts. split; [done|].
  assert (Hsplit : blk = take o blk ++ (Some <$> tok) ++ Some delim :: (Some <$> rest) ++ Some NUL :: r).
  { rewrite <- (take_drop o blk) at 1. rewrite Hr, fmap_app, <- app_assoc. done. }
  assert (Hins : list_inserts (o + length tok) (Some <$> [NUL]) blk =
    take o blk ++ (Some <$> tok) ++ Some NUL :: (Some <$> rest) ++ Some NUL :: r).
  { rewrite Hsplit at 1. simpl. rewrite insert_app_r_alt by (rewrite length_take; lia).
    rewrite length_take, Nat.min_l by lia.
    rewrite insert_app_r_alt by (rewrite length_fmap; lia). rewrite length_fmap.
    replace (o + length tok - o - length tok)%nat with O by lia. done. }
  rewrite Hins. split; split.
  - set_solver.
  - exists ((Some <$> rest) ++ Some NUL :: r).
    by rewrite drop_app_length' by (rewrite length_take; lia).
  - set_solver.
  - exists r. rewrite app_assoc, drop_app_ge by (rewrite length_app, length_take, length_fmap; lia).
    rewrite length_app, length_take, length_fmap, Nat.min_l by lia.
    by replace (o + length tok + 1 - (o + length tok))%nat with 1%nat by lia.
Qed.

(** The last token. *)
Lemma strtok_last : str_off h b o tok ->
  strtok h save s delim = Ok (PAddr b o, PAddr b (o + length tok), h).
Proof.
  intros Hstr. unfold strtok. rewrite Hs, (load_cstr_off _ _ _ _ Hstr), bind_ok.
  rewrite strtok_skip by (exists []; by rewrite app_nil_r). rewrite drop_0.
  rewrite count_while_all by (by apply forallb_not_in).
  destruct tok as [|c t] eqn:Ht; [done|]. rewrite <- Ht in *.
  rewrite decide_True by done. cbn [ptr_add]. by rewrite !Nat2Z.id, Nat.add_0_r.
Qed.
End Strtok.

(** No token is left. *)
Lemma strtok_end h b o delim : str_off h b o [] ->
  strtok h (PAddr b o) PNull delim = Ok (PNull, PAddr b o, h).
Proof.
  intros Hstr. unfold strtok. change (is_null PNull) with true. cbv iota.
  rewrite (load_cstr_off _ _ _ _ Hstr), bind_ok. simpl. by rewrite Nat.add_0_r.
Qed.
