(* ===== verification/Slist.v ===== *)
(** * Singly linked lists (sys/queue.h)

    The SLIST macros the server keeps its threads with, on a store of nodes.
    A node that was just allocated has an uninitialised link.  [slist] is
    the representation predicate: the nodes from a link on, in order. *)

From stdpp Require Import base numbers gmap list.
From S2P Require Import Prelude.

#[local] Open Scope Z_scope.

(** [sle_next] and [slh_first]: NULL or the address of a node. *)
Inductive link : Set :=
| LUninit
| LNull
| LNode (n : nat).

#[global] Instance link_eq_dec : EqDecision link.
Proof. solve_decision. Defined.

Section Slist.
Context {A : Type}.

(** A struct with an SLIST_ENTRY field. *)
Record node : Type := Node { node_data : A; sle_next : link }.

(** SLIST_HEAD: the head and the nodes that are allocated. *)
Record slisthead : Type := SlistHead { slh_first : link; nodes : gmap nat node }.

(** The node a link points to. *)
Definition deref (hd : slisthead) (l : link) : res node :=
  match l with
  | LUninit => Fault UninitRead
  | LNull => Fault NullDeref
  | LNode n => lift_opt UseAfterFree (nodes hd !! n)
  end.

Definition set_node (hd : slisthead) (n : nat) (x : node) : slisthead :=
  SlistHead (slh_first hd) (<[n := x]> (nodes hd)).

Definition SLIST_INIT (hd : slisthead) : slisthead := SlistHead LNull (nodes hd).

Definition SLIST_EMPTY (hd : slisthead) : bool := bool_decide (slh_first hd = LNull).
Definition SLIST_FIRST (hd : slisthead) : link := slh_first hd.
Definition SLIST_NEXT (x : node) : link := sle_next x.

Definition SLIST_INSERT_HEAD (hd : slisthead) (n : nat) : res slisthead :=
  x ← deref hd (LNode n);
  Ok (SlistHead (LNode n) (<[n := Node (node_data x) (slh_first hd)]> (nodes hd))).

Definition SLIST_INSERT_AFTER (hd : slisthead) (at_ n : nat) : res slisthead :=
  x ← deref hd (LNode n);
  y ← deref hd (LNode at_);
  let hd := set_node hd n (Node (node_data x) (sle_next y)) in
  y ← deref hd (LNode at_);
  Ok (set_node hd at_ (Node (node_data y) (LNode n))).

Definition SLIST_REMOVE_HEAD (hd : slisthead) : res slisthead :=
  x ← deref hd (slh_first hd);
  Ok (SlistHead (sle_next x) (nodes hd)).

(** SLIST_REMOVE: the walk to the predecessor of [elm]. *)
Fixpoint remove_after (fuel : nat) (hd : slisthead) (cur elm : nat) : res slisthead :=
  match fuel with
  | O => Fault OutOfFuel
  | S fuel' =>
      x ← deref hd (LNode cur);
      if decide (sle_next x = LNode elm) then
        y ← deref hd (sle_next x);
        Ok (set_node hd cur (Node (node_data x) (sle_next y)))
      else match sle_next x with
           | LNode n => remove_after fuel' hd n elm
           | LNull => Fault NullDeref
           | LUninit => Fault UninitRead
           end
  end.

Definition SLIST_REMOVE (fuel : nat) (hd : slisthead) (elm : nat) : res slisthead :=
  if decide (slh_first hd = LNode elm) then SLIST_REMOVE_HEAD hd
  else match slh_first hd with
       | LNode n => remove_after fuel hd n elm
       | LNull => Fault NullDeref
       | LUninit => Fault UninitRead
       end.

(** SLIST_FOREACH: the body is run on a node and may change its data; a
    body that answers [true] leaves the loop. *)
Fixpoint SLIST_FOREACH {S : Type} (fuel : nat)
    (body : nat -> node -> slisthead -> S -> res (bool * slisthead * S)) (hd : slisthead) (var : link) (s : S) : res (slisthead * S) :=
  match fuel with
  | O => Fault OutOfFuel
  | S fuel' =>
      match var with
      | LUninit => Fault UninitRead
      | LNull => Ok (hd, s)
      | LNode n =>
          x ← deref hd var;
          '(stop, hd, s) ← body n x hd s;
          if (stop : bool) then Ok (hd, s)
          else
            x ← deref hd var;
            SLIST_FOREACH fuel' body hd (sle_next x) s
      end
  end.

(** ** Representation *)

Inductive segment (ns : gmap nat node) : link -> list (nat * A) -> Prop :=
| seg_nil : segment ns LNull []
| seg_cons n a l rest : ns !! n = Some (Node a l) -> segment ns l rest ->
    segment ns (LNode n) ((n, a) :: rest).

(** The list holds the elements [xs], each in a node of its own. *)
Definition slist (hd : slisthead) (xs : list (nat * A)) : Prop :=
  segment (nodes hd) (slh_first hd) xs /\ NoDup xs.*1.

(** ** Facts *)

Lemma segment_insert_ne ns l xs n x : segment ns l xs -> n ∉ xs.*1 ->
  segment (<[n := x]> ns) l xs.
Proof.
  induction 1 as [|k a l rest Hk Hr IH]; intros Hn; [constructor|].
  csimpl in Hn. apply not_elem_of_cons in Hn as [Hne Hn].
  econstructor; [|by apply IH]. by rewrite lookup_insert_ne.
Qed.

Lemma segment_live ns l xs n a : segment ns l xs -> (n, a) ∈ xs ->
  exists k, ns !! n = Some (Node a k).
Proof.
  induction 1 as [|k b l rest Hk Hr IH]; [by intros ?%elem_of_nil|].
  intros [Heq|Hin]%elem_of_cons; [simplify_eq; eauto | auto].
Qed.

Lemma segment_length ns l xs : segment ns l xs -> l = LNull <-> xs = [].
Proof. by destruct 1. Qed.

(** A new first element. *)
Lemma insert_head_ok hd xs n x : slist hd xs -> nodes hd !! n = Some x -> n ∉ xs.*1 ->
  exists hd', SLIST_INSERT_HEAD hd n = Ok hd' /\ slist hd' ((n, node_data x) :: xs).
Proof.
  intros [Hs Hd] Hx Hn. unfold SLIST_INSERT_HEAD, deref. rewrite Hx. simpl.
  eexists. split; [done|]. split; simpl; [|by constructor].
  econstructor; [apply lookup_insert_eq|]. by apply segment_insert_ne.
Qed.

Lemma remove_head_ok hd y xs : slist hd (y :: xs) ->
  exists hd', SLIST_REMOVE_HEAD hd = Ok hd' /\ slist hd' xs /\ nodes hd' = nodes hd.
Proof.
  destruct hd as [first ns]. intros [Hs Hd]. simpl in Hs.
  inversion Hs as [|n a l rest Hn Hr]; subst. unfold SLIST_REMOVE_HEAD, deref. simpl.
  rewrite Hn. simpl. eexists. split; [done|]. csimpl in Hd.
  apply NoDup_cons in Hd as [_ Hd]. by split.
Qed.

(** A loop whose body updates the data of its node and the state. *)
Lemma foreach_update {S : Type} (body : nat -> node -> slisthead -> S -> res (bool * slisthead * S))
    (f : A -> A) (g : S -> nat * A -> S) fuel hd l xs s :
  (forall n a k hd s, (n, a) ∈ xs -> nodes hd !! n = Some (Node a k) ->
     body n (Node a k) hd s = Ok (false, set_node hd n (Node (f a) k), g s (n, a))) ->
  segment (nodes hd) l xs -> NoDup xs.*1 -> (length xs < fuel)%nat ->
  exists hd', SLIST_FOREACH fuel body hd l s = Ok (hd', fold_left g xs s) /\
    slh_first hd' = slh_first hd /\
    segment (nodes hd') l ((fun x => (x.1, f x.2)) <$> xs) /\
    (forall n, n ∉ xs.*1 -> nodes hd' !! n = nodes hd !! n).
Proof.
  revert hd l xs s. induction fuel as [|fuel IH]; intros hd l xs s Hbody Hs Hd Hf; [lia|].
  destruct Hs as [|n a l rest Hn Hr]; cbn [SLIST_FOREACH].
  { exists hd. split; [done|]. split; [done|]. split; [constructor|done]. }
  csimpl in *. apply NoDup_cons in Hd as [Hni Hd]. cbn [deref]. rewrite Hn. cbn [lift_opt].
  rewrite bind_ok, (Hbody _ _ _ _ _ ltac:(left) Hn), bind_ok. cbn [deref nodes set_node].
  rewrite lookup_insert_eq. cbn [lift_opt]. rewrite bind_ok. cbn [sle_next].
  destruct (IH (set_node hd n (Node (f a) l)) l rest (g s (n, a))) as (hd' & -> & Hfst & Hseg & Hout);
    [intros; apply Hbody; [by right|done] | by apply segment_insert_ne | done | lia |].
  exists hd'. split; [done|]. split; [done|]. split.
  - econstructor; [|exact Hseg]. rewrite Hout by done. apply lookup_insert_eq.
  - intros k Hk. apply not_elem_of_cons in Hk as [Hne Hk]. rewrite Hout by done.
    by apply lookup_insert_ne.
Qed.
End Slist.
Arguments node : clear implicits.
Arguments slisthead : clear implicits.
