(* ===== verification/Server.v ===== *)
(** * The socket server (server/aesdsocket.c)

    One thread per connection: [receive_and_write_to_file],
    [read_file_and_send] and [data_processor] run in a state and error monad
    over the state of the thread.  What the peer and the network answer is
    the class [Peer]; the device behind /dev/aesdchar is the class
    [CharDev], so that the server is proved against the interface and the
    driver implements it. *)

From stdpp Require Import base numbers strings gmap list.
From S2P Require Import Prelude CMem CString CText Ioctl Slist.

#[local] Open Scope Z_scope.

Definition USE_AESD_CHAR_DEVICE : bool := true.
Definition READ_WRITE_SIZE : Z := 1024.
Definition BACKLOG : Z := 20.
Definition INET_ADDRSTRLEN : nat := 16.

Definition special_string : list char := lit "AESDCHAR_IOCSEEKTO:".
Definition dot : char := Ascii.ascii_of_nat 46.
Definition comma : char := Ascii.ascii_of_nat 44.

(** ** flip_ip_addr

    [char temp_values[4][3]] is one object of twelve bytes, row [i] at byte
    [3 * i]. *)

Fixpoint flip_loop (fuel : nat) (h : heap) (temp_values : nat) (save token : ptr) (count : nat)
  : res heap :=
  match fuel with
  | O => Fault OutOfFuel
  | S fuel' =>
      if is_null token then Ok h else
      h ← strcpy h (PAddr temp_values (3 * (count - 1))) token;
      '(token, save, h) ← strtok h save PNull dot;
      flip_loop fuel' h temp_values save token (count + 1)
  end.

(** Every token takes at least two bytes of the array of sixteen. *)
Definition flip_fuel : nat := 9.

Definition flip_ip_addr (h : heap) (ip_addr : ptr) : res heap :=
  let '(modified_ip_addr, h) := stack_array h INET_ADDRSTRLEN in
  '(token, save, h) ← strtok h PNull ip_addr dot;
  let '(temp_values, h) := stack_array h 12 in
  h ← flip_loop flip_fuel h temp_values save token 1;
  s3 ← load_cstr h (PAddr temp_values 9);
  s2 ← load_cstr h (PAddr temp_values 6);
  s1 ← load_cstr h (PAddr temp_values 3);
  s0 ← load_cstr h (PAddr temp_values 0);
  h ← store_bytes h (PAddr modified_ip_addr 0)
        (s3 ++ [dot] ++ s2 ++ [dot] ++ s1 ++ [dot] ++ s0 ++ [NUL]);
  h ← strcpy h ip_addr (PAddr modified_ip_addr 0);
  Ok (delete temp_values (delete modified_ip_addr h)).

(** ** The peer and the device *)

Inductive recv_event : Type :=
| RecvData (data : list char)     (* no data: the peer closed the connection *)
| RecvIntr                        (* -1 with EINTR *)
| RecvErr.                        (* -1 with another errno *)

Inductive send_event : Type :=
| SendOk (n : Z)                  (* so many bytes were accepted *)
| SendIntr
| SendErr.

(** What the [t]-th recv() and the [t]-th write() on the socket yield. *)
Class Peer : Type := {
  recv_at : nat -> recv_event;
  send_at : nat -> send_event
}.

(** An open file: its position. *)
Abbreviation fpos_t := Z (only parsing).

(** The system calls on the device, by the state [S] of the device: a
    negative value is an error, else the result; [dev_read] also yields what
    was stored into the caller's buffer. *)
Class CharDev (S : Type) : Type := {
  dev_open : S -> bool;
  dev_read : S -> fpos_t -> Z -> res (Z * list char * fpos_t * S);
  dev_write : S -> fpos_t -> list char -> res (Z * fpos_t * S);
  dev_ioctl : S -> fpos_t -> Z -> aesd_seekto -> res (Z * fpos_t * S)
}.

(** ** The state of a connection's thread *)

Record tstate (S : Type) : Type := TState {
  t_mem : mem;                   (* the memory of the process *)
  t_dev : S;                     (* the device *)
  t_fd : option fpos_t;          (* writer_fd: the open file, None for -1 *)
  t_recv : nat;                  (* recv() calls made *)
  t_send : nat;                  (* write() calls on the socket made *)
  t_sent : list char;            (* bytes the socket accepted *)
  t_lock : bool;                 (* write_lock is held by this thread *)
  t_save : ptr;                  (* the position strtok() keeps *)
  thread_complete : Z
}.
Arguments TState {S}. Arguments t_mem {S}. Arguments t_dev {S}. Arguments t_fd {S}.
Arguments t_recv {S}. Arguments t_send {S}. Arguments t_sent {S}. Arguments t_lock {S}.
Arguments t_save {S}. Arguments thread_complete {S}.

Definition M (S A : Type) : Type := tstate S -> res (A * tstate S).

Section Monad.
Context {S : Type}.

#[export] Instance M_ret : MRet (M S) := fun A a st => Ok (a, st).
#[export] Instance M_bind : MBind (M S) := fun A B f m st =>
  match m st with Ok (a, st) => f a st | Fault e => Fault e end.

Definition throw {A} (e : fault) : M S A := fun _ => Fault e.
Definition gets {A} (f : tstate S -> A) : M S A := fun st => Ok (f st, st).

(** A computation on the memory. *)
Definition on_heap {A} (f : heap -> res (A * heap)) : M S A := fun st =>
  match f (m_heap (t_mem st)) with
  | Ok (a, h) =>
      Ok (a, TState (Mem h (m_tick (t_mem st))) (t_dev st) (t_fd st) (t_recv st) (t_send st)
               (t_sent st) (t_lock st) (t_save st) (thread_complete st))
  | Fault e => Fault e
  end.
Definition look {A} (f : heap -> res A) : M S A := on_heap (fun h => a ← f h; Ok (a, h)).
Definition update_heap (f : heap -> res heap) : M S unit := on_heap (fun h => h ← f h; Ok (tt, h)).

Definition set_fd (fd : option fpos_t) : M S unit := fun st =>
  Ok (tt, TState (t_mem st) (t_dev st) fd (t_recv st) (t_send st) (t_sent st) (t_lock st)
            (t_save st) (thread_complete st)).
Definition set_complete (v : Z) : M S unit := fun st =>
  Ok (tt, TState (t_mem st) (t_dev st) (t_fd st) (t_recv st) (t_send st) (t_sent st) (t_lock st)
            (t_save st) v).
Definition set_tlock (v : bool) : M S unit := fun st =>
  Ok (tt, TState (t_mem st) (t_dev st) (t_fd st) (t_recv st) (t_send st) (t_sent st) v
            (t_save st) (thread_complete st)).

(** pthread_mutex_lock() on a default mutex: taking it twice never returns. *)
Definition pthread_mutex_lock : M S Z :=
  held ← gets t_lock;
  if (held : bool) then throw SelfDeadlock else _ ← set_tlock true; mret 0.
Definition pthread_mutex_unlock : M S unit :=
  held ← gets t_lock;
  if (held : bool) then set_tlock false else throw BadUnlock.

(** strtok() with the thread's saved position. *)
Definition do_strtok (s : ptr) (delim : char) : M S ptr := fun st =>
  match strtok (m_heap (t_mem st)) (t_save st) s delim with
  | Ok (tok, save, h) =>
      Ok (tok, TState (Mem h (m_tick (t_mem st))) (t_dev st) (t_fd st) (t_recv st) (t_send st)
                 (t_sent st) (t_lock st) save (thread_complete st))
  | Fault e => Fault e
  end.

Definition do_malloc `{AllocOracle} (n : Z) : M S ptr := fun st =>
  let '(p, m) := malloc (t_mem st) n in
  Ok (p, TState m (t_dev st) (t_fd st) (t_recv st) (t_send st) (t_sent st) (t_lock st)
           (t_save st) (thread_complete st)).
Definition do_free (p : ptr) : M S unit := fun st =>
  match kfree (t_mem st) p with
  | Ok m =>
      Ok (tt, TState m (t_dev st) (t_fd st) (t_recv st) (t_send st) (t_sent st) (t_lock st)
                (t_save st) (thread_complete st))
  | Fault e => Fault e
  end.
End Monad.

Section Server.
Context {S : Type} `{CharDev S} `{Peer} `{AllocOracle}.

(** recv(): at most [n] bytes reach the buffer.  -1 stands for a failed
    call, with the errno. *)
Definition recv (buf : ptr) (n : Z) : M S (Z * Z) := fun st =>
  let ev := recv_at (t_recv st) in
  let st := TState (t_mem st) (t_dev st) (t_fd st) (Datatypes.S (t_recv st)) (t_send st)
              (t_sent st) (t_lock st) (t_save st) (thread_complete st) in
  match ev with
  | RecvData data =>
      let data := take (Z.to_nat n) data in
      (_ ← update_heap (fun h => store_bytes h buf data); mret (zlen data, 0)) st
  | RecvIntr => Ok ((-1, EINTR), st)
  | RecvErr => Ok ((-1, EINVAL), st)
  end.

(** write() on the socket: the bytes are read from the buffer. *)
Definition send (buf : ptr) (n : Z) : M S (Z * Z) := fun st =>
  let ev := send_at (t_send st) in
  match load_bytes (m_heap (t_mem st)) buf n with
  | Fault e => Fault e
  | Ok data =>
      match ev with
      | SendOk k =>
          let k := Z.max 0 (Z.min k (zlen data)) in
          Ok ((k, 0), TState (t_mem st) (t_dev st) (t_fd st) (t_recv st) (Datatypes.S (t_send st))
                        (t_sent st ++ take (Z.to_nat k) data) (t_lock st) (t_save st)
                        (thread_complete st))
      | SendIntr | SendErr =>
          Ok ((-1, match ev with SendIntr => EINTR | _ => EINVAL end),
              TState (t_mem st) (t_dev st) (t_fd st) (t_recv st) (Datatypes.S (t_send st))
                (t_sent st) (t_lock st) (t_save st) (thread_complete st))
      end
  end.

(** The calls on the device's file; on a descriptor that is -1 they fail. *)
Definition EBADF : Z := 9.

Definition on_dev {A} (f : S -> fpos_t -> res (A * fpos_t * S)) (bad : A) : M S A := fun st =>
  match t_fd st with
  | None => Ok (bad, st)
  | Some pos =>
      match f (t_dev st) pos with
      | Fault e => Fault e
      | Ok (a, pos, d) =>
          Ok (a, TState (t_mem st) d (Some pos) (t_recv st) (t_send st) (t_sent st) (t_lock st)
                   (t_save st) (thread_complete st))
      end
  end.

(** A negative result of the device becomes -1 and errno. *)
Definition posix (r : Z) : Z * Z := if r <? 0 then (-1, - r) else (r, 0).

Definition file_read (buf : ptr) (n : Z) : M S (Z * Z) :=
  '(r, data) ← on_dev (fun d pos => '(r, data, pos, d) ← dev_read d pos n; Ok (r, data, pos, d))
                 (- EBADF, []);
  _ ← update_heap (fun h => store_bytes h buf data);
  mret (posix r).

Definition file_write (buf : ptr) (n : Z) : M S (Z * Z) :=
  data ← look (fun h => load_bytes h buf n);
  r ← on_dev (fun d pos => dev_write d pos data) (- EBADF);
  mret (posix r).

Definition file_ioctl (cmd : Z) (arg : aesd_seekto) : M S Z :=
  r ← on_dev (fun d pos => dev_ioctl d pos cmd arg) (- EBADF);
  mret (posix r).1.

Definition file_open : M S unit :=
  ok ← gets (fun st => dev_open (t_dev st));
  set_fd (if (ok : bool) then Some 0 else None).
Definition file_close : M S unit := set_fd None.

(** ** read_file_and_send *)

(** The inner [while(1)]: [true] when the function returns from it. *)
Fixpoint send_loop (fuel : nat) (buf : ptr) (bytes_read : Z) : M S bool :=
  match fuel with
  | O => throw OutOfFuel
  | Datatypes.S fuel' =>
      '(bytes_written, errno) ← send buf bytes_read;
      if bytes_written =? -1 then
        if errno =? EINTR then send_loop fuel' buf bytes_read else mret true
      else mret false
  end.

Fixpoint read_loop (fuel : nat) (buf : ptr) : M S unit :=
  match fuel with
  | O => throw OutOfFuel
  | Datatypes.S fuel' =>
      '(bytes_read, errno) ← file_read buf READ_WRITE_SIZE;
      if bytes_read =? 0 then mret tt
      else if bytes_read =? -1 then
        if errno =? EINTR then read_loop fuel' buf else mret tt
      else
        stop ← send_loop fuel buf bytes_read;
        if (stop : bool) then mret tt else read_loop fuel' buf
  end.

Definition read_file_and_send (fuel : nat) : M S unit :=
  write_buffer ← on_heap (fun h => Ok (stack_array_zero h (Z.to_nat READ_WRITE_SIZE)));
  _ ← read_loop fuel (PAddr write_buffer 0);
  update_heap (fun h => Ok (delete write_buffer h)).

(** ** receive_and_write_to_file *)

(** syslog() with a "%s" argument reads the string. *)
Definition syslog_s (p : ptr) : M S unit := _ ← look (fun h => load_cstr h p); mret tt.

(** temp_string: the five characters after the special string. *)
Definition seek_copy (read_buffer : nat) : M S ptr :=
  n ← look (fun h => strlen h (PAddr read_buffer 0));
  temp_string ← do_malloc (u64 (n - 19));
  _ ← do_malloc (u64 (n - 19));
  _ ← update_heap (fun h => strncpy h temp_string (PAddr read_buffer 19) 5);
  _ ← syslog_s temp_string;
  mret temp_string.

(** The two numbers of a "cmd,offset" string. *)
Definition seek_parse (temp_string : ptr) : M S aesd_seekto :=
  split_string ← do_strtok temp_string comma;
  write_cmd ← look (fun h => atoi h split_string);
  split_string ← do_strtok PNull comma;
  write_cmd_offset ← look (fun h => atoi h split_string);
  mret (Seekto (u32 write_cmd) (u32 write_cmd_offset)).

(** The branch for a packet that starts with the special string. *)
Definition seek_request (fuel read_buffer : nat) : M S unit :=
  temp_string ← seek_copy read_buffer;
  seekto ← seek_parse temp_string;
  _ ← file_ioctl AESDCHAR_IOCSEEKTO seekto;
  _ ← pthread_mutex_unlock;
  _ ← read_file_and_send fuel;
  do_free temp_string.

(** The inner [while(1)]: [true] when the function returns 1 from it. *)
Fixpoint store_loop (fuel read_buffer : nat) (bytes_read : Z) : M S bool :=
  match fuel with
  | O => throw OutOfFuel
  | Datatypes.S fuel' =>
      r ← pthread_mutex_lock;
      if r =? 0 then
        _ ← syslog_s (PAddr read_buffer 0);
        c ← look (fun h => strncmp h (PAddr read_buffer 0) special_string (zlen special_string));
        if c =? 0 then _ ← seek_request fuel read_buffer; mret true
        else
          _ ← syslog_s (PAddr read_buffer 0);
          '(bytes_written, errno) ← file_write (PAddr read_buffer 0) bytes_read;
          if bytes_written =? -1 then
            if errno =? EINTR then store_loop fuel' read_buffer bytes_read else mret false
          else _ ← pthread_mutex_unlock; mret false
      else store_loop fuel' read_buffer bytes_read
  end.

(** The loop on end_of_packet; the value is what the function returns. *)
Fixpoint receive_loop (fuel read_buffer : nat) (end_of_packet : bool) : M S Z :=
  match fuel with
  | O => throw OutOfFuel
  | Datatypes.S fuel' =>
      if end_of_packet then mret 0 else
      '(bytes_read, errno) ← recv (PAddr read_buffer 0) READ_WRITE_SIZE;
      if negb (bytes_read =? 0) then
        if bytes_read =? -1 then
          if errno =? EINTR then receive_loop fuel' read_buffer end_of_packet else mret 0
        else
          nl ← look (fun h => strchr h (PAddr read_buffer 0) newline);
          let end_of_packet := if negb (is_null nl) then true else end_of_packet in
          returned ← store_loop fuel read_buffer bytes_read;
          if (returned : bool) then mret 1 else receive_loop fuel' read_buffer end_of_packet
      else receive_loop fuel' read_buffer end_of_packet
  end.

Definition receive_and_write_to_file (fuel : nat) : M S Z :=
  read_buffer ← on_heap (fun h => Ok (stack_array_zero h (Z.to_nat READ_WRITE_SIZE)));
  r ← receive_loop fuel read_buffer false;
  _ ← update_heap (fun h => Ok (delete read_buffer h));
  mret r.

(** ** The rounds of the loops *)

(** One round of the loop on end_of_packet: the function returns a value, or
    the loop goes on. *)
Definition receive_step (fuel read_buffer : nat) : M S (Z + bool) :=
  '(bytes_read, errno) ← recv (PAddr read_buffer 0) READ_WRITE_SIZE;
  if negb (bytes_read =? 0) then
    if bytes_read =? -1 then
      if errno =? EINTR then mret (inr false) else mret (inl 0)
    else
      nl ← look (fun h => strchr h (PAddr read_buffer 0) newline);
      let end_of_packet := if negb (is_null nl) then true else false in
      returned ← store_loop fuel read_buffer bytes_read;
      if (returned : bool) then mret (inl 1) else mret (inr end_of_packet)
  else mret (inr false).

(** One round of the loop that reads the device; [true]: it is left. *)
Definition send_step (fuel : nat) (buf : ptr) : M S bool :=
  '(bytes_read, errno) ← file_read buf READ_WRITE_SIZE;
  if bytes_read =? 0 then mret true
  else if bytes_read =? -1 then mret (negb (errno =? EINTR))
  else send_loop fuel buf bytes_read.

(** ** data_processor *)
Definition data_processor (fuel : nat) : M S unit :=
  _ ← file_open;
  r ← receive_and_write_to_file fuel;
  _ ← (if r =? 0 then
         _ ← file_close;
         _ ← file_open;
         _ ← read_file_and_send fuel;
         set_complete 1
       else mret tt);
  file_close.

(** ** timestamp_logger: [stamp] is what strftime() yields *)
Fixpoint stamp_loop (fuel : nat) (write_string : ptr) (n : Z) : M S unit :=
  match fuel with
  | O => throw OutOfFuel
  | Datatypes.S fuel' =>
      r ← pthread_mutex_lock;
      if r =? 0 then
        '(bytes_written, errno) ← file_write write_string n;
        if bytes_written =? -1 then stamp_loop fuel' write_string n
        else pthread_mutex_unlock
      else stamp_loop fuel' write_string n
  end.

Definition timestamp_logger (fuel : nat) (stamp : list char) : M S unit :=
  write_string ← on_heap (fun h => Ok (stack_array h 256));
  _ ← file_open;
  _ ← update_heap (fun h => store_bytes h (PAddr write_string 0) (stamp ++ [NUL]));
  _ ← syslog_s (PAddr write_string 0);
  n ← look (fun h => strlen h (PAddr write_string 0));
  _ ← stamp_loop fuel (PAddr write_string 0) n;
  _ ← update_heap (fun h => Ok (delete write_string h));
  file_close.
End Server.
