(* ===== verification/ServerMain.v ===== *)
(** * The main thread of the server (server/aesdsocket.c)

    The list of threads, the start-up, the loop that accepts connections
    and joins finished threads, and the way out after a signal. *)

From stdpp Require Import base numbers strings gmap list.
From S2P Require Import Prelude CMem CText Ioctl Slist Server.

#[local] Open Scope Z_scope.

(** struct thread_info with its struct arg_struct.  [thread_id] is unset when
    pthread_create() failed. *)
Record thread_info : Type := ThreadInfo {
  thread_id : option nat;
  connected_skt_fd : Z;
  ti_complete : Z                 (* input_args.thread_complete *)
}.

(** What the main thread changes: the list, the threads started, and the
    joins and closes made, in order. *)
Record server : Type := MkServer {
  head : slisthead thread_info;
  started : nat;
  joined : list nat;
  closed : list Z
}.

Definition set_head (sv : server) (hd : slisthead thread_info) : server :=
  MkServer hd (started sv) (joined sv) (closed sv).

(** The list head after SLIST_INIT(). *)
Definition server_init : server := MkServer (SLIST_INIT (SlistHead LNull ∅)) 0 [] [].

(** ** add_slist_entry

    [entry] is what malloc() returns, [created] whether pthread_create()
    succeeded. *)

(** The body of its loop: insert after the last node. *)
Definition insert_last (entry : nat) (n : nat) (x : node thread_info)
    (hd : slisthead thread_info) (s : unit) : res (bool * slisthead thread_info * unit) :=
  if decide (sle_next x = LNull) then
    hd ← SLIST_INSERT_AFTER hd n entry; Ok (true, hd, tt)
  else Ok (false, hd, tt).

Definition add_slist_entry (fuel : nat) (sv : server) (entry : option nat) (created : bool)
    (skt_fd : Z) : res (Z * server) :=
  match entry with
  | None => Fault NullDeref
  | Some e =>
      let tid := if created then Some (started sv) else None in
      let hd := set_node (head sv) e (Node (ThreadInfo tid skt_fd 0) LUninit) in
      let sv := MkServer hd (if created then S (started sv) else started sv)
                  (joined sv) (closed sv) in
      hd ← (if SLIST_EMPTY hd then SLIST_INSERT_HEAD hd e
            else '(hd, _) ← SLIST_FOREACH fuel (insert_last e) hd (slh_first hd) tt; Ok hd);
      Ok (0, set_head sv hd)
  end.

(** ** Joining *)

Definition pthread_join (t : thread_info) (joined : list nat) : res (list nat) :=
  match thread_id t with
  | None => Fault UninitRead
  | Some i => Ok (joined ++ [i])
  end.

(** The body of the loop after each accept: join and close what is
    complete, then clear the flag. *)
Definition reap_body (n : nat) (x : node thread_info) (hd : slisthead thread_info)
    (s : list nat * list Z) : res (bool * slisthead thread_info * (list nat * list Z)) :=
  let t := node_data x in
  s ← (if ti_complete t =? 1 then
         j ← pthread_join t s.1; Ok (j, s.2 ++ [connected_skt_fd t])
       else Ok s);
  Ok (false, set_node hd n (Node (ThreadInfo (thread_id t) (connected_skt_fd t) 0) (sle_next x)), s).

Definition reap (fuel : nat) (sv : server) : res server :=
  '(hd, s) ← SLIST_FOREACH fuel reap_body (head sv) (slh_first (head sv)) (joined sv, closed sv);
  Ok (MkServer hd (started sv) s.1 s.2).

(** ** After a signal *)

(** The body of the loop that joins what is complete and closes every
    connection. *)
Definition exit_body (n : nat) (x : node thread_info) (hd : slisthead thread_info)
    (s : list nat * list Z) : res (bool * slisthead thread_info * (list nat * list Z)) :=
  let t := node_data x in
  j ← (if ti_complete t =? 1 then pthread_join t s.1 else Ok s.1);
  Ok (false, hd, (j, s.2 ++ [connected_skt_fd t])).

(** [while(SLIST_EMPTY(&head) != 0)] over the nodes to free. *)
Fixpoint free_loop (fuel : nat) (hd : slisthead thread_info) : res (slisthead thread_info) :=
  match fuel with
  | O => Fault OutOfFuel
  | S fuel' =>
      if SLIST_EMPTY hd then
        let tmp := SLIST_FIRST hd in
        hd ← SLIST_REMOVE_HEAD hd;
        match tmp with
        | LNode n => free_loop fuel' (SlistHead (slh_first hd) (delete n (nodes hd)))
        | _ => free_loop fuel' hd
        end
      else Ok hd
  end.

(** The part after timer_delete(): the listening socket is closed last. *)
Definition exit_threads (fuel : nat) (sv : server) (skt_fd : Z) : res server :=
  '(hd, s) ← SLIST_FOREACH fuel exit_body (head sv) (slh_first (head sv)) (joined sv, closed sv);
  hd ← free_loop fuel hd;
  Ok (MkServer hd (started sv) s.1 (s.2 ++ [skt_fd])).

(** [timer_id] is only set when the timer was created. *)
Definition main_exit (fuel : nat) (sv : server) (timer_id : option nat) (skt_fd : Z)
  : res (Z * server) :=
  match timer_id with
  | None => Fault UninitRead
  | Some _ => sv ← exit_threads fuel sv skt_fd; Ok (0, sv)
  end.

(** ** The start-up *)

(** What the calls before the loop answer. *)
Record startup : Type := Startup {
  getaddrinfo_ret : Z;
  addresses : list (Z * Z);      (* socket() and bind() for each address *)
  listen_ret : Z;
  daemon_flag : bool;            (* argc == 2 and argv[1] is "-d" *)
  fork_ret : Z;
  timer_create_ret : Z;
  timer_settime_ret : Z
}.

Inductive start_result : Type :=
| Returned (code : Z)            (* main returns *)
| Exited (code : Z)              (* exit(): the parent of the daemon *)
| Serving (skt_fd : Z) (timer_id : option nat).

(** The loop over the addresses: the descriptor it leaves in skt_fd. *)
Fixpoint bind_loop (l : list (Z * Z)) (skt_fd : option Z) : option Z :=
  match l with
  | [] => skt_fd
  | (fd, bind_ret) :: rest =>
      if fd =? -1 then bind_loop rest (Some fd)
      else if negb (bind_ret =? 0) then bind_loop rest (Some fd)
      else Some fd
  end.

Definition main_start (e : startup) : res start_result :=
  if negb (getaddrinfo_ret e =? 0) then Ok (Returned (-1)) else
  match bind_loop (addresses e) None with
  | None => Fault UninitRead
  | Some skt_fd =>
      if negb (listen_ret e =? 0) then Ok (Returned (-1)) else
      if daemon_flag e && (fork_ret e =? -1) then Ok (Returned (-1)) else
      if daemon_flag e && negb (fork_ret e =? 0) then Ok (Exited 0) else
      if negb USE_AESD_CHAR_DEVICE then
        if negb (timer_create_ret e =? 0) then Ok (Returned (-1)) else
        if negb (timer_settime_ret e =? 0) then Ok (Returned (-1)) else
        Ok (Serving skt_fd (Some O))
      else Ok (Serving skt_fd None)
  end.

(** ** The loop *)

Inductive accept_event : Type :=
| AcceptConn (skt_fd : Z) (ip : list char) (entry : option nat) (created : bool)
| AcceptAgain                    (* EAGAIN or EWOULDBLOCK *)
| AcceptErr.

Inductive loop_result : Type :=
| Continue
| Return (code : Z).

(** What main does with the client's address: [ip] is what inet_ntop() stored
    into client_ip; the copy is reversed and read for syslog(). *)
Definition log_client (h : heap) (ip : list char) : res heap :=
  let '(hostview, h) := stack_array h INET_ADDRSTRLEN in
  h ← store_bytes h (PAddr hostview 0) (ip ++ [NUL]);
  h ← flip_ip_addr h (PAddr hostview 0);
  _ ← load_cstr h (PAddr hostview 0);
  Ok (delete hostview h).

(** One round of the loop. *)
Definition main_round (fuel : nat) (sv : server) (h : heap) (caught_signal : bool)
    (timer_id : option nat) (skt_fd : Z) (ev : accept_event)
  : res (loop_result * server * heap) :=
  if caught_signal then
    '(code, sv) ← main_exit fuel sv timer_id skt_fd; Ok (Return code, sv, h)
  else
    match ev with
    | AcceptAgain => Ok (Continue, sv, h)
    | AcceptErr => Ok (Return (-1), sv, h)
    | AcceptConn fd ip entry created =>
        h ← log_client h ip;
        '(_, sv) ← add_slist_entry fuel sv entry created fd;
        sv ← reap fuel sv;
        Ok (Continue, sv, h)
    end.

(** socket_signal_handler *)
Definition SIGINT : Z := 2.
Definition SIGTERM : Z := 15.

Definition socket_signal_handler (signal_number : Z) (caught_signal : bool) : bool :=
  if (signal_number =? SIGTERM) || (signal_number =? SIGINT) then true else caught_signal.
