(* ===== verification/ServerFacts.v ===== *)
(** * Facts about the main thread of the server *)

From stdpp Require Import base numbers strings gmap list.
From S2P Require Import Prelude CMem CString CText Ioctl Slist Server ServerMain.

#[local] Open Scope Z_scope.

(** ** Adding a thread to the list *)

Lemma insert_last_end e n a t first ns : ns !! n = Some (Node a LNull) ->
  ns !! e = Some (Node t LUninit) -> e <> n ->
  insert_last e n (Node a LNull) (SlistHead first ns) tt
  = Ok (true, SlistHead first (<[n := Node a (LNode e)]> (<[e := Node t LNull]> ns)), tt).
Proof.
  intros Hn He Hne. unfold insert_last. cbn [sle_next]. rewrite decide_True by done.
  unfold SLIST_INSERT_AFTER, set_node. cbn [deref nodes slh_first].
  rewrite He. cbn [lift_opt]. rewrite bind_ok, Hn. cbn [lift_opt]. rewrite bind_ok.
  cbn [deref nodes slh_first].
  rewrite lookup_insert_ne, Hn by done. cbn [lift_opt]. by rewrite !bind_ok.
Qed.

(** The walk ends at the last node and links the new node [e] behind it. *)
Lemma foreach_insert_last ns l xs e t : segment ns l xs -> forall fuel first,
  NoDup xs.*1 -> xs <> [] -> e ∉ xs.*1 -> ns !! e = Some (Node t LUninit) ->
  (length xs < fuel)%nat ->
  exists ns', SLIST_FOREACH fuel (insert_last e) (SlistHead first ns) l tt
    = Ok (SlistHead first ns', tt) /\
    segment ns' l (xs ++ [(e, t)]) /\
    (forall n, n ∉ xs.*1 -> n <> e -> ns' !! n = ns !! n).
Proof.
  induction 1 as [|n a l rest Hn Hr IH]; intros fuel first Hd Hne He Hnew Hf; [done|].
  destruct fuel as [|fuel]; [simpl in Hf; lia|]. cbn [SLIST_FOREACH deref nodes].
  rewrite Hn. cbn [lift_opt]. rewrite bind_ok.
  csimpl in Hd. csimpl in He. apply NoDup_cons in Hd as [Hni Hd].
  apply not_elem_of_cons in He as [Hen He].
  destruct Hr as [|n2 a2 l2 rest Hn2 Hr].
  - rewrite (insert_last_end _ _ _ t), bind_ok by done. eexists. split; [reflexivity|]. split.
    + econstructor; [apply lookup_insert_eq|]. econstructor; [|constructor].
      rewrite lookup_insert_ne by done. apply lookup_insert_eq.
    + intros k Hk Hke. rewrite !lookup_insert_ne by set_solver. done.
  - assert (insert_last e n (Node a (LNode n2)) (SlistHead first ns) tt
      = Ok (false, SlistHead first ns, tt)) as -> by done.
    rewrite bind_ok. cbn [deref nodes]. rewrite Hn.
    cbn [lift_opt]. rewrite bind_ok. cbn [sle_next].
    destruct (IH fuel first) as (ns' & -> & Hseg & Hout); [done|done|done|done|simpl in *; lia|].
    exists ns'. split; [done|]. split.
    + econstructor; [|exact Hseg]. by rewrite Hout.
    + intros k Hk Hke. csimpl in Hk. apply not_elem_of_cons in Hk as [? ?]. by apply Hout.
Qed.

(** The data of the entry for a connection, whether its thread could be
    created or not. *)
Definition new_entry (created : bool) (sv : server) (fd : Z) : thread_info :=
  ThreadInfo (if created then Some (started sv) else None) fd 0.
Abbreviation new_thread := (new_entry true).

Lemma add_entry_appends created fuel sv xs e fd : slist (head sv) xs -> nodes (head sv) !! e = None ->
  (length xs < fuel)%nat ->
  exists sv', add_slist_entry fuel sv (Some e) created fd = Ok (0, sv') /\
    slist (head sv') (xs ++ [(e, new_entry created sv fd)]) /\
    started sv' = (if created then S (started sv) else started sv) /\
    joined sv' = joined sv /\ closed sv' = closed sv.
Proof.
  intros [Hs Hd] He Hf. destruct sv as [[first ns] st j c]. simpl in *.
  assert (Hex : e ∉ xs.*1).
  { intros Hin. apply list_elem_of_fmap in Hin as ([n a] & -> & Hin).
    destruct (segment_live _ _ _ _ _ Hs Hin). simpl in *. congruence. }
  unfold add_slist_entry, new_entry. simpl. set (t := ThreadInfo _ fd 0).
  set (ns1 := <[e := Node t LUninit]> ns).
  assert (Hs1 : segment ns1 first xs) by (by apply segment_insert_ne).
  unfold SLIST_EMPTY. simpl. case_bool_decide as Hfst.
  - apply (segment_length _ _ _ Hs) in Hfst as Hxs. subst.
    unfold SLIST_INSERT_HEAD. simpl. unfold ns1. rewrite lookup_insert_eq. simpl.
    eexists. split; [reflexivity|]. split; [|done]. split; simpl.
    + econstructor; [apply lookup_insert_eq|constructor].
    + by apply NoDup_singleton.
  - assert (xs <> []) by (intros ->; apply Hfst; by apply (segment_length _ _ _ Hs)).
    destruct (foreach_insert_last ns1 first xs e t Hs1 fuel first) as (ns' & Hr & Hseg & _);
      [done|done|done|apply lookup_insert_eq|done|].
    unfold set_node. simpl. fold ns1. rewrite Hr. simpl. eexists. split; [reflexivity|].
    split; [|done]. split; simpl; [done|]. rewrite fmap_app, NoDup_app. simpl.
    split; [done|]. split; [set_solver|apply NoDup_singleton].
Qed.

(** ** Joining finished threads *)

(** What a pass joins and closes, and the flag it leaves. *)
Definition is_complete (x : nat * thread_info) : Prop := ti_complete x.2 = 1.
#[global] Instance is_complete_dec x : Decision (is_complete x).
Proof. unfold is_complete. apply _. Defined.

Definition clear (t : thread_info) : thread_info := ThreadInfo (thread_id t) (connected_skt_fd t) 0.

Definition reap_log (s : list nat * list Z) (x : nat * thread_info) : list nat * list Z :=
  if decide (is_complete x) then
    (s.1 ++ match thread_id x.2 with Some i => [i] | None => [] end, s.2 ++ [connected_skt_fd x.2])
  else s.

Lemma reap_log_fold xs s : fold_left reap_log xs s =
  (s.1 ++ omap (fun x => thread_id x.2) (filter is_complete xs),
   s.2 ++ ((fun x => connected_skt_fd x.2) <$> filter is_complete xs)).
Proof.
  revert s. induction xs as [|x xs IH]; intros [j c]; [by rewrite !app_nil_r|].
  cbn [fold_left]. rewrite IH. unfold reap_log. rewrite filter_cons.
  destruct (decide (is_complete x)); csimpl; [|done].
  rewrite <- !app_assoc. by destruct (thread_id x.2).
Qed.

Lemma reap_ok fuel sv xs : slist (head sv) xs ->
  Forall (fun x => is_Some (thread_id x.2)) xs -> (length xs < fuel)%nat ->
  exists sv', reap fuel sv = Ok sv' /\
    slist (head sv') ((fun x => (x.1, clear x.2)) <$> xs) /\
    joined sv' = joined sv ++ omap (fun x => thread_id x.2) (filter is_complete xs) /\
    closed sv' = closed sv ++ ((fun x => connected_skt_fd x.2) <$> filter is_complete xs).
Proof.
  intros [Hs Hd] Ht Hf. unfold reap.
  destruct (foreach_update reap_body clear reap_log fuel (head sv) (slh_first (head sv)) xs
    (joined sv, closed sv)) as (hd' & -> & Hfst & Hseg & _); [|done|done|done|].
  - intros n a k hd s Hin Hn. unfold reap_body, reap_log, is_complete. cbn [node_data snd].
    apply (proj1 (Forall_forall _ _) Ht) in Hin as [i Hi]. simpl in Hi.
    destruct (Z.eqb_spec (ti_complete a) 1).
    + rewrite decide_True by done. unfold pthread_join. unfold clear. by rewrite Hi.
    + by rewrite decide_False.
  - rewrite bind_ok, reap_log_fold. eexists. split; [reflexivity|]. simpl.
    split; [|done]. split; simpl.
    + by rewrite Hfst.
    + rewrite <- list_fmap_compose.
      replace (fst ∘ (fun x : nat * thread_info => (x.1, clear x.2))) with (@fst nat thread_info)
        by done. done.
Qed.

(** ** The way out *)

(** The nodes stay allocated: the loop that frees them runs only while the
    list is empty. *)
Lemma exit_ok fuel sv xs skt_fd : slist (head sv) xs -> xs <> [] ->
  Forall (fun x => is_Some (thread_id x.2)) xs -> (length xs < fuel)%nat ->
  exists sv', exit_threads fuel sv skt_fd = Ok sv' /\
    joined sv' = joined sv ++ omap (fun x => thread_id x.2) (filter is_complete xs) /\
    closed sv' = closed sv ++ ((fun x => connected_skt_fd x.2) <$> xs) ++ [skt_fd] /\
    slist (head sv') xs.
Proof.
  intros [Hs Hd] Hne Ht Hf. unfold exit_threads.
  set (g := fun (s : list nat * list Z) (x : nat * thread_info) =>
    (s.1 ++ omap (fun x => thread_id x.2) (filter is_complete [x]), s.2 ++ [connected_skt_fd x.2])).
  assert (Hg : forall xs s, fold_left g xs s =
    (s.1 ++ omap (fun x => thread_id x.2) (filter is_complete xs),
     s.2 ++ ((fun x => connected_skt_fd x.2) <$> xs))).
  { intros zs; induction zs as [|x l IH]; intros [j c]; [by rewrite !app_nil_r|]. cbn [fold_left].
    rewrite IH. unfold g. rewrite (filter_cons _ x l), filter_cons, filter_nil. csimpl.
    case_decide; csimpl; [|by rewrite app_nil_r, <- app_assoc].
    by destruct (thread_id x.2); rewrite <- !app_assoc. }
  destruct (foreach_update exit_body (fun t => t) g fuel (head sv) (slh_first (head sv)) xs
    (joined sv, closed sv)) as (hd' & -> & Hfst & Hseg & _); [|done|done|done|].
  - intros n a k hd s Hin Hn. unfold exit_body, g. cbn [node_data snd].
    apply (proj1 (Forall_forall _ _) Ht) in Hin as [i Hi]. simpl in Hi.
    rewrite filter_cons, filter_nil. unfold is_complete. simpl.
    assert (set_node hd n (Node a k) = hd) as ->
      by (destruct hd; unfold set_node; simpl in *; by rewrite insert_id).
    destruct (Z.eqb_spec (ti_complete a) 1).
    + rewrite decide_True by done. unfold pthread_join. rewrite Hi. csimpl. by rewrite Hi.
    + rewrite decide_False by done. csimpl. by rewrite app_nil_r.
  - rewrite bind_ok, Hg. destruct fuel as [|fuel]; [lia|]. cbn [free_loop].
    unfold SLIST_EMPTY. rewrite bool_decide_eq_false_2.
    + rewrite bind_ok. eexists. split; [reflexivity|]. simpl. rewrite <- !app_assoc.
      do 2 (split; [done|]). split; [|done]. rewrite Hfst.
      replace xs with ((fun x : nat * thread_info => (x.1, x.2)) <$> xs); [done|].
      rewrite <- (list_fmap_id xs) at 2. apply list_fmap_ext. by intros ? [].
    + rewrite Hfst. intros Heq. apply Hne. by apply (segment_length _ _ _ Hs).
Qed.
