(* ===== verification/FlipFacts.v ===== *)
(** * What flip_ip_addr does to an address *)

From stdpp Require Import base numbers strings gmap list.
From S2P Require Import Prelude CMem CString CText Server ServerMain.

#[local] Open Scope Z_scope.

(** The four parts of an address between the dots. *)
Definition dotted (a b c d : list char) : list char := a ++ dot :: b ++ dot :: c ++ dot :: d.

(** A part: not empty, and neither a dot nor a terminator in it. *)
Definition octet (n : nat) (s : list char) : Prop :=
  (1 <= length s <= n)%nat /\ dot ∉ s /\ NUL ∉ s.

(** The string copied into row [i] of temp_values. *)
Definition put_row (i : nat) (s : list char) (T : block) : block :=
  list_inserts (3 * i) (Some <$> s ++ [NUL]) T.

Lemma length_put_row i s T : length (put_row i s T) = length T.
Proof. apply length_inserts. Qed.

(** One round of the loop: the token at byte [o] goes to row [i]. *)
Lemma flip_round fuel h temp save ip o tok i T : temp <> ip -> str_off h ip o tok ->
  h !! temp = Some T -> (3 * i + length tok + 1 <= length T)%nat ->
  flip_loop (S fuel) h temp save (PAddr ip o) (S i)
  = ('(token, save, h) ← strtok (<[temp := put_row i tok T]> h) save PNull dot;
     flip_loop fuel h temp save token (S (S i))).
Proof.
  intros Hne Hs HT Hfit. cbn [flip_loop]. rewrite is_null_addr.
  unfold strcpy. rewrite (load_cstr_off _ _ _ _ Hs), bind_ok.
  replace (S i - 1)%nat with i by lia.
  rewrite (store_bytes_ok _ _ T _ _ HT) by (rewrite length_app; simpl; lia).
  rewrite bind_ok. by replace (S i + 1)%nat with (S (S i)) by lia.
Qed.

(** A token that does not fit behind the start of its row. *)
Lemma flip_overflow fuel h temp save ip o tok i T : temp <> ip -> str_off h ip o tok ->
  h !! temp = Some T -> (length T < 3 * i + length tok + 1)%nat ->
  flip_loop (S fuel) h temp save (PAddr ip o) (S i) = Fault OutOfBounds.
Proof.
  intros Hne Hs HT Hfit. cbn [flip_loop]. rewrite is_null_addr.
  unfold strcpy. rewrite (load_cstr_off _ _ _ _ Hs), bind_ok.
  replace (S i - 1)%nat with i by lia. unfold store_bytes.
  destruct (tok ++ [NUL]) eqn:Ht; [by destruct tok|]. rewrite <- Ht, HT. cbn [lift_opt].
  rewrite bind_ok, decide_False; [done|]. rewrite length_app. simpl. lia.
Qed.

(** A round that is not the last: the rest of the address follows. *)
Lemma flip_round_more fuel h temp ip o tok tok2 o2 blk i T rest :
  temp <> ip -> octet 3 tok2 -> str_off h ip o tok -> h !! temp = Some T ->
  (3 * i + length tok + 1 <= length T)%nat ->
  h !! ip = Some blk -> (o2 <= length blk)%nat -> cstr_blk (drop o2 blk) (tok2 ++ dot :: rest) ->
  exists blk', length blk' = length blk /\
    flip_loop (S fuel) h temp (PAddr ip o2) (PAddr ip o) (S i)
    = flip_loop fuel (<[ip := blk']> (<[temp := put_row i tok T]> h)) temp
        (PAddr ip (o2 + length tok2 + 1)) (PAddr ip o2) (S (S i)) /\
    cstr_blk (drop o2 blk') tok2 /\ cstr_blk (drop (o2 + length tok2 + 1) blk') rest.
Proof.
  intros Hne (Hl2 & Hd2 & Hn2) Hs HT Hfit Hblk Ho2 Hrest.
  rewrite (flip_round _ _ _ _ _ _ tok _ T) by done.
  destruct (strtok_token (<[temp := put_row i tok T]> h) (PAddr ip o2) PNull ip o2 tok2 rest dot
    eq_refl ltac:(by destruct tok2; simpl in *; [lia|]) Hd2 blk) as (blk' & -> & Hlb & H1 & H2);
    [by rewrite lookup_insert_ne|done|done|].
  rewrite bind_ok. by exists blk'.
Qed.

(** The first three rounds fill the rows of [a], [b] and [c]; the token of
    [d] is next. *)
Lemma flip_three h temp ip blk a b c d T : temp <> ip ->
  octet 3 a -> octet 3 b -> octet 3 c -> octet 3 d ->
  h !! ip = Some blk -> cstr_blk blk a ->
  (length a + 1 <= length blk)%nat ->
  cstr_blk (drop (length a + 1) blk) (b ++ dot :: c ++ dot :: d) ->
  h !! temp = Some T -> length T = 12%nat ->
  exists h' o blk',
    flip_loop flip_fuel h temp (PAddr ip (length a + 1)) (PAddr ip 0) 1
    = flip_loop 6 h' temp (PAddr ip (o + length d)) (PAddr ip o) 4 /\
    str_off h' ip o d /\ h' !! ip = Some blk' /\ length blk' = length blk /\
    h' !! temp = Some (put_row 2 c (put_row 1 b (put_row 0 a T))) /\
    (forall k, k <> ip -> k <> temp -> h' !! k = h !! k).
Proof.
  intros Hne Ha Hb Hc Hd Hip Hsa Hle Hsb HT HlT. unfold flip_fuel.
  destruct (Ha) as (Hla & _). destruct (Hb) as (Hlb & _). destruct (Hc) as (Hlc & _).
  destruct (Hd) as (Hld & Hdd & _).
  destruct (flip_round_more 8 h temp ip 0 a b (length a + 1) blk 0 T (c ++ dot :: d))
    as (blk1 & Hl1 & -> & Hb1 & Hb2); [done|done|by apply str_off_0; exists blk|done|lia|done|done|done|].
  set (h1 := <[ip := blk1]> _).
  assert (Hip1 : h1 !! ip = Some blk1) by apply lookup_insert_eq.
  assert (HT1 : h1 !! temp = Some (put_row 0 a T))
    by (unfold h1; rewrite lookup_insert_ne by done; apply lookup_insert_eq).
  set (o1 := (length a + 1)%nat) in *. set (o2 := (o1 + length b + 1)%nat) in *.
  assert (Ho2 : (o2 <= length blk1)%nat).
  { apply cstr_blk_length in Hsb. rewrite length_drop, !length_app in Hsb. simpl in Hsb. lia. }
  destruct (flip_round_more 7 h1 temp ip o1 b c o2 blk1 1 (put_row 0 a T) d)
    as (blk2 & Hl2 & -> & Hc1 & Hc2);
    [done|done|exists blk1; split; [done|]; split; [lia|done]|done
    |rewrite length_put_row; lia|done|done|done|].
  set (h2 := <[ip := blk2]> _).
  assert (Hip2 : h2 !! ip = Some blk2) by apply lookup_insert_eq.
  assert (HT2 : h2 !! temp = Some (put_row 1 b (put_row 0 a T)))
    by (unfold h2; rewrite lookup_insert_ne by done; apply lookup_insert_eq).
  set (o3 := (o2 + length c + 1)%nat) in *.
  assert (Ho3 : (o3 <= length blk2)%nat).
  { apply cstr_blk_length in Hb2. rewrite length_drop, !length_app in Hb2. simpl in Hb2. lia. }
  rewrite (flip_round 6 h2 temp (PAddr ip o3) ip o2 c 2 (put_row 1 b (put_row 0 a T)));
    [|done|exists blk2; split; [done|]; split; [lia|done]|done|rewrite !length_put_row; lia].
  set (h3 := <[temp := _]> h2).
  assert (Hsd : str_off h3 ip o3 d).
  { exists blk2. unfold h3. rewrite lookup_insert_ne by done. split; [done|]. by split. }
  rewrite (strtok_last h3 (PAddr ip o3) PNull ip o3 d dot eq_refl); [|by destruct d; simpl in *; [lia|]|done|done].
  rewrite bind_ok. exists h3, o3, blk2. do 2 (split; [done|]).
  split; [unfold h3; by rewrite lookup_insert_ne|]. split; [congruence|].
  split; [apply lookup_insert_eq|].
  intros k Hk1 Hk2. unfold h3, h2, h1. rewrite !lookup_insert_ne by done. done.
Qed.

(** The strings the four rows hold when every part has at most two
    characters: each row ends before the next begins. *)
Lemma rows_small a b c d : octet 2 a -> octet 2 b -> octet 2 c -> octet 2 d ->
  let T := put_row 3 d (put_row 2 c (put_row 1 b (put_row 0 a (replicate 12 None)))) in
  length T = 12%nat /\ cstr_blk (drop 9 T) d /\ cstr_blk (drop 6 T) c /\
  cstr_blk (drop 3 T) b /\ cstr_blk (drop 0 T) a.
Proof.
  intros (Ha & _ & Hna) (Hb & _ & Hnb) (Hc & _ & Hnc) (Hd & _ & Hnd) T.
  split; [unfold T; by rewrite !length_put_row|].
  unfold cstr_blk. unfold T. clear T.
  destruct a as [|a1 [|a2 [|]]]; simpl in Ha; try lia;
  destruct b as [|b1 [|b2 [|]]]; simpl in Hb; try lia;
  destruct c as [|c1 [|c2 [|]]]; simpl in Hc; try lia;
  destruct d as [|d1 [|d2 [|]]]; simpl in Hd; try lia.
  all: split; [|split; [|split]]; (split; [done|]); eexists; reflexivity.
Qed.

(** The last round and the end of the loop. *)
Lemma flip_last h temp ip o d T : temp <> ip -> str_off h ip o d -> h !! temp = Some T ->
  (9 + length d + 1 <= length T)%nat ->
  flip_loop 6 h temp (PAddr ip (o + length d)) (PAddr ip o) 4
  = Ok (<[temp := put_row 3 d T]> h).
Proof.
  intros Hne Hd HT Hfit. rewrite (flip_round 5 h temp _ ip o d 3 T) by done.
  rewrite strtok_end; [by rewrite bind_ok|].
  apply str_off_insert_ne; [done|]. destruct Hd as (blk & Hb & Ho & Hs).
  pose proof (cstr_blk_length _ _ Hs) as Hl. rewrite length_drop in Hl.
  exists blk. split; [done|]. split; [lia|].
  apply (cstr_blk_drop _ _ (length d)) in Hs; [|done]. by rewrite drop_drop, drop_all in Hs.
Qed.

(** The first call of strtok(), with the local arrays in place. *)
Lemma flip_start h ip blk a rest : h !! ip = Some blk -> octet 3 a ->
  cstr_blk blk (a ++ dot :: rest) ->
  exists m0 temp blk1 h1, h !! m0 = None /\ m0 <> ip /\ temp <> ip /\ temp <> m0 /\
    (h !! temp = None) /\ h1 !! ip = Some blk1 /\ length blk1 = length blk /\
    h1 !! m0 = Some (replicate 16 None) /\ h1 !! temp = Some (replicate 12 None) /\
    (forall k, k <> ip -> k <> m0 -> k <> temp -> h1 !! k = h !! k) /\
    cstr_blk blk1 a /\ cstr_blk (drop (length a + 1) blk1) rest /\
    (length a + 1 <= length blk)%nat /\
    flip_ip_addr h (PAddr ip 0)
    = (h ← flip_loop flip_fuel h1 temp (PAddr ip (length a + 1)) (PAddr ip 0) 1;
       s3 ← load_cstr h (PAddr temp 9);
       s2 ← load_cstr h (PAddr temp 6);
       s1 ← load_cstr h (PAddr temp 3);
       s0 ← load_cstr h (PAddr temp 0);
       h ← store_bytes h (PAddr m0 0)
             (s3 ++ [dot] ++ s2 ++ [dot] ++ s1 ++ [dot] ++ s0 ++ [NUL]);
       h ← strcpy h (PAddr ip 0) (PAddr m0 0);
       Ok (delete temp (delete m0 h))).
Proof.
  intros Hip (Hla & Hda & Hna) Hs. unfold flip_ip_addr, stack_array, INET_ADDRSTRLEN.
  set (m0 := fresh (dom h)). pose proof (stack_array_fresh h) as Hm0. fold m0 in Hm0.
  assert (m0 <> ip) by congruence.
  destruct (strtok_token (<[m0 := replicate 16 None]> h) PNull (PAddr ip 0) ip 0 a rest dot
    eq_refl ltac:(by destruct a; simpl in *; [lia|]) Hda blk) as (blk1 & -> & Hl1 & Ha1 & Hr1);
    [by rewrite lookup_insert_ne|lia|done|].
  rewrite bind_ok. set (h0 := <[ip := blk1]> _). set (temp := fresh (dom h0)).
  pose proof (stack_array_fresh h0) as Ht. fold temp in Ht. unfold h0 in Ht.
  assert (temp <> ip) by (intros ->; by rewrite lookup_insert_eq in Ht).
  assert (temp <> m0)
    by (intros ->; by rewrite lookup_insert_ne, lookup_insert_eq in Ht by done).
  rewrite !lookup_insert_ne in Ht by done.
  exists m0, temp, blk1, (<[temp := replicate 12 None]> h0).
  do 5 (split; [done|]). unfold h0. split; [heap_look|]. split; [done|].
  split; [heap_look|]. split; [heap_look|]. split.
  { intros k ???. by rewrite !lookup_insert_ne. }
  split; [done|]. split; [done|]. split; [|done].
  apply cstr_blk_length in Hs. rewrite length_app in Hs. simpl in Hs. lia.
Qed.

Lemma dotted_length a b c d :
  length (dotted a b c d) = (length a + length b + length c + length d + 3)%nat.
Proof. unfold dotted. rewrite !length_app. simpl. rewrite !length_app. simpl. rewrite !length_app. simpl. lia. Qed.

Lemma octet_le n k s : (n <= k)%nat -> octet n s -> octet k s.
Proof. intros Hnk (? & ? & ?). split; [lia|done]. Qed.

Lemma dotted_no_nul n a b c d : octet n a -> octet n b -> octet n c -> octet n d ->
  NUL ∉ dotted a b c d.
Proof.
  intros (_ & _ & ?) (_ & _ & ?) (_ & _ & ?) (_ & _ & ?). unfold dotted.
  rewrite !elem_of_app, !elem_of_cons, !elem_of_app, !elem_of_cons, !elem_of_app, !elem_of_cons.
  assert (NUL <> dot) by done. tauto.
Qed.

(** From the filled rows to the end of the function. *)
Lemma flip_finish h m0 temp ip T blk a b c d : m0 <> ip -> temp <> ip -> temp <> m0 ->
  h !! temp = Some T -> length T = 12%nat ->
  cstr_blk (drop 9 T) d -> cstr_blk (drop 6 T) c -> cstr_blk (drop 3 T) b ->
  cstr_blk (drop 0 T) a ->
  h !! m0 = Some (replicate 16 None) -> h !! ip = Some blk -> length blk = 16%nat ->
  NUL ∉ dotted d c b a -> (length (dotted d c b a) < 16)%nat ->
  exists h',
    (s3 ← load_cstr h (PAddr temp 9);
     s2 ← load_cstr h (PAddr temp 6);
     s1 ← load_cstr h (PAddr temp 3);
     s0 ← load_cstr h (PAddr temp 0);
     h ← store_bytes h (PAddr m0 0) (s3 ++ [dot] ++ s2 ++ [dot] ++ s1 ++ [dot] ++ s0 ++ [NUL]);
     h ← strcpy h (PAddr ip 0) (PAddr m0 0);
     Ok (delete temp (delete m0 h))) = Ok h' /\
    str_at h' ip (dotted d c b a) /\
    h' !! temp = None /\ h' !! m0 = None /\
    (forall k, k <> ip -> k <> temp -> k <> m0 -> h' !! k = h !! k).
Proof.
  intros Hmi Hti Htm HT HTl R3 R2 R1 R0 Hm0 Hip Hl Hn Hfit.
  assert (Hrow : forall i s, (i <= 12)%nat -> cstr_blk (drop i T) s ->
    load_cstr h (PAddr temp i) = Ok s).
  { intros i s Hi Hs. apply load_cstr_off. exists T. split; [done|]. split; [lia|done]. }
  rewrite (Hrow 9%nat d), bind_ok by (done || lia). rewrite (Hrow 6%nat c), bind_ok by (done || lia).
  rewrite (Hrow 3%nat b), bind_ok by (done || lia). rewrite (Hrow 0%nat a), bind_ok by (done || lia).
  replace (d ++ [dot] ++ c ++ [dot] ++ b ++ [dot] ++ a ++ [NUL]) with (dotted d c b a ++ [NUL])
    by (unfold dotted; repeat (simpl; rewrite <- ?app_assoc); done).
  rewrite (store_bytes_ok h m0 (replicate 16 None)), bind_ok
    by (done || (rewrite length_app, length_replicate; simpl; lia)).
  unfold strcpy. rewrite (load_cstr_0 _ _ (dotted d c b a)), bind_ok
    by (apply str_at_insert_eq, stored_string; [done|by rewrite length_replicate]).
  rewrite (store_bytes_ok _ ip blk), !bind_ok
    by (by rewrite ?lookup_insert_ne, ?length_app; simpl; try lia).
  eexists. split; [reflexivity|]. split; [|split; [|split]].
  - eexists. split; [heap_look|]. apply stored_string; [done|lia].
  - apply lookup_delete_eq.
  - rewrite lookup_delete_ne by done. apply lookup_delete_eq.
  - intros k ???. rewrite !lookup_delete_ne, !lookup_insert_ne by done. done.
Qed.

(** Parts of at most two characters: the address is reversed in place. *)
Lemma flip_reverses h ip blk a b c d : h !! ip = Some blk -> length blk = 16%nat ->
  octet 2 a -> octet 2 b -> octet 2 c -> octet 2 d -> cstr_blk blk (dotted a b c d) ->
  exists h', flip_ip_addr h (PAddr ip 0) = Ok h' /\ str_at h' ip (dotted d c b a) /\
    (forall k, k <> ip -> h' !! k = h !! k).
Proof.
  intros Hip Hl16 Ha Hb Hc Hd Hs. assert (H23 : (2 <= 3)%nat) by lia.
  destruct (flip_start h ip blk a (b ++ dot :: c ++ dot :: d) Hip (octet_le _ _ _ H23 Ha) Hs)
    as (m0 & temp & blk1 & h1 & Hm0 & Hm0i & Hti & Htm & Htn & Hip1 & Hl1 & Hm1 & Ht1 & Hout1
        & Hsa & Hsb & Hle & ->).
  destruct (flip_three h1 temp ip blk1 a b c d (replicate 12 None)) as
    (h2 & o & blk2 & -> & Hsd & Hip2 & Hl2 & HT2 & Hout2);
    try done; eauto using octet_le; [lia|].
  destruct (rows_small a b c d Ha Hb Hc Hd) as (HTl & R3 & R2 & R1 & R0).
  rewrite (flip_last h2 temp ip o d _ Hti Hsd HT2)
    by (rewrite !length_put_row, length_replicate; destruct Hd; lia).
  rewrite bind_ok. set (T := put_row 3 _ _) in *.
  destruct (flip_finish (<[temp := T]> h2) m0 temp ip T blk2 a b c d) as (h' & -> & Hs' & Ht' & Hm' & Hout);
    try done; try (heap_look; fail); try congruence.
  - rewrite lookup_insert_ne by done. by rewrite Hout2.
  - by apply (dotted_no_nul 2).
  - rewrite dotted_length. destruct Ha, Hb, Hc, Hd. lia.
  - exists h'. split; [done|]. split; [done|]. intros k Hk.
    destruct (decide (k = temp)) as [->|]; [congruence|].
    destruct (decide (k = m0)) as [->|]; [congruence|].
    rewrite Hout, lookup_insert_ne, Hout2, Hout1; done.
Qed.

(** A last part of three characters: its terminator falls behind the array. *)
Lemma flip_last_overflow h ip blk a b c d : h !! ip = Some blk ->
  octet 3 a -> octet 3 b -> octet 3 c -> octet 3 d -> length d = 3%nat ->
  cstr_blk blk (dotted a b c d) -> flip_ip_addr h (PAddr ip 0) = Fault OutOfBounds.
Proof.
  intros Hip Ha Hb Hc Hd Hd3 Hs.
  destruct (flip_start h ip blk a (b ++ dot :: c ++ dot :: d) Hip Ha Hs)
    as (m0 & temp & blk1 & h1 & Hm0 & Hm0i & Hti & Htm & Htn & Hip1 & Hl1 & Hm1 & Ht1 & Hout1
        & Hsa & Hsb & Hle & ->).
  destruct (flip_three h1 temp ip blk1 a b c d (replicate 12 None)) as
    (h2 & o & blk2 & -> & Hsd & Hip2 & Hl2 & HT2 & Hout2); try done; [lia|].
  rewrite (flip_overflow 5 h2 temp _ ip o d 3 _ Hti Hsd HT2); [done|].
  rewrite !length_put_row, length_replicate. lia.
Qed.

(** main logs an address whose parts have at most two digits and leaves the
    memory as it was. *)
Lemma log_client_ok h a b c d : octet 2 a -> octet 2 b -> octet 2 c -> octet 2 d ->
  exists h', log_client h (dotted a b c d) = Ok h' /\ forall k, h' !! k = h !! k.
Proof.
  intros Ha Hb Hc Hd. unfold log_client, stack_array, INET_ADDRSTRLEN.
  pose proof (stack_array_fresh h) as Hv. set (v := fresh (dom h)) in *.
  pose proof (dotted_no_nul 2 a b c d Ha Hb Hc Hd) as Hn.
  assert (Hlen : (length (dotted a b c d) <= 11)%nat)
    by (rewrite dotted_length; destruct Ha, Hb, Hc, Hd; lia).
  rewrite (store_bytes_ok _ _ (replicate 16 None)), bind_ok
    by (apply lookup_insert_eq || (rewrite length_app, length_replicate; simpl; lia)).
  rewrite insert_insert_eq.
  destruct (flip_reverses (<[v := list_inserts 0 (Some <$> dotted a b c d ++ [NUL])
    (replicate 16 None)]> h) v (list_inserts 0 (Some <$> dotted a b c d ++ [NUL])
    (replicate 16 None)) a b c d) as (h1 & -> & Hv1 & Hout); try done;
    [apply lookup_insert_eq | by rewrite length_inserts | apply stored_string; [done|rewrite length_replicate; lia] |].
  rewrite bind_ok, (load_cstr_0 _ _ _ Hv1), bind_ok. eexists. split; [reflexivity|].
  intros k. destruct (decide (k = v)) as [->|]; [by rewrite lookup_delete_eq|].
  by rewrite lookup_delete_ne, Hout, lookup_insert_ne.
Qed.
