(* ===== verification/ServerSpec.v ===== *)
(** * What the server needs of the device, and the driver that provides it

    [CharDevSpec] states the promises of the device the server relies on, in
    terms of the abstract device of [DriverSpec].  The instance shows that
    the handlers of the driver keep them. *)

From stdpp Require Import base numbers strings gmap list.
From S2P Require Import Prelude CMem CString CircularBuffer RingSpec RingFacts Ioctl CharDriver.
From S2P Require Import DriverSpec DriverRead DriverWrite DriverSeek DriverTrace.
From S2P Require Import CText Slist Server.

#[local] Open Scope Z_scope.

(** [dev_rep n s d]: the device [s] implements [d], and [n] bounds the size
    of its unfinished command. *)
Class CharDevSpec (S : Type) `{CharDev S} : Type := {
  dev_rep : Z -> S -> device_model -> Prop;
  dev_open_ok : forall n s d, dev_rep n s d -> dev_open s = true;
  dev_read_ok : forall n s d pos count, dev_rep n s d ->
    zlen (contents (commands d)) < 2 ^ 60 -> 0 <= pos < 2 ^ 62 ->
    let t := model_read (commands d) pos in
    exists s', dev_read s pos count
      = Ok (zlen t, (if decide (t = []) then [] else t ++ [NUL]), pos + zlen t, s') /\
      dev_rep n s' d;
  dev_write_ok : forall n s d pos data, dev_rep n s d ->
    0 < zlen data <= max_count -> n + zlen data + 1 < 2 ^ 62 ->
    exists pos' s', dev_write s pos data = Ok (zlen data, pos', s') /\
      dev_rep (n + zlen data + 1) s' (model_write d data);
  dev_rep_cap : forall n s d, dev_rep n s d -> (length (commands d) <= 10)%nat
}.

(** ** The driver behind the system calls

    read() and write() pass the position of the open file to the handler
    and store it back when the handler did not fail. *)

Section Driver.
Context (o : AllocOracle).

Definition keep_pos (r old new : Z) : Z := if r <? 0 then old else new.

#[refine] Instance driver_dev : CharDev kstate := {|
  dev_open s := true;
  dev_read s pos count :=
    '(r, p, data, s) ← aesd_read quiet_call s (File true pos) count pos;
    Ok (r, data, keep_pos r pos p, s);
  dev_write s pos data :=
    '(r, p, s) ← aesd_write quiet_call s (File true pos) data (zlen data) pos;
    Ok (r, keep_pos r pos p, s);
  dev_ioctl s pos cmd arg :=
    '(r, f, s) ← aesd_ioctl quiet_call s (File true pos) cmd arg;
    Ok (r, f_pos f, s)
|}.
Proof. Defined.

Context (Hok : alloc_succeeds o).

Lemma driver_read n s d pos count :
  implements s d /\ message_size (k_dev s) <= n ->
  zlen (contents (commands d)) < 2 ^ 60 -> 0 <= pos < 2 ^ 62 ->
  let t := model_read (commands d) pos in
  exists s', dev_read s pos count
    = Ok (zlen t, (if decide (t = []) then [] else t ++ [NUL]), pos + zlen t, s') /\
    implements s' d /\ message_size (k_dev s') <= n.
Proof.
  intros [(es & pend & Hinv & ->) Hm] Ht Hp t. cbn [commands] in *. simpl.
  destruct (Z.lt_ge_cases pos (zlen (contents es.*2))) as [Hin'|Hge]; cycle 1.
  - pose proof (zlen_nonneg (contents es.*2)).
    rewrite (read_past_end o quiet_call s es pend (File true pos) count pos Hinv eq_refl eq_refl
      ltac:(lia) ltac:(rewrite u64_small; lia)), bind_ok.
    assert (Ht' : t = []) by (apply model_read_past; lia).
    clearbody t. subst t. change (zlen (@nil char)) with 0. rewrite Z.add_0_r.
    eexists. split; [reflexivity|].
    split; [|done]. exists es, pend. split; [by apply after_read_inv|done].
  - assert (Hin : 0 <= pos < zlen (contents es.*2)) by lia. clear Hin'.
    pose proof (model_read_progress _ _ Hin) as Hpr. fold t in Hpr.
    destruct (read_found o quiet_call s es pend (File true pos) count pos Hok Hinv eq_refl eq_refl
      Ht Hin) as (m' & i & Hm' & _ & Hr). fold t in Hr.
    assert (Hu : uncopied quiet_call (zlen t + 1) = 0) by (unfold uncopied; simpl; lia).
    rewrite Hu, take_ge in Hr by (rewrite length_app; unfold zlen; simpl; lia).
    rewrite Hr, bind_ok. change (0 =? 0) with true. cbv iota.
    unfold keep_pos. rewrite (proj2 (Z.ltb_ge (zlen t) 0)) by lia.
    rewrite decide_False by (by intros ->). eexists. split; [reflexivity|].
    split; [|done]. exists es, pend. split; [by apply after_read_inv|done].
Qed.

#[refine] Instance driver_spec : CharDevSpec kstate := {|
  dev_rep n s d := implements s d /\ message_size (k_dev s) <= n
|}.
Proof.
  - done.
  - apply driver_read.
  - intros n s d pos data [Hi Hm] Hn Hsz.
    destruct (write_implements o quiet_call s d (File true pos) data pos)
      as (p & s' & Hw & Hi' & _ & Hm'); [done..|simpl; lia|done|lia|].
    simpl. rewrite Hw, bind_ok. do 2 eexists. split; [reflexivity|]. split; [done|lia].
  - intros n s d [(es & pend & Hinv & ->) _]. cbn [commands]. rewrite length_fmap.
    pose proof (ring_cap _ _ (inv_ring _ _ _ Hinv)) as Hc. by rewrite length_fmap in Hc.
Defined.
End Driver.
