(* ===== verification/ServerConn.v ===== *)
(** * What a connection's thread does

    The loops of read_file_and_send and receive_and_write_to_file, proved
    against the device interface [CharDevSpec]. *)

From stdpp Require Import base numbers strings gmap list.
From S2P Require Import Prelude CMem CString CText RingSpec DriverSpec DriverWrite.
From S2P Require Import Ioctl Slist Server ServerSpec.

#[local] Open Scope Z_scope.

(** One step of a computation whose first part is known. *)
Lemma run_bind {S A B} (m : M S A) (f : A -> M S B) st a st' :
  m st = Ok (a, st') -> mbind f m st = f a st'.
Proof. intros Hm. unfold mbind, M_bind. by rewrite Hm. Qed.

Lemma run_bind_fault {S A B} (m : M S A) (f : A -> M S B) st e :
  m st = Fault e -> mbind f m st = Fault e.
Proof. intros Hm. unfold mbind, M_bind. by rewrite Hm. Qed.

Lemma bind_assoc {S A B C} (m : M S A) (f : A -> M S B) (g : B -> M S C) st :
  mbind g (mbind f m) st = mbind (fun a => mbind g (f a)) m st.
Proof. unfold mbind, M_bind. by destruct (m st) as [[a s]|]. Qed.

Lemma bind_cong {S A B} (m : M S A) (f g : A -> M S B) st :
  (forall a s, f a s = g a s) -> mbind f m st = mbind g m st.
Proof. intros Hfg. unfold mbind, M_bind. destruct (m st) as [[a s]|]; [apply Hfg|done]. Qed.

Lemma bind_inv {S A B} (m : M S A) (f : A -> M S B) st b st' :
  mbind f m st = Ok (b, st') -> exists a s, m st = Ok (a, s) /\ f a s = Ok (b, st').
Proof. unfold mbind, M_bind. destruct (m st) as [[a s]|]; [eauto|done]. Qed.

(** What no loop changes. *)
Definition same_thread {S} (st st' : tstate S) : Prop :=
  t_lock st' = t_lock st /\ t_save st' = t_save st /\ thread_complete st' = thread_complete st /\
  m_tick (t_mem st') = m_tick (t_mem st).

Lemma same_thread_trans {S} (a b c : tstate S) : same_thread a b -> same_thread b c ->
  same_thread a c.
Proof. unfold same_thread. intuition congruence. Qed.

Section Conn.
Context {S : Type} `{Hspec : CharDevSpec S} `{Peer} `{AllocOracle}.

(** The peer takes everything that is sent. *)
Definition peer_accepts : Prop := forall t, exists n, send_at t = SendOk n /\ READ_WRITE_SIZE <= n.

Definition heap_of (st : tstate S) : heap := m_heap (t_mem st).

(** ** Sending the device's contents *)

(** One read of the device into the buffer [wb]. *)
Lemma file_read_ok st n d pos wb blk : dev_rep n (t_dev st) d -> t_fd st = Some pos ->
  zlen (contents (commands d)) < 2 ^ 60 -> 0 <= pos < 2 ^ 62 ->
  heap_of st !! wb = Some blk -> length blk = 1024%nat ->
  let t := model_read (commands d) pos in
  (length t < 1024)%nat ->
  exists st' blk', file_read (PAddr wb 0) READ_WRITE_SIZE st = Ok ((zlen t, 0), st') /\
    dev_rep n (t_dev st') d /\ t_fd st' = Some (pos + zlen t) /\
    heap_of st' = <[wb := blk']> (heap_of st) /\ length blk' = 1024%nat /\
    (exists r, blk' = (Some <$> t) ++ r) /\
    same_thread st st' /\ t_sent st' = t_sent st /\ t_send st' = t_send st /\ t_recv st' = t_recv st.
Proof.
  intros Hrep Hfd Hc Hp Hwb Hlb t Hlt. unfold heap_of in *.
  destruct (dev_read_ok n (t_dev st) d pos READ_WRITE_SIZE Hrep Hc Hp) as (s' & Hr & Hrep').
  fold t in Hr. unfold file_read.
  set (st1 := TState (t_mem st) s' (Some (pos + zlen t)) (t_recv st) (t_send st) (t_sent st)
    (t_lock st) (t_save st) (thread_complete st)).
  erewrite (run_bind _ _ st _ st1); [|by unfold on_dev; rewrite Hfd, Hr].
  assert (Hpx : posix (zlen t) = (zlen t, 0))
    by (unfold posix; rewrite (proj2 (Z.ltb_ge _ _)); [done|apply zlen_nonneg]).
  destruct (decide (t = [])) as [Heq|Hne].
  - exists st1, blk. split; [|simpl].
    + erewrite run_bind; [by rewrite Hpx|]. unfold update_heap, on_heap. simpl.
      by destruct (t_mem st).
    + rewrite insert_id by done. rewrite Heq. unfold same_thread, st1. simpl.
      repeat (split; [done || by eexists|]). done.
  - eexists _, (list_inserts 0 (Some <$> t ++ [NUL]) blk). split; [|simpl].
    + erewrite run_bind; [by rewrite Hpx|]. unfold update_heap, on_heap. simpl.
      rewrite (store_bytes_ok _ _ blk _ _ Hwb) by (rewrite length_app; simpl; lia).
      rewrite bind_ok. reflexivity.
    + rewrite length_inserts. unfold same_thread. simpl. do 4 (split; [done|]).
      split; [|done]. eexists.
      rewrite inserts_0 by (rewrite length_fmap, length_app; simpl; lia).
      rewrite fmap_app, <- app_assoc. reflexivity.
Qed.

(** One message to the peer. *)
Lemma send_loop_ok fuel st wb (t : list char) r : peer_accepts -> (0 < fuel)%nat ->
  heap_of st !! wb = Some ((Some <$> t) ++ r) -> zlen t <= 1024 ->
  exists st', send_loop fuel (PAddr wb 0) (zlen t) st = Ok (false, st') /\
    t_sent st' = t_sent st ++ t /\ t_dev st' = t_dev st /\ t_fd st' = t_fd st /\
    t_mem st' = t_mem st /\ t_recv st' = t_recv st /\ same_thread st st'.
Proof.
  intros Hpeer Hf Hwb Hl. unfold heap_of in Hwb. destruct fuel as [|fuel]; [lia|]. cbn [send_loop].
  destruct (Hpeer (t_send st)) as (k & Hk & Hk1). unfold READ_WRITE_SIZE in Hk1.
  pose proof (zlen_nonneg t).
  eexists. split.
  - erewrite run_bind; [|unfold send; rewrite (load_bytes_ok _ _ t r _ Hwb eq_refl), Hk; reflexivity].
    replace (Z.max 0 (Z.min k (zlen t))) with (zlen t) by lia.
    rewrite (proj2 (Z.eqb_neq _ _)) by lia. reflexivity.
  - simpl. rewrite take_ge by (unfold zlen; lia). unfold same_thread. by simpl.
Qed.

(** Every command fits into the buffer, with the NUL the driver adds. *)
Definition short_commands (d : device_model) : Prop :=
  Forall (fun s => (length s < 1024)%nat) (commands d).

Lemma read_loop_ok (j fuel : nat) st n d pos wb blk : peer_accepts -> short_commands d ->
  dev_rep n (t_dev st) d -> t_fd st = Some pos -> zlen (contents (commands d)) < 2 ^ 60 ->
  zlen (contents (take j (commands d))) <= pos <= zlen (contents (commands d)) ->
  heap_of st !! wb = Some blk -> length blk = 1024%nat ->
  (length (commands d) - j < fuel)%nat ->
  exists st' blk', read_loop fuel (PAddr wb 0) st = Ok (tt, st') /\
    t_sent st' = t_sent st ++ drop (Z.to_nat pos) (contents (commands d)) /\
    dev_rep n (t_dev st') d /\ heap_of st' = <[wb := blk']> (heap_of st) /\
    t_recv st' = t_recv st /\ same_thread st st'.
Proof.
  intros Hpeer Hshort. revert j st pos blk.
  induction fuel as [|fuel IH]; intros j st pos blk Hrep Hfd Hc Hp Hwb Hlb Hf; [lia|].
  pose proof (zlen_nonneg (contents (take j (commands d)))).
  set (t := model_read (commands d) pos).
  assert (Hlt : (length t < 1024)%nat) by (apply model_read_short; [lia|done]).
  destruct (file_read_ok st n d pos wb blk Hrep Hfd Hc ltac:(lia) Hwb Hlb Hlt)
    as (st1 & blk1 & Hr & Hrep1 & Hfd1 & Hh1 & Hl1 & [r Hblk1] & Hsame1 & Hsent1 & _ & Hrecv1).
  cbn [read_loop]. fold t in Hr, Hfd1, Hblk1. rewrite (run_bind _ _ _ _ _ Hr). cbv beta iota.
  destruct (decide (pos = zlen (contents (commands d)))) as [Heq|Hne].
  - assert (Ht : t = []) by (apply model_read_past; lia). rewrite Ht, zlen_nil.
    exists st1, blk1. split; [done|]. rewrite Heq, drop_ge, app_nil_r by (unfold zlen; lia). done.
  - assert (Hin : 0 <= pos < zlen (contents (commands d))) by lia.
    pose proof (model_read_progress _ _ Hin) as Hpr. fold t in Hpr.
    pose proof (model_read_prefix (commands d) pos (proj1 Hin)) as [k Hk]. fold t in Hk.
    pose proof (model_read_next _ pos j Hin (proj1 Hp)) as Hnext. fold t in Hnext.
    pose proof (model_read_bound _ pos (proj1 Hin) (proj2 Hp)) as Hbound. fold t in Hbound.
    rewrite (proj2 (Z.eqb_neq _ 0)), (proj2 (Z.eqb_neq _ (-1))) by lia.
    destruct (send_loop_ok (Datatypes.S fuel) st1 wb t r Hpeer ltac:(lia))
      as (st2 & Hs & Hsent2 & Hdev2 & Hfd2 & Hm2 & Hrecv2 & Hsame2);
      [by rewrite Hh1, lookup_insert_eq, Hblk1 | unfold zlen; lia|].
    rewrite (run_bind _ _ _ _ _ Hs). cbv iota.
    assert (Hh2 : heap_of st2 = <[wb := blk1]> (heap_of st)) by (unfold heap_of; by rewrite Hm2).
    assert (Hj : (j < length (commands d))%nat).
    { destruct (decide (j < length (commands d))%nat); [done|]. rewrite take_ge in Hp by lia. lia. }
    destruct (IH (Datatypes.S j) st2 (pos + zlen t) blk1) as (st3 & blk3 & -> & Hsent3 & Hrep3 & Hh3 & Hrecv3 & Hsame3);
      [by rewrite Hdev2 | congruence | done | lia | rewrite Hh2; apply lookup_insert_eq | done | lia |].
    exists st3, blk3. split; [done|]. split.
    { rewrite Hsent3, Hsent2, Hsent1, <- app_assoc. f_equal.
      rewrite Z2Nat.inj_add, <- drop_drop, Hk by lia.
      rewrite (drop_app_le t), drop_ge by (unfold zlen; lia). done. }
    split; [done|]. split; [by rewrite Hh3, Hh2, insert_insert_eq|]. split; [congruence|].
    by eapply same_thread_trans, same_thread_trans.
Qed.

(** The whole function: from the start of the device it sends everything and
    leaves the memory as it was. *)
Lemma read_file_and_send_ok fuel st n d : peer_accepts -> short_commands d ->
  dev_rep n (t_dev st) d -> t_fd st = Some 0 -> zlen (contents (commands d)) < 2 ^ 60 ->
  (11 <= fuel)%nat ->
  exists st', read_file_and_send fuel st = Ok (tt, st') /\
    t_sent st' = t_sent st ++ contents (commands d) /\ dev_rep n (t_dev st') d /\
    heap_of st' = heap_of st /\ t_recv st' = t_recv st /\ same_thread st st'.
Proof.
  intros Hpeer Hshort Hrep Hfd Hc Hf. unfold read_file_and_send.
  pose proof (dev_rep_cap _ _ _ Hrep) as Hcap.
  pose proof (stack_array_fresh (heap_of st)) as Hfresh. unfold stack_array_zero, on_heap.
  set (wb := fresh (dom (heap_of st))) in *.
  set (st1 := TState (Mem (<[wb := replicate 1024 (Some NUL)]> (heap_of st)) (m_tick (t_mem st)))
    (t_dev st) (t_fd st) (t_recv st) (t_send st) (t_sent st) (t_lock st) (t_save st)
    (thread_complete st)).
  erewrite (run_bind _ _ st wb st1); [|reflexivity].
  pose proof (zlen_nonneg (contents (commands d))).
  destruct (read_loop_ok 0 fuel st1 n d 0 wb (replicate 1024 (Some NUL)))
    as (st2 & blk & Hr & Hsent & Hrep2 & Hh & Hrecv & Hsame); try done;
    try lia; [unfold heap_of, st1; simpl; apply lookup_insert_eq |].
  rewrite (run_bind _ _ _ _ _ Hr). unfold update_heap, on_heap.
  eexists. split; [reflexivity|]. unfold heap_of in *. simpl. rewrite Hh. simpl.
  split; [done|]. split; [done|].
  split; [by rewrite insert_insert_eq, delete_insert_id|]. split; [done|]. exact Hsame.
Qed.

(** ** Receiving a packet *)

(** The 1023 bytes before the last of read_buffer, after recv() stored
    [chunk] over [B]: what an earlier chunk left behind it stays. *)
Definition overlay (B chunk : list char) : list char := chunk ++ drop (length chunk) B.

Definition buffer_blk (B : list char) : block := (Some <$> B) ++ [Some NUL].

Definition chunk_ok (c : list char) : Prop := (0 < length c <= 1023)%nat /\ NUL ∉ c.

(** None of the buffers starts with the request for a seek. *)
Fixpoint no_seek (B : list char) (chunks : list (list char)) : Prop :=
  match chunks with
  | [] => True
  | c :: rest => take 19 (overlay B c) <> special_string /\ no_seek (overlay B c) rest
  end.

Lemma length_overlay B c : (length c <= length B)%nat -> length (overlay B c) = length B.
Proof. intros Hl. unfold overlay. rewrite length_app, length_drop. lia. Qed.

Lemma overlay_insert B c : (length c <= length B)%nat ->
  list_inserts 0 (Some <$> c) (buffer_blk B) = buffer_blk (overlay B c).
Proof.
  intros Hl. unfold buffer_blk, overlay.
  rewrite inserts_0 by (rewrite length_app, !length_fmap; simpl; lia).
  rewrite length_fmap, drop_app_le by (rewrite length_fmap; lia).
  by rewrite <- fmap_drop, fmap_app, <- app_assoc.
Qed.

Lemma buffer_cstr B : cstr_blk (buffer_blk B) (until_nul B).
Proof. apply cstr_blk_until_nul. Qed.

(** The string in the buffer has a newline exactly when the chunk has. *)
Lemma overlay_newline B c : newline ∉ B -> NUL ∉ c ->
  newline ∈ until_nul (overlay B c) <-> newline ∈ c.
Proof.
  intros HB Hc. unfold overlay. rewrite until_nul_app, elem_of_app by done.
  split; [|by left]. intros [?|Hd]; [done|]. exfalso. apply HB.
  apply until_nul_sub in Hd. rewrite <- (take_drop (length c) B). set_solver.
Qed.

Lemma strncmp_differs (h : heap) rb B : h !! rb = Some (buffer_blk B) -> length B = 1023%nat ->
  take 19 B <> special_string ->
  exists z, strncmp h (PAddr rb 0) special_string (zlen special_string) = Ok z /\ z <> 0.
Proof.
  intros Hrb HB Hne. unfold strncmp. rewrite (bytes_from_ok _ _ _ 0 Hrb) by lia.
  rewrite bind_ok, drop_0. unfold buffer_blk. rewrite <- (take_drop 19 B), fmap_app, <- app_assoc.
  change (Z.to_nat (zlen special_string)) with (length special_string).
  apply compare_differs; [rewrite length_take; change (length special_string) with 19%nat; lia | | done].
  by_decide.
Qed.

Lemma lock_free (st : tstate S) : t_lock st = false ->
  pthread_mutex_lock st = Ok (0, TState (t_mem st) (t_dev st) (t_fd st) (t_recv st) (t_send st)
    (t_sent st) true (t_save st) (thread_complete st)).
Proof. intros Hl. unfold pthread_mutex_lock, mbind, M_bind, gets. by rewrite Hl. Qed.

Lemma unlock_held (st : tstate S) : t_lock st = true ->
  pthread_mutex_unlock st = Ok (tt, TState (t_mem st) (t_dev st) (t_fd st) (t_recv st) (t_send st)
    (t_sent st) false (t_save st) (thread_complete st)).
Proof. intros Hl. unfold pthread_mutex_unlock, mbind, M_bind, gets. by rewrite Hl. Qed.

Lemma look_ok {A} (f : heap -> res A) st a : f (heap_of st) = Ok a -> look f st = Ok (a, st).
Proof.
  intros Hf. unfold look, on_heap, heap_of in *. rewrite Hf. destruct st as [[h t] ]. done.
Qed.

Lemma syslog_ok st b s : str_at (heap_of st) b s -> syslog_s (PAddr b 0) st = Ok (tt, st).
Proof.
  intros Hs. unfold syslog_s. erewrite run_bind; [reflexivity|]. apply look_ok.
  by apply load_cstr_0.
Qed.

(** The lock, the checks and the write() to the device; [r] is what the
    device answers. *)
Lemma store_loop_write fuel st pos rb B c r pos' s' : t_lock st = false ->
  t_fd st = Some pos -> dev_write (t_dev st) pos c = Ok (r, pos', s') ->
  heap_of st !! rb = Some (buffer_blk (overlay B c)) -> length B = 1023%nat -> chunk_ok c ->
  take 19 (overlay B c) <> special_string ->
  store_loop (Datatypes.S fuel) rb (zlen c) st
  = (let '(bytes_written, errno) := posix r in
     if bytes_written =? -1 then
       if errno =? EINTR then store_loop fuel rb (zlen c) else mret false
     else _ ← pthread_mutex_unlock; mret false)
    (TState (t_mem st) s' (Some pos') (t_recv st) (t_send st) (t_sent st) true
      (t_save st) (thread_complete st)).
Proof.
  intros Hl Hfd Hw Hrb HB [Hc Hnul] Hns.
  cbn [store_loop]. rewrite (run_bind _ _ _ _ _ (lock_free st Hl)).
  change (0 =? 0) with true. cbv iota. set (st1 := TState _ _ _ _ _ _ true _ _).
  assert (Hstr : str_at (heap_of st1) rb (until_nul (overlay B c)))
    by (eexists; split; [exact Hrb | apply buffer_cstr]).
  rewrite (run_bind _ _ _ _ _ (syslog_ok st1 rb _ Hstr)).
  destruct (strncmp_differs (heap_of st1) rb (overlay B c) Hrb) as (z & Hz & Hz0);
    [rewrite length_overlay; lia|done|].
  rewrite (run_bind _ _ _ _ _ (look_ok _ st1 z Hz)).
  rewrite (proj2 (Z.eqb_neq z 0)) by done.
  rewrite (run_bind _ _ _ _ _ (syslog_ok st1 rb _ Hstr)).
  set (st2 := TState (t_mem st) s' (Some pos') (t_recv st) (t_send st) (t_sent st) true
    (t_save st) (thread_complete st)).
  assert (Hfw : file_write (PAddr rb 0) (zlen c) st1 = Ok (posix r, st2)).
  { unfold file_write. erewrite run_bind; [|apply look_ok].
    2: { apply (load_bytes_ok _ _ c ((Some <$> drop (length c) B) ++ [Some NUL])); [|done].
      change (heap_of st1) with (heap_of st). rewrite Hrb. unfold buffer_blk, overlay.
      by rewrite fmap_app, <- app_assoc. }
    erewrite run_bind; [|unfold on_dev, st1; simpl; by rewrite Hfd, Hw]. done. }
  by rewrite (run_bind _ _ _ _ _ Hfw).
Qed.

Lemma store_loop_error fuel st pos rb B c e pos' s' : t_lock st = false ->
  t_fd st = Some pos -> 0 < e -> dev_write (t_dev st) pos c = Ok (- e, pos', s') ->
  heap_of st !! rb = Some (buffer_blk (overlay B c)) -> length B = 1023%nat -> chunk_ok c ->
  take 19 (overlay B c) <> special_string ->
  store_loop (Datatypes.S fuel) rb (zlen c) st
  = (if e =? EINTR then store_loop fuel rb (zlen c) else mret false)
    (TState (t_mem st) s' (Some pos') (t_recv st) (t_send st) (t_sent st) true
      (t_save st) (thread_complete st)).
Proof.
  intros Hl Hfd He Hw Hrb HB Hc Hns.
  rewrite (store_loop_write fuel st pos rb B c (- e) pos' s') by done.
  unfold posix. rewrite (proj2 (Z.ltb_lt _ _)), Z.opp_involutive by lia.
  done.
Qed.

(** A chunk goes to the device under the lock. *)
Lemma store_loop_ok fuel st n d pos rb B c : (0 < fuel)%nat -> t_lock st = false ->
  t_fd st = Some pos -> dev_rep n (t_dev st) d -> n + zlen c + 1 < 2 ^ 62 ->
  heap_of st !! rb = Some (buffer_blk (overlay B c)) -> length B = 1023%nat -> chunk_ok c ->
  take 19 (overlay B c) <> special_string ->
  exists st' pos', store_loop fuel rb (zlen c) st = Ok (false, st') /\
    dev_rep (n + zlen c + 1) (t_dev st') (model_write d c) /\ t_fd st' = Some pos' /\
    t_mem st' = t_mem st /\ t_recv st' = t_recv st /\ t_sent st' = t_sent st /\
    same_thread st st'.
Proof.
  intros Hf Hl Hfd Hrep Hn Hrb HB Hc Hns. destruct fuel as [|fuel]; [lia|].
  destruct (dev_write_ok n (t_dev st) d pos c Hrep) as (pos' & s' & Hw & Hrep');
    [destruct Hc; unfold zlen, max_count in *; lia|done|].
  rewrite (store_loop_write fuel st pos rb B c (zlen c) pos' s') by done.
  pose proof (zlen_nonneg c). unfold posix.
  rewrite (proj2 (Z.ltb_ge _ _)), (proj2 (Z.eqb_neq _ (-1))) by lia.
  erewrite run_bind; [|by apply unlock_held].
  eexists _, pos'. split; [reflexivity|]. unfold same_thread. simpl. by rewrite Hl.
Qed.

(** The chunks arrive one by one; only the last has a newline. *)
Inductive packet : list (list char) -> Prop :=
| packet_last c : chunk_ok c -> newline ∈ c -> packet [c]
| packet_more c rest : chunk_ok c -> newline ∉ c -> packet rest -> packet (c :: rest).

(** The [i]-th recv() from now on yields the [i]-th chunk. *)
Definition arrives (t : nat) (chunks : list (list char)) : Prop :=
  forall i c, chunks !! i = Some c -> recv_at (t + i) = RecvData c.

Definition chunks_size (chunks : list (list char)) : Z :=
  zsum ((fun c => zlen c + 1) <$> chunks).

Lemma recv_ok st rb B c : recv_at (t_recv st) = RecvData c -> chunk_ok c ->
  heap_of st !! rb = Some (buffer_blk B) -> length B = 1023%nat ->
  exists st', recv (PAddr rb 0) READ_WRITE_SIZE st = Ok ((zlen c, 0), st') /\
    heap_of st' = <[rb := buffer_blk (overlay B c)]> (heap_of st) /\
    t_recv st' = Datatypes.S (t_recv st) /\ t_dev st' = t_dev st /\ t_fd st' = t_fd st /\
    t_sent st' = t_sent st /\ same_thread st st'.
Proof.
  intros Hr [Hc _] Hrb HB. unfold recv, heap_of in *. rewrite Hr.
  change (Z.to_nat READ_WRITE_SIZE) with 1024%nat. rewrite take_ge by lia.
  eexists. split.
  - erewrite run_bind; [reflexivity|]. unfold update_heap, on_heap. simpl.
    rewrite (store_bytes_ok _ _ _ 0 c Hrb) by (unfold buffer_blk; rewrite length_app, length_fmap; simpl; lia).
    rewrite bind_ok, overlay_insert by lia. reflexivity.
  - unfold same_thread. by simpl.
Qed.

Lemma receive_loop_step fuel rb st : receive_loop (Datatypes.S fuel) rb false st =
  (r ← receive_step (Datatypes.S fuel) rb;
   match r with inl v => mret v | inr e => receive_loop fuel rb e end) st.
Proof.
  unfold receive_step. rewrite bind_assoc. cbn [receive_loop]. apply bind_cong. intros [n e] s.
  destruct (negb (n =? 0)); [|done]. destruct (n =? -1); [by destruct (e =? EINTR)|].
  rewrite bind_assoc. apply bind_cong. intros nl s1. rewrite bind_assoc. apply bind_cong.
  by intros [] s2.
Qed.

(** One round of the loop: recv(), the search for a newline, the write. *)
Lemma receive_step_ok fuel st n d pos rb B c : (0 < fuel)%nat -> t_lock st = false ->
  t_fd st = Some pos -> dev_rep n (t_dev st) d -> n + zlen c + 1 < 2 ^ 62 ->
  heap_of st !! rb = Some (buffer_blk B) -> length B = 1023%nat -> newline ∉ B ->
  recv_at (t_recv st) = RecvData c -> chunk_ok c -> take 19 (overlay B c) <> special_string ->
  exists st' pos', receive_step fuel rb st = Ok (inr (bool_decide (newline ∈ c)), st') /\
    dev_rep (n + zlen c + 1) (t_dev st') (model_write d c) /\ t_fd st' = Some pos' /\
    heap_of st' = <[rb := buffer_blk (overlay B c)]> (heap_of st) /\
    t_recv st' = Datatypes.S (t_recv st) /\ t_sent st' = t_sent st /\ same_thread st st'.
Proof.
  intros Hf Hl Hfd Hrep Hn Hrb HB HnB Hr Hc Hns.
  destruct (recv_ok st rb B c Hr Hc Hrb HB) as (st1 & Hrecv & Hh1 & Ht1 & Hd1 & Hf1 & Hs1 & Hsame1).
  pose proof (proj1 Hsame1) as Hl1.
  assert (Hrb1 : heap_of st1 !! rb = Some (buffer_blk (overlay B c)))
    by (rewrite Hh1; apply lookup_insert_eq).
  destruct Hc as [Hlen Hnul].
  assert (Hpos : 0 < zlen c) by (unfold zlen; lia).
  destruct (strchr_at (heap_of st1) rb (until_nul (overlay B c)) newline) as (q & Hq & Hqn);
    [eexists; split; [exact Hrb1 | apply buffer_cstr] | done |].
  rewrite overlay_newline in Hqn by done.
  destruct (store_loop_ok fuel st1 n d pos rb B c) as
    (st2 & pos2 & Hst & Hrep2 & Hfd2 & Hm2 & Ht2 & Hs2 & Hsame2);
    [lia | congruence | congruence | congruence | done | done | done | done | done |].
  exists st2, pos2. split.
  - unfold receive_step. rewrite (run_bind _ _ _ _ _ Hrecv). cbv beta iota.
    rewrite (proj2 (Z.eqb_neq (zlen c) 0)), (proj2 (Z.eqb_neq (zlen c) (-1))) by lia.
    change (negb false) with true. cbv iota.
    rewrite (run_bind _ _ _ _ _ (look_ok (fun h => strchr h (PAddr rb 0) newline) st1 q Hq)).
    rewrite (run_bind _ _ _ _ _ Hst). cbv iota.
    replace (if negb (is_null q) then true else false) with (bool_decide (newline ∈ c)); [done|].
    destruct (is_null q); simpl.
    + apply bool_decide_eq_false_2. naive_solver.
    + apply bool_decide_eq_true_2. naive_solver.
  - split; [done|]. split; [done|]. split; [unfold heap_of in *; congruence|].
    split; [congruence|]. split; [congruence|]. by eapply same_thread_trans.
Qed.

Lemma receive_round fuel st n d pos rb B c : t_lock st = false ->
  t_fd st = Some pos -> dev_rep n (t_dev st) d -> n + zlen c + 1 < 2 ^ 62 ->
  heap_of st !! rb = Some (buffer_blk B) -> length B = 1023%nat -> newline ∉ B ->
  recv_at (t_recv st) = RecvData c -> chunk_ok c -> take 19 (overlay B c) <> special_string ->
  exists st' pos', receive_loop (Datatypes.S fuel) rb false st
      = receive_loop fuel rb (bool_decide (newline ∈ c)) st' /\
    dev_rep (n + zlen c + 1) (t_dev st') (model_write d c) /\ t_fd st' = Some pos' /\
    heap_of st' = <[rb := buffer_blk (overlay B c)]> (heap_of st) /\
    t_recv st' = Datatypes.S (t_recv st) /\ t_sent st' = t_sent st /\ same_thread st st'.
Proof.
  intros Hl Hfd Hrep Hn Hrb HB HnB Hr Hc Hns.
  destruct (receive_step_ok (Datatypes.S fuel) st n d pos rb B c) as (st' & pos' & Hs & Hrest); [lia|done..|].
  exists st', pos'. by rewrite receive_loop_step, (run_bind _ _ _ _ _ Hs).
Qed.

Lemma receive_loop_ok chunks : packet chunks -> forall fuel st n d pos rb B,
  t_lock st = false -> t_fd st = Some pos -> dev_rep n (t_dev st) d ->
  n + chunks_size chunks < 2 ^ 62 ->
  heap_of st !! rb = Some (buffer_blk B) -> length B = 1023%nat -> newline ∉ B ->
  arrives (t_recv st) chunks -> no_seek B chunks -> (length chunks < fuel)%nat ->
  exists st' pos' blk', receive_loop fuel rb false st = Ok (0, st') /\
    dev_rep (n + chunks_size chunks) (t_dev st') (fold_left model_write chunks d) /\
    t_fd st' = Some pos' /\ heap_of st' = <[rb := blk']> (heap_of st) /\
    t_sent st' = t_sent st /\ same_thread st st'.
Proof.
  unfold chunks_size. induction 1 as [c Hc Hnl|c rest Hc Hnl Hrest IH];
    intros fuel st n d pos rb B Hl Hfd Hrep Hn Hrb HB HnB Harr Hns Hf.
  - destruct fuel as [|fuel]; [lia|]. destruct Hns as [Hns _]. simpl in Hn, Hf.
    destruct (receive_round fuel st n d pos rb B c) as (st1 & pos1 & -> & Hrep1 & Hfd1 & Hh1 & _ & Hs1 & Hsame1);
      try done; [lia|specialize (Harr 0%nat c eq_refl); by rewrite Nat.add_0_r in Harr|].
    rewrite bool_decide_eq_true_2 by done. destruct fuel as [|fuel]; [lia|].
    exists st1, pos1. eexists. split; [reflexivity|]. simpl. rewrite Z.add_0_r, Z.add_assoc.
    repeat (split; [done|]). done.
  - destruct fuel as [|fuel]; [lia|]. destruct Hns as [Hns Hns']. csimpl in Hn.
    assert (0 <= zsum ((fun c => zlen c + 1) <$> rest)).
    { apply zsum_nonneg. rewrite Forall_fmap. apply Forall_true. intros x. simpl.
      pose proof (zlen_nonneg x). lia. }
    destruct (receive_round fuel st n d pos rb B c) as (st1 & pos1 & -> & Hrep1 & Hfd1 & Hh1 & Ht1 & Hs1 & Hsame1);
      try done; [lia|specialize (Harr 0%nat c eq_refl); by rewrite Nat.add_0_r in Harr|].
    rewrite bool_decide_eq_false_2 by done.
    destruct (IH fuel st1 (n + zlen c + 1) (model_write d c) pos1 rb (overlay B c))
      as (st2 & pos2 & blk2 & -> & Hrep2 & Hfd2 & Hh2 & Hs2 & Hsame2).
    + by rewrite (proj1 Hsame1).
    + done.
    + done.
    + lia.
    + rewrite Hh1. apply lookup_insert_eq.
    + rewrite length_overlay; [done|]. destruct Hc. lia.
    + unfold overlay. intros Hin. apply elem_of_app in Hin as [?|Hin]; [done|]. apply HnB.
      rewrite <- (take_drop (length c) B). set_solver.
    + intros i x Hx. rewrite Ht1. specialize (Harr (Datatypes.S i) x Hx).
      by rewrite Nat.add_succ_r in Harr.
    + done.
    + simpl in Hf. lia.
    + exists st2, pos2, blk2. csimpl. rewrite !Z.add_assoc in *. split; [done|].
      split; [done|]. split; [done|]. split; [by rewrite Hh2, Hh1, insert_insert_eq|].
      split; [congruence|]. by eapply same_thread_trans.
Qed.

(** The buffer starts out as 1024 NULs. *)
Definition empty_buffer : list char := replicate 1023 NUL.

Lemma receive_and_write_ok fuel st n d pos chunks : packet chunks ->
  t_lock st = false -> t_fd st = Some pos -> dev_rep n (t_dev st) d ->
  n + chunks_size chunks < 2 ^ 62 -> arrives (t_recv st) chunks ->
  no_seek empty_buffer chunks -> (length chunks < fuel)%nat ->
  exists st' pos', receive_and_write_to_file fuel st = Ok (0, st') /\
    dev_rep (n + chunks_size chunks) (t_dev st') (fold_left model_write chunks d) /\
    t_fd st' = Some pos' /\ heap_of st' = heap_of st /\ t_sent st' = t_sent st /\
    same_thread st st'.
Proof.
  intros Hp Hl Hfd Hrep Hn Harr Hns Hf. unfold receive_and_write_to_file.
  pose proof (stack_array_fresh (heap_of st)) as Hfresh. unfold stack_array_zero, on_heap.
  set (rb := fresh (dom (heap_of st))) in *.
  set (st1 := TState (Mem (<[rb := replicate 1024 (Some NUL)]> (heap_of st)) (m_tick (t_mem st)))
    (t_dev st) (t_fd st) (t_recv st) (t_send st) (t_sent st) (t_lock st) (t_save st)
    (thread_complete st)).
  erewrite (run_bind _ _ st rb st1); [|reflexivity].
  destruct (receive_loop_ok chunks Hp fuel st1 n d pos rb empty_buffer)
    as (st2 & pos2 & blk2 & Hr & Hrep2 & Hfd2 & Hh2 & Hs2 & Hsame2); try done.
  - unfold heap_of, st1. simpl. by rewrite lookup_insert_eq.
  - by_decide.
  - rewrite (run_bind _ _ _ _ _ Hr). erewrite run_bind; [|reflexivity].
    eexists _, pos2. split; [reflexivity|]. unfold heap_of in *. simpl. rewrite Hh2. simpl.
    do 2 (split; [done|]). split; [by rewrite insert_insert_eq, delete_insert_id|].
    split; [done|]. exact Hsame2.
Qed.

(** ** The whole thread *)

Lemma data_processor_ok fuel st n d chunks : peer_accepts -> packet chunks ->
  t_lock st = false -> dev_rep n (t_dev st) d -> n + chunks_size chunks < 2 ^ 62 ->
  arrives (t_recv st) chunks -> no_seek empty_buffer chunks ->
  let d' := fold_left model_write chunks d in
  short_commands d' -> zlen (contents (commands d')) < 2 ^ 60 ->
  (length chunks < fuel)%nat -> (11 <= fuel)%nat ->
  exists st', data_processor fuel st = Ok (tt, st') /\
    t_sent st' = t_sent st ++ contents (commands d') /\
    dev_rep (n + chunks_size chunks) (t_dev st') d' /\
    thread_complete st' = 1 /\ t_lock st' = false /\ t_fd st' = None /\ heap_of st' = heap_of st.
Proof.
  intros Hpeer Hp Hl Hrep Hn Harr Hns d' Hshort Hc Hf Hf11. unfold data_processor.
  set (st1 := TState (t_mem st) (t_dev st) (Some 0) (t_recv st) (t_send st) (t_sent st)
    (t_lock st) (t_save st) (thread_complete st)).
  assert (Hopen : forall s m x, dev_rep m (t_dev s) x ->
    file_open s = Ok (tt, TState (t_mem s) (t_dev s) (Some 0) (t_recv s) (t_send s) (t_sent s)
      (t_lock s) (t_save s) (thread_complete s))).
  { intros s m x Hr. unfold file_open, mbind, M_bind, gets. by rewrite (dev_open_ok _ _ _ Hr). }
  rewrite (run_bind _ _ _ _ _ (Hopen st n d Hrep)). fold st1.
  destruct (receive_and_write_ok fuel st1 n d 0 chunks)
    as (st2 & pos2 & Hr & Hrep2 & Hfd2 & Hh2 & Hs2 & Hsame2); try done.
  rewrite (run_bind _ _ _ _ _ Hr). change (0 =? 0) with true. cbv iota. fold d' in Hrep2.
  set (st3 := TState (t_mem st2) (t_dev st2) None (t_recv st2) (t_send st2) (t_sent st2)
    (t_lock st2) (t_save st2) (thread_complete st2)).
  set (st4 := TState (t_mem st2) (t_dev st2) (Some 0) (t_recv st2) (t_send st2) (t_sent st2)
    (t_lock st2) (t_save st2) (thread_complete st2)).
  destruct (read_file_and_send_ok fuel st4 (n + chunks_size chunks) d')
    as (st5 & Hsend & Hs5 & Hrep5 & Hh5 & _ & Hsame5); try done.
  eexists. split.
  { erewrite run_bind; [reflexivity|].
    erewrite (run_bind _ _ _ _ st3); [|reflexivity].
    rewrite (run_bind _ _ _ _ _ (Hopen st3 _ _ Hrep2)). change (TState _ _ _ _ _ _ _ _ _) with st4 at 1.
    rewrite (run_bind _ _ _ _ _ Hsend). reflexivity. }
  simpl. rewrite Hs5. simpl. rewrite Hs2. do 3 (split; [done|]).
  split; [|split; [done|unfold heap_of in *; simpl in *; congruence]].
  destruct Hsame5 as (-> & _). simpl. by destruct Hsame2 as (-> & _).
Qed.

(** ** The request for a seek *)

Lemma do_malloc_ok (st : tstate S) n : (exists b, alloc_choice (m_tick (t_mem st)) (heap_of st) n = Some b /\
    heap_of st !! b = None) ->
  exists b st', heap_of st !! b = None /\ do_malloc n st = Ok (PAddr b 0, st') /\
    heap_of st' = <[b := replicate (Z.to_nat n) None]> (heap_of st).
Proof.
  intros (b & Hc & Hb). exists b. unfold do_malloc, malloc, alloc_block, heap_of in *.
  rewrite Hc, Hb. eexists. by split.
Qed.

Lemma copy_five_faults (h : heap) p rb blk (u : list char) : h !! rb = Some blk ->
  cstr_blk blk (special_string ++ u) -> h !! p = Some (replicate (length u) None) ->
  strncpy h (PAddr p 0) (PAddr rb 19) 5 = Fault OutOfBounds \/
  exists h', strncpy h (PAddr p 0) (PAddr rb 19) 5 = Ok h' /\
    exists f, load_cstr h' (PAddr p 0) = Fault f /\ (f = OutOfBounds \/ f = UninitRead).
Proof.
  intros Hrb Hcs Hp. pose proof (cstr_blk_length _ _ Hcs) as Hl.
  rewrite length_app in Hl. change (length special_string) with 19%nat in Hl.
  apply (cstr_blk_drop _ _ 19) in Hcs;
    [|rewrite length_app; change (length special_string) with 19%nat; lia].
  rewrite drop_app_length' in Hcs by done.
  unfold strncpy. rewrite (bytes_from_ok _ _ _ 19 Hrb) by lia.
  rewrite bind_ok, (scan_strn_cstr _ _ _ Hcs), bind_ok. change (Z.to_nat 5) with 5%nat.
  destruct (decide (length u < 5)%nat) as [Hlt|Hge].
  - left. unfold store_bytes.
    destruct (take 5 u ++ replicate (5 - length (take 5 u)) NUL) as [|x w] eqn:Hw.
    { apply (f_equal length) in Hw. rewrite length_app, length_replicate, length_take in Hw.
      simpl in Hw. lia. }
    rewrite <- Hw, Hp. cbn [lift_opt]. rewrite bind_ok, decide_False; [done|].
    rewrite length_app, !length_replicate, length_take. lia.
  - right. rewrite length_take, Nat.min_l, Nat.sub_diag, app_nil_r by lia.
    rewrite (store_bytes_ok _ _ _ _ _ Hp) by (rewrite length_replicate, length_take; lia).
    eexists. split; [reflexivity|]. unfold load_cstr.
    rewrite (bytes_from_ok _ _ _ 0 (lookup_insert_eq _ _ _)), bind_ok by lia. rewrite drop_0.
    rewrite inserts_0 by (rewrite length_fmap, length_replicate, length_take; lia).
    rewrite length_fmap, drop_replicate, length_take, Nat.min_l by lia.
    rewrite scan_str_open.
    + destruct (length u - 5)%nat; simpl; eauto.
    + destruct Hcs as [Hn _]. intros Hin. apply Hn. rewrite <- (take_drop 5 u). set_solver.
Qed.

(** The copy never is a proper string: it has less room than the five bytes
    that are stored, or no terminator among the bytes it has. *)
Lemma seek_copy_faults st rb B u : alloc_succeeds alloc_choice ->
  heap_of st !! rb = Some (buffer_blk B) -> length B = 1023%nat ->
  until_nul B = special_string ++ u ->
  exists f, seek_copy rb st = Fault f /\ (f = OutOfBounds \/ f = UninitRead).
Proof.
  intros Hok Hrb HB Hu. unfold seek_copy.
  assert (Hcs : cstr_blk (buffer_blk B) (special_string ++ u)) by (rewrite <- Hu; apply buffer_cstr).
  assert (Hul : (length u <= 1004)%nat).
  { pose proof (length_until_nul B) as Hl. rewrite Hu, length_app in Hl.
    change (length special_string) with 19%nat in Hl. lia. }
  erewrite run_bind; [|apply look_ok, strlen_at; by exists (buffer_blk B)].
  rewrite zlen_app. change (zlen special_string) with 19.
  replace (u64 (19 + zlen u - 19)) with (zlen u) by (rewrite u64_small; unfold zlen; lia).
  destruct (do_malloc_ok st (zlen u) (Hok _ _ _)) as (p & st1 & Hp & Hm1 & Hh1).
  rewrite (run_bind _ _ _ _ _ Hm1).
  destruct (do_malloc_ok st1 (zlen u) (Hok _ _ _)) as (q & st2 & Hq & Hm2 & Hh2).
  rewrite (run_bind _ _ _ _ _ Hm2).
  assert (p <> rb) by congruence.
  assert (q <> p) by (intros ->; rewrite Hh1, lookup_insert_eq in Hq; done).
  assert (q <> rb) by (intros ->; rewrite Hh1, lookup_insert_ne, Hrb in Hq by done; done).
  assert (Hp2 : heap_of st2 !! p = Some (replicate (length u) None)).
  { rewrite Hh2, lookup_insert_ne, Hh1, lookup_insert_eq by done. unfold zlen. by rewrite Nat2Z.id. }
  assert (Hrb2 : heap_of st2 !! rb = Some (buffer_blk B))
    by (rewrite Hh2, Hh1, !lookup_insert_ne by done; done).
  pose proof (copy_five_faults (heap_of st2) p rb (buffer_blk B) u Hrb2 Hcs Hp2) as Hfive.
  unfold update_heap, on_heap. destruct Hfive as [Hf|(h' & Hcpy & f & Hload & Hf)].
  - exists OutOfBounds. split; [|by left]. apply run_bind_fault. unfold heap_of in Hf. by rewrite Hf.
  - exists f. split; [|done].
    erewrite run_bind; [|unfold heap_of in Hcpy; rewrite Hcpy; reflexivity].
    apply run_bind_fault. unfold syslog_s. apply run_bind_fault. unfold look, on_heap. simpl.
    by rewrite Hload.
Qed.

Lemma store_loop_seek fuel st rb B u bytes_read : alloc_succeeds alloc_choice -> t_lock st = false ->
  heap_of st !! rb = Some (buffer_blk B) -> length B = 1023%nat ->
  until_nul B = special_string ++ u ->
  exists f, store_loop (Datatypes.S fuel) rb bytes_read st = Fault f /\
    (f = OutOfBounds \/ f = UninitRead).
Proof.
  intros Hok Hl Hrb HB Hu. cbn [store_loop]. rewrite (run_bind _ _ _ _ _ (lock_free st Hl)).
  change (0 =? 0) with true. cbv iota. set (st1 := TState _ _ _ _ _ _ true _ _).
  assert (Hcs : cstr_blk (buffer_blk B) (special_string ++ u)) by (rewrite <- Hu; apply buffer_cstr).
  erewrite run_bind; [|eapply syslog_ok; by exists (buffer_blk B)].
  assert (Hz : strncmp (heap_of st1) (PAddr rb 0) special_string (zlen special_string) = Ok 0).
  { change (heap_of st1) with (heap_of st). unfold strncmp.
    rewrite (bytes_from_ok _ _ _ 0 Hrb), bind_ok, drop_0 by lia.
    destruct Hcs as (Hn & r & ->).
    change (Z.to_nat (zlen special_string)) with (length special_string).
    apply compare_prefix. set_solver. }
  rewrite (run_bind _ _ _ _ _ (look_ok _ st1 0 Hz)). change (0 =? 0) with true. cbv iota.
  destruct (seek_copy_faults st1 rb B u Hok Hrb HB Hu) as (f & Hf & Hor).
  exists f. split; [|done]. apply run_bind_fault. unfold seek_request. by apply run_bind_fault.
Qed.

Lemma until_nul_overlay c : NUL ∉ c -> (length c <= 1023)%nat ->
  until_nul (overlay empty_buffer c) = c.
Proof.
  intros Hn Hl. unfold overlay, empty_buffer. rewrite until_nul_app, drop_replicate by done.
  destruct (1023 - length c)%nat; simpl; by rewrite app_nil_r.
Qed.

(** A client that asks for a seek. *)
Lemma seek_packet_faults fuel st u : alloc_succeeds alloc_choice -> t_lock st = false ->
  recv_at (t_recv st) = RecvData (special_string ++ u) -> chunk_ok (special_string ++ u) ->
  exists f, receive_and_write_to_file (Datatypes.S fuel) st = Fault f /\
    (f = OutOfBounds \/ f = UninitRead).
Proof.
  intros Hok Hl Hr Hc. unfold receive_and_write_to_file, stack_array_zero, on_heap.
  set (rb := fresh (dom (heap_of st))) in *.
  set (st1 := TState (Mem (<[rb := replicate 1024 (Some NUL)]> (heap_of st)) (m_tick (t_mem st)))
    (t_dev st) (t_fd st) (t_recv st) (t_send st) (t_sent st) (t_lock st) (t_save st)
    (thread_complete st)).
  erewrite (run_bind _ _ st rb st1); [|reflexivity].
  destruct (recv_ok st1 rb empty_buffer _ Hr Hc) as (st2 & Hrecv & Hh2 & _ & _ & _ & _ & Hsame);
    [unfold heap_of, st1; simpl; by rewrite lookup_insert_eq | done |].
  destruct Hc as [Hlen Hnul].
  set (B := overlay empty_buffer (special_string ++ u)) in *.
  assert (Hrb2 : heap_of st2 !! rb = Some (buffer_blk B)) by (rewrite Hh2; apply lookup_insert_eq).
  assert (Hu : until_nul B = special_string ++ u) by (apply until_nul_overlay; [done|lia]).
  assert (Hp : 0 < zlen (special_string ++ u)) by (unfold zlen; lia).
  destruct (strchr_at (heap_of st2) rb (special_string ++ u) newline) as (q & Hq & _);
    [exists (buffer_blk B); split; [done|]; rewrite <- Hu; apply buffer_cstr | done |].
  destruct (store_loop_seek fuel st2 rb B u (zlen (special_string ++ u)) Hok) as (f & Hf & Hor);
    [by rewrite (proj1 Hsame) | done | unfold B; rewrite length_overlay; [done|change (length empty_buffer) with 1023%nat; lia] | done |].
  exists f. split; [|done]. apply run_bind_fault. cbn [receive_loop].
  rewrite (run_bind _ _ _ _ _ Hrecv). cbv beta iota.
  rewrite (proj2 (Z.eqb_neq _ 0)), (proj2 (Z.eqb_neq _ (-1))) by lia.
  change (negb false) with true. cbv iota.
  rewrite (run_bind _ _ _ _ _ (look_ok (fun h => strchr h (PAddr rb 0) newline) st2 q Hq)).
  by apply run_bind_fault.
Qed.
End Conn.
