(* ===== verification/ServerProps.v ===== *)
(** * Properties of the socket server

    The theorems about the functions of aesdsocket.c, each with a witness:
    the driver with two commands behind /dev/aesdchar and a peer that sends
    one packet in two parts. *)

From stdpp Require Import base numbers strings gmap list.
From S2P Require Import Prelude CMem CString CText RingSpec CharDriver DriverSpec DriverWrite.
From S2P Require Import DriverProps Ioctl Slist Server ServerMain ServerFacts FlipFacts.
From S2P Require Import ServerSpec ServerConn.

#[local] Open Scope Z_scope.

(** ** A concrete connection *)

Definition demo_chunks : list (list char) := [lit "te3"; line "33"].

Definition demo_peer : Peer := {|
  recv_at t := match demo_chunks !! t with Some c => RecvData c | None => RecvData [] end;
  send_at _ := SendOk 4096
|}.

Definition demo_thread (s : kstate) : tstate kstate :=
  TState (Mem ∅ 0) s None 0 0 [] false PNull 0.

(** C4: the promise of the server, with the driver behind /dev/aesdchar, to a
    client whose packet arrives in any number of parts of at most 1023 bytes
    without a NUL, is no seek request, and leaves every command of the device
    shorter than the 1024 bytes of the thread's buffer; memory is there and
    the peer takes what is sent.  The thread then stores all the parts, sends
    back the whole contents of the device - the ten newest commands, the
    client's among them - marks itself complete, and leaves the lock free,
    the file closed and its memory given back.  ([long_command_overruns]
    is what happens with a longer command.) *)
Theorem client_gets_contents (o : AllocOracle) (P : Peer) fuel st d chunks :
  alloc_succeeds o -> @peer_accepts P -> packet chunks ->
  t_lock st = false -> implements (t_dev st) d ->
  message_size (k_dev (t_dev st)) + chunks_size chunks < 2 ^ 62 ->
  @arrives P (t_recv st) chunks -> no_seek empty_buffer chunks ->
  let d' := fold_left model_write chunks d in
  short_commands d' -> zlen (contents (commands d')) < 2 ^ 60 ->
  (length chunks < fuel)%nat -> (11 <= fuel)%nat ->
  exists st', @data_processor kstate (driver_dev o) P o fuel st = Ok (tt, st') /\
    t_sent st' = t_sent st ++ contents (commands d') /\ implements (t_dev st') d' /\
    thread_complete st' = 1 /\ t_lock st' = false /\ t_fd st' = None /\
    m_heap (t_mem st') = m_heap (t_mem st).
Proof.
  intros Hok Hpeer Hp Hl Hi Hm Harr Hns d' Hshort Hc Hf Hf11.
  destruct (@data_processor_ok kstate (driver_dev o) (driver_spec o Hok) P o fuel st
    (message_size (k_dev (t_dev st))) d chunks) as (st' & Hr & Hs & [Hi' _] & Hrest);
    try done. by exists st'.
Qed.

Lemma client_gets_contents_witness :
  exists st',
    @data_processor kstate (driver_dev bump_oracle) demo_peer bump_oracle 11 (demo_thread demo_state)
    = Ok (tt, st') /\
    t_sent st' = line "write1" ++ line "write22" ++ line "write333" /\ thread_complete st' = 1.
Proof.
  destruct (client_gets_contents bump_oracle demo_peer 11 (demo_thread demo_state) demo_model
    demo_chunks) as (st' & H1 & H2 & _ & H3 & _).
  - apply bump_oracle_succeeds.
  - intros t. exists 4096. done.
  - apply packet_more; [split; [simpl; lia|] | |apply packet_last; [split; [simpl; lia|]|]];
      by_decide.
  - done.
  - apply demo_implements.
  - done.
  - intros i c Hc. simpl. by rewrite Hc.
  - split; [|split; [|done]]; by_decide.
  - repeat constructor.
  - done.
  - simpl. lia.
  - lia.
  - exists st'. split; [exact H1|]. split; [exact H2 | exact H3].
Defined.

(** ** Addresses *)

(** flip_ip_addr() reverses the four parts of a dotted address in place
    when no part has more than two digits; nothing else in memory changes. *)
Theorem flip_ip_addr_reverses h ip blk a b c d :
  h !! ip = Some blk -> length blk = INET_ADDRSTRLEN ->
  octet 2 a -> octet 2 b -> octet 2 c -> octet 2 d -> cstr_blk blk (dotted a b c d) ->
  exists h', flip_ip_addr h (PAddr ip 0) = Ok h' /\ str_at h' ip (dotted d c b a) /\
    (forall k, k <> ip -> h' !! k = h !! k).
Proof. apply flip_reverses. Qed.

(** client_ip_hostview with an address in it. *)
Definition hostview (s : list char) : block :=
  cstring s ++ replicate (INET_ADDRSTRLEN - S (length s)) None.

Lemma hostview_cstr s : NUL ∉ s -> cstr_blk (hostview s) s.
Proof.
  intros Hn. split; [done|]. eexists. unfold hostview, cstring. rewrite <- app_assoc. reflexivity.
Qed.

Lemma flip_ip_addr_reverses_witness :
  exists h', flip_ip_addr {[ 5%nat := hostview (lit "10.2.33.4") ]} (PAddr 5 0) = Ok h' /\
    str_at h' 5 (lit "4.33.2.10").
Proof.
  destruct (flip_ip_addr_reverses {[ 5%nat := hostview (lit "10.2.33.4") ]} 5
    (hostview (lit "10.2.33.4")) (lit "10") (lit "2") (lit "33") (lit "4")) as (h' & H1 & H2 & _).
  - done.
  - done.
  - split; [simpl; lia|]. split; by_decide.
  - split; [simpl; lia|]. split; by_decide.
  - split; [simpl; lia|]. split; by_decide.
  - split; [simpl; lia|]. split; by_decide.
  - apply (hostview_cstr (lit "10.2.33.4")). by_decide.
  - exists h'. split; [exact H1 | exact H2].
Defined.

(** A last part of three digits does not fit into its row of three
    bytes: its terminator is written behind the array. *)
Theorem flip_ip_addr_overflow h ip blk a b c d : h !! ip = Some blk ->
  octet 3 a -> octet 3 b -> octet 3 c -> octet 3 d -> length d = 3%nat ->
  cstr_blk blk (dotted a b c d) -> flip_ip_addr h (PAddr ip 0) = Fault OutOfBounds.
Proof. apply flip_last_overflow. Qed.

Lemma flip_ip_addr_overflow_witness :
  flip_ip_addr {[ 5%nat := hostview (lit "10.0.2.255") ]} (PAddr 5 0) = Fault OutOfBounds.
Proof.
  apply (flip_ip_addr_overflow _ 5 (hostview (lit "10.0.2.255")) (lit "10") (lit "0") (lit "2")
    (lit "255")).
  - done.
  - split; [simpl; lia|]. split; by_decide.
  - split; [simpl; lia|]. split; by_decide.
  - split; [simpl; lia|]. split; by_decide.
  - split; [simpl; lia|]. split; by_decide.
  - done.
  - apply (hostview_cstr (lit "10.0.2.255")). by_decide.
Defined.

(** Three digits elsewhere do not fault, but spill into the next row. *)
Example flip_ip_addr_garbles :
  (h ← flip_ip_addr {[ 5%nat := hostview (lit "127.0.0.1") ]} (PAddr 5 0); load_cstr h (PAddr 5 0))
  = Ok (lit "1.0.0.1270").
Proof. vm_compute. reflexivity. Qed.

(** ** The main thread *)

(** An accepted connection (from an address whose parts have at most two
    digits) gets a thread at the end of the list; the pass that follows
    joins and closes exactly the threads that were complete, in order, and
    clears every flag, so that none is joined twice. *)
Theorem main_round_accepts fuel sv xs h tid skt fd e a b c d :
  slist (head sv) xs -> Forall (fun x => is_Some (thread_id x.2)) xs ->
  nodes (head sv) !! e = None -> (length xs + 1 < fuel)%nat ->
  octet 2 a -> octet 2 b -> octet 2 c -> octet 2 d ->
  exists sv' h',
    main_round fuel sv h false tid skt (AcceptConn fd (dotted a b c d) (Some e) true)
    = Ok (Continue, sv', h') /\
    slist (head sv') (((fun x => (x.1, clear x.2)) <$> xs) ++ [(e, new_thread sv fd)]) /\
    joined sv' = joined sv ++ omap (fun x => thread_id x.2) (filter is_complete xs) /\
    closed sv' = closed sv ++ ((fun x => connected_skt_fd x.2) <$> filter is_complete xs) /\
    (forall k, h' !! k = h !! k).
Proof.
  intros Hs Ht He Hf Ha Hb Hc Hd. unfold main_round.
  destruct (log_client_ok h a b c d Ha Hb Hc Hd) as (h1 & -> & Hout). rewrite bind_ok.
  destruct (add_entry_appends true fuel sv xs e fd Hs He ltac:(lia)) as (sv1 & -> & Hs1 & _ & Hj1 & Hc1).
  rewrite bind_ok.
  destruct (reap_ok fuel sv1 _ Hs1) as (sv2 & -> & Hs2 & Hj2 & Hc2).
  - apply Forall_app. split; [done|]. by apply Forall_singleton.
  - rewrite length_app. simpl. lia.
  - rewrite bind_ok. eexists sv2, _. split; [reflexivity|].
    rewrite fmap_app in Hs2. split; [exact Hs2|].
    rewrite filter_app, (filter_cons_False _ (e, new_thread sv fd)), app_nil_r in Hj2, Hc2 by done.
    split; [congruence|]. split; [congruence | done].
Qed.

Definition demo_server : server :=
  MkServer (SlistHead (LNode 3) {[ 3%nat := Node (ThreadInfo (Some 0%nat) 7 1) (LNode 4);
                                  4%nat := Node (ThreadInfo (Some 1%nat) 8 0) LNull ]}) 2 [] [].

Definition demo_threads : list (nat * thread_info) :=
  [(3%nat, ThreadInfo (Some 0%nat) 7 1); (4%nat, ThreadInfo (Some 1%nat) 8 0)].

Lemma demo_slist : slist (head demo_server) demo_threads.
Proof. split; [|by_decide]. by repeat econstructor. Qed.

Lemma main_round_accepts_witness :
  exists sv' h',
    main_round 9 demo_server ∅ false None 3 (AcceptConn 9 (lit "10.0.2.15") (Some 5%nat) true)
    = Ok (Continue, sv', h') /\ joined sv' = [0%nat] /\ closed sv' = [7].
Proof.
  destruct (main_round_accepts 9 demo_server demo_threads ∅ None 3 9 5 (lit "10") (lit "0")
    (lit "2") (lit "15")) as (sv' & h' & H1 & _ & H2 & H3 & _).
  - apply demo_slist.
  - repeat constructor; by eexists.
  - done.
  - simpl. lia.
  - split; [simpl; lia|]. split; by_decide.
  - split; [simpl; lia|]. split; by_decide.
  - split; [simpl; lia|]. split; by_decide.
  - split; [simpl; lia|]. split; by_decide.
  - exists sv', h'. split; [exact H1|]. split; [exact H2 | exact H3].
Defined.

(** A server that was started deletes a timer it never created: the way
    out after a signal uses timer_id before anything sets it. *)
Theorem signal_exit_timer fuel e sv skt timer_id h :
  main_start e = Ok (Serving skt timer_id) ->
  main_round fuel sv h (socket_signal_handler SIGTERM false) timer_id skt AcceptAgain
  = Fault UninitRead.
Proof.
  intros Hs. unfold main_start in Hs. destruct (negb _); [done|].
  destruct (bind_loop _ _) as [z|]; [|done]. destruct (negb _); [done|].
  destruct (_ && _); [done|]. destruct (_ && _); [done|].
  change (negb USE_AESD_CHAR_DEVICE) with false in Hs. cbv iota in Hs. injection Hs as _ <-. done.
Qed.

Lemma signal_exit_timer_witness :
  main_round 9 demo_server ∅ (socket_signal_handler SIGTERM false) None 3 AcceptAgain
  = Fault UninitRead.
Proof. apply (signal_exit_timer 9 (Startup 0 [(3, 0)] 0 false 0 0 0)). reflexivity. Defined.

(** The rest of the way out joins what is complete and closes every
    connection, also those that were closed before; but no node is freed,
    because the loop that frees them runs only while the list is empty - and
    with an empty list it follows the NULL first element. *)
Theorem signal_exit_threads fuel sv xs skt : slist (head sv) xs ->
  Forall (fun x => is_Some (thread_id x.2)) xs -> (length xs < fuel)%nat ->
  (xs <> [] -> exists sv', exit_threads fuel sv skt = Ok sv' /\
     joined sv' = joined sv ++ omap (fun x => thread_id x.2) (filter is_complete xs) /\
     closed sv' = closed sv ++ ((fun x => connected_skt_fd x.2) <$> xs) ++ [skt] /\
     slist (head sv') xs) /\
  (xs = [] -> exit_threads fuel sv skt = Fault NullDeref).
Proof.
  intros Hs Ht Hf. split.
  - intros Hne. by apply (exit_ok fuel sv xs skt).
  - intros ->. destruct sv as [[first ns] ? ? ?]. destruct Hs as [Hs _]. simpl in Hs.
    inversion Hs; subst. destruct fuel as [|[|fuel]]; [simpl in Hf; lia|done|done].
Qed.

Lemma signal_exit_threads_witness :
  (exists sv', exit_threads 9 demo_server 3 = Ok sv' /\ joined sv' = [0%nat] /\
     closed sv' = [7; 8; 3] /\ slist (head sv') demo_threads) /\
  exit_threads 9 server_init 3 = Fault NullDeref.
Proof.
  split.
  - apply (signal_exit_threads 9 demo_server demo_threads 3);
      [apply demo_slist | repeat constructor; by eexists | simpl; lia | done].
  - apply (signal_exit_threads 9 server_init [] 3); [|done|simpl; lia|done].
    split; constructor.
Defined.

(** ** What goes wrong on a connection *)

(** Every request for a seek runs into undefined behaviour: the copy of
    the text after the special string has too little room for the five bytes
    stored into it, or no terminator. *)
Theorem seek_request_faults {S : Type} `{CharDev S} (P : Peer) (o : AllocOracle) fuel
    (st : tstate S) u :
  alloc_succeeds o -> t_lock st = false ->
  recv_at (t_recv st) = RecvData (special_string ++ u) -> chunk_ok (special_string ++ u) ->
  exists f, receive_and_write_to_file (Datatypes.S fuel) st = Fault f /\
    (f = OutOfBounds \/ f = UninitRead).
Proof. intros Hok. by apply seek_packet_faults. Qed.

Definition seek_peer : Peer := {|
  recv_at _ := RecvData (special_string ++ line "0,2");
  send_at _ := SendOk 4096
|}.

Lemma seek_request_faults_witness :
  exists f, @receive_and_write_to_file kstate (driver_dev bump_oracle) seek_peer bump_oracle 5
    (demo_thread demo_state) = Fault f /\ (f = OutOfBounds \/ f = UninitRead).
Proof.
  apply (@seek_request_faults kstate (driver_dev bump_oracle) seek_peer bump_oracle 4
    (demo_thread demo_state) (line "0,2")); [apply bump_oracle_succeeds | done | done |].
  split; [simpl; lia | by_decide].
Defined.

(** When the peer closes the connection before the end of a packet the
    thread never ends: no number of rounds of the loop is enough. *)
Theorem closed_peer_spins {S : Type} `{CharDev S} (P : Peer) (o : AllocOracle) fuel
    (st : tstate S) rb :
  (forall t, (t_recv st <= t)%nat -> recv_at t = RecvData []) ->
  receive_loop fuel rb false st = Fault OutOfFuel.
Proof.
  revert st. induction fuel as [|fuel IH]; intros st Hr; [done|]. cbn [receive_loop].
  set (st1 := TState (t_mem st) (t_dev st) (t_fd st) (Datatypes.S (t_recv st)) (t_send st)
    (t_sent st) (t_lock st) (t_save st) (thread_complete st)).
  rewrite (run_bind _ _ st (0, 0) st1).
  - apply IH. intros t Ht. apply Hr. simpl in Ht. lia.
  - unfold recv. rewrite Hr by lia. destruct st as [[]]. done.
Qed.

Lemma closed_peer_spins_witness :
  @receive_loop kstate (driver_dev bump_oracle)
    (Build_Peer (fun _ => RecvData []) (fun _ => SendErr)) bump_oracle 1000 0 false
    (demo_thread demo_state) = Fault OutOfFuel.
Proof.
  apply (@closed_peer_spins kstate (driver_dev bump_oracle)
    (Build_Peer (fun _ => RecvData []) (fun _ => SendErr)) bump_oracle 1000). done.
Defined.

(** A failed write to the device keeps the lock: after EINTR the thread
    waits for the lock it holds, after any other error it goes on without
    releasing it, and the next thread waits for ever. *)
Theorem failed_write_keeps_lock {S : Type} `{CharDev S} (P : Peer) (o : AllocOracle) fuel
    (st : tstate S) pos rb B c e pos' s' :
  t_lock st = false -> t_fd st = Some pos -> 0 < e ->
  dev_write (t_dev st) pos c = Ok (- e, pos', s') ->
  heap_of st !! rb = Some (buffer_blk (overlay B c)) -> length B = 1023%nat -> chunk_ok c ->
  take 19 (overlay B c) <> special_string ->
  (e = EINTR -> store_loop (Datatypes.S (Datatypes.S fuel)) rb (zlen c) st = Fault SelfDeadlock) /\
  (e <> EINTR -> exists st',
     store_loop (Datatypes.S fuel) rb (zlen c) st = Ok (false, st') /\ t_lock st' = true).
Proof.
  intros Hl Hfd He Hw Hrb HB Hc Hns.
  set (st2 := TState (t_mem st) s' (Some pos') (t_recv st) (t_send st) (t_sent st) true
    (t_save st) (thread_complete st)).
  assert (Hstep : forall n, store_loop (Datatypes.S n) rb (zlen c) st
    = (if e =? EINTR then store_loop n rb (zlen c) else mret false) st2).
  { intros n. by apply (store_loop_error n st pos rb B c e pos' s'). }
  rewrite !Hstep. split.
  - intros ->. rewrite Z.eqb_refl. reflexivity.
  - intros Hne. rewrite (proj2 (Z.eqb_neq _ _) Hne). by exists st2.
Qed.


(** A device whose write() is always interrupted. *)
Definition interrupted_dev : CharDev unit := {|
  dev_open _ := true;
  dev_read _ pos _ := Ok (0, [], pos, tt);
  dev_write _ pos _ := Ok (- EINTR, pos, tt);
  dev_ioctl _ pos _ _ := Ok (0, pos, tt)
|}.

Lemma failed_write_keeps_lock_witness :
  @store_loop unit interrupted_dev demo_peer bump_oracle 2 0 (zlen (lit "te3"))
    (TState (Mem {[ 0%nat := buffer_blk (overlay empty_buffer (lit "te3")) ]} 0) tt (Some 0) 0 0 []
       false PNull 0)
  = Fault SelfDeadlock.
Proof.
  apply (@failed_write_keeps_lock unit interrupted_dev demo_peer bump_oracle 0
    (TState (Mem {[ 0%nat := buffer_blk (overlay empty_buffer (lit "te3")) ]} 0) tt (Some 0) 0 0 []
       false PNull 0) 0 0 empty_buffer (lit "te3") EINTR 0 tt).
  - done.
  - done.
  - done.
  - done.
  - apply lookup_singleton_eq.
  - done.
  - split; [simpl; lia | by_decide].
  - by_decide.
  - done.
Defined.

(** A command of 1024 bytes or more overruns the buffer of the thread
    that reads it back: the driver stores the whole command and a NUL into
    the 1024 bytes it was offered. *)
Theorem long_command_overruns (o : AllocOracle) (P : Peer) fuel st d s rest :
  alloc_succeeds o -> implements (t_dev st) d -> commands d = s :: rest ->
  (1024 <= length s)%nat -> zlen (contents (commands d)) < 2 ^ 60 -> t_fd st = Some 0 ->
  @read_file_and_send kstate (driver_dev o) P (Datatypes.S fuel) st = Fault OutOfBounds.
Proof.
  intros Hok Hi Hd Hs Hc Hfd. pose proof (zlen_nonneg (contents (commands d))).
  destruct (driver_read o Hok (message_size (k_dev (t_dev st))) (t_dev st) d 0 READ_WRITE_SIZE)
    as (s' & Hr & _); [done|done|lia|].
  assert (Hm : model_read (commands d) 0 = s).
  { unfold model_read. rewrite Hd. csimpl. rewrite (proj2 (Z.ltb_lt _ _)) by (unfold zlen; lia). done. }
  rewrite Hm, decide_False in Hr by (by intros ->; simpl in Hs; lia).
  unfold read_file_and_send, stack_array_zero, on_heap.
  erewrite run_bind; [|reflexivity]. apply run_bind_fault. cbn [read_loop].
  apply run_bind_fault. unfold file_read.
  erewrite run_bind; [|unfold on_dev; simpl t_fd; rewrite Hfd; simpl t_dev; rewrite Hr; reflexivity].
  cbv beta iota. apply run_bind_fault. unfold update_heap, on_heap. simpl m_heap.
  assert (Ho : forall b h, store_bytes (<[b := replicate 1024 (Some NUL)]> h) (PAddr b 0) (s ++ [NUL])
    = Fault OutOfBounds); [|by rewrite Ho].
  intros b h. unfold store_bytes. destruct (s ++ [NUL]) eqn:Hsn; [by destruct s|].
  rewrite <- Hsn, lookup_insert_eq. cbn [lift_opt]. rewrite bind_ok, decide_False; [done|].
  rewrite length_app, length_replicate. simpl. lia.
Qed.

Definition long_command : list char := replicate 1500 (Ascii.ascii_of_nat 97) ++ [newline].

Definition long_state : kstate :=
  KState
    (Mem {[ 0%nat := cstring long_command; 10%nat := replicate 168 (Some NUL);
            11%nat := replicate 16 (Some NUL) ]} 5)
    (AesdDev (PAddr 10 0)
       (CircularBuffer.CircBuf
          (slot_entry (0%nat, long_command) :: replicate 9 CircularBuffer.null_entry) 1 0 false)
       (PAddr 11 0) CircularBuffer.null_entry ENull 0 0 false).

Lemma long_inv : dev_inv long_state [(0%nat, long_command)] None.
Proof.
  split.
  - split; simpl; try done; try lia. by repeat constructor.
  - constructor; [|constructor]. apply str_at_cstring; [done|by vm_compute].
  - done.
  - by_decide.
  - repeat constructor; by eexists.
  - done.
  - done.
  - done.
  - done.
  - by eexists _, _.
Qed.

Lemma long_command_overruns_witness :
  @read_file_and_send kstate (driver_dev bump_oracle) demo_peer 5
    (TState (Mem ∅ 0) long_state (Some 0) 0 0 [] false PNull 0) = Fault OutOfBounds.
Proof.
  apply (long_command_overruns bump_oracle demo_peer 4
    (TState (Mem ∅ 0) long_state (Some 0) 0 0 [] false PNull 0) (DevModel [long_command] [])
    long_command []).
  - apply bump_oracle_succeeds.
  - exists [(0%nat, long_command)], None. split; [apply long_inv | reflexivity].
  - done.
  - vm_compute. lia.
  - by vm_compute.
  - done.
Defined.
