(* ===== verification/ServerStart.v ===== *)
(** * How the server starts (server/aesdsocket.c, main up to its loop)

    The calls main makes before its loop and what they do to the process: its
    descriptors and the open files behind them, the handled signals, the
    working directory and the session.  fork() makes two processes. *)

From stdpp Require Import base numbers strings gmap list.
From S2P Require Import Prelude CMem Server ServerMain.

#[local] Open Scope Z_scope.

(** ** The process *)

(** An address that getaddrinfo() returns. *)
Abbreviation address := Z.

(** What a descriptor may refer to. *)
Inductive ofile : Set :=
| Socket (reuse : bool) (bound : option address) (listening : bool)
| NullDevice
| OtherFile (id : nat).

#[global] Instance ofile_eq_dec : EqDecision ofile.
Proof. solve_decision. Defined.

Record os : Type := Os {
  fds : gmap Z nat;              (* descriptors, each with its open file *)
  files : gmap nat ofile;        (* the open files *)
  next_file : nat;
  handled : gset Z;              (* the signals for socket_signal_handler *)
  cwd : list char;
  session_leader : bool
}.

Definition with_fds (s : os) (d : gmap Z nat) (f : gmap nat ofile) (n : nat) : os :=
  Os d f n (handled s) (cwd s) (session_leader s).
Definition set_files (s : os) (f : gmap nat ofile) : os := with_fds s (fds s) f (next_file s).

(** The open file behind a descriptor. *)
Definition file_of (s : os) (fd : Z) : option ofile := f ← fds s !! fd; files s !! f.

(** The lowest descriptor that is not open: the one a new file gets. *)
Definition lowest (s : os) : Z :=
  default 0 (hd_error (filter (fun fd => fds s !! fd = None) (Z.of_nat <$> seq 0 (S (size (fds s)))))).

Definition install_file (s : os) (x : ofile) : Z * os :=
  (lowest s, with_fds s (<[lowest s := next_file s]> (fds s)) (<[next_file s := x]> (files s)) (S (next_file s))).

(** ** What the kernel answers *)
Record answers : Type := Answers {
  sigaction_ret : Z -> Z;              (* for each signal *)
  gai_ret : Z;                         (* getaddrinfo() *)
  gai_list : list address;
  socket_ok : nat -> bool;             (* for each round of the loop *)
  setsockopt_ret : nat -> Z;
  bind_ret : nat -> address -> Z;
  listen_ok : bool;
  fork_pid : option Z;                 (* the child, or a failure *)
  setsid_ok : bool;
  chdir_ok : bool;
  open_ok : bool;
  dup_ok : nat -> bool;
  tm_create_ret : Z;
  tm_settime_ret : Z
}.

Section Calls.
Context (a : answers).

Definition sigaction (signal : Z) (s : os) : os :=
  if sigaction_ret a signal =? 0 then
    Os (fds s) (files s) (next_file s) ({[ signal ]} ∪ handled s) (cwd s) (session_leader s)
  else s.

Definition socket (n : nat) (s : os) : Z * os :=
  if socket_ok a n then install_file s (Socket false None false) else (-1, s).

(** A change to the open file behind a descriptor. *)
Definition update_file (fd : Z) (g : ofile -> ofile) (s : os) : os :=
  match fds s !! fd with
  | Some f => set_files s (alter g f (files s))
  | None => s
  end.

Definition setsockopt (n : nat) (fd : Z) (s : os) : os :=
  if setsockopt_ret a n =? -1 then s
  else update_file fd (fun x => match x with Socket _ b l => Socket true b l | _ => x end) s.

Definition bind_socket (n : nat) (fd : Z) (addr : address) (s : os) : Z * os :=
  if bind_ret a n addr =? 0 then
    (0, update_file fd (fun x => match x with Socket r _ l => Socket r (Some addr) l | _ => x end) s)
  else (bind_ret a n addr, s).

(** A descriptor that is not open, or not a socket, is an error; a socket
    without an address listens at a port of the kernel's choice. *)
Definition listen (fd : Z) (s : os) : Z * os :=
  match file_of s fd with
  | Some (Socket r b _) => if listen_ok a then (0, update_file fd (fun _ => Socket r b true) s) else (-1, s)
  | _ => (-1, s)
  end.

Definition setsid (s : os) : os :=
  Os (fds s) (files s) (next_file s) (handled s) (cwd s) (setsid_ok a || session_leader s).

Definition chdir (path : list char) (s : os) : os :=
  if chdir_ok a then Os (fds s) (files s) (next_file s) (handled s) path (session_leader s) else s.

Definition open_null (s : os) : os := if open_ok a then (install_file s NullDevice).2 else s.

(** dup(fd): the lowest free descriptor for the same open file. *)
Definition dup (n : nat) (fd : Z) (s : os) : os :=
  match fds s !! fd with
  | Some f => if dup_ok a n then with_fds s (<[lowest s := f]> (fds s)) (files s) (next_file s) else s
  | None => s
  end.

(** ** main *)

(** The loop over the addresses; each round binds res_skt_addrinfo, the
    [first] of them. *)
Fixpoint bind_addresses (first : address) (n : nat) (l : list address) (skt_fd : option Z) (s : os) : option Z * os :=
  match l with
  | [] => (skt_fd, s)
  | _ :: rest =>
      let '(fd, s) := socket n s in
      if fd =? -1 then bind_addresses first (S n) rest (Some fd) s
      else
        let s := setsockopt n fd s in
        let '(ret, s) := bind_socket n fd first s in
        if negb (ret =? 0) then bind_addresses first (S n) rest (Some fd) s
        else (Some fd, s)
  end.

(** The child of fork(). *)
Definition daemonize (s : os) : os :=
  let s := setsid s in
  let s := chdir (lit "/") s in
  let s := open_null s in
  let s := dup 0 0 s in
  dup 1 0 s.

(** argc == 2 and argv[1] is "-d" *)
Definition daemon_wanted (argv : list (list char)) : bool :=
  if (length argv =? 2)%nat then bool_decide (argv !! 1%nat = Some (lit "-d")) else false.

(** From the timer to the loop. *)
Definition start_timer (skt_fd : Z) : start_result :=
  if negb USE_AESD_CHAR_DEVICE then
    if negb (tm_create_ret a =? 0) then Returned (-1) else
    if negb (tm_settime_ret a =? 0) then Returned (-1) else
    Serving skt_fd (Some O)
  else Serving skt_fd None.

(** The processes there are when main has reached its loop or its end. *)
Definition main_startup (argv : list (list char)) (s : os) : res (list (start_result * os)) :=
  let s := sigaction SIGTERM s in
  let s := sigaction SIGINT s in
  if negb (gai_ret a =? 0) then Ok [(Returned (-1), s)] else
  let '(skt_fd, s) := bind_addresses (default 0 (hd_error (gai_list a))) 0 (gai_list a) None s in
  match skt_fd with
  | None => Fault UninitRead
  | Some skt_fd =>
      let '(ret, s) := listen skt_fd s in
      if negb (ret =? 0) then Ok [(Returned (-1), s)] else
      if daemon_wanted argv then
        match fork_pid a with
        | None => Ok [(Returned (-1), s)]
        | Some pid => Ok [(Exited 0, s); (start_timer skt_fd, daemonize s)]
        end
      else Ok [(start_timer skt_fd, s)]
  end.
End Calls.
