(* ===== verification/StartProps.v ===== *)
(** * Properties of the start-up

    One process serves, on a socket that listens; what the start-up leaves
    behind; and that its decisions are those of [main_start].

    [extends s s']: everything that was open in [s] is open in [s'], unchanged.
    [own s0 s fd b]: descriptor [fd] is a socket opened after [s0], bound to
    [b], that does not listen yet. *)

From stdpp Require Import base numbers strings gmap list.
From S2P Require Import Prelude CMem Server ServerMain ServerStart.

#[local] Open Scope Z_scope.

(** Descriptors refer to open files. *)
Record os_wf (s : os) : Prop := OsWf {
  wf_fd : forall fd f, fds s !! fd = Some f -> 0 <= fd /\ is_Some (files s !! f);
  wf_file : forall f, is_Some (files s !! f) -> (f < next_file s)%nat }.

Record extends (s s' : os) : Prop := Extends {
  ext_fds : fds s ⊆ fds s';
  ext_files : forall f, (f < next_file s)%nat -> files s' !! f = files s !! f;
  ext_next : (next_file s <= next_file s')%nat;
  ext_handled : handled s' = handled s }.

#[global] Instance extends_preorder : PreOrder extends.
Proof.
  split.
  - intros s. by split.
  - intros s1 s2 s3 [A1 A2 A3 A4] [B1 B2 B3 B4]. split; [by transitivity (fds s2) | | lia | congruence].
    intros f Hf. rewrite B2 by lia. by apply A2.
Qed.

(** ** The lowest free descriptor *)

Lemma free_exists s : filter (fun fd => fds s !! fd = None) (Z.of_nat <$> seq 0 (S (size (fds s)))) <> [].
Proof.
  intros E. pose (l := Z.of_nat <$> seq 0 (S (size (fds s)))).
  assert (Hnd : NoDup l) by (apply (NoDup_fmap_2 _), NoDup_seq).
  assert (Hsub : list_to_set l ⊆ dom (fds s)).
  { intros fd Hin%elem_of_list_to_set. apply elem_of_dom. destruct (fds s !! fd) eqn:Efd; [done|].
    assert (fd ∈ filter (fun fd => fds s !! fd = None) l) as Hf by (by apply list_elem_of_filter).
    unfold l in Hf. rewrite E in Hf. by apply not_elem_of_nil in Hf. }
  apply subseteq_size in Hsub. rewrite size_list_to_set in Hsub by done. rewrite size_dom in Hsub.
  unfold l in Hsub. rewrite length_fmap, length_seq in Hsub. lia.
Qed.

Lemma lowest_free s : fds s !! lowest s = None /\ 0 <= lowest s.
Proof.
  pose proof (free_exists s) as Hne. unfold lowest.
  destruct (filter _ _) as [|fd l] eqn:E; [done|]. cbn [hd_error default].
  assert (Hin : fd ∈ filter (fun fd => fds s !! fd = None) (Z.of_nat <$> seq 0 (S (size (fds s))))) by (rewrite E; by left).
  apply list_elem_of_filter in Hin as [Hf Hin]. split; [done|]. apply list_elem_of_fmap in Hin as (k & -> & _). cbn. lia.
Qed.

(** ** Opening *)

Lemma install_file_spec s x : os_wf s ->
  let '(fd, s') := install_file s x in
  os_wf s' /\ extends s s' /\ 0 <= fd /\ fds s' !! fd = Some (next_file s) /\ files s' !! next_file s = Some x /\
  size (fds s') = S (size (fds s)).
Proof.
  intros [Hfd Hfl]. destruct (lowest_free s) as [Hfree H0]. cbn. split; [|split; [|split; [done|]]].
  - split; cbn.
    + intros fd f Hl. apply lookup_insert_Some in Hl as [[<- <-]|[_ Hl]].
      * split; [done|]. by rewrite lookup_insert_eq.
      * destruct (Hfd fd f Hl) as [? Hs]. split; [done|]. rewrite lookup_insert_is_Some'. by right.
    + intros f [<-|Hs]%lookup_insert_is_Some'; [lia|]. apply Hfl in Hs. lia.
  - split; cbn; [by apply insert_subseteq | | lia | done]. intros f Hf. rewrite lookup_insert_ne by lia. done.
  - rewrite !lookup_insert_eq. split; [done|]. split; [done|]. by rewrite map_size_insert_None.
Qed.

Lemma dup_spec a n fd s : os_wf s -> os_wf (dup a n fd s) /\ extends s (dup a n fd s).
Proof.
  intros Hwf. destruct (lowest_free s) as [Hfree H0]. unfold dup. destruct (fds s !! fd) as [f|] eqn:E; [|by split].
  destruct (dup_ok a n); [|by split]. destruct (Hwf) as [Hfd Hfl]. split.
  - split; cbn; [|done]. intros d g Hl. apply lookup_insert_Some in Hl as [[<- <-]|[_ Hl]]; [|by apply Hfd].
    split; [done|]. by destruct (Hfd fd f E).
  - split; cbn; [by apply insert_subseteq | done | lia | done].
Qed.

(** ** A socket of one's own *)

Definition own (s0 s : os) (fd : Z) (b : option address) : Prop :=
  exists f r, fds s !! fd = Some f /\ (next_file s0 <= f)%nat /\ files s !! f = Some (Socket r b false).

(** Changing it leaves everything else alone. *)
Lemma update_own s0 s fd b g : os_wf s -> extends s0 s -> own s0 s fd b ->
  let s' := update_file fd g s in
  os_wf s' /\ extends s0 s' /\ fds s' = fds s /\
  (forall b', (forall r, exists r', g (Socket r b false) = Socket r' b' false) -> own s0 s' fd b') /\
  (forall x, (forall r, g (Socket r b false) = x) -> file_of s' fd = Some x).
Proof.
  intros [Hfd Hfl] [E1 E2 E3 E4] (f & r & Hf & Hn & Hx). unfold update_file. rewrite Hf. cbn. split; [|split; [|split; [done|split]]].
  - split; cbn.
    + intros d h Hd. destruct (Hfd d h Hd) as [? [y Hy]]. split; [done|]. destruct (decide (f = h)) as [->|Hne].
      * rewrite lookup_alter_eq, Hy. by eexists.
      * rewrite lookup_alter_ne, Hy by done. by eexists.
    + intros h [y Hy]. apply Hfl. destruct (decide (f = h)) as [->|Hne]; [by eexists|]. rewrite lookup_alter_ne in Hy by done. by eexists.
  - split; cbn; [done| |done|done]. intros h Hh. rewrite lookup_alter_ne by lia. by apply E2.
  - intros b' Hg. destruct (Hg r) as [r' Hr]. exists f, r'. cbn. split; [done|]. split; [done|]. by rewrite lookup_alter_eq, Hx; cbn; rewrite Hr.
  - intros x Hg. unfold file_of. cbn. rewrite Hf. cbn. by rewrite lookup_alter_eq, Hx; cbn; rewrite Hg.
Qed.

Lemma setsockopt_own a n s0 s fd b : os_wf s -> extends s0 s -> own s0 s fd b ->
  let s' := setsockopt a n fd s in os_wf s' /\ extends s0 s' /\ own s0 s' fd b /\ fds s' = fds s.
Proof.
  intros Hwf He Ho. unfold setsockopt. destruct (_ =? _); [done|].
  destruct (update_own s0 s fd b (fun x => match x with Socket _ b l => Socket true b l | _ => x end) Hwf He Ho)
    as (A & B & C & D & _). split; [done|]. split; [done|]. split; [|done]. apply D. intros r. by exists true.
Qed.

Lemma bind_own a n addr s0 s fd : os_wf s -> extends s0 s -> own s0 s fd None ->
  let '(ret, s') := bind_socket a n fd addr s in
  os_wf s' /\ extends s0 s' /\ fds s' = fds s /\ ret = bind_ret a n addr /\
  own s0 s' fd (if bind_ret a n addr =? 0 then Some addr else None).
Proof.
  intros Hwf He Ho. unfold bind_socket. destruct (Z.eqb_spec (bind_ret a n addr) 0) as [->|Hne]; [|done].
  destruct (update_own s0 s fd None (fun x => match x with Socket r _ l => Socket r (Some addr) l | _ => x end) Hwf He Ho)
    as (A & B & C & D & _). do 4 (split; [done|]). apply D. intros r. by exists r.
Qed.

Lemma listen_own a s0 s fd b : os_wf s -> extends s0 s -> own s0 s fd b ->
  let '(ret, s') := listen a fd s in
  os_wf s' /\ extends s0 s' /\ fds s' = fds s /\ ret = (if listen_ok a then 0 else -1) /\
  (listen_ok a = true -> exists r, file_of s' fd = Some (Socket r b true)).
Proof.
  intros Hwf He Ho. destruct (Ho) as (f & r & Hf & Hn & Hx). unfold listen.
  assert (E : file_of s fd = Some (Socket r b false)) by (unfold file_of; by rewrite Hf).
  rewrite E. destruct (listen_ok a); [|done].
  destruct (update_own s0 s fd b (fun _ => Socket r b true) Hwf He Ho) as (A & B & C & _ & D).
  do 4 (split; [done|]). intros _. exists r. by apply D.
Qed.

(** ** The loop over the addresses *)

(** Some round gets a socket and binds it. *)
Fixpoint some_bound (a : answers) (first : address) (n : nat) (l : list address) : bool :=
  match l with
  | [] => false
  | _ :: rest => (socket_ok a n && (bind_ret a n first =? 0)) || some_bound a first (S n) rest
  end.

(** The sockets made by then. *)
Fixpoint sockets_made (a : answers) (first : address) (n : nat) (l : list address) : nat :=
  match l with
  | [] => O
  | _ :: rest =>
      if socket_ok a n then
        if bind_ret a n first =? 0 then 1%nat else S (sockets_made a first (S n) rest)
      else sockets_made a first (S n) rest
  end.

(** What skt_fd holds after the loop. *)
Definition left_over (s0 s : os) (l : list address) (skt skt' : option Z) : Prop :=
  (l = [] /\ skt' = skt) \/ skt' = Some (-1) \/ exists fd, skt' = Some fd /\ 0 <= fd /\ own s0 s fd None.

Definition loop_post (a : answers) (first : address) (n : nat) (l : list address) (skt : option Z) (s0 s : os)
    (res : option Z * os) : Prop :=
  let '(skt', s') := res in
  os_wf s' /\ extends s0 s' /\ size (fds s') = (size (fds s) + sockets_made a first n l)%nat /\
  if some_bound a first n l then exists fd, skt' = Some fd /\ 0 <= fd /\ own s0 s' fd (Some first)
  else left_over s0 s' l skt skt'.

(** After a round that failed: the rest decides. *)
Lemma loop_post_next a first n x l skt fd s0 s1 s2 res :
  (fd = -1 \/ (0 <= fd /\ own s0 s2 fd None)) ->
  (if socket_ok a n then bind_ret a n first <> 0 /\ size (fds s2) = S (size (fds s1)) else size (fds s2) = size (fds s1)) ->
  loop_post a first (S n) l (Some fd) s0 s2 res -> (l = [] -> res = (Some fd, s2)) ->
  loop_post a first n (x :: l) skt s0 s1 res.
Proof.
  intros Hfd Hs Hp Hnil. destruct res as [skt' s']. destruct Hp as (Hwf & He & Hsz & Hr). cbn [some_bound sockets_made].
  assert (E : socket_ok a n && (bind_ret a n first =? 0) = false).
  { destruct (socket_ok a n); [|done]. destruct Hs as [Hb _]. cbn. by apply Z.eqb_neq. }
  split; [done|]. split; [done|]. split.
  - cbn [sockets_made]. destruct (socket_ok a n).
    + destruct Hs as [Hb Hs]. rewrite (proj2 (Z.eqb_neq _ _)) by done. lia.
    + lia.
  - cbn [some_bound]. rewrite E. cbn [orb]. destruct (some_bound a first (S n) l); [done|]. right.
    destruct Hr as [[-> ->]|Hr]; [|done]. injection (Hnil eq_refl) as ->. destruct Hfd as [->|[H0 Ho]]; [by left|right]. by exists fd.
Qed.

Lemma bind_addresses_spec a first s0 l : forall n skt s, os_wf s -> extends s0 s ->
  loop_post a first n l skt s0 s (bind_addresses a first n l skt s).
Proof.
  induction l as [|x l IH]; intros n skt s Hwf He.
  { cbn. split; [done|]. split; [done|]. split; [lia|]. by left. }
  cbn [bind_addresses]. unfold socket. destruct (socket_ok a n) eqn:Esk.
  - pose proof (install_file_spec s (Socket false None false) Hwf) as Hi.
    destruct (install_file s _) as [fd s1]. destruct Hi as (Hwf1 & He1 & H0 & Hf & Hx & Hsz).
    assert (Ho1 : own s0 s1 fd None).
    { exists (next_file s), false. split; [done|]. split; [apply (ext_next _ _ He)|done]. }
    assert (He01 : extends s0 s1) by (by transitivity s).
    rewrite (proj2 (Z.eqb_neq _ _)) by lia.
    destruct (setsockopt_own a n s0 s1 fd None Hwf1 He01 Ho1) as (Hwf2 & He2 & Ho2 & Hd2).
    pose proof (bind_own a n first s0 (setsockopt a n fd s1) fd Hwf2 He2 Ho2) as Hb.
    destruct (bind_socket a n fd first _) as [ret s3]. destruct Hb as (Hwf3 & He3 & Hd3 & -> & Ho3).
    assert (Hsz3 : size (fds s3) = S (size (fds s))) by (by rewrite Hd3, Hd2).
    destruct (Z.eqb_spec (bind_ret a n first) 0) as [Hb|Hb]; cbn [negb].
    + unfold loop_post. cbn [some_bound sockets_made]. rewrite Esk, Hb. cbn [andb orb Z.eqb].
      split; [done|]. split; [done|]. split; [lia|]. by exists fd.
    + eapply (loop_post_next _ _ _ _ _ _ fd s0 s s3); [by right | by rewrite Esk | by apply IH | by intros ->].
  - cbn [Z.eqb]. eapply (loop_post_next _ _ _ _ _ _ (-1) s0 s s); [by left | by rewrite Esk | by apply IH | by intros ->].
Qed.

(** ** The rest *)

Lemma sigaction_spec a signal s : os_wf s ->
  os_wf (sigaction a signal s) /\ fds (sigaction a signal s) = fds s /\ files (sigaction a signal s) = files s /\
  next_file (sigaction a signal s) = next_file s /\ cwd (sigaction a signal s) = cwd s /\
  handled (sigaction a signal s) = (if sigaction_ret a signal =? 0 then {[ signal ]} else ∅) ∪ handled s.
Proof.
  intros [Hfd Hfl]. unfold sigaction. destruct (_ =? _); [done|]. split; [done|]. do 4 (split; [done|]). set_solver.
Qed.

Lemma daemonize_spec a s : os_wf s ->
  os_wf (daemonize a s) /\ extends s (daemonize a s) /\
  cwd (daemonize a s) = (if chdir_ok a then lit "/" else cwd s) /\ session_leader (daemonize a s) = setsid_ok a || session_leader s.
Proof.
  intros Hwf. unfold daemonize. set (s1 := setsid a s). set (s2 := chdir a (lit "/") s1). set (s3 := open_null a s2).
  assert (H1 : os_wf s1 /\ extends s s1) by (by destruct Hwf).
  assert (H2 : os_wf s2 /\ extends s1 s2) by (unfold s2, chdir; destruct (chdir_ok a); by destruct H1 as [[] ?]).
  assert (H3 : os_wf s3 /\ extends s2 s3 /\ cwd s3 = cwd s2 /\ session_leader s3 = session_leader s2).
  { unfold s3, open_null. destruct (open_ok a); [|by destruct H2].
    pose proof (install_file_spec s2 NullDevice (proj1 H2)) as Hi. by destruct Hi as (? & ? & _). }
  destruct (dup_spec a 0 0 s3 (proj1 H3)) as [Hw4 He4]. destruct (dup_spec a 1 0 _ Hw4) as [Hw5 He5].
  assert (Hd : forall n fd s, cwd (dup a n fd s) = cwd s /\ session_leader (dup a n fd s) = session_leader s).
  { intros n fd t. unfold dup. destruct (fds t !! fd); [|done]. by destruct (dup_ok a n). }
  split; [done|]. split.
  - transitivity s1; [apply H1|]. transitivity s2; [apply H2|]. transitivity s3; [apply H3|]. by transitivity (dup a 0 0 s3).
  - rewrite !(proj1 (Hd _ _ _)), !(proj2 (Hd _ _ _)). destruct H3 as (_ & _ & -> & ->). unfold s2, chdir. by destruct (chdir_ok a).
Qed.

(** The kept descriptors refer to the same files. *)
Lemma extends_file s s' fd x : os_wf s -> extends s s' -> file_of s fd = Some x -> file_of s' fd = Some x.
Proof.
  intros [_ Hfl] [E1 E2 _ _] Hx. unfold file_of in *. destruct (fds s !! fd) as [f|] eqn:Hf; [|done]. cbn in Hx.
  rewrite (lookup_weaken _ _ _ _ Hf E1). cbn. rewrite E2; [done|]. apply Hfl. by eexists.
Qed.

(** The address that is bound: the first of the list. *)
Definition first_address (a : answers) : address := default 0 (hd_error (gai_list a)).

(** Both signals that can be handled are. *)
Definition handled_after (a : answers) (s : os) : gset Z :=
  (if sigaction_ret a SIGINT =? 0 then {[ SIGINT ]} else ∅) ∪
  ((if sigaction_ret a SIGTERM =? 0 then {[ SIGTERM ]} else ∅) ∪ handled s).

(** ** The start-up as a whole *)

Section start.
Context (a : answers).

Definition signals_set (s : os) : os := sigaction a SIGINT (sigaction a SIGTERM s).

Lemma signals_set_spec s : os_wf s ->
  os_wf (signals_set s) /\ fds (signals_set s) = fds s /\ files (signals_set s) = files s /\
  next_file (signals_set s) = next_file s /\ cwd (signals_set s) = cwd s /\ handled (signals_set s) = handled_after a s.
Proof.
  intros Hwf. destruct (sigaction_spec a SIGTERM s Hwf) as (H1 & Hf & Hl & Hn & Hc & Hh).
  destruct (sigaction_spec a SIGINT _ H1) as (H2 & Hf2 & Hl2 & Hn2 & Hc2 & Hh2). unfold signals_set.
  split; [done|]. do 4 (split; [congruence|]). by rewrite Hh2, Hh.
Qed.

(** The loop and listen(), with a socket to listen on. *)
Lemma start_socket s b : os_wf s -> gai_ret a = 0 -> listen_ok a = true ->
  (forall skt s', bind_addresses a (first_address a) 0 (gai_list a) None (signals_set s) = (skt, s') ->
     os_wf s' -> extends (signals_set s) s' -> exists fd, skt = Some fd /\ own (signals_set s) s' fd b) ->
  exists fd r s', os_wf s' /\ extends (signals_set s) s' /\ file_of s' fd = Some (Socket r b true) /\
    size (fds s') = (size (fds s) + sockets_made a (first_address a) 0 (gai_list a))%nat /\
    forall argv, main_startup a argv s =
      if daemon_wanted argv then
        match fork_pid a with
        | None => Ok [(Returned (-1), s')]
        | Some _ => Ok [(Exited 0, s'); (start_timer a fd, daemonize a s')]
        end
      else Ok [(start_timer a fd, s')].
Proof.
  intros Hwf Hg Hl Hown. destruct (signals_set_spec s Hwf) as (Hwf1 & Hf1 & _).
  pose proof (bind_addresses_spec a (first_address a) (signals_set s) (gai_list a) 0 None (signals_set s) Hwf1 (reflexivity _)) as Hp.
  unfold main_startup. fold (signals_set s) (first_address a). rewrite Hg. cbn [Z.eqb negb].
  destruct (bind_addresses a (first_address a) 0 (gai_list a) None (signals_set s)) as [skt s2].
  destruct Hp as (Hwf2 & He2 & Hsz & _). destruct (Hown skt s2 eq_refl Hwf2 He2) as (fd & -> & Ho).
  pose proof (listen_own a (signals_set s) s2 fd b Hwf2 He2 Ho) as Hli. destruct (listen a fd s2) as [ret s3].
  destruct Hli as (Hwf3 & He3 & Hf3 & -> & Hx). rewrite Hl in *. destruct (Hx eq_refl) as [r Hr].
  exists fd, r, s3. do 3 (split; [done|]). split; [by rewrite Hf3, Hsz, Hf1|]. done.
Qed.
End start.

(** The answers of one start-up for [main_start]: socket() and bind() for
    each address. *)
Fixpoint attempts (a : answers) (first : address) (n : nat) (l : list address) (s : os) : list (Z * Z) :=
  match l with
  | [] => []
  | _ :: rest =>
      let '(fd, s1) := socket a n s in
      (fd, bind_ret a n first) ::
      attempts a first (S n) rest (if fd =? -1 then s1 else (bind_socket a n fd first (setsockopt a n fd s1)).2)
  end.

(** What one process sees of its start-up: [fork_ret] is what fork() returns to it. *)
Definition seen_by (a : answers) (argv : list (list char)) (s : os) (fork_ret : Z) : startup :=
  let s1 := signals_set a s in
  Startup (gai_ret a) (attempts a (first_address a) 0 (gai_list a) s1)
    (match bind_addresses a (first_address a) 0 (gai_list a) None s1 with
     | (Some fd, s2) => (listen a fd s2).1
     | (None, _) => 0
     end)
    (daemon_wanted argv) fork_ret (tm_create_ret a) (tm_settime_ret a).

Lemma attempts_loop a first l : forall n skt s,
  bind_loop (attempts a first n l s) skt = (bind_addresses a first n l skt s).1.
Proof.
  induction l as [|x l IH]; intros n skt s; [done|]. cbn [attempts bind_addresses].
  destruct (socket a n s) as [fd s1]. cbn [bind_loop]. destruct (fd =? -1); [apply IH|].
  unfold bind_socket. destruct (Z.eqb_spec (bind_ret a n first) 0) as [Hb|Hb]; [done|].
  cbn -[bind_addresses attempts Z.eqb]. rewrite (proj2 (Z.eqb_neq _ _) Hb). cbn [negb]. apply IH.
Qed.

(** A kernel whose answers are all good, with three addresses, where bind()
    fails in the first round. *)
Definition fine_answers : answers :=
  Answers (fun _ => 0) 0 [10; 20; 30] (fun _ => true) (fun _ => 0) (fun n _ => if (n =? 0)%nat then -1 else 0) true (Some 77) true true true
    (fun _ => true) 0 0.

(** A shell's child: three descriptors of the terminal. *)
Definition shell_child : os := Os {[ 0 := 0%nat; 1 := 0%nat; 2 := 0%nat ]} {[ 0%nat := OtherFile 0 ]} 1 ∅ (lit "/root") false.

Lemma shell_child_wf : os_wf shell_child.
Proof.
  split.
  - intros fd f Hf. assert (Hr : 0 <= fd /\ f = O).
    { cbn in Hf. repeat (apply lookup_insert_Some in Hf as [[<- <-]|[_ Hf]]; [by split|]). by apply lookup_singleton_Some in Hf as [<- <-]. }
    destruct Hr as [? ->]. split; [done|]. by eexists.
  - intros f [x Hx]. cbn in Hx. apply lookup_singleton_Some in Hx as [<- _]. cbn. lia.
Qed.

(** ** Theorems *)

(** C11: when the addresses are found, one of the sockets is bound, listen()
    succeeds and, for "-d", so does fork(), then exactly one process serves,
    the child of fork() if there is one: its socket is bound to the first
    address and listens, the signals that could be handled are, and the
    daemon is in / and in a session of its own.  Every descriptor that was
    open before still refers to the same open file, standard input and
    output of the daemon among them, and the sockets of the rounds that
    failed stay open too. *)
Theorem start_serves a argv s : os_wf s -> gai_ret a = 0 -> some_bound a (first_address a) 0 (gai_list a) = true ->
  listen_ok a = true -> (daemon_wanted argv = true -> is_Some (fork_pid a)) ->
  exists fd r parent s1 s',
    main_startup a argv s = Ok (parent ++ [(Serving fd None, s')]) /\
    parent = (if daemon_wanted argv then [(Exited 0, s1)] else []) /\
    file_of s' fd = Some (Socket r (Some (first_address a)) true) /\
    handled s' = handled_after a s /\
    (if daemon_wanted argv then
       cwd s' = (if chdir_ok a then lit "/" else cwd s1) /\ session_leader s' = setsid_ok a || session_leader s1
     else s' = s1) /\
    (forall d x, file_of s d = Some x -> file_of s' d = Some x) /\
    size (fds s1) = (size (fds s) + sockets_made a (first_address a) 0 (gai_list a))%nat.
Proof.
  intros Hwf Hg Hb Hl Hfork. destruct (signals_set_spec a s Hwf) as (Hwf1 & Hf1 & Hfl1 & Hn1 & _ & Hh1).
  destruct (start_socket a s (Some (first_address a)) Hwf Hg Hl) as (fd & r & s1 & Hwf' & He & Hx & Hsz & Hrun).
  { intros skt s2 E _ _.
    pose proof (bind_addresses_spec a (first_address a) (signals_set a s) (gai_list a) 0 None _ Hwf1 (reflexivity _)) as Hp.
    rewrite E in Hp. destruct Hp as (_ & _ & _ & Hp). rewrite Hb in Hp. destruct Hp as (fd & -> & _ & Ho). by exists fd. }
  assert (Hkeep : forall d x, file_of s d = Some x -> file_of s1 d = Some x).
  { intros d x Hd. apply (extends_file (signals_set a s)); [done..|]. unfold file_of in *. by rewrite Hf1, Hfl1. }
  assert (Hh : handled s1 = handled_after a s) by (by rewrite (ext_handled _ _ He)).
  specialize (Hrun argv). destruct (daemon_wanted argv).
  - destruct (Hfork eq_refl) as [pid Hpid]. rewrite Hpid in Hrun. destruct (daemonize_spec a s1 Hwf') as (_ & He' & Hc & Hs).
    exists fd, r, [(Exited 0, s1)], s1, (daemonize a s1). split; [done|]. split; [done|].
    split; [by apply (extends_file s1)|]. split; [by rewrite (ext_handled _ _ He')|]. split; [done|]. split; [|done].
    intros d x Hd. apply (extends_file s1); [done..|]. by apply Hkeep.
  - by exists fd, r, [], s1, s1.
Qed.

Lemma start_serves_witness : exists fd r s1 s',
  main_startup fine_answers [lit "aesdsocket"; lit "-d"] shell_child = Ok [(Exited 0, s1); (Serving fd None, s')] /\
  file_of s' fd = Some (Socket r (Some 10) true) /\ file_of s' 0 = Some (OtherFile 0) /\ size (fds s1) = 5%nat.
Proof.
  destruct (start_serves fine_answers [lit "aesdsocket"; lit "-d"] shell_child) as (fd & r & parent & s1 & s' & E & Ep & Hx & _ & _ & Hk & Hsz).
  - exact shell_child_wf.
  - reflexivity.
  - vm_compute. reflexivity.
  - reflexivity.
  - intros _. by exists 77.
  - exists fd, r, s1, s'. rewrite Ep in E. split; [exact E|]. split; [exact Hx|]. split; [apply Hk; vm_compute; reflexivity|].
    rewrite Hsz. vm_compute. reflexivity.
Defined.

(** The decisions of the start-up are those of [main_start] for what each
    process sees: fork() returns the number of the child to one process and 0
    to the other, or -1 when there is no child. *)
Theorem start_decisions a argv s : (forall pid, fork_pid a = Some pid -> 0 < pid) ->
  match main_startup a argv s with
  | Fault e => forall ret, main_start (seen_by a argv s ret) = Fault e
  | Ok [(r, _)] => main_start (seen_by a argv s (-1)) = Ok r
  | Ok [(r1, _); (r2, _)] => exists pid, fork_pid a = Some pid /\
      main_start (seen_by a argv s pid) = Ok r1 /\ main_start (seen_by a argv s 0) = Ok r2
  | Ok _ => False
  end.
Proof.
  intros Hpid. unfold main_startup. fold (signals_set a s) (first_address a). unfold main_start, seen_by.
  cbn [getaddrinfo_ret addresses listen_ret daemon_flag fork_ret timer_create_ret timer_settime_ret].
  destruct (negb (gai_ret a =? 0)); [done|]. rewrite attempts_loop.
  destruct (bind_addresses a (first_address a) 0 (gai_list a) None (signals_set a s)) as [[fd|] s2]; [|done]. cbn [fst].
  destruct (listen a fd s2) as [ret s3]. cbn [fst]. destruct (negb (ret =? 0)); [done|].
  destruct (daemon_wanted argv); [|done]. cbn [andb].
  destruct (fork_pid a) as [pid|]; [|done]. specialize (Hpid pid eq_refl). exists pid. split; [done|].
  rewrite (proj2 (Z.eqb_neq _ _)), (proj2 (Z.eqb_neq pid 0)) by lia. done.
Qed.

Lemma start_decisions_witness : exists pid, fork_pid fine_answers = Some pid /\
  main_start (seen_by fine_answers [lit "aesdsocket"; lit "-d"] shell_child pid) = Ok (Exited 0) /\
  main_start (seen_by fine_answers [lit "aesdsocket"; lit "-d"] shell_child 0) = Ok (Serving 4 None).
Proof.
  pose proof (start_decisions fine_answers [lit "aesdsocket"; lit "-d"] shell_child) as H. vm_compute in H |- *.
  apply H. intros pid E. injection E as <-. reflexivity.
Defined.

(** A bind() that fails for the first address fails in every round, whatever
    the other addresses are: the loop binds the first one each time.  The
    last socket is then listened on without an address, and the server
    serves at a port that the kernel chooses. *)
Theorem start_unbound a argv s fail : os_wf s -> gai_ret a = 0 -> gai_list a <> [] -> fail <> 0 ->
  (forall n, bind_ret a n (first_address a) = fail) -> (forall n, socket_ok a n = true) -> listen_ok a = true ->
  (daemon_wanted argv = true -> is_Some (fork_pid a)) ->
  exists l fd r s', main_startup a argv s = Ok l /\ (Serving fd None, s') ∈ l /\ file_of s' fd = Some (Socket r None true).
Proof.
  intros Hwf Hg Hne Hfail Hb Hs Hl Hfork. destruct (signals_set_spec a s Hwf) as (Hwf1 & _).
  assert (Hno : forall l n, some_bound a (first_address a) n l = false).
  { induction l as [|x l IH]; intros n; [done|]. cbn. rewrite Hb, IH, (proj2 (Z.eqb_neq _ _) Hfail). by rewrite andb_false_r. }
  assert (Hlast : forall l n skt t, l <> [] \/ (exists z, skt = Some z /\ z <> -1) -> os_wf t ->
    exists z, (bind_addresses a (first_address a) n l skt t).1 = Some z /\ z <> -1).
  { induction l as [|x l IH]; intros n skt t [?|Hskt] Hwt; try done; cbn [bind_addresses]; unfold socket; rewrite Hs;
      pose proof (install_file_spec t (Socket false None false) Hwt) as Hi; destruct (install_file t _) as [z t1];
      destruct Hi as (Hw1 & He1 & H0 & Hz & Hx & _); rewrite (proj2 (Z.eqb_neq z (-1))) by lia;
      unfold bind_socket; rewrite Hb, (proj2 (Z.eqb_neq _ _) Hfail); cbn [negb]; rewrite (proj2 (Z.eqb_neq _ _) Hfail);
      (apply IH; [right; exists z; split; [done|lia]|]);
      (eapply (setsockopt_own a n t t1 z None); [done|done|]; by exists (next_file t), false). }
  destruct (start_socket a s None Hwf Hg Hl) as (fd & r & s1 & Hwf' & He & Hx & _ & Hrun).
  { intros skt s2 E _ _.
    pose proof (bind_addresses_spec a (first_address a) (signals_set a s) (gai_list a) 0 None _ Hwf1 (reflexivity _)) as Hp.
    destruct (Hlast (gai_list a) 0%nat None (signals_set a s) (or_introl Hne) Hwf1) as (z & Hz & Hz1).
    rewrite E in Hp, Hz. cbn in Hz. subst skt. destruct Hp as (_ & _ & _ & Hp). rewrite Hno in Hp.
    destruct Hp as [[? _]|[Hm|(fd & [= ->] & _ & Ho)]]; [done | by injection Hm | by exists fd]. }
  specialize (Hrun argv). destruct (daemon_wanted argv).
  - destruct (Hfork eq_refl) as [pid Hpid]. rewrite Hpid in Hrun. destruct (daemonize_spec a s1 Hwf') as (_ & He' & _).
    eexists _, fd, r, (daemonize a s1). split; [exact Hrun|]. split; [by right; left|]. by apply (extends_file s1).
  - eexists _, fd, r, s1. split; [exact Hrun|]. split; [by left|done].
Qed.
