(* ===== verification/ServerThreads.v ===== *)
(** * Connections side by side

    The server runs data_processor in a thread per connection; the threads
    share the device and write_lock.  A thread is cut into steps with one
    call on the device each: opening the file, a round of the receive loop
    (recv(), then the write to the device under the lock), the reopening, a
    round of the loop that sends the contents back (the last one with the
    store to thread_complete), the last close() and the return.  Between
    two steps another thread may run.  A request for a seek, with the answer
    to it, is one step.  [sequential_steps]: the steps of one thread alone
    are what data_processor does.

    The arrays of a thread are on its own stack, so each thread keeps its
    own memory; the device and the lock are taken from the system before a
    step and put back after it.  A lock that is held when a step begins was
    left behind by a step that is over: no step releases it. *)

From stdpp Require Import base numbers strings gmap list.
From S2P Require Import Prelude CMem CString CText RingSpec DriverSpec.
From S2P Require Import Ioctl Slist Server ServerSpec ServerConn.

#[local] Open Scope Z_scope.

(** Where a thread is. *)
Inductive stage : Set :=
| Opening
| Receiving (read_buffer : nat) (end_of_packet : bool)
| Sending (write_buffer : nat)
| Closing
| Finished.

Section Steps.
Context {S : Type} `{CharDev S} `{Peer} `{AllocOracle}.

(** What follows when receive_and_write_to_file returns [r]. *)
Definition after_receive (read_buffer : nat) (r : Z) : M S stage :=
  _ ← update_heap (fun h => Ok (delete read_buffer h));
  if r =? 0 then
    _ ← file_close;
    _ ← file_open;
    write_buffer ← on_heap (fun h => Ok (stack_array_zero h (Z.to_nat READ_WRITE_SIZE)));
    mret (Sending write_buffer)
  else mret Closing.

Definition thread_step (fuel : nat) (p : stage) : M S stage :=
  match p with
  | Opening =>
      _ ← file_open;
      read_buffer ← on_heap (fun h => Ok (stack_array_zero h (Z.to_nat READ_WRITE_SIZE)));
      mret (Receiving read_buffer false)
  | Receiving read_buffer true => after_receive read_buffer 0
  | Receiving read_buffer false =>
      r ← receive_step fuel read_buffer;
      match r with
      | inl v => after_receive read_buffer v
      | inr end_of_packet => mret (Receiving read_buffer end_of_packet)
      end
  | Sending write_buffer =>
      stop ← send_step fuel (PAddr write_buffer 0);
      if (stop : bool) then
        _ ← update_heap (fun h => Ok (delete write_buffer h));
        _ ← set_complete 1;
        mret Closing
      else mret (Sending write_buffer)
  | Closing => _ ← file_close; mret Finished
  | Finished => mret Finished
  end.

(** The steps of one thread, one after the other. *)
Inductive steps_alone : stage * tstate S -> stage * tstate S -> Prop :=
| alone_refl x : steps_alone x x
| alone_step fuel p st p1 st1 x :
    thread_step fuel p st = Ok (p1, st1) -> steps_alone (p1, st1) x -> steps_alone (p, st) x.

(** ** The steps are the code *)

Lemma read_loop_step fuel buf st : read_loop (Datatypes.S fuel) buf st =
  (stop ← send_step (Datatypes.S fuel) buf; if (stop : bool) then mret tt else read_loop fuel buf) st.
Proof.
  unfold send_step. rewrite bind_assoc. cbn [read_loop]. apply bind_cong. intros [n e] s.
  destruct (n =? 0); [done|]. destruct (n =? -1); [by destruct (e =? EINTR)|]. done.
Qed.

Lemma receive_steps fuel : forall rb e st v st1 p2 st2 x, receive_loop fuel rb e st = Ok (v, st1) ->
  after_receive rb v st1 = Ok (p2, st2) -> steps_alone (p2, st2) x -> steps_alone (Receiving rb e, st) x.
Proof.
  induction fuel as [|fuel IH]; intros rb e st v st1 p2 st2 x Hl Ha Hx; [done|].
  destruct e.
  { cbn [receive_loop] in Hl. injection Hl as <- <-. by eapply (alone_step 0). }
  rewrite receive_loop_step in Hl. apply bind_inv in Hl as (r & s & Hr & Hl).
  destruct r as [v'|e]; eapply (alone_step (Datatypes.S fuel)).
  - cbn [thread_step]. injection Hl as -> ->. by rewrite (run_bind _ _ _ _ _ Hr).
  - done.
  - cbn [thread_step]. by rewrite (run_bind _ _ _ _ _ Hr).
  - by eapply IH.
Qed.

(** The end of read_file_and_send, with the store behind it. *)
Definition after_send (wb : nat) : M S stage :=
  _ ← update_heap (fun h => Ok (delete wb h)); _ ← set_complete 1; mret Closing.

Lemma send_steps fuel : forall wb st st1 p2 st2 x, read_loop fuel (PAddr wb 0) st = Ok (tt, st1) ->
  after_send wb st1 = Ok (p2, st2) -> steps_alone (p2, st2) x -> steps_alone (Sending wb, st) x.
Proof.
  induction fuel as [|fuel IH]; intros wb st st1 p2 st2 x Hl Ha Hx; [done|].
  rewrite read_loop_step in Hl. apply bind_inv in Hl as (stop & s & Hr & Hl).
  destruct stop; (eapply (alone_step (Datatypes.S fuel)); [cbn [thread_step]; rewrite (run_bind _ _ _ _ _ Hr)|]).
  - injection Hl as ->. exact Ha.
  - exact Hx.
  - reflexivity.
  - by eapply IH.
Qed.

Lemma closing_steps st st' : file_close st = Ok (tt, st') -> steps_alone (Closing, st) (Finished, st').
Proof.
  intros Hc. eapply (alone_step 0); [cbn [thread_step]; by rewrite (run_bind _ _ _ _ _ Hc) | constructor].
Qed.

Lemma sequential_steps fuel st st' : data_processor fuel st = Ok (tt, st') ->
  steps_alone (Opening, st) (Finished, st').
Proof.
  unfold data_processor, receive_and_write_to_file. intros Hd.
  apply bind_inv in Hd as ([] & s1 & Hopen & Hd). apply bind_inv in Hd as (r & s2 & Hrec & Hd).
  apply bind_inv in Hrec as (rb & s3 & Halloc & Hrec). apply bind_inv in Hrec as (v & s4 & Hloop & Hrec).
  apply bind_inv in Hrec as ([] & s5 & Hdel & Hrec). injection Hrec as <- <-.
  eapply (alone_step 0).
  { cbn [thread_step]. rewrite (run_bind _ _ _ _ _ Hopen), (run_bind _ _ _ _ _ Halloc). reflexivity. }
  destruct (v =? 0) eqn:Hv.
  - apply Z.eqb_eq in Hv as ->. apply bind_inv in Hd as ([] & s6 & Hd & Hend).
    apply bind_inv in Hd as ([] & s7 & Hclose & Hd). apply bind_inv in Hd as ([] & s8 & Hopen2 & Hd).
    unfold read_file_and_send in Hd. apply bind_inv in Hd as ([] & s9 & Hsend & Hcomplete).
    apply bind_inv in Hsend as (wb & s10 & Halloc2 & Hsend).
    apply bind_inv in Hsend as ([] & s11 & Hread & Hdel2).
    eapply receive_steps; [exact Hloop | |].
    + unfold after_receive. rewrite (run_bind _ _ _ _ _ Hdel). change (0 =? 0) with true. cbv iota.
      rewrite (run_bind _ _ _ _ _ Hclose), (run_bind _ _ _ _ _ Hopen2), (run_bind _ _ _ _ _ Halloc2). reflexivity.
    + eapply send_steps; [exact Hread | | apply closing_steps; exact Hend]. unfold after_send.
      by rewrite (run_bind _ _ _ _ _ Hdel2), (run_bind _ _ _ _ _ Hcomplete).
  - apply bind_inv in Hd as ([] & s6 & Hd & Hend). injection Hd as <-.
    eapply receive_steps; [exact Hloop | | apply closing_steps; exact Hend].
    unfold after_receive. by rewrite (run_bind _ _ _ _ _ Hdel), Hv.
Qed.
End Steps.

(** ** The system *)

Record system (S : Type) : Type := System {
  sys_dev : S;
  sys_lock : bool;
  sys_threads : gmap nat (stage * tstate S)
}.
Arguments System {S}. Arguments sys_dev {S}. Arguments sys_lock {S}. Arguments sys_threads {S}.

Section System.
Context {S : Type} `{CharDev S} `{AllocOracle} (peers : nat -> Peer).

(** The thread with the device and the lock as they are now. *)
Definition resume (sg : system S) (st : tstate S) : tstate S :=
  TState (t_mem st) (sys_dev sg) (t_fd st) (t_recv st) (t_send st) (t_sent st) (sys_lock sg)
    (t_save st) (thread_complete st).

(** What a step hands to the device: the bytes that recv() yields, with the
    number of the thread. *)
Definition stores (i : nat) (p : stage) (st : tstate S) : list (nat * list char) :=
  match p, @recv_at (peers i) (t_recv st) with
  | Receiving _ false, RecvData (c :: data) => [(i, c :: data)]
  | _, _ => []
  end.

(** Thread [i] takes a step. *)
Definition system_step (fuel i : nat) (sg : system S) : option (res (list (nat * list char) * system S)) :=
  '(p, st) ← sys_threads sg !! i;
  Some ('(p', st') ← @thread_step S _ (peers i) _ (Datatypes.S fuel) p (resume sg st);
        Ok (stores i p st, System (t_dev st') (t_lock st') (<[i := (p', st')]> (sys_threads sg)))).

(** Any interleaving of steps, with what was handed to the device. *)
Inductive interleaving : system S -> list (nat * list char) -> system S -> Prop :=
| inter_refl sg : interleaving sg [] sg
| inter_step sg log sg1 fuel i ev sg2 :
    interleaving sg log sg1 -> system_step fuel i sg1 = Some (Ok (ev, sg2)) ->
    interleaving sg (log ++ ev) sg2.

Lemma interleaving_app sg l1 sg1 l2 sg2 : interleaving sg l1 sg1 -> interleaving sg1 l2 sg2 ->
  interleaving sg (l1 ++ l2) sg2.
Proof.
  intros H1. induction 1 as [|sg1 log sg2 fuel i ev sg3 _ IH Hs]; [by rewrite app_nil_r|].
  rewrite app_assoc. econstructor; [by apply IH | exact Hs].
Qed.

(** The threads of a list of numbers take a step each, in this order. *)
Fixpoint schedule (fuel : nat) (order : list nat) (sg : system S) : option (list (nat * list char) * system S) :=
  match order with
  | [] => Some ([], sg)
  | i :: order =>
      match system_step fuel i sg with
      | Some (Ok (ev, sg1)) => '(log, sg2) ← schedule fuel order sg1; Some (ev ++ log, sg2)
      | _ => None
      end
  end.

Lemma schedule_interleaving fuel order : forall sg0 log0 sg log sg', interleaving sg0 log0 sg ->
  schedule fuel order sg = Some (log, sg') -> interleaving sg0 (log0 ++ log) sg'.
Proof.
  induction order as [|i order IH]; intros sg0 log0 sg log sg' Hr Hs; cbn in Hs.
  - injection Hs as <- <-. by rewrite app_nil_r.
  - destruct (system_step fuel i sg) as [[[ev sg1]|]|] eqn:He; [|done..].
    destruct (schedule fuel order sg1) as [[l sg2]|] eqn:Hl; [|done]. cbn in Hs. injection Hs as <- <-.
    rewrite app_assoc. eapply IH; [|exact Hl]. by eapply inter_step.
Qed.
End System.
