(* ===== verification/ThreadFacts.v ===== *)
(** * Connections side by side: the invariant

    Whatever the order of the steps, the device is what the chunks make of it
    in the order in which they were written, and each thread has written the
    first part of its packet. *)

From stdpp Require Import base numbers strings gmap list.
From S2P Require Import Prelude CMem CString CText RingSpec DriverSpec DriverWrite.
From S2P Require Import Ioctl Slist Server ServerSpec ServerConn ServerThreads.

#[local] Open Scope Z_scope.

Section Frames.
Context {S : Type} `{Hspec : CharDevSpec S} `{Peer} `{AllocOracle}.

(** Sending changes nothing but what was sent. *)
Lemma send_loop_frame fuel : forall buf n (st : tstate S) b st', send_loop fuel buf n st = Ok (b, st') ->
  t_dev st' = t_dev st /\ t_fd st' = t_fd st /\ t_mem st' = t_mem st /\ t_recv st' = t_recv st /\
  t_lock st' = t_lock st.
Proof.
  induction fuel as [|fuel IH]; intros buf n st b st' Hs; [done|]. cbn [send_loop] in Hs.
  apply bind_inv in Hs as ([w e] & s & Hsend & Hs).
  assert (Hs' : t_dev s = t_dev st /\ t_fd s = t_fd st /\ t_mem s = t_mem st /\ t_recv s = t_recv st /\
    t_lock s = t_lock st).
  { unfold send in Hsend. destruct (load_bytes _ _ _); [|done]. destruct (send_at _); by simplify_eq. }
  destruct (w =? -1); [destruct (e =? EINTR)|]; [apply IH in Hs; intuition congruence | by injection Hs as <- <- ..].
Qed.

(** A command that does not fit into the buffer is stored past its end. *)
Lemma file_read_long st n d pos wb blk : dev_rep n (t_dev st) d -> t_fd st = Some pos ->
  zlen (contents (commands d)) < 2 ^ 60 -> 0 <= pos < 2 ^ 62 ->
  heap_of st !! wb = Some blk -> length blk = 1024%nat -> (1024 <= length (model_read (commands d) pos))%nat ->
  file_read (PAddr wb 0) READ_WRITE_SIZE st = Fault OutOfBounds.
Proof.
  intros Hrep Hfd Hc Hp Hwb Hlb Hlt.
  destruct (dev_read_ok n (t_dev st) d pos READ_WRITE_SIZE Hrep Hc Hp) as (s' & Hr & _).
  set (t := model_read (commands d) pos) in *. rewrite decide_False in Hr by (intros Ht; rewrite Ht in Hlt; cbn in Hlt; lia).
  unfold file_read. erewrite run_bind; [|unfold on_dev; rewrite Hfd, Hr; reflexivity].
  cbv beta iota. apply run_bind_fault. unfold update_heap, on_heap, heap_of in *. cbn [t_mem].
  enough (store_bytes (m_heap (t_mem st)) (PAddr wb 0) (t ++ [NUL]) = Fault OutOfBounds) as -> by done.
  unfold store_bytes. destruct (t ++ [NUL]) eqn:Hsn; [by destruct t|].
  rewrite <- Hsn, Hwb. cbn [lift_opt]. rewrite bind_ok, decide_False; [done|].
  rewrite length_app. simpl. lia.
Qed.
End Frames.

(** ** The invariant of a thread *)

Section Thread.
Context {S : Type} `{Hspec : CharDevSpec S} `{Peer} `{AllocOracle}.

(** [thread_ok chunks p st rest]: a thread whose packet is [chunks] is at
    [p] and has the chunks [rest] still to write. *)
Definition thread_ok (chunks : list (list char)) (p : stage) (st : tstate S) (rest : list (list char)) : Prop :=
  match p with
  | Opening =>
      rest = chunks /\ packet chunks /\ arrives (t_recv st) chunks /\ no_seek empty_buffer chunks
  | Receiving rb false =>
      packet rest /\ arrives (t_recv st) rest /\
      exists B pos, heap_of st !! rb = Some (buffer_blk B) /\ length B = 1023%nat /\ newline ∉ B /\
        no_seek B rest /\ t_fd st = Some pos
  | Sending wb =>
      rest = [] /\ exists blk pos, heap_of st !! wb = Some blk /\ length blk = 1024%nat /\
        t_fd st = Some pos /\ 0 <= pos < 2 ^ 61
  | Receiving _ true | Closing | Finished => rest = []
  end.

(** What the next step hands to the device. *)
Definition next_chunks (p : stage) (rest : list (list char)) : list (list char) :=
  match p with Receiving _ false => take 1 rest | _ => [] end.

(** A step keeps the invariant, and does to the device what the chunk does. *)
Definition step_ok (chunks : list (list char)) n d (p : stage) rest (p' : stage) (st' : tstate S) : Prop :=
  thread_ok chunks p' st' (drop (length (next_chunks p rest)) rest) /\
  dev_rep (n + chunks_size (next_chunks p rest)) (t_dev st') (fold_left model_write (next_chunks p rest) d) /\
  t_lock st' = false.

Lemma size_nil n : n + chunks_size [] = n.
Proof. unfold chunks_size. cbn. lia. Qed.

Lemma size_one c : chunks_size [c] = zlen c + 1.
Proof. unfold chunks_size. cbn [fmap list_fmap zsum foldr]. lia. Qed.

Lemma file_open_ok n d (st : tstate S) : dev_rep n (t_dev st) d ->
  file_open st = Ok (tt, TState (t_mem st) (t_dev st) (Some 0) (t_recv st) (t_send st) (t_sent st)
    (t_lock st) (t_save st) (thread_complete st)).
Proof. intros Hr. unfold file_open, mbind, M_bind, gets. by rewrite (dev_open_ok _ _ _ Hr). Qed.

Lemma opening_ok fuel chunks n d (st : tstate S) rest : dev_rep n (t_dev st) d -> t_lock st = false ->
  thread_ok chunks Opening st rest ->
  exists rb st', thread_step fuel Opening st = Ok (Receiving rb false, st') /\
    step_ok chunks n d Opening rest (Receiving rb false) st'.
Proof.
  intros Hrep Hl (-> & Hp & Ha & Hns). cbn [thread_step].
  rewrite (run_bind _ _ _ _ _ (file_open_ok _ _ _ Hrep)). unfold stack_array_zero, on_heap.
  eexists _, _. split; [erewrite run_bind; reflexivity|]. unfold step_ok. cbn [next_chunks length fold_left].
  rewrite drop_0, size_nil. split; [|done]. split; [done|]. split; [done|].
  eexists empty_buffer, 0. split; [apply lookup_insert_eq|]. split; [done|]. split; [by_decide | done].
Qed.

Lemma reopening_ok chunks n d (st : tstate S) rb : dev_rep n (t_dev st) d -> t_lock st = false ->
  exists wb st', after_receive rb 0 st = Ok (Sending wb, st') /\
    thread_ok chunks (Sending wb) st' [] /\ dev_rep n (t_dev st') d /\ t_lock st' = false.
Proof.
  intros Hrep Hl. unfold after_receive. erewrite run_bind; [|reflexivity]. change (0 =? 0) with true. cbv iota.
  erewrite run_bind; [|reflexivity]. erewrite run_bind; [|by eapply file_open_ok].
  unfold stack_array_zero, on_heap. eexists _, _. split; [erewrite run_bind; reflexivity|].
  split; [|done]. split; [done|]. eexists _, 0. split; [apply lookup_insert_eq|]. split; [done|]. split; [done|lia].
Qed.

Lemma receiving_ok fuel chunks n d (st : tstate S) rb e rest : (0 < fuel)%nat ->
  dev_rep n (t_dev st) d -> t_lock st = false ->
  n + chunks_size (next_chunks (Receiving rb e) rest) < 2 ^ 62 ->
  thread_ok chunks (Receiving rb e) st rest ->
  exists p' st', thread_step fuel (Receiving rb e) st = Ok (p', st') /\
    step_ok chunks n d (Receiving rb e) rest p' st'.
Proof.
  intros Hf Hrep Hl Hn Hok. destruct e.
  { cbn in Hok. subst rest. destruct (reopening_ok chunks n d st rb Hrep Hl) as (wb & st' & Hr & Ht & Hd & Hl').
    exists (Sending wb), st'. split; [exact Hr|]. unfold step_ok. cbn [next_chunks length fold_left].
    by rewrite drop_0, size_nil. }
  destruct Hok as (Hp & Ha & B & pos & Hrb & HB & HnB & Hns & Hfd).
  assert (exists c more, rest = c :: more /\ chunk_ok c /\ (newline ∈ c -> more = []) /\ (newline ∉ c -> packet more))
    as (c & more & -> & Hc & Hlast & Hmore) by (destruct Hp; naive_solver).
  destruct Hns as [Hns Hns']. cbn [next_chunks take] in Hn. rewrite size_one in Hn.
  destruct (receive_step_ok fuel st n d pos rb B c) as (st' & pos' & Hr & Hrep' & Hfd' & Hh' & Ht' & _ & Hsame);
    try done; [lia | specialize (Ha 0%nat c eq_refl); by rewrite Nat.add_0_r in Ha |].
  exists (Receiving rb (bool_decide (newline ∈ c))), st'.
  split; [cbn [thread_step]; by rewrite (run_bind _ _ _ _ _ Hr)|].
  unfold step_ok. cbn [next_chunks take length fold_left drop]. split; [|split].
  - case_bool_decide as Hnl; cbn [thread_ok]; [by apply Hlast|]. split; [by apply Hmore|]. split.
    + intros i x Hx. rewrite Ht'. specialize (Ha (Datatypes.S i) x Hx). by rewrite Nat.add_succ_r in Ha.
    + exists (overlay B c), pos'. rewrite Hh'. split; [apply lookup_insert_eq|].
      split; [rewrite length_overlay; [done | destruct Hc; lia]|]. split; [|done].
      unfold overlay. intros Hin. apply elem_of_app in Hin as [?|Hin]; [done|]. apply HnB.
      rewrite <- (take_drop (length c) B). set_solver.
  - by rewrite size_one, Z.add_assoc.
  - by rewrite (proj1 Hsame).
Qed.

(** A step of the loop that sends: it cannot fail on the device, and it keeps
    the invariant however the peer behaves. *)
Lemma sending_keeps fuel chunks n d (st : tstate S) wb rest p' st' :
  dev_rep n (t_dev st) d -> t_lock st = false -> zlen (contents (commands d)) < 2 ^ 60 ->
  thread_ok chunks (Sending wb) st rest -> thread_step fuel (Sending wb) st = Ok (p', st') ->
  step_ok chunks n d (Sending wb) rest p' st'.
Proof.
  intros Hrep Hl Hc (-> & blk & pos & Hwb & Hlb & Hfd & Hp) Hstep. cbn [thread_step] in Hstep.
  unfold step_ok. cbn [next_chunks length fold_left]. rewrite drop_0, size_nil.
  apply bind_inv in Hstep as (stop & s & Hs & Hstep). unfold send_step in Hs.
  set (t := model_read (commands d) pos).
  destruct (Nat.lt_ge_cases (length t) 1024) as [Hlt|Hge]; cycle 1.
  { rewrite (run_bind_fault _ _ _ _ (file_read_long st n d pos wb blk Hrep Hfd Hc ltac:(lia) Hwb Hlb Hge)) in Hs. done. }
  destruct (file_read_ok st n d pos wb blk Hrep Hfd Hc ltac:(lia) Hwb Hlb Hlt)
    as (s1 & blk1 & Hr & Hrep1 & Hfd1 & Hh1 & Hl1 & _ & (Hlock1 & _) & _). fold t in Hr, Hfd1.
  rewrite (run_bind _ _ _ _ _ Hr) in Hs. cbv beta iota in Hs.
  assert (Hs' : t_dev s = t_dev s1 /\ t_fd s = t_fd s1 /\ t_mem s = t_mem s1 /\ t_lock s = t_lock s1).
  { destruct (zlen t =? 0); [by injection Hs as <- <-|]. destruct (zlen t =? -1); [by injection Hs as <- <-|].
    apply send_loop_frame in Hs. intuition congruence. }
  destruct Hs' as (Hd & Hf & Hm & Hlk). destruct stop.
  - cbn in Hstep. injection Hstep as <- <-. cbn. rewrite Hd, Hlk, Hlock1. done.
  - injection Hstep as <- <-. rewrite Hd, Hlk, Hlock1. split; [|done]. split; [done|].
    exists blk1, (pos + zlen t). unfold heap_of in *. rewrite Hm, Hh1, Hf. split; [apply lookup_insert_eq|].
    split; [done|]. split; [done|]. pose proof (zlen_nonneg t).
    destruct (Z.le_gt_cases (zlen (contents (commands d))) pos) as [Hge|Hlt'].
    + assert (zlen t = 0) by (unfold t; by rewrite model_read_past). lia.
    + pose proof (model_read_bound (commands d) pos ltac:(lia) ltac:(lia)) as Hb. fold t in Hb. lia.
Qed.

Lemma thread_step_keeps fuel chunks n d p (st : tstate S) rest p' st' :
  dev_rep n (t_dev st) d -> t_lock st = false -> n + chunks_size (next_chunks p rest) < 2 ^ 62 ->
  zlen (contents (commands d)) < 2 ^ 60 -> thread_ok chunks p st rest ->
  thread_step (Datatypes.S fuel) p st = Ok (p', st') -> step_ok chunks n d p rest p' st'.
Proof.
  intros Hrep Hl Hn Hc Hok Hstep. destruct p as [|rb e|wb| |].
  - destruct (opening_ok (Datatypes.S fuel) chunks n d st rest Hrep Hl Hok) as (p1 & s1 & Hs & Hk). congruence.
  - destruct (receiving_ok (Datatypes.S fuel) chunks n d st rb e rest ltac:(lia) Hrep Hl Hn Hok)
      as (p1 & s1 & Hs & Hk). congruence.
  - by eapply sending_keeps.
  - cbn in Hstep. injection Hstep as <- <-. unfold step_ok. cbn [next_chunks length fold_left].
    by rewrite drop_0, size_nil.
  - injection Hstep as <- <-. unfold step_ok. cbn [next_chunks length fold_left]. by rewrite drop_0, size_nil.
Qed.

(** The step is possible when the peer takes what is sent and the commands
    fit into the buffer. *)
Lemma sending_goes_on fuel chunks n d (st : tstate S) wb rest : peer_accepts -> short_commands d ->
  dev_rep n (t_dev st) d -> zlen (contents (commands d)) < 2 ^ 60 -> thread_ok chunks (Sending wb) st rest ->
  exists p' st', thread_step (Datatypes.S fuel) (Sending wb) st = Ok (p', st').
Proof.
  intros Hpeer Hshort Hrep Hc (-> & blk & pos & Hwb & Hlb & Hfd & Hp).
  assert (Hlt : (length (model_read (commands d) pos) < 1024)%nat) by (apply model_read_short; [lia|done]).
  destruct (file_read_ok st n d pos wb blk Hrep Hfd Hc ltac:(lia) Hwb Hlb Hlt)
    as (s1 & blk1 & Hr & _ & _ & Hh1 & _ & [r Hblk] & _). cbn [thread_step]. unfold send_step.
  set (t := model_read (commands d) pos) in *. rewrite bind_assoc, (run_bind _ _ _ _ _ Hr). cbv beta iota.
  pose proof (zlen_nonneg t). destruct (zlen t =? 0); [by do 2 eexists|].
  rewrite (proj2 (Z.eqb_neq (zlen t) (-1))) by lia.
  destruct (send_loop_ok (Datatypes.S fuel) s1 wb t r Hpeer) as (s2 & Hs & _);
    [lia | by rewrite Hh1, lookup_insert_eq, Hblk | unfold zlen; lia |].
  rewrite (run_bind _ _ _ _ _ Hs). by do 2 eexists.
Qed.

Lemma next_chunks_split p rest : rest = next_chunks p rest ++ drop (length (next_chunks p rest)) rest.
Proof. destruct p as [|? []| | |]; try done. cbn. by destruct rest. Qed.

(** One chunk fills at most the buffer. *)
Lemma next_chunks_size chunks p (st : tstate S) rest : thread_ok chunks p st rest ->
  chunks_size (next_chunks p rest) <= 1024.
Proof.
  destruct p as [|rb []| | |]; cbn [next_chunks thread_ok]; try (by intros; rewrite <- (Z.add_0_l (chunks_size [])), size_nil).
  intros (Hp & _). destruct Hp as [c [Hc _]|c rest [Hc _]]; cbn [take]; rewrite size_one; unfold zlen; lia.
Qed.
End Thread.

(** ** The invariant of the system *)

Section Invariant.
Context {S : Type} `{Hspec : CharDevSpec S} `{AllocOracle} (peers : nat -> Peer) (packets : nat -> list (list char)).

(** What thread [i] has written. *)
Definition told (i : nat) (log : list (nat * list char)) : list (list char) :=
  (filter (fun e => e.1 = i) log).*2.

Definition thread_inv (i : nat) (x : stage * tstate S) (rest : list (list char)) : Prop :=
  @thread_ok S (peers i) (packets i) x.1 x.2 rest.

Record system_inv (n : Z) (d : device_model) (log : list (nat * list char)) (sg : system S) : Prop := {
  sys_rep : dev_rep (n + chunks_size log.*2) (sys_dev sg) (fold_left model_write log.*2 d);
  sys_free : sys_lock sg = false;
  sys_ids : Forall (fun e => is_Some (sys_threads sg !! e.1)) log;
  sys_each i x : sys_threads sg !! i = Some x ->
    exists rest, told i log ++ rest = packets i /\ thread_inv i x rest
}.

Lemma told_app i l1 l2 : told i (l1 ++ l2) = told i l1 ++ told i l2.
Proof. unfold told. by rewrite filter_app, fmap_app. Qed.

Lemma told_own i (cs : list (list char)) : told i ((fun c => (i, c)) <$> cs) = cs.
Proof.
  induction cs as [|c cs IH]; [done|]. unfold told in *. rewrite fmap_cons, filter_cons_True by done.
  rewrite fmap_cons. by f_equal.
Qed.

Lemma told_other i j (cs : list (list char)) : i <> j -> told j ((fun c => (i, c)) <$> cs) = [].
Proof.
  intros Hij. induction cs as [|c cs IH]; [done|]. unfold told in *. by rewrite fmap_cons, filter_cons_False by done.
Qed.

Lemma tagged_snd (i : nat) (cs : list (list char)) : ((fun c => (i, c)) <$> cs).*2 = cs.
Proof. rewrite <- list_fmap_compose. apply list_fmap_id. Qed.

Lemma size_app l1 l2 : chunks_size (l1 ++ l2) = chunks_size l1 + chunks_size l2.
Proof. unfold chunks_size. by rewrite fmap_app, zsum_app. Qed.

Lemma size_nonneg l : 0 <= chunks_size l.
Proof.
  apply zsum_nonneg. rewrite Forall_fmap. apply Forall_true. intros x. simpl. pose proof (zlen_nonneg x). lia.
Qed.

Lemma thread_ok_resume i (sg : system S) p st rest :
  thread_inv i (p, st) rest <-> thread_inv i (p, resume sg st) rest.
Proof. unfold thread_inv. by destruct p as [|? []| | |]. Qed.

(** What a step stores is the next chunk of the packet. *)
Lemma stores_next i p st rest : thread_inv i (p, st) rest ->
  stores peers i p st = (fun c => (i, c)) <$> next_chunks p rest.
Proof.
  unfold thread_inv. destruct p as [|rb []| | |]; try done. intros (Hp & Ha & _). unfold stores.
  destruct Hp as [c Hc|c rest Hc]; specialize (Ha 0%nat c eq_refl); rewrite Nat.add_0_r in Ha; cbn [fst snd] in Ha;
    rewrite Ha; (destruct c as [|x c]; [|done]); destruct Hc as [Hc _]; cbn in Hc; lia.
Qed.

Lemma step_keeps fuel i n d log (sg : system S) ev sg' :
  system_inv n d log sg -> n + chunks_size (log ++ ev).*2 < 2 ^ 62 ->
  zlen (contents (commands (fold_left model_write log.*2 d))) < 2 ^ 60 ->
  system_step peers fuel i sg = Some (Ok (ev, sg')) -> system_inv n d (log ++ ev) sg'.
Proof.
  intros [Hrep Hl Hids Heach] Hn Hc Hstep. unfold system_step in Hstep.
  destruct (sys_threads sg !! i) as [[p st]|] eqn:Hi; [|done]. cbn in Hstep. injection Hstep as Hstep.
  destruct (thread_step _ _ _) as [[p' st']|] eqn:Ht; [|done]. cbn in Hstep. injection Hstep as <- <-.
  destruct (Heach i (p, st) Hi) as (rest & Hrest & Hinv). rewrite (stores_next i p st rest Hinv) in *.
  rewrite fmap_app, size_app, tagged_snd, Z.add_assoc in Hn.
  apply (proj1 (thread_ok_resume i sg p st rest)) in Hinv.
  assert (Hk : @step_ok S _ _ (peers i) (packets i) (n + chunks_size log.*2) (fold_left model_write log.*2 d)
    p rest p' st').
  { exact (@thread_step_keeps S _ _ (peers i) _ fuel (packets i) _ _ p (resume sg st) rest p' st'
      Hrep Hl Hn Hc Hinv Ht). }
  destruct Hk as (Hk1 & Hk2 & Hk3). split; cbn [sys_dev sys_lock sys_threads].
  - by rewrite fmap_app, tagged_snd, size_app, fold_left_app, Z.add_assoc.
  - done.
  - apply Forall_app. split.
    + eapply Forall_impl; [exact Hids|]. intros e He. apply lookup_insert_is_Some'. by right.
    + apply Forall_fmap, Forall_true. intros c. cbn. rewrite lookup_insert_eq. by eexists.
  - intros j x Hj. rewrite told_app. destruct (decide (j = i)) as [->|Hne].
    + rewrite lookup_insert_eq in Hj. injection Hj as <-.
      eexists. split; [|exact Hk1]. by rewrite told_own, <- app_assoc, <- next_chunks_split.
    + rewrite lookup_insert_ne in Hj by done. rewrite told_other, app_nil_r by done. by apply Heach.
Qed.

Lemma step_possible fuel i n d log (sg : system S) p st rest :
  system_inv n d log sg ->
  let d' := fold_left model_write log.*2 d in
  ((exists wb, p = Sending wb) -> @peer_accepts (peers i) /\ short_commands d') -> zlen (contents (commands d')) < 2 ^ 60 ->
  sys_threads sg !! i = Some (p, st) -> thread_inv i (p, st) rest ->
  n + chunks_size log.*2 + chunks_size (next_chunks p rest) < 2 ^ 62 ->
  exists sg', system_step peers fuel i sg = Some (Ok ((fun c => (i, c)) <$> next_chunks p rest, sg')).
Proof.
  intros [Hrep Hl _ _] d' Hsend Hc Hi Hinv Hn. unfold system_step. rewrite Hi. cbn.
  rewrite (stores_next i p st rest Hinv). apply (proj1 (thread_ok_resume i sg p st rest)) in Hinv.
  enough (exists p' st', @thread_step S _ (peers i) _ (Datatypes.S fuel) p (resume sg st) = Ok (p', st'))
    as (p' & st' & ->) by (by eexists).
  destruct p as [|rb e|wb| |].
  - destruct (@opening_ok S _ _ (peers i) _ (Datatypes.S fuel) (packets i) _ _ (resume sg st) rest Hrep Hl Hinv)
      as (p' & st' & Hs & _). eauto.
  - destruct (@receiving_ok S _ _ (peers i) _ (Datatypes.S fuel) (packets i) _ _ (resume sg st) rb e rest
      ltac:(lia) Hrep Hl Hn Hinv) as (p' & st' & Hs & _). eauto.
  - destruct Hsend as [Hpeer Hshort]; [by eexists|].
    exact (@sending_goes_on S _ _ (peers i) _ fuel (packets i) _ _ (resume sg st) wb rest Hpeer Hshort Hrep Hc Hinv).
  - by do 2 eexists.
  - by do 2 eexists.
Qed.

(** No thread goes away. *)
Lemma step_stays fuel i (sg : system S) ev sg' j : system_step peers fuel i sg = Some (Ok (ev, sg')) ->
  is_Some (sys_threads sg !! j) -> is_Some (sys_threads sg' !! j).
Proof.
  unfold system_step. destruct (sys_threads sg !! i) as [[p st]|]; [|done]. cbn. intros [= Hs] Hj.
  destruct (thread_step _ _ _) as [[p' st']|]; [|done]. cbn in Hs. injection Hs as _ <-. cbn.
  apply lookup_insert_is_Some'. by right.
Qed.

Lemma open_first fuel i n d log (sg : system S) st : system_inv n d log sg ->
  sys_threads sg !! i = Some (Opening, st) ->
  exists sg' rb st', system_step peers fuel i sg = Some (Ok ([], sg')) /\
    sys_threads sg' !! i = Some (Receiving rb false, st').
Proof.
  intros [Hrep Hl _ Heach] Hx. destruct (Heach i _ Hx) as (rest & _ & Ht).
  apply (proj1 (thread_ok_resume i sg Opening st rest)) in Ht.
  destruct (@opening_ok S _ _ (peers i) _ (Datatypes.S fuel) (packets i) _ _ (resume sg st) rest Hrep Hl Ht)
    as (rb & st' & Hs & _).
  unfold system_step. rewrite Hx. cbn [mbind option_bind]. rewrite Hs.
  eexists _, rb, st'. split; [reflexivity | apply lookup_insert_eq].
Qed.

(** A thread whose packet is not yet written whole can write its next part. *)
Lemma next_part i n d log (sg : system S) c more :
  system_inv n d log sg -> is_Some (sys_threads sg !! i) -> packets i = told i log ++ c :: more ->
  zlen (contents (commands (fold_left model_write log.*2 d))) < 2 ^ 60 ->
  n + chunks_size (log ++ [(i, c)]).*2 < 2 ^ 62 ->
  exists sg', interleaving peers sg [(i, c)] sg' /\
    forall j, is_Some (sys_threads sg !! j) -> is_Some (sys_threads sg' !! j).
Proof.
  intros Hinv [[p st] Hx] Hp Hc Hn.
  assert (Hlog : n + chunks_size log.*2 + chunks_size [c] < 2 ^ 62).
  { rewrite fmap_app, size_app in Hn. cbn [fmap list_fmap snd] in Hn. lia. }
  assert (Hgo : forall sg1 rb st1, system_inv n d log sg1 -> sys_threads sg1 !! i = Some (Receiving rb false, st1) ->
    exists sg', system_step peers 0 i sg1 = Some (Ok ([(i, c)], sg'))).
  { intros sg1 rb st1 Hinv1 Hx1. destruct (sys_each _ _ _ _ Hinv1 i _ Hx1) as (rest & Hrest & Ht).
    rewrite Hp in Hrest. apply app_inv_head in Hrest as ->.
    by apply (step_possible 0 i n d log sg1 (Receiving rb false) st1 (c :: more) Hinv1); [intros []|..]. }
  destruct (sys_each _ _ _ _ Hinv i _ Hx) as (rest & Hrest & Ht).
  rewrite Hp in Hrest. apply app_inv_head in Hrest as ->. unfold thread_inv in Ht. cbn [fst snd] in Ht.
  destruct p as [|rb []|wb| |]; try (by destruct Ht as [Ht _]); try discriminate Ht.
  - destruct (open_first 0 i n d log sg st Hinv Hx) as (sg1 & rb & st1 & Hs1 & Hx1).
    pose proof (size_nonneg [c]).
    destruct (Hgo sg1 rb st1) as [sg2 Hs2]; [|done|].
    { rewrite <- (app_nil_r log). eapply step_keeps; [done | rewrite app_nil_r; lia | done | exact Hs1]. }
    exists sg2. split; [|intros j Hj; by eapply step_stays, step_stays].
    eapply (inter_step peers sg [] sg1 0 i [(i, c)]); [|exact Hs2].
    eapply (inter_step peers sg [] sg 0 i []); [constructor | exact Hs1].
  - destruct (Hgo sg rb st Hinv Hx) as [sg2 Hs2]. exists sg2. split; [|intros j Hj; by eapply step_stays].
    eapply (inter_step peers sg [] sg 0 i [(i, c)]); [constructor | exact Hs2].
Qed.

(** Sizes: the contents never exceed what was there and what was written. *)
Definition held (d : device_model) : Z := zlen (contents (commands d)) + zlen (unfinished d).

Lemma contents_lastn k (r : ring_model) : zlen (contents (lastn k r)) <= zlen (contents r).
Proof.
  unfold lastn, contents. pose proof (f_equal (@concat char) (take_drop (length r - k) r)) as E.
  rewrite concat_app in E. rewrite <- E, zlen_app.
  pose proof (zlen_nonneg (concat (take (length r - k) r))). lia.
Qed.

Lemma held_write d c : held (model_write d c) <= held d + zlen c + 1.
Proof.
  unfold held, model_write. assert (zlen (until_nul c) <= zlen c) by (pose proof (length_until_nul c); unfold zlen; lia).
  case_bool_decide; cbn [commands unfinished].
  - unfold model_add. pose proof (contents_lastn 10 (commands d ++ [unfinished d ++ until_nul c])) as Hl.
    unfold contents in *. rewrite concat_app, zlen_app in Hl. cbn [concat] in Hl. rewrite app_nil_r, zlen_app in Hl.
    change (zlen (@nil char)) with 0. lia.
  - rewrite zlen_app. lia.
Qed.

Lemma held_fold l : forall d, held (fold_left model_write l d) <= held d + chunks_size l.
Proof.
  induction l as [|c l IH]; intros d; cbn [fold_left]; [rewrite size_nil; lia|].
  change (c :: l) with ([c] ++ l). rewrite size_app, size_one.
  pose proof (IH (model_write d c)). pose proof (held_write d c). lia.
Qed.

Lemma held_contents d : zlen (contents (commands d)) <= held d.
Proof. unfold held. pose proof (zlen_nonneg (unfinished d)). lia. Qed.

Lemma interleaving_inv n d (sg : system S) log sg' : interleaving peers sg log sg' -> system_inv n d [] sg ->
  n + chunks_size log.*2 < 2 ^ 62 -> held d + chunks_size log.*2 < 2 ^ 60 -> system_inv n d log sg'.
Proof.
  intros Hr Hinv. induction Hr as [sg|sg log sg1 fuel i ev sg2 Hr IH Hstep]; intros Hn Hd; [done|].
  pose proof Hn as Hn'. rewrite fmap_app, size_app in Hn', Hd. pose proof (size_nonneg ev.*2).
  eapply step_keeps; [apply IH; [done|lia..] | done | | exact Hstep].
  pose proof (held_fold log.*2 d). pose proof (held_contents (fold_left model_write log.*2 d)). lia.
Qed.
End Invariant.
