(* ===== verification/ThreadProps.v ===== *)
(** * Connections side by side: the theorems

    What the threads of several clients do to the device together. *)

From stdpp Require Import base numbers strings gmap list.
From S2P Require Import Prelude CMem CString CText CircularBuffer RingSpec RingFacts CharDriver DriverSpec DriverWrite.
From S2P Require Import DriverProps Ioctl Slist Server ServerSpec ServerConn ServerThreads ThreadFacts.

#[local] Open Scope Z_scope.

(** Every thread is about to open the device, and the packet of its client
    will arrive. *)
Definition starting (peers : nat -> Peer) (packets : nat -> list (list char)) (sg : system kstate) : Prop :=
  sys_lock sg = false /\
  forall i p st, sys_threads sg !! i = Some (p, st) ->
    p = Opening /\ packet (packets i) /\ @arrives (peers i) (t_recv st) (packets i) /\
    no_seek empty_buffer (packets i).

(** The whole packet was written before the answer is sent. *)
Definition all_told (p : stage) : Prop :=
  match p with Opening | Receiving _ false => False | _ => True end.

Section Clients.
Context (o : AllocOracle) (Hok : alloc_succeeds o) (peers : nat -> Peer) (packets : nat -> list (list char)).
#[local] Existing Instance driver_dev.

Abbreviation size_bound := (fun (st : kstate) d log =>
  message_size (k_dev st) + chunks_size log + 1024 < 2 ^ 62 /\ held d + chunks_size log < 2 ^ 60).

Lemma starting_inv (sg : system kstate) d : starting peers packets sg -> implements (sys_dev sg) d ->
  @system_inv kstate (driver_dev o) (driver_spec o Hok) peers packets (message_size (k_dev (sys_dev sg))) d [] sg.
Proof.
  intros [Hl Hs] Hi. split.
  - rewrite size_nil. by split.
  - done.
  - apply Forall_nil_2.
  - intros i [p st] Hx. destruct (Hs i p st Hx) as (-> & Hp & Ha & Hns). by exists (packets i).
Qed.

(** The threads and the device at any time. *)
Lemma clients_inv (sg : system kstate) d log sg' : starting peers packets sg -> implements (sys_dev sg) d ->
  @interleaving kstate (driver_dev o) o peers sg log sg' -> size_bound (sys_dev sg) d log.*2 ->
  @system_inv kstate (driver_dev o) (driver_spec o Hok) peers packets (message_size (k_dev (sys_dev sg))) d log sg'.
Proof.
  intros Hs Hi Hr [Hb1 Hb2]. eapply interleaving_inv; [exact Hr | by apply starting_inv | lia | done].
Qed.
End Clients.





(** ** Theorems *)

(** C5: in every interleaving of the threads of any number of clients the
    device implements the chunks written to it in the order of the log; each
    thread has written the beginning of its own packet, and all of it when it
    sends the answer or is finished; write_lock is free between steps. *)
Theorem threads_interleave (o : AllocOracle) peers packets (sg : system kstate) d log sg' :
  alloc_succeeds o -> starting peers packets sg -> implements (sys_dev sg) d ->
  @interleaving kstate (driver_dev o) o peers sg log sg' ->
  message_size (k_dev (sys_dev sg)) + chunks_size log.*2 + 1024 < 2 ^ 62 ->
  held d + chunks_size log.*2 < 2 ^ 60 ->
  implements (sys_dev sg') (fold_left model_write log.*2 d) /\ sys_lock sg' = false /\
  forall i p st, sys_threads sg' !! i = Some (p, st) ->
    told i log `prefix_of` packets i /\ (all_told p -> told i log = packets i).
Proof.
  intros Hok Hs Hi Hr Hb1 Hb2.
  destruct (clients_inv o Hok peers packets sg d log sg' Hs Hi Hr (conj Hb1 Hb2)) as [[Hrep _] Hl _ Heach].
  split; [done|]. split; [done|]. intros i p st Hx. destruct (Heach i (p, st) Hx) as (rest & Hrest & Hinv).
  split; [by exists rest|]. intros Hp. rewrite <- Hrest.
  assert (rest = []) as -> by (destruct p as [|? []| | |]; by destruct Hinv). by rewrite app_nil_r.
Qed.

(** Two clients on a device with two commands. *)
Definition quiet_dev : aesd_dev :=
  AesdDev (PAddr 10 0) (CircBuf ((slot_entry <$> demo_slots) ++ replicate 8 null_entry) 2 0 false)
    (PAddr 11 0) (BufEntry PNull 0) (EOwn (PAddr 12 0)) 0 0 false.

Definition quiet_state : kstate := KState demo_mem quiet_dev.
Definition quiet_model : device_model := DevModel [line "write1"; line "write22"] [].

Lemma quiet_implements : implements quiet_state quiet_model.
Proof.
  exists demo_slots, None. split; [|reflexivity]. split; simpl; try done.
  - split; simpl; try done; try lia. by repeat constructor.
  - repeat constructor; by apply demo_line.
  - by_decide.
  - repeat constructor; by eexists.
  - by eexists _, _.
Qed.

Definition client (chunks : list (list char)) : Peer := {|
  recv_at t := match chunks !! t with Some c => RecvData c | None => RecvData [] end;
  send_at _ := SendOk 4096
|}.

Definition new_thread : stage * tstate kstate :=
  (Opening, TState (Mem ∅ 0) quiet_state None 0 0 [] false PNull 0).

Definition two_clients : system kstate := System quiet_state false {[ 0%nat := new_thread; 1%nat := new_thread ]}.

Definition one_piece (i : nat) : list (list char) := match i with O => [line "a1"] | _ => [line "b2"] end.

Lemma whole_packet i : packet (one_piece i).
Proof. destruct i; apply packet_last; try (split; [cbn; lia|]); by_decide. Qed.

Lemma whole_no_seek i : no_seek empty_buffer (one_piece i).
Proof. destruct i; split; try done; by_decide. Qed.

Lemma two_clients_new i x : sys_threads two_clients !! i = Some x -> x = new_thread.
Proof.
  unfold two_clients. cbn [sys_threads]. intros [[_ <-]|[_ Hi]]%lookup_insert_Some; [done|].
  by apply lookup_singleton_Some in Hi as [_ <-].
Qed.

Lemma whole_starting : starting (fun i => client (one_piece i)) one_piece two_clients.
Proof.
  split; [done|]. intros i p st Hi.
  assert ((p, st) = new_thread) as [= -> ->] by (by eapply two_clients_new).
  split; [done|]. split; [apply whole_packet|]. split; [|apply whole_no_seek].
  intros k c Hk. cbn. by rewrite Hk.
Qed.

(** The second client is served first. *)
Definition whole_end : system kstate :=
  match @schedule kstate (driver_dev bump_oracle) bump_oracle (fun i => client (one_piece i)) 1 [0; 1; 1; 0]%nat two_clients with
  | Some (_, sg) => sg
  | None => two_clients
  end.
Definition whole_log : list (nat * list char) := [(1%nat, line "b2"); (0%nat, line "a1")].

Lemma whole_run :
  @interleaving kstate (driver_dev bump_oracle) bump_oracle (fun i => client (one_piece i)) two_clients whole_log whole_end.
Proof.
  apply (schedule_interleaving (fun i => client (one_piece i)) 1 [0; 1; 1; 0]%nat two_clients [] two_clients whole_log).
  - constructor.
  - vm_compute. reflexivity.
Qed.

Lemma threads_interleave_witness :
  implements (sys_dev whole_end) (DevModel [line "write1"; line "write22"; line "b2"; line "a1"] []).
Proof.
  destruct (threads_interleave bump_oracle (fun i => client (one_piece i)) one_piece two_clients quiet_model whole_log whole_end)
    as (H & _ & _).
  - apply bump_oracle_succeeds.
  - apply whole_starting.
  - apply quiet_implements.
  - apply whole_run.
  - by vm_compute.
  - by vm_compute.
  - exact H.
Defined.



(** Cut into steps with one call on the device each, a thread that runs
    alone does what data_processor does. *)
Theorem thread_steps_sequential {S : Type} `{CharDev S} `{Peer} `{AllocOracle} fuel (st st' : tstate S) :
  data_processor fuel st = Ok (tt, st') -> steps_alone (Opening, st) (Finished, st').
Proof. apply sequential_steps. Qed.

Definition alone_start : tstate kstate := TState (Mem ∅ 0) quiet_state None 0 0 [] false PNull 0.
Definition alone_end : tstate kstate :=
  match @data_processor kstate (driver_dev bump_oracle) (client [line "a1"]) bump_oracle 11 alone_start with
  | Ok (_, st) => st
  | Fault _ => alone_start
  end.

Lemma thread_steps_sequential_witness :
  @steps_alone kstate (driver_dev bump_oracle) (client [line "a1"]) bump_oracle
    (Opening, alone_start) (Finished, alone_end).
Proof.
  apply (@thread_steps_sequential kstate (driver_dev bump_oracle) (client [line "a1"]) bump_oracle 11).
  vm_compute. reflexivity.
Defined.







