(* ===== verification/ServerWhole.v ===== *)
(** * The whole server: main and its threads

    The main thread of aesdsocket.c runs beside the threads of the
    connections.  Here main is cut into steps too: accepting a connection
    (with add_slist_entry, which starts the thread), and for each entry of the
    list the test of thread_complete, the join, and the assignment that clears
    thread_complete.  A thread writes thread_complete into its entry of the
    list, which main reads and clears; nothing orders the two.

    The other accesses of the two sides are to different fields: a thread
    reads its descriptor, which main sets before pthread_create(); the links
    of the list belong to main. *)

From stdpp Require Import base numbers strings gmap list.
From S2P Require Import Prelude CMem CText Ioctl Slist Server ServerMain ServerThreads.

#[local] Open Scope Z_scope.

(** Where main is. *)
Inductive main_point : Type :=
| AtAccept                         (* the top of while(1) *)
| AtCheck (current_entry : link)   (* the condition of SLIST_FOREACH *)
| AtJoin (current_entry : nat)     (* in pthread_join() *)
| AtClear (current_entry : nat)    (* before thread_complete = 0 *)
| Stopped (code : Z).              (* main has returned: the process is gone *)

(** The server: main, its list, its memory, the entry each thread was given
    as its argument, the threads with the device, and caught_signal. *)
Record whole (S : Type) : Type := Whole {
  w_main : main_point;
  w_server : server;
  w_heap : heap;
  w_args : gmap nat nat;
  w_sys : system S;
  w_caught : bool
}.
Arguments Whole {S}. Arguments w_main {S}. Arguments w_server {S}. Arguments w_heap {S}.
Arguments w_args {S}. Arguments w_sys {S}. Arguments w_caught {S}.

(** Stores to thread_complete of an entry. *)
Definition set_flag (hd : slisthead thread_info) (n : nat) (v : Z) : res (slisthead thread_info) :=
  x ← deref hd (LNode n);
  let t := node_data x in
  Ok (set_node hd n (Node (ThreadInfo (thread_id t) (connected_skt_fd t) v) (sle_next x))).

(** More than the list can have elements. *)
Definition list_fuel (sv : server) : nat := size (nodes (head sv)) + 2.

Section Whole.
Context {S : Type} `{CharDev S} `{AllocOracle} (peers : nat -> Peer).
Context (timer_id : option nat) (skt_fd : Z).

(** A thread that was just created. *)
Definition fresh_thread (sg : system S) : stage * tstate S :=
  (Opening, TState (Mem ∅ 0) (sys_dev sg) None 0 0 [] (sys_lock sg) PNull 0).

(** pthread_create() with the arguments in the entry [e]. *)
Definition create_thread (sv : server) (e : nat) (created : bool) (args : gmap nat nat) (sg : system S)
  : gmap nat nat * system S :=
  if created then
    (<[started sv := e]> args,
     System (sys_dev sg) (sys_lock sg) (<[started sv := fresh_thread sg]> (sys_threads sg)))
  else (args, sg).

Definition move_main (p : main_point) (w : whole S) : whole S :=
  Whole p (w_server w) (w_heap w) (w_args w) (w_sys w) (w_caught w).

Definition with_server (p : main_point) (sv : server) (w : whole S) : whole S :=
  Whole p sv (w_heap w) (w_args w) (w_sys w) (w_caught w).

(** The top of the loop: the signal, accept(), the new entry. *)
Definition accept_step (ev : accept_event) (w : whole S) : res (whole S) :=
  let sv := w_server w in
  if w_caught w then
    '(code, sv) ← main_exit (list_fuel sv) sv timer_id skt_fd; Ok (with_server (Stopped code) sv w)
  else
    match ev with
    | AcceptAgain => Ok w
    | AcceptErr => Ok (move_main (Stopped (-1)) w)
    | AcceptConn fd ip entry created =>
        h ← log_client (w_heap w) ip;
        '(_, sv') ← add_slist_entry (list_fuel sv) sv entry created fd;
        let '(args, sg) := match entry with
                           | Some e => create_thread sv e created (w_args w) (w_sys w)
                           | None => (w_args w, w_sys w)
                           end in
        Ok (Whole (AtCheck (slh_first (head sv'))) sv' h args sg (w_caught w))
    end.

(** pthread_join() on the thread of an entry, and close().  It waits for a
    thread that still runs; a thread that was joined before has no valid id. *)
Definition join_step (n : nat) (w : whole S) : option (res (whole S)) :=
  let sv := w_server w in
  match deref (head sv) (LNode n) with
  | Fault f => Some (Fault f)
  | Ok x =>
      match thread_id (node_data x) with
      | None => Some (Fault UninitRead)
      | Some i =>
          if decide (i ∈ joined sv) then Some (Fault UseAfterFree) else
          match sys_threads (w_sys w) !! i with
          | Some (Finished, _) =>
              Some (Ok (with_server (AtClear n)
                (MkServer (head sv) (started sv) (joined sv ++ [i])
                   (closed sv ++ [connected_skt_fd (node_data x)])) w))
          | _ => None
          end
      end
  end.

(** One step of main; [None] when it waits or is gone. *)
Definition main_step (ev : accept_event) (w : whole S) : option (res (whole S)) :=
  let sv := w_server w in
  match w_main w with
  | Stopped _ => None
  | AtAccept => Some (accept_step ev w)
  | AtCheck LUninit => Some (Fault UninitRead)
  | AtCheck LNull => Some (Ok (move_main AtAccept w))
  | AtCheck (LNode n) =>
      Some (x ← deref (head sv) (LNode n);
            Ok (move_main (if ti_complete (node_data x) =? 1 then AtJoin n else AtClear n) w))
  | AtJoin n => join_step n w
  | AtClear n =>
      Some (hd ← set_flag (head sv) n 0;
            x ← deref hd (LNode n);
            Ok (with_server (AtCheck (sle_next x)) (set_head sv hd) w))
  end.

(** What thread [i] stored to thread_complete between two of its states. *)
Definition flag_store (i : nat) (sg sg' : system S) : option Z :=
  '(_, st) ← sys_threads sg !! i;
  '(_, st') ← sys_threads sg' !! i;
  if decide (thread_complete st' = thread_complete st) then None else Some (thread_complete st').

(** Thread [i] takes a step; its store to thread_complete goes to its entry. *)
Definition conn_step (fuel i : nat) (w : whole S) : option (res (list (nat * list char) * whole S)) :=
  match w_main w with
  | Stopped _ => None
  | _ =>
      r ← system_step peers fuel i (w_sys w);
      n ← w_args w !! i;
      Some ('(ev, sg) ← r;
            hd ← (match flag_store i (w_sys w) sg with
                  | Some v => set_flag (head (w_server w)) n v
                  | None => Ok (head (w_server w))
                  end);
            Ok (ev, Whole (w_main w) (set_head (w_server w) hd) (w_heap w) (w_args w) sg (w_caught w)))
  end.

(** What the main thread may be told: malloc() gives memory that is not in
    use. *)
Definition event_ok (ev : accept_event) (w : whole S) : Prop :=
  match ev with
  | AcceptConn _ _ (Some e) _ => nodes (head (w_server w)) !! e = None
  | _ => True
  end.
#[global] Instance event_ok_dec ev w : Decision (event_ok ev w).
Proof. destruct ev as [? ? [] ?| |]; apply _. Defined.

(** One step of the server, with what it hands to the device. *)
Inductive server_step : whole S -> list (nat * list char) -> whole S -> Prop :=
| main_goes ev w w' : event_ok ev w -> main_step ev w = Some (Ok w') -> server_step w [] w'
| conn_goes fuel i w log w' : conn_step fuel i w = Some (Ok (log, w')) -> server_step w log w'
| signal_comes signal_number w :
    server_step w [] (Whole (w_main w) (w_server w) (w_heap w) (w_args w) (w_sys w)
                        (socket_signal_handler signal_number (w_caught w))).

Inductive server_run : whole S -> list (nat * list char) -> whole S -> Prop :=
| run_refl w : server_run w [] w
| run_step w log w1 ev w2 : server_run w log w1 -> server_step w1 ev w2 -> server_run w (log ++ ev) w2.

(** The server when it enters the loop. *)
Definition server_start (d : S) : whole S :=
  Whole AtAccept server_init ∅ ∅ (System d false ∅) false.

(** Turns: [inl ev] is a step of main, [inr i] a step of thread [i]. *)
Fixpoint turns (fuel : nat) (order : list (accept_event + nat)) (w : whole S)
  : option (list (nat * list char) * whole S) :=
  match order with
  | [] => Some ([], w)
  | inl ev :: order =>
      if decide (event_ok ev w) then
        match main_step ev w with Some (Ok w1) => turns fuel order w1 | _ => None end
      else None
  | inr i :: order =>
      match conn_step fuel i w with
      | Some (Ok (ev, w1)) => '(log, w2) ← turns fuel order w1; Some (ev ++ log, w2)
      | _ => None
      end
  end.

Lemma turns_run fuel order : forall w0 log0 w log w', server_run w0 log0 w ->
  turns fuel order w = Some (log, w') -> server_run w0 (log0 ++ log) w'.
Proof.
  induction order as [|[ev|i] order IH]; intros w0 log0 w log w' Hr Ht; cbn in Ht.
  - injection Ht as <- <-. by rewrite app_nil_r.
  - case_decide as Hev; [|done]. destruct (main_step ev w) as [[w1|]|] eqn:Hm; [|done..].
    eapply IH; [|exact Ht]. rewrite <- (app_nil_r log0). econstructor; [done|]. by eapply main_goes.
  - destruct (conn_step fuel i w) as [[[ev w1]|]|] eqn:Hc; [|done..].
    destruct (turns fuel order w1) as [[l w2]|] eqn:Hl; [|done]. cbn in Ht. injection Ht as <- <-.
    rewrite app_assoc. eapply IH; [|exact Hl]. econstructor; [done|]. by eapply conn_goes.
Qed.
End Whole.
