(* ===== verification/WholeFacts.v ===== *)
(** * The whole server: the invariant

    What holds between the steps of main and of the threads: the list holds
    an entry per connection in the order of the accepts, thread_complete is
    only set for threads that have but to close their file and return, and
    the joined threads are finished, joined once, and their connections
    closed. *)

From stdpp Require Import base numbers strings gmap list.
From S2P Require Import Prelude CMem CText RingSpec DriverSpec Ioctl Slist Server ServerMain ServerFacts.
From S2P Require Import ServerSpec ServerConn ServerThreads ServerWhole.

#[local] Open Scope Z_scope.

(** ** A thread writes thread_complete once, with its last step but one *)

Section Complete.
Context {S : Type} `{CharDev S} `{Peer} `{AllocOracle}.

(** A computation that leaves thread_complete alone. *)
Definition keeps {A} (m : M S A) : Prop :=
  forall st a st', m st = Ok (a, st') -> thread_complete st' = thread_complete st.

Lemma keeps_bind {A B} (m : M S A) (k : A -> M S B) : keeps m -> (forall a, keeps (k a)) -> keeps (m ≫= k).
Proof.
  intros Hm Hk st b st' Hr. apply bind_inv in Hr as (a & s & Ha & Hb).
  by rewrite (Hk _ _ _ _ Hb), (Hm _ _ _ Ha).
Qed.

Lemma keeps_ret {A} (a : A) : keeps (mret a).
Proof. intros st b st' Hr. by injection Hr as <- <-. Qed.

Lemma keeps_throw {A} f : keeps (throw f : M S A).
Proof. by intros st b st' Hr. Qed.

Lemma keeps_gets {A} (f : tstate S -> A) : keeps (gets f).
Proof. intros st b st' Hr. by injection Hr as <- <-. Qed.

Lemma keeps_on_heap {A} (f : heap -> res (A * heap)) : keeps (on_heap f).
Proof. intros st b st' Hr. unfold on_heap in Hr. destruct (f _) as [[a h]|]; by simplify_eq. Qed.

Lemma keeps_set_fd fd : keeps (set_fd fd).
Proof. intros st b st' Hr. by injection Hr as <- <-. Qed.

Lemma keeps_set_tlock v : keeps (set_tlock v).
Proof. intros st b st' Hr. by injection Hr as <- <-. Qed.

Lemma keeps_strtok s delim : keeps (do_strtok s delim).
Proof. intros st b st' Hr. unfold do_strtok in Hr. destruct (strtok _ _ _ _) as [[[? ?] ?]|]; by simplify_eq. Qed.

Lemma keeps_malloc n : keeps (do_malloc n).
Proof. intros st b st' Hr. unfold do_malloc in Hr. destruct (malloc _ _). by simplify_eq. Qed.

Lemma keeps_free p : keeps (do_free p).
Proof. intros st b st' Hr. unfold do_free in Hr. destruct (kfree _ _); by simplify_eq. Qed.

Lemma keeps_on_dev {A} (f : S -> Z -> res (A * Z * S)) bad : keeps (on_dev f bad).
Proof.
  intros st b st' Hr. unfold on_dev in Hr. destruct (t_fd st) as [pos|]; [|by simplify_eq].
  destruct (f _ _) as [[[? ?] ?]|]; by simplify_eq.
Qed.

Lemma keeps_if {A} (b : bool) (m1 m2 : M S A) : keeps m1 -> keeps m2 -> keeps (if b then m1 else m2).
Proof. by destruct b. Qed.

Create HintDb keeps.
Hint Resolve keeps_ret keeps_throw keeps_gets keeps_on_heap keeps_set_fd keeps_set_tlock keeps_strtok
  keeps_malloc keeps_free keeps_on_dev : keeps.

(** Through binds, conditionals and pairs, with the lemmas of the database. *)
Ltac keeps := repeat first
  [ solve [eauto with keeps] | apply keeps_bind; [|intros ?] | apply keeps_if
  | match goal with |- keeps (match ?x with _ => _ end) => destruct x end ].

Lemma keeps_recv buf n : keeps (recv buf n).
Proof.
  intros st a st' Hr. unfold recv in Hr. destruct (recv_at _); [|by simplify_eq..].
  apply bind_inv in Hr as ([] & s & Ha & Hb). pose proof (keeps_on_heap _ _ _ _ Ha). injection Hb as <- <-. done.
Qed.

Lemma keeps_send buf n : keeps (send buf n).
Proof.
  intros st a st' Hr. unfold send in Hr. destruct (load_bytes _ _ _); [|done].
  destruct (send_at _); by simplify_eq.
Qed.
Hint Resolve keeps_recv keeps_send : keeps.

Lemma keeps_send_loop fuel : forall buf n, keeps (send_loop fuel buf n).
Proof. induction fuel as [|fuel IH]; intros buf n; cbn [send_loop]; keeps. Qed.
Hint Resolve keeps_send_loop : keeps.

Lemma keeps_read_loop fuel : forall buf, keeps (read_loop fuel buf).
Proof. induction fuel as [|fuel IH]; intros buf; [apply keeps_throw|]; unfold read_loop; fold (@read_loop S _ _); unfold file_read, update_heap; keeps. Qed.
Hint Resolve keeps_read_loop : keeps.

Lemma keeps_store_loop fuel : forall rb n, keeps (store_loop fuel rb n).
Proof.
  induction fuel as [|fuel IH]; intros rb n; [apply keeps_throw|]. cbn [store_loop].
  unfold seek_request, seek_copy, seek_parse, syslog_s, file_write, file_ioctl, read_file_and_send, look, update_heap,
    pthread_mutex_lock, pthread_mutex_unlock. keeps.
Qed.
Hint Resolve keeps_store_loop : keeps.

Lemma keeps_receive_step fuel rb : keeps (receive_step fuel rb).
Proof. unfold receive_step, look. keeps. Qed.

Lemma keeps_send_step fuel buf : keeps (send_step fuel buf).
Proof. unfold send_step, file_read, update_heap. keeps. Qed.

Lemma keeps_after_receive rb r : keeps (after_receive rb r).
Proof. unfold after_receive, update_heap, file_close, file_open. keeps. Qed.
Hint Resolve keeps_receive_step keeps_send_step keeps_after_receive : keeps.

(** The thread has nothing left to do but to close its file and return. *)
Definition over (p : stage) : Prop := p = Closing \/ p = Finished.

Lemma thread_step_complete fuel p st p' st' : thread_step fuel p st = Ok (p', st') ->
  thread_complete st' = thread_complete st \/ (~ over p /\ p' = Closing /\ thread_complete st' = 1).
Proof.
  intros Hs. destruct p as [|rb []|wb| |]; cbn [thread_step] in Hs.
  - left. refine ((_ : keeps _) _ _ _ Hs). unfold file_open. keeps.
  - left. by apply (keeps_after_receive rb 0 st p').
  - left. refine ((_ : keeps _) _ _ _ Hs). keeps.
  - apply bind_inv in Hs as (stop & s & Ha & Hb). pose proof (keeps_send_step _ _ _ _ _ Ha).
    destruct stop; [|left; by injection Hb as <- <-]. right. cbn in Hb. injection Hb as <- <-.
    split; [|done]. by intros [|].
  - left. cbn in Hs. by injection Hs as <- <-.
  - left. by injection Hs as <- <-.
Qed.
End Complete.

(** ** Entries and their flags *)

Definition with_flag (v : Z) (t : thread_info) : thread_info := ThreadInfo (thread_id t) (connected_skt_fd t) v.

(** The list after a store to thread_complete of the entry [n]. *)
Definition flag_at (n : nat) (v : Z) (xs : list (nat * thread_info)) : list (nat * thread_info) :=
  (fun x => if decide (x.1 = n) then (x.1, with_flag v x.2) else x) <$> xs.

(** The thread [i] of the connection [fd] has the entry [n]. *)
Definition entry (xs : list (nat * thread_info)) (n i : nat) (fd : Z) : Prop :=
  exists t, (n, t) ∈ xs /\ thread_id t = Some i /\ connected_skt_fd t = fd.

Abbreviation ids := (omap (fun x : nat * thread_info => thread_id x.2)).

Lemma flag_at_elem n v xs m t' : (m, t') ∈ flag_at n v xs <->
  exists t, (m, t) ∈ xs /\ t' = if decide (m = n) then with_flag v t else t.
Proof.
  unfold flag_at. rewrite list_elem_of_fmap. split.
  - intros ([k t] & Heq & Hin). exists t. cbn in Heq.
    destruct (decide (k = n)) as [Hk|Hk]; injection Heq as -> ->; [by rewrite decide_True | by rewrite decide_False].
  - intros (t & Hin & ->). exists (m, t). split; [|done]. cbn. by case_decide.
Qed.

Lemma flag_at_nodes n v xs : (flag_at n v xs).*1 = xs.*1.
Proof.
  unfold flag_at. rewrite <- list_fmap_compose. apply list_fmap_ext. intros _ x _. cbn. by case_decide.
Qed.

Lemma flag_at_ids n v xs : ids (flag_at n v xs) = ids xs.
Proof. induction xs as [|x xs IH]; [done|]. csimpl. case_decide; csimpl; by rewrite IH. Qed.

Lemma flag_at_entry n v xs m i fd : entry (flag_at n v xs) m i fd <-> entry xs m i fd.
Proof.
  unfold entry. setoid_rewrite flag_at_elem. split.
  - intros (t' & (t & Hin & ->) & Hi & Hf). exists t. by case_decide.
  - intros (t & Hin & Hi & Hf). eexists. split; [by exists t|]. by case_decide.
Qed.

Lemma segment_flag ns l xs n a k v : ns !! n = Some (Node a k) -> segment ns l xs ->
  segment (<[n := Node (with_flag v a) k]> ns) l (flag_at n v xs).
Proof.
  intros Hn. induction 1 as [|m b l rest Hm Hr IH]; [constructor|]. csimpl. case_decide as Heq.
  - subst m. rewrite Hn in Hm. injection Hm as <- <-. econstructor; [apply lookup_insert_eq | exact IH].
  - econstructor; [|exact IH]. by rewrite lookup_insert_ne.
Qed.

Lemma slist_elem (hd : slisthead thread_info) xs n t : slist hd xs -> (n, t) ∈ xs -> exists k, nodes hd !! n = Some (Node t k).
Proof. intros [Hs _]. by apply (segment_live _ _ _ _ _ Hs). Qed.

Lemma slist_unique (hd : slisthead thread_info) xs n t t' : slist hd xs -> (n, t) ∈ xs -> (n, t') ∈ xs -> t = t'.
Proof.
  intros Hs H1 H2. destruct (slist_elem _ _ _ _ Hs H1) as [k Hk], (slist_elem _ _ _ _ Hs H2) as [k' Hk']. congruence.
Qed.

(** A store to a flag changes that flag. *)
Lemma set_flag_ok hd xs n t v : slist hd xs -> (n, t) ∈ xs ->
  exists hd' k, set_flag hd n v = Ok hd' /\ slist hd' (flag_at n v xs) /\ nodes hd !! n = Some (Node t k) /\
    nodes hd' = <[n := Node (with_flag v t) k]> (nodes hd) /\ slh_first hd' = slh_first hd.
Proof.
  intros Hs Hin. destruct (slist_elem _ _ _ _ Hs Hin) as [k Hk]. unfold set_flag. cbn [deref]. rewrite Hk. cbn.
  eexists _, k. split; [done|]. split; [|done]. destruct Hs as [Hs Hd]. split.
  - cbn. by apply segment_flag.
  - by rewrite flag_at_nodes.
Qed.

Lemma slist_fuel sv xs : slist (head sv) xs -> (length xs + 1 < list_fuel sv)%nat.
Proof.
  intros [Hs Hd]. unfold list_fuel. enough (length xs <= size (nodes (head sv)))%nat by lia.
  rewrite <- (length_fmap fst xs), <- (size_list_to_set (C := gset nat)) by done.
  rewrite <- (size_dom (nodes (head sv))). apply subseteq_size. intros n Hn%elem_of_list_to_set.
  apply list_elem_of_fmap in Hn as ([m t] & -> & Hin). apply elem_of_dom.
  destruct (segment_live _ _ _ _ _ Hs Hin) as [k Hk]. by eexists.
Qed.

(** ** The invariant *)

Section Invariant.
Context {S : Type} `{CharDev S} `{AllocOracle} (skt_fd : Z).

Definition finished (w : whole S) (i : nat) : Prop := exists st, sys_threads (w_sys w) !! i = Some (Finished, st).
Definition ended (w : whole S) (i : nat) : Prop :=
  exists p st, sys_threads (w_sys w) !! i = Some (p, st) /\ over p.

Definition main_ok (xs : list (nat * thread_info)) (w : whole S) : Prop :=
  let sv := w_server w in
  match w_main w with
  | AtCheck l => exists ys zs, xs = ys ++ zs /\ segment (nodes (head sv)) l zs
  | AtJoin n => exists t i, (n, t) ∈ xs /\ ti_complete t = 1 /\ thread_id t = Some i /\ i ∉ joined sv
  | AtClear n => n ∈ xs.*1
  | _ => True
  end.

(** A flag that is set belongs to a thread that has come to its end and, but
    for the moment before it is cleared, is not joined. *)
Definition flag_ok (w : whole S) (n : nat) (t : thread_info) : Prop :=
  ti_complete t = 0 \/
  ti_complete t = 1 /\ exists i, thread_id t = Some i /\ ended w i /\
    (i ∈ joined (w_server w) -> w_main w = AtClear n).

Record whole_inv (xs : list (nat * thread_info)) (w : whole S) : Prop := {
  wi_list : slist (head (w_server w)) xs;
  wi_ids : ids xs = seq 0 (started (w_server w));
  wi_threads i : is_Some (sys_threads (w_sys w) !! i) <-> (i < started (w_server w))%nat;
  wi_args i n : w_args w !! i = Some n <-> exists fd, entry xs n i fd;
  wi_flag n t : (n, t) ∈ xs -> flag_ok w n t;
  wi_local i p st : sys_threads (w_sys w) !! i = Some (p, st) -> ~ over p -> thread_complete st = 0;
  wi_joined : NoDup (joined (w_server w));
  wi_finished i : i ∈ joined (w_server w) -> finished w i;
  wi_closed : Forall2 (fun i fd => exists n, entry xs n i fd) (joined (w_server w)) (closed (w_server w));
  wi_main : main_ok xs w
}.

(** ** Main *)

(** Outside the moment between a join and the clearing, a set flag belongs to
    a thread that was not joined. *)
Lemma flag_not_joined xs w n t i : whole_inv xs w -> (n, t) ∈ xs -> ti_complete t = 1 -> thread_id t = Some i ->
  w_main w <> AtClear n -> i ∉ joined (w_server w).
Proof.
  intros Hi Hin Hc Ht Hm Hj. destruct (wi_flag _ _ Hi n t Hin) as [?|(_ & j & Hj' & _ & Hjn)]; [lia|].
  apply Hm, Hjn. congruence.
Qed.

Lemma inv_move xs w p : whole_inv xs w -> (forall n, w_main w <> AtClear n) ->
  main_ok xs (move_main p w) -> whole_inv xs (move_main p w).
Proof.
  intros Hi Hne Hm. destruct (Hi) as [? ? ? ? Hf ? ? ? ? ?]. split; try done.
  intros n t Hin. destruct (Hf n t Hin) as [?|(? & i & ? & ? & Hj)]; [by left|].
  right. split; [done|]. exists i. split; [done|]. split; [done|]. intros Hij. by destruct (Hne n); apply Hj.
Qed.

Lemma segment_split {A} (ns : gmap nat (node A)) l ys n (t : A) zs : segment ns l (ys ++ (n, t) :: zs) ->
  exists k, ns !! n = Some (Node t k) /\ segment ns k zs.
Proof.
  revert l. induction ys as [|y ys IH]; intros l Hs; inversion Hs; subst; [eauto | by eapply IH].
Qed.

Lemma check_step xs w l : whole_inv xs w -> w_main w = AtCheck l ->
  exists w', main_step None skt_fd AcceptAgain w = Some (Ok w') /\ whole_inv xs w' /\
    w_server w' = w_server w /\ w_sys w' = w_sys w /\
    match l with
    | LNode n => exists t, (n, t) ∈ xs /\
        w_main w' = if ti_complete t =? 1 then AtJoin n else AtClear n
    | _ => w_main w' = AtAccept
    end.
Proof.
  intros Hi Hm. pose proof (wi_main _ _ Hi) as Hok. unfold main_ok in Hok. rewrite Hm in Hok.
  destruct Hok as (ys & zs & -> & Hseg). unfold main_step. rewrite Hm.
  assert (Hne : forall n, w_main w <> AtClear n) by (by rewrite Hm).
  destruct Hseg as [|n t l zs Hn Hseg].
  - eexists. split; [reflexivity|]. split; [by apply inv_move|done].
  - cbn [deref]. rewrite Hn. cbn [lift_opt]. rewrite bind_ok. cbn [node_data].
    eexists. split; [reflexivity|]. split; [|split; [done|split; [done|]]].
    + apply inv_move; [done|done|]. unfold main_ok. cbn. destruct (Z.eqb_spec (ti_complete t) 1) as [Hc|Hc].
      * destruct (wi_flag _ _ Hi n t) as [?|(_ & i & Ht & _ & Hj)]; [set_solver|lia|].
        exists t, i. split; [set_solver|]. split; [done|]. split; [done|].
        intros Hin. by destruct (Hne n); apply Hj.
      * rewrite fmap_app. cbn. set_solver.
    + exists t. split; [set_solver|done].
Qed.

(** The join never meets a thread that was joined, and waits at most for a
    thread that is about to return. *)
Lemma join_target xs w n ev : whole_inv xs w -> w_main w = AtJoin n ->
  exists t i p st, (n, t) ∈ xs /\ thread_id t = Some i /\ i ∉ joined (w_server w) /\
    sys_threads (w_sys w) !! i = Some (p, st) /\ over p /\
    main_step None skt_fd ev w =
      match p with
      | Finished => Some (Ok (with_server (AtClear n) (MkServer (head (w_server w)) (started (w_server w))
          (joined (w_server w) ++ [i]) (closed (w_server w) ++ [connected_skt_fd t])) w))
      | _ => None
      end.
Proof.
  intros Hi Hm. pose proof (wi_main _ _ Hi) as Hok. unfold main_ok in Hok. rewrite Hm in Hok.
  destruct Hok as (t & i & Hin & Hc & Ht & Hj). unfold main_step, join_step. rewrite Hm.
  destruct (slist_elem _ _ _ _ (wi_list _ _ Hi) Hin) as [k Hk]. cbn [deref]. rewrite Hk. cbn [lift_opt node_data].
  rewrite Ht, decide_False by done.
  destruct (wi_flag _ _ Hi n t Hin) as [?|(_ & j & Hj' & (p & st & Hst & Hov) & _)]; [lia|].
  assert (j = i) as -> by congruence. rewrite Hst. exists t, i, p, st. do 5 (split; [done|]). by destruct p.
Qed.

Lemma join_ok xs w n ev w' : whole_inv xs w -> w_main w = AtJoin n -> main_step None skt_fd ev w = Some (Ok w') ->
  exists i, whole_inv xs w' /\ w_main w' = AtClear n /\
    head (w_server w') = head (w_server w) /\ w_args w !! i = Some n /\
    joined (w_server w') = joined (w_server w) ++ [i] /\ w_sys w' = w_sys w.
Proof.
  intros Hi Hm Hs. destruct (join_target xs w n ev Hi Hm) as (t & i & p & st & Hin & Ht & Hj & Hst & Hov & Hs').
  rewrite Hs in Hs'. destruct p; try done. injection Hs' as ->. exists i.
  assert (He : entry xs n i (connected_skt_fd t)) by (by exists t).
  split; [|split; [done|split; [done|split; [|split; done]]]]; [|apply (wi_args _ _ Hi); by eexists].
  destruct Hi as [? ? ? Ha Hf ? Hnd Hfin Hcl _]. split; cbn; try done.
  - intros m u Hu. destruct (Hf m u Hu) as [?|(? & q & ? & ? & Hq)]; [by left|]. right. split; [done|].
    exists q. split; [done|]. split; [done|]. cbn. intros [Hin'| ->%list_elem_of_singleton]%elem_of_app.
    + specialize (Hq Hin'). rewrite Hm in Hq. discriminate Hq.
    + f_equal. enough (Some n = Some m) by congruence.
      rewrite <- (proj2 (Ha i n)) by eauto. apply Ha. exists (connected_skt_fd u), u. done.
  - apply NoDup_app. split; [done|]. split; [|apply NoDup_singleton]. set_solver.
  - intros q [Hq| ->%list_elem_of_singleton]%elem_of_app; [by apply Hfin | by exists st].
  - apply Forall2_app; [done|]. constructor; [|constructor]. by exists n.
  - unfold main_ok. cbn. apply list_elem_of_fmap. by exists (n, t).
Qed.

Lemma clear_ok xs w n : whole_inv xs w -> w_main w = AtClear n ->
  exists w' ys t zs l, main_step None skt_fd AcceptAgain w = Some (Ok w') /\ xs = ys ++ (n, t) :: zs /\
    whole_inv (flag_at n 0 xs) w' /\ w_main w' = AtCheck l /\
    segment (nodes (head (w_server w'))) l (flag_at n 0 zs) /\
    joined (w_server w') = joined (w_server w) /\ w_sys w' = w_sys w /\
    nodes (head (w_server w)) !! n = Some (Node t l) /\
    w' = with_server (AtCheck l) (set_head (w_server w) (set_node (head (w_server w)) n (Node (with_flag 0 t) l))) w.
Proof.
  intros Hi Hm. pose proof (wi_main _ _ Hi) as Hok. unfold main_ok in Hok. rewrite Hm in Hok.
  apply list_elem_of_fmap in Hok as ([n' t] & Heq & Hin). cbn in Heq. subst n'.
  destruct (set_flag_ok _ _ _ _ 0 (wi_list _ _ Hi) Hin) as (hd & k & Hset & Hl & Hk & Hns & Hfst).
  apply list_elem_of_split in Hin as (ys & zs & Hxs). unfold main_step. rewrite Hm, Hset, bind_ok.
  cbn [deref]. rewrite Hns, lookup_insert_eq. cbn [lift_opt]. rewrite bind_ok. cbn [sle_next].
  eexists _, ys, t, zs, k. split; [reflexivity|]. split; [done|].
  assert (Hseg : segment (nodes hd) k (flag_at n 0 zs)).
  { destruct (wi_list _ _ Hi) as [Hs _]. rewrite Hxs in Hs.
    destruct (segment_split _ _ _ _ _ _ Hs) as (k' & Hk' & Hzs). assert (k' = k) as -> by congruence.
    rewrite Hns. by apply segment_flag. }
  assert (Hhd : hd = set_node (head (w_server w)) n (Node (with_flag 0 t) k))
    by (destruct hd; cbn in *; by subst).
  split; [|do 4 (split; [done|]); split; [done | by rewrite Hhd]].
  destruct Hi as [? Hids Hth Ha Hf ? Hnd Hfin Hcl _]. split; cbn; try done.
  - by rewrite flag_at_ids.
  - intros i m. rewrite Ha. by setoid_rewrite flag_at_entry.
  - intros m u (u' & Hu & ->)%flag_at_elem. case_decide as Heq; [by left|].
    destruct (Hf m u' Hu) as [?|(? & i & ? & ? & Hj)]; [by left|]. right. split; [done|]. exists i.
    split; [done|]. split; [done|]. cbn. intros Hij. apply Hj in Hij. congruence.
  - eapply Forall2_impl; [exact Hcl|]. intros i fd [m Hm']. exists m. by apply flag_at_entry.
  - unfold main_ok. cbn. exists (flag_at n 0 (ys ++ [(n, t)])), (flag_at n 0 zs). split; [|done].
    rewrite Hxs. unfold flag_at. rewrite <- fmap_app. by rewrite <- app_assoc.
Qed.

(** The threads that were there stay as they are. *)
Lemma create_keeps xs w e created i x : whole_inv xs w -> sys_threads (w_sys w) !! i = Some x ->
  sys_threads (create_thread (w_server w) e created (w_args w) (w_sys w)).2 !! i = Some x.
Proof.
  intros Hi Hx. unfold create_thread. destruct created; [|done]. cbn. rewrite lookup_insert_ne; [done|].
  intros <-. assert (started (w_server w) < started (w_server w))%nat; [|lia].
  apply (wi_threads _ _ Hi). by eexists.
Qed.

(** A new entry, with its thread when one could be created. *)
Lemma create_inv xs w sv' h e created fd l :
  whole_inv xs w -> w_main w = AtAccept -> nodes (head (w_server w)) !! e = None ->
  slist (head sv') (xs ++ [(e, new_entry created (w_server w) fd)]) ->
  started sv' = (if created then Datatypes.S (started (w_server w)) else started (w_server w)) ->
  joined sv' = joined (w_server w) -> closed sv' = closed (w_server w) -> l = slh_first (head sv') ->
  let cr := create_thread (w_server w) e created (w_args w) (w_sys w) in
  whole_inv (xs ++ [(e, new_entry created (w_server w) fd)])
    (Whole (AtCheck l) sv' h cr.1 cr.2 (w_caught w)).
Proof.
  intros Hi Hm He Hl Hst Hj Hc -> cr. destruct (Hi) as [Hs Hids Hth Ha Hf Hloc Hnd Hfin Hcl _].
  set (k := started (w_server w)) in *.
  pose proof (fun i x => create_keeps xs w e created i x Hi) as Hold. fold cr in Hold.
  assert (Hent : forall n i fd', entry (xs ++ [(e, new_entry created (w_server w) fd)]) n i fd' <->
    entry xs n i fd' \/ (created = true /\ n = e /\ i = k /\ fd' = fd)).
  { intros n i fd'. unfold entry. setoid_rewrite elem_of_app. setoid_rewrite list_elem_of_singleton. split.
    - intros (t & [Hin|[= -> ->]] & Hi' & Hf'); [left; eauto|]. right. destruct created; by simplify_eq/=.
    - intros [(t & ? & ? & ?)|(-> & -> & -> & ->)]; [eauto|]. eexists. split; [by right|done]. }
  split; cbn; try done.
  - rewrite omap_app, Hids, Hst. destruct created; [by rewrite seq_S | apply app_nil_r].
  - intros i. rewrite Hst. unfold cr, create_thread. destruct created; [|by apply Hth]. cbn.
    rewrite lookup_insert_is_Some', Hth. fold k. lia.
  - intros i n. setoid_rewrite Hent. unfold cr, create_thread. destruct created; cbn.
    + rewrite lookup_insert_Some. fold k. rewrite Ha. split.
      * intros [[<- <-]|[Hne [fd' He']]]; [exists fd; by right | exists fd'; by left].
      * intros [fd' [He'|(_ & -> & -> & _)]]; [right|by left]. split; [|by eexists]. intros <-.
        assert (k < k)%nat; [|lia]. apply Hth. destruct He' as (t & Hin & Ht & _).
        assert (Hk : k ∈ ids xs) by (apply list_elem_of_omap; eauto). rewrite Hids in Hk.
        apply elem_of_seq in Hk. apply Hth. lia.
    + rewrite Ha. split; [intros [fd' ?]; exists fd'; by left | intros [fd' [?|[? _]]]; [by eexists|done]].
  - intros n t [Hin|[= -> ->]%list_elem_of_singleton]%elem_of_app; [|by left].
    destruct (Hf n t Hin) as [?|(? & i & ? & (p & st & ? & ?) & Hji)]; [by left|]. right. split; [done|]. exists i.
    split; [done|]. split; [exists p, st; split; [by apply Hold | done]|]. cbn. rewrite Hj. intros Hij. apply Hji in Hij. congruence.
  - intros i p st Hx Hp. unfold cr, create_thread in Hx. destruct created; [|by eapply Hloc].
    cbn in Hx. apply lookup_insert_Some in Hx as [[_ [= <- <-]]|[_ Hx]]; [done | by eapply Hloc].
  - by rewrite Hj.
  - intros i Hij. rewrite Hj in Hij. destruct (Hfin i Hij) as [st Hx]. exists st. by apply Hold.
  - rewrite Hj, Hc. eapply Forall2_impl; [exact Hcl|]. intros i fd' [n Hn]. exists n. apply Hent. by left.
  - unfold main_ok. cbn. eexists [], _. split; [done|]. by destruct Hl.
Qed.

(** Accepting appends an entry or leaves the list alone. *)
Lemma accept_inv xs w ev w' : whole_inv xs w -> w_main w = AtAccept -> event_ok ev w ->
  accept_step None skt_fd ev w = Ok w' ->
  exists ys, whole_inv (xs ++ ys) w' /\ joined (w_server w') = joined (w_server w) /\
    (w' = w \/ (exists code, w_main w' = Stopped code) \/
     w_main w' = AtCheck (slh_first (head (w_server w')))) /\
    (forall i, ended w i -> ended w' i).
Proof.
  intros Hi Hm Hev Hs. unfold accept_step in Hs. destruct (w_caught w) eqn:Hcs; [done|].
  destruct ev as [fd ip [e|] created| |].
  - destruct (log_client _ _) as [h|]; [|done]. rewrite bind_ok in Hs.
    destruct (add_entry_appends created (list_fuel (w_server w)) (w_server w) xs e fd (wi_list _ _ Hi) Hev)
      as (sv' & Hadd & Hl & Hst & Hj & Hc); [pose proof (slist_fuel _ _ (wi_list _ _ Hi)); lia|].
    rewrite Hadd, bind_ok in Hs.
    pose proof (create_inv xs w sv' h e created fd _ Hi Hm Hev Hl Hst Hj Hc eq_refl) as Hinv.
    pose proof (fun i x => create_keeps xs w e created i x Hi) as Hk.
    destruct (create_thread _ _ _ _ _) as [args sg]. injection Hs as <-. rewrite Hcs in Hinv.
    eexists. split; [exact Hinv|]. split; [done|]. split; [by right; right|].
    intros i (p & st & Hst' & Hov). exists p, st. split; [by apply Hk | done].
  - destruct (log_client _ _); [|done]. by rewrite bind_ok in Hs.
  - injection Hs as <-. exists []. rewrite app_nil_r. auto.
  - injection Hs as <-. exists []. rewrite app_nil_r. split; [|split; [done|split; [right; left; by eexists|done]]].
    apply inv_move; [done | by rewrite Hm | done].
Qed.

Lemma main_step_inv xs w ev w' : whole_inv xs w -> event_ok ev w ->
  main_step None skt_fd ev w = Some (Ok w') -> exists xs', whole_inv xs' w'.
Proof.
  intros Hi Hev Hs. destruct (w_main w) as [|l|n|n|code] eqn:Hm.
  - unfold main_step in Hs. rewrite Hm in Hs. apply (inj Some) in Hs.
    destruct (accept_inv xs w ev w' Hi Hm Hev Hs) as (ys & ? & _). by eexists.
  - destruct (check_step xs w l Hi Hm) as (w1 & H1 & Hi1 & _).
    unfold main_step in Hs, H1. rewrite Hm in Hs, H1. rewrite H1 in Hs. injection Hs as <-. by eexists.
  - destruct (join_ok xs w n ev w' Hi Hm Hs) as (i & Hi1 & _). by eexists.
  - destruct (clear_ok xs w n Hi Hm) as (w1 & ys & t & zs & l & H1 & _ & Hi1 & _).
    unfold main_step in Hs, H1. rewrite Hm in Hs, H1. rewrite H1 in Hs. injection Hs as <-. by eexists.
  - unfold main_step in Hs. by rewrite Hm in Hs.
Qed.

(** ** Threads *)

Context (peers : nat -> Peer).

(** What a step of thread [i] does to the flags. *)
Lemma conn_flags fuel i w r w' : conn_step peers fuel i w = Some (Ok (r, w')) ->
  exists p st p' st' n, sys_threads (w_sys w) !! i = Some (p, st) /\ w_args w !! i = Some n /\
    thread_step (H := H) (H0 := peers i) (Datatypes.S fuel) p (resume (w_sys w) st) = Ok (p', st') /\
    w_sys w' = System (t_dev st') (t_lock st') (<[i := (p', st')]> (sys_threads (w_sys w))) /\
    w_args w' = w_args w /\ w_main w' = w_main w /\ w_caught w' = w_caught w /\ r = stores peers i p st /\
    (forall code, w_main w <> Stopped code) /\
    (if decide (thread_complete st' = thread_complete st) then w_server w' = w_server w
     else exists hd, set_flag (head (w_server w)) n (thread_complete st') = Ok hd /\
            w_server w' = set_head (w_server w) hd).
Proof.
  unfold conn_step. intros Hc. assert (Hns : forall code, w_main w <> Stopped code) by (intros code Heq; by rewrite Heq in Hc).
  assert (Hc' : (r ← system_step peers fuel i (w_sys w); n ← w_args w !! i;
      Some ('(ev, sg) ← r;
            hd ← (match flag_store i (w_sys w) sg with
                  | Some v => set_flag (head (w_server w)) n v
                  | None => Ok (head (w_server w))
                  end);
            Ok (ev, Whole (w_main w) (set_head (w_server w) hd) (w_heap w) (w_args w) sg (w_caught w))))
    = Some (Ok (r, w'))) by (by destruct (w_main w)). clear Hc.
  unfold system_step in Hc'. destruct (sys_threads (w_sys w) !! i) as [[p st]|] eqn:Hx; [|done]. cbn -[set_flag] in Hc'.
  destruct (w_args w !! i) as [n|] eqn:Hn; [|done]. cbn -[set_flag] in Hc'. injection Hc' as Hc'.
  destruct (thread_step _ _ _) as [[p' st']|] eqn:Ht; [|done]. cbn -[set_flag] in Hc'.
  exists p, st, p', st', n. unfold flag_store in Hc'. cbn [sys_threads] in Hc'.
  rewrite Hx, lookup_insert_eq in Hc'. cbn -[set_flag] in Hc'. case_decide as Hd.
  - injection Hc' as <- <-. repeat split; try done. cbn. by destruct (w_server w).
  - destruct (set_flag _ _ _) as [hd|] eqn:Hset; [|done]. injection Hc' as <- <-.
    repeat split; try done. by exists hd.
Qed.

Lemma finished_stays fuel p (st : tstate S) p' st' `{Peer} : thread_step fuel p st = Ok (p', st') ->
  p = Finished -> p' = Finished /\ st' = st.
Proof. intros Hs ->. by injection Hs as <- <-. Qed.

Lemma over_stays fuel p (st : tstate S) p' st' `{Peer} : thread_step fuel p st = Ok (p', st') ->
  over p -> over p' /\ thread_complete st' = thread_complete st.
Proof. intros Hs [-> | ->]; cbn in Hs; injection Hs as <- <-; (split; [by right | done]). Qed.

Lemma conn_ended fuel j w r w' i : conn_step peers fuel j w = Some (Ok (r, w')) -> ended w i -> ended w' i.
Proof.
  intros Hc (q & s & Hs & Hov). apply conn_flags in Hc as (p & st & p' & st' & n & Hx & _ & Ht & Hsys & _).
  unfold ended. rewrite Hsys. cbn. destruct (decide (i = j)) as [->|].
  - rewrite Hx in Hs. injection Hs as -> ->. exists p', st'. rewrite lookup_insert_eq. split; [done|].
    by apply (over_stays _ _ _ _ _ Ht).
  - rewrite lookup_insert_ne by done. by exists q, s.
Qed.

(** The flags and the place of main after a store to the flag of [n]. *)
Lemma main_ok_flag xs (w w' : whole S) n t v hd : slist (head (w_server w)) xs -> (n, t) ∈ xs ->
  set_flag (head (w_server w)) n v = Ok hd -> w_main w' = w_main w -> w_server w' = set_head (w_server w) hd ->
  v = 1 -> main_ok xs w -> main_ok (flag_at n v xs) w'.
Proof.
  intros Hl Hin Hset Hm Hsv -> Hok. destruct (set_flag_ok _ _ _ _ 1 Hl Hin) as (hd' & k & Hset' & _ & Hk & Hns & _).
  assert (hd' = hd) as -> by congruence. unfold main_ok in *. rewrite Hm, Hsv. destruct (w_main w) as [|l|m|m|]; try done.
  - destruct Hok as (ys & zs & -> & Hseg). exists (flag_at n 1 ys), (flag_at n 1 zs). split; [apply fmap_app|].
    cbn. rewrite Hns. by apply segment_flag.
  - destruct Hok as (u & i & Hu & Hc & Hi & Hj). eexists _, i.
    split; [apply flag_at_elem; by exists u|]. by case_decide.
  - by rewrite flag_at_nodes.
Qed.

(** A step of a thread sets one flag or none. *)
Definition flags_set (w w' : whole S) (f : list (nat * thread_info) -> list (nat * thread_info)) : Prop :=
  ((f = fun l => l) \/ exists n, f = flag_at n 1) /\
  (forall l zs, segment (nodes (head (w_server w))) l zs -> segment (nodes (head (w_server w'))) l (f zs)) /\
  size (nodes (head (w_server w'))) = size (nodes (head (w_server w))).

Lemma conn_step_inv xs fuel i w r w' : whole_inv xs w -> conn_step peers fuel i w = Some (Ok (r, w')) ->
  exists f, whole_inv (f xs) w' /\ flags_set w w' f.
Proof.
  intros Hi Hc. assert (Hend : forall j, ended w j -> ended w' j) by (intros j; by apply (conn_ended fuel i w r)).
  apply conn_flags in Hc as (p & st & p' & st' & n & Hx & Hn & Ht & Hsys & Hargs & Hm & _ & _ & _ & Hflag).
  destruct (Hi) as [Hl Hids Hth Ha Hf Hloc Hnd Hfin Hcl Hok].
  assert (Hfst : forall j, finished w j -> finished w' j).
  { intros j [s Hs]. unfold finished. rewrite Hsys. cbn. destruct (decide (j = i)) as [->|].
    - rewrite lookup_insert_eq. rewrite Hx in Hs. injection Hs as -> ->.
      destruct (finished_stays _ _ _ _ _ Ht eq_refl) as [-> _]. by eexists.
    - rewrite lookup_insert_ne by done. by exists s. }
  assert (Hth' : forall j, is_Some (sys_threads (w_sys w') !! j) <-> (j < started (w_server w))%nat).
  { intros j. rewrite Hsys. cbn. rewrite lookup_insert_is_Some', Hth. split; [|by right].
    intros [<-|?]; [apply Hth; by eexists | done]. }
  assert (Hloc' : forall j q s, sys_threads (w_sys w') !! j = Some (q, s) -> ~ over q -> thread_complete s = 0).
  { intros j q s Hs Hq. rewrite Hsys in Hs. cbn in Hs. apply lookup_insert_Some in Hs as [[<- [= <- <-]]|[_ Hs]].
    - destruct (thread_step_complete _ _ _ _ _ Ht) as [->|(_ & -> & _)]; [|by destruct Hq; left].
      cbn. apply (Hloc i p st Hx). intros Hov. by destruct Hq; apply (over_stays _ _ _ _ _ Ht).
    - by eapply Hloc. }
  case_decide as Hd.
  - exists (fun l => l). split; [|split; [by left | by rewrite Hflag]].
    split; rewrite ?Hflag, ?Hargs; try done.
    + intros m t Hin. destruct (Hf m t Hin) as [?|(? & j & ? & ? & Hj)]; [by left|]. right. split; [done|].
      exists j. rewrite Hflag, Hm. auto.
    + intros j Hj. auto.
    + unfold main_ok in *. by rewrite Hm, Hflag.
  - destruct Hflag as (hd & Hset & Hsv).
    destruct (thread_step_complete _ _ _ _ _ Ht) as [Heq|(Hp & -> & Hone)]; [done|]. rewrite Hone in Hset.
    destruct (proj1 (Ha i n) Hn) as (fd & t & Hin & Hti & Hfd).
    destruct (set_flag_ok _ _ _ _ 1 Hl Hin) as (hd' & k & Hset' & Hl' & Hk & Hns & _).
    assert (hd' = hd) as -> by congruence. exists (flag_at n 1). split; cycle 1.
    { split; [right; by eexists|]. rewrite Hsv. cbn. rewrite Hns. split; [intros l zs; by apply segment_flag|].
      by rewrite map_size_insert_Some. }
    split; rewrite ?Hsv, ?Hargs; cbn; try done.
    + by rewrite flag_at_ids.
    + intros j m. rewrite Ha. by setoid_rewrite flag_at_entry.
    + intros m u (u' & Hu & ->)%flag_at_elem. case_decide as Hmn.
      * subst m. right. split; [done|]. exists i. assert (u' = t) as -> by (by eapply (slist_unique _ xs n)).
        split; [done|]. split.
        { exists Closing, st'. rewrite Hsys. cbn. rewrite lookup_insert_eq. split; [done | by left]. }
        rewrite Hsv. cbn. intros Hj. destruct (Hfin i Hj) as [s Hs]. destruct Hp. right. congruence.
      * destruct (Hf m u' Hu) as [?|(? & j & ? & ? & Hj)]; [by left|]. right. split; [done|].
        exists j. rewrite Hsv, Hm. auto.
    + intros j Hj. auto.
    + eapply Forall2_impl; [exact Hcl|]. intros j fd' [m Hm']. exists m. by apply flag_at_entry.
    + by eapply (main_ok_flag xs w w' n t 1 hd).
Qed.

Lemma server_step_inv xs w r w' : whole_inv xs w -> server_step peers None skt_fd w r w' -> exists xs', whole_inv xs' w'.
Proof.
  intros Hi Hs. destruct Hs as [ev w w' Hev Hm|fuel i w log w' Hc|sig w].
  - by eapply main_step_inv.
  - destruct (conn_step_inv xs fuel i w log w' Hi Hc) as (f & ? & _). by eexists.
  - exists xs. by destruct Hi.
Qed.

Lemma start_inv d : whole_inv [] (server_start d).
Proof.
  split; cbn; try done.
  - split; constructor.
  - intros i. rewrite lookup_empty. split; [by intros []|lia].
  - intros i n. rewrite lookup_empty. split; [done|]. by intros (fd & t & ?%elem_of_nil & _).
  - intros n t ?%elem_of_nil. done.
  - constructor.
  - intros i ?%elem_of_nil. done.
Qed.

Lemma run_inv d log w : server_run peers None skt_fd (server_start d) log w -> exists xs, whole_inv xs w.
Proof.
  intros Hr. remember (server_start d) as w0 eqn:Hw0. induction Hr as [w0|w0 log w1 ev w2 Hr IH Hs].
  - subst. by exists []; apply start_inv.
  - destruct (IH Hw0) as [xs Hi]. by eapply server_step_inv.
Qed.
End Invariant.
