(* ===== verification/WholeRuns.v ===== *)
(** * The whole server: its runs

    A run of the whole server is an interleaving of its threads, in which the
    threads were there from the beginning; a completion that main sees is joined, one that falls
    between the test and the clearing is lost. *)

From stdpp Require Import base numbers strings gmap list.
From S2P Require Import Prelude CMem CText RingSpec DriverSpec Ioctl Slist Server ServerMain ServerFacts FlipFacts.
From S2P Require Import ServerSpec ServerConn ServerThreads ServerWhole WholeFacts.

#[local] Open Scope Z_scope.

(** ** Runs are interleavings *)

Section Interleaving.
Context {S : Type} `{CharDev S} `{AllocOracle} (peers : nat -> Peer).
Context (skt_fd : Z).

Definition add_thread (j : nat) (x : stage * tstate S) (sg : system S) : system S :=
  System (sys_dev sg) (sys_lock sg) (<[j := x]> (sys_threads sg)).

Lemma step_add fuel i j x (sg : system S) ev sg' : system_step peers fuel i sg = Some (Ok (ev, sg')) ->
  sys_threads sg' !! j = None ->
  sys_threads sg !! j = None /\
  system_step peers fuel i (add_thread j x sg) = Some (Ok (ev, add_thread j x sg')).
Proof.
  unfold system_step. intros Hs Hj. destruct (sys_threads sg !! i) as [[p st]|] eqn:Hi; [|done]. cbn in Hs.
  injection Hs as Hs. destruct (thread_step _ _ _) as [[p' st']|] eqn:Ht; [|done]. cbn in Hs.
  injection Hs as <- <-. cbn in Hj. apply lookup_insert_None in Hj as [Hj Hij]. split; [done|].
  cbn. rewrite lookup_insert_ne by done. rewrite Hi. cbn. unfold resume in *. cbn in *. rewrite Ht. cbn.
  unfold add_thread. cbn. by rewrite insert_insert_ne.
Qed.

(** A thread that does not run can be there from the beginning. *)
Lemma interleaving_add j x (sg : system S) log sg' : interleaving peers sg log sg' -> sys_threads sg' !! j = None ->
  interleaving peers (add_thread j x sg) log (add_thread j x sg').
Proof.
  induction 1 as [|sg log sg1 fuel i ev sg2 _ IH Hs]; intros Hj; [constructor|].
  destruct (step_add fuel i j x sg1 ev sg2 Hs Hj) as [Hj1 Hs']. by econstructor; [apply IH|].
Qed.

Lemma add_entry_started fuel sv e created fd r sv' : add_slist_entry fuel sv (Some e) created fd = Ok (r, sv') ->
  started sv' = if created then Datatypes.S (started sv) else started sv.
Proof.
  unfold add_slist_entry. destruct (if SLIST_EMPTY _ then _ else _) as [hd|]; [|done].
  rewrite bind_ok. intros [= _ <-]. done.
Qed.

(** Main changes the threads only by creating one. *)
Lemma main_step_sys ev (w w' : whole S) : main_step None skt_fd ev w = Some (Ok w') ->
  (w_sys w' = w_sys w /\ started (w_server w') = started (w_server w)) \/
  (w_sys w' = add_thread (started (w_server w)) (fresh_thread (w_sys w)) (w_sys w) /\
   started (w_server w') = Datatypes.S (started (w_server w))).
Proof.
  unfold main_step. destruct (w_main w) as [|[| |n]|n|n|]; intros Hs; try done.
  - apply (inj Some) in Hs. unfold accept_step in Hs. destruct (w_caught w); [done|].
    destruct ev as [fd ip [e|] created| |]; [| |injection Hs as <-; by left..].
    + destruct (log_client _ _) as [h|]; [|done]. rewrite bind_ok in Hs.
      destruct (add_slist_entry _ _ _ _ _) as [[r sv]|] eqn:Hadd; [|done]. rewrite bind_ok in Hs.
      apply add_entry_started in Hadd. unfold create_thread in Hs. destruct created; injection Hs as <-; [right|left]; done.
    + destruct (log_client _ _) as [h|]; [|done]. by rewrite bind_ok in Hs.
  - injection Hs as <-. by left.
  - apply (inj Some) in Hs. destruct (deref _ _); [|done]. rewrite bind_ok in Hs. injection Hs as <-. by left.
  - unfold join_step in Hs. destruct (deref _ _); [|done]. destruct (thread_id _); [|done].
    case_decide; [done|]. destruct (_ !! _) as [[[] ?]|]; try done. injection Hs as <-. by left.
  - apply (inj Some) in Hs. destruct (set_flag _ _ _) as [hd|]; [|done]. rewrite bind_ok in Hs.
    destruct (deref _ _); [|done]. rewrite bind_ok in Hs. injection Hs as <-. by left.
Qed.

Lemma conn_step_system fuel i (w : whole S) r w' : conn_step peers fuel i w = Some (Ok (r, w')) ->
  system_step peers fuel i (w_sys w) = Some (Ok (r, w_sys w')) /\ started (w_server w') = started (w_server w).
Proof.
  intros Hc. apply conn_flags in Hc as (p & st & p' & st' & n & Hx & Hn & Ht & Hsys & _ & _ & _ & -> & _ & Hf).
  unfold system_step. rewrite Hx. cbn. rewrite Ht. cbn. rewrite Hsys. split; [done|].
  case_decide; [by rewrite Hf|]. by destruct Hf as (hd & _ & ->).
Qed.

(** Every run of the server is an interleaving of the threads it has started,
    each at its beginning when the server entered its loop. *)
Lemma run_interleaving d log w : server_run peers None skt_fd (server_start d) log w ->
  exists ths, (forall i p st, ths !! i = Some (p, st) -> p = Opening /\ t_recv st = 0%nat) /\
    interleaving peers (System d false ths) log (w_sys w).
Proof.
  intros Hr. remember (server_start d) as w0 eqn:Hw0. induction Hr as [w0|w0 log w1 ev w2 Hr IH Hs].
  - subst. exists ∅. split; [|constructor]. intros i p st. by rewrite lookup_empty.
  - subst. destruct (run_inv skt_fd peers d log w1 Hr) as [xs Hi]. destruct (IH eq_refl) as (ths & Hths & Hint).
    destruct Hs as [ev w1 w2 Hev Hm|fuel i w1 log' w2 Hc|sig w1].
    + rewrite app_nil_r. destruct (main_step_sys _ _ _ Hm) as [[-> _]|[-> _]]; [by exists ths|].
      set (k := started (w_server w1)). exists (<[k := fresh_thread (w_sys w1)]> ths). split.
      * intros i p st [[_ [= <- <-]]|[_ ?]]%lookup_insert_Some; [done | by apply (Hths i)].
      * apply (interleaving_add k (fresh_thread (w_sys w1)) _ _ _ Hint).
        apply eq_None_not_Some. rewrite (wi_threads _ _ Hi). fold k. lia.
    + exists ths. split; [done|]. econstructor; [done|]. by destruct (conn_step_system _ _ _ _ _ Hc).
    + rewrite app_nil_r. by exists ths.
Qed.
End Interleaving.

(** ** Completions *)

Section Completion.
Context {S : Type} `{CharDev S} `{AllocOracle} (peers : nat -> Peer).
Context (skt_fd : Z).

(** thread_complete of the entry of thread [i]. *)
Definition flag_of (w : whole S) (i : nat) : option Z :=
  n ← w_args w !! i; x ← nodes (head (w_server w)) !! n; Some (ti_complete (node_data x)).

(** The flag in the list. *)
Definition flagged (xs : list (nat * thread_info)) (i : nat) (v : Z) : Prop :=
  exists n t, (n, t) ∈ xs /\ thread_id t = Some i /\ ti_complete t = v.

Lemma flag_of_list xs (w : whole S) i v : whole_inv xs w -> flag_of w i = Some v <-> flagged xs i v.
Proof.
  intros Hi. unfold flag_of. split.
  - destruct (w_args w !! i) as [n|] eqn:Hn; [|done]. cbn. intros Hv.
    destruct (proj1 (wi_args _ _ Hi i n) Hn) as (fd & t & Hin & Ht & _).
    destruct (slist_elem _ _ _ _ (wi_list _ _ Hi) Hin) as [k Hk]. rewrite Hk in Hv. injection Hv as <-.
    by exists n, t.
  - intros (n & t & Hin & Ht & <-). rewrite (proj2 (wi_args _ _ Hi i n)) by (exists (connected_skt_fd t), t; done).
    cbn. destruct (slist_elem _ _ _ _ (wi_list _ _ Hi) Hin) as [k Hk]. by rewrite Hk.
Qed.

(** An entry belongs to one thread. *)
Lemma entry_thread xs (w : whole S) n t i m u : whole_inv xs w -> (n, t) ∈ xs -> thread_id t = Some i ->
  (m, u) ∈ xs -> thread_id u = Some i -> n = m /\ t = u.
Proof.
  intros Hi Hn Ht Hm Hu. assert (n = m) as <-.
  { enough (Some n = Some m) by congruence.
    rewrite <- (proj2 (wi_args _ _ Hi i n)) by (exists (connected_skt_fd t), t; done).
    apply (wi_args _ _ Hi). by exists (connected_skt_fd u), u. }
  split; [done|]. by eapply (slist_unique _ xs n); [apply (wi_list _ _ Hi)|..].
Qed.

Lemma flagged_unique xs (w : whole S) i v v' : whole_inv xs w -> flagged xs i v -> flagged xs i v' -> v = v'.
Proof. intros Hi H1 H2. apply (flag_of_list xs w) in H1, H2; [congruence|done..]. Qed.

(** A step of a thread leaves the flags of the others alone, and its own once
    it has but to close its file and return. *)
Lemma conn_flag_of xs fuel j (w : whole S) r w' i : whole_inv xs w -> conn_step peers fuel j w = Some (Ok (r, w')) ->
  i <> j \/ ended w i -> flag_of w' i = flag_of w i.
Proof.
  intros Hi Hc Hij. apply conn_flags in Hc as (p & st & p' & st' & n & Hx & Hn & Ht & Hsys & Hargs & Hm & _ & _ & _ & Hf).
  unfold flag_of. rewrite Hargs. case_decide as Hd; [by rewrite Hf|]. destruct Hf as (hd & Hset & ->).
  assert (Hne : i <> j).
  { destruct Hij as [?|(q & s & Hs & Hov)]; [done|]. intros ->. rewrite Hx in Hs. injection Hs as -> ->.
    by destruct (over_stays _ _ _ _ _ Ht Hov). }
  destruct (w_args w !! i) as [m|] eqn:Hmi; [|done]. cbn.
  assert (m <> n).
  { intros ->. destruct (proj1 (wi_args _ _ Hi i n) Hmi) as (fd & t & Hin & Hti & _).
    destruct (proj1 (wi_args _ _ Hi j n) Hn) as (fd' & t' & Hin' & Htj & _).
    assert (t = t') as -> by (by eapply (slist_unique _ xs n); [apply (wi_list _ _ Hi)|..]). congruence. }
  unfold set_flag in Hset. destruct (deref _ _) as [x|]; [|done]. cbn in Hset. injection Hset as <-.
  cbn. by rewrite lookup_insert_ne.
Qed.

Lemma conn_joined fuel j (w : whole S) r w' : conn_step peers fuel j w = Some (Ok (r, w')) ->
  joined (w_server w') = joined (w_server w) /\ closed (w_server w') = closed (w_server w).
Proof.
  intros Hc. apply conn_flags in Hc as (p & st & p' & st' & n & _ & _ & _ & _ & _ & _ & _ & _ & _ & Hf).
  case_decide; [by rewrite Hf|]. by destruct Hf as (hd & _ & ->).
Qed.

Lemma flagged_app xs ys i v : flagged (xs ++ ys) i v <-> flagged xs i v \/ flagged ys i v.
Proof. unfold flagged. setoid_rewrite elem_of_app. naive_solver. Qed.

Lemma flagged_at n v xs i : flagged xs i v -> flagged (flag_at n v xs) i v.
Proof.
  intros (m & t & Hin & Ht & Hv). eexists m, _. split; [apply flag_at_elem; by exists t|]. by case_decide.
Qed.

(** *** A completion that was missed *)

Definition missed (i : nat) (w : whole S) : Prop :=
  ended w i /\ i ∉ joined (w_server w) /\ flag_of w i = Some 0.

Lemma missed_step i xs w r w' : whole_inv xs w -> server_step peers None skt_fd w r w' -> missed i w -> missed i w'.
Proof.
  intros Hi Hs (Hfin & Hj & Hf). apply (flag_of_list xs w i 0 Hi) in Hf as Hfl.
  destruct Hs as [ev w w' Hev Hm|fuel j w log w' Hc|sig w]; [| |done].
  - destruct (w_main w) as [|l|n|n|code] eqn:Hw.
    + unfold main_step in Hm. rewrite Hw in Hm. apply (inj Some) in Hm.
      destruct (accept_inv skt_fd xs w ev w' Hi Hw Hev Hm) as (ys & Hi' & Hj' & _ & Hfin').
      split; [by apply Hfin'|]. split; [by rewrite Hj'|]. apply (flag_of_list _ w' i 0 Hi').
      apply flagged_app. by left.
    + destruct (check_step skt_fd xs w l Hi Hw) as (w1 & H1 & Hi1 & Hsv & Hsys & _).
      unfold main_step in Hm, H1. rewrite Hw in Hm, H1. rewrite H1 in Hm. injection Hm as <-.
      split; [by unfold ended; rewrite Hsys|]. split; [by rewrite Hsv|]. by apply (flag_of_list _ w1 i 0 Hi1).
    + destruct (join_ok skt_fd xs w n ev w' Hi Hw Hm) as (q & Hi1 & _ & _ & Hq & Hjo & Hsys).
      pose proof (wi_main _ _ Hi) as Hok. unfold main_ok in Hok. rewrite Hw in Hok.
      destruct Hok as (t & q' & Hin & Hc & Ht & _).
      split; [by unfold ended; rewrite Hsys|]. split; [|by apply (flag_of_list _ w' i 0 Hi1)].
      rewrite Hjo. intros [?| ->%list_elem_of_singleton]%elem_of_app; [done|].
      destruct (proj1 (wi_args _ _ Hi q n) Hq) as (fd & t' & Hin' & Ht' & _).
      assert (t' = t) as -> by (by eapply (slist_unique _ xs n); [apply (wi_list _ _ Hi)|..]).
      assert (0 = 1); [|lia]. apply (flagged_unique xs w q); [done|done|]. by exists n, t.
    + destruct (clear_ok skt_fd xs w n Hi Hw) as (w1 & ys & t & zs & l & H1 & _ & Hi1 & _ & _ & Hjo & Hsys & _).
      unfold main_step in Hm, H1. rewrite Hw in Hm, H1. rewrite H1 in Hm. injection Hm as <-.
      split; [by unfold ended; rewrite Hsys|]. split; [by rewrite Hjo|].
      apply (flag_of_list _ w1 i 0 Hi1). by apply flagged_at.
    + unfold main_step in Hm. by rewrite Hw in Hm.
  - split; [by eapply conn_ended|]. destruct (conn_joined _ _ _ _ _ Hc) as [-> _]. split; [done|].
    rewrite <- Hf. eapply conn_flag_of; [exact Hi|exact Hc|by right].
Qed.

(** Main never joins it. *)
Lemma missed_forever i xs w log w' : whole_inv xs w -> server_run peers None skt_fd w log w' -> missed i w ->
  (exists xs', whole_inv xs' w') /\ missed i w'.
Proof.
  intros Hi Hr Hm.
  induction Hr as [w|w log w1 ev w2 Hr IH Hs]; [eauto|].
  destruct (IH Hi Hm) as [[xs' Hi'] Hm']. split; [by eapply server_step_inv | by eapply missed_step].
Qed.

(** The step of main that clears a flag which was set behind its back. *)
Lemma clear_missed xs w n i ev w1 : whole_inv xs w -> w_main w = AtClear n -> w_args w !! i = Some n ->
  ended w i -> i ∉ joined (w_server w) -> main_step None skt_fd ev w = Some (Ok w1) ->
  exists xs1, whole_inv xs1 w1 /\ missed i w1.
Proof.
  intros Hi Hm Hn Hend Hj Hs.
  destruct (clear_ok skt_fd xs w n Hi Hm) as (w2 & ys & t & zs & l & H1 & _ & Hi1 & _ & _ & Hjo & Hsys & Ht & _).
  unfold main_step in Hs, H1. rewrite Hm in Hs, H1. rewrite H1 in Hs. injection Hs as <-.
  exists (flag_at n 0 xs). split; [done|]. split; [by unfold ended; rewrite Hsys|]. split; [by rewrite Hjo|].
  apply (flag_of_list _ w2 i 0 Hi1). destruct (proj1 (wi_args _ _ Hi i n) Hn) as (fd & u & Hin & Hu & _).
  exists n, (with_flag 0 u). split; [apply flag_at_elem; exists u; by rewrite decide_True | done].
Qed.

(** *** A completion that main will see *)

(** The flag of thread [i] was set when main began to wait for connections,
    with [k] entries; main has joined it, or is still before its entry. *)
Definition ahead (i k : nat) (xs : list (nat * thread_info)) (w : whole S) : Prop :=
  match w_main w with
  | AtAccept => size (nodes (head (w_server w))) = k
  | AtCheck l => exists ys zs, xs = ys ++ zs /\ segment (nodes (head (w_server w))) l zs /\ flagged zs i 1
  | AtJoin n => exists ys t zs, xs = ys ++ (n, t) :: zs /\ flagged ((n, t) :: zs) i 1
  | AtClear n => exists ys t zs, xs = ys ++ (n, t) :: zs /\ flagged zs i 1
  | Stopped _ => True
  end.

Definition awaited (i k : nat) (xs : list (nat * thread_info)) (w : whole S) : Prop :=
  i ∈ joined (w_server w) \/ (flagged xs i 1 /\ ahead i k xs w).

Lemma flags_set_flagged (w w' : whole S) f xs i : flags_set w w' f -> flagged xs i 1 -> flagged (f xs) i 1.
Proof. intros ([->|[n ->]] & _) Hf; [done | by apply flagged_at]. Qed.

Lemma flags_set_app (w w' : whole S) f xs ys : flags_set w w' f -> f (xs ++ ys) = f xs ++ f ys.
Proof. intros ([->|[n ->]] & _); [done | apply fmap_app]. Qed.

Lemma flags_set_cons (w w' : whole S) f n t xs : flags_set w w' f -> exists t', f ((n, t) :: xs) = (n, t') :: f xs.
Proof. intros ([->|[m ->]] & _); [by eexists|]. csimpl. case_decide; by eexists. Qed.

(** A flag that is set stays ahead when another is set. *)
Lemma ahead_flags i k xs w w' f : flags_set w w' f -> w_main w' = w_main w -> ahead i k xs w -> ahead i k (f xs) w'.
Proof.
  intros Hf Hm Ha. unfold ahead in *. rewrite Hm. destruct (w_main w) as [|l|n|n|].
  - by destruct Hf as (_ & _ & ->).
  - destruct Ha as (ys & zs & -> & Hs & Hi). exists (f ys), (f zs).
    split; [by eapply flags_set_app|]. split; [by apply (proj2 Hf) | by eapply flags_set_flagged].
  - destruct Ha as (ys & t & zs & -> & Hi). destruct (flags_set_cons w w' f n t zs Hf) as [t' Ht].
    exists (f ys), t', (f zs). rewrite (flags_set_app w w' f) by done. rewrite <- Ht.
    split; [done | by eapply flags_set_flagged].
  - destruct Ha as (ys & t & zs & -> & Hi). destruct (flags_set_cons w w' f n t zs Hf) as [t' Ht].
    exists (f ys), t', (f zs). rewrite (flags_set_app w w' f), Ht by done. split; [done | by eapply flags_set_flagged].
  - done.
Qed.

Lemma flagged_cons n t xs i v : flagged ((n, t) :: xs) i v <-> (thread_id t = Some i /\ ti_complete t = v) \/ flagged xs i v.
Proof. unfold flagged. setoid_rewrite elem_of_cons. naive_solver. Qed.

Lemma flagged_clear n (xs : list (nat * thread_info)) i v : n ∉ xs.*1 -> flagged xs i v -> flagged (flag_at n 0 xs) i v.
Proof.
  intros Hn (m & t & Hin & Ht & Hv). exists m, t. split; [|done]. apply flag_at_elem. exists t. split; [done|].
  rewrite decide_False; [done|]. intros ->. apply Hn, list_elem_of_fmap. by exists (n, t).
Qed.

(** An element is at one place of the list. *)
Lemma same_split {A} (ys zs ys' zs' : list (nat * A)) n t t' : NoDup (ys ++ (n, t) :: zs).*1 ->
  ys ++ (n, t) :: zs = ys' ++ (n, t') :: zs' -> ys = ys' /\ t = t' /\ zs = zs'.
Proof.
  revert ys'. induction ys as [|y ys IH]; intros ys' Hd Heq; destruct ys' as [|y' ys']; cbn in Heq, Hd;
    apply NoDup_cons in Hd as [Hn Hd]; injection Heq as Hy Heq.
  - by subst.
  - subst. destruct Hn. rewrite fmap_app. apply elem_of_app. right. by left.
  - subst. destruct Hn. rewrite fmap_app. apply elem_of_app. right. by left.
  - subst y'. destruct (IH ys' Hd Heq) as (-> & -> & ->). done.
Qed.

Lemma awaited_main i k xs w ev w' : whole_inv xs w -> event_ok ev w -> main_step None skt_fd ev w = Some (Ok w') ->
  awaited i k xs w -> exists xs', whole_inv xs' w' /\ awaited i k xs' w'.
Proof.
  intros Hi Hev Hm Ha. destruct (w_main w) as [|l|n|n|code] eqn:Hw; [| | | |unfold main_step in Hm; by rewrite Hw in Hm].
  - unfold main_step in Hm. rewrite Hw in Hm. apply (inj Some) in Hm.
    destruct (accept_inv skt_fd xs w ev w' Hi Hw Hev Hm) as (ys & Hi' & Hj' & Hw' & _).
    exists (xs ++ ys). split; [done|]. destruct Ha as [Ha|[Hf Ha]]; [left; by rewrite Hj'|].
    unfold awaited. destruct Hw' as [->|Hw'].
    { right. split; [apply flagged_app; by left|]. unfold ahead in *. by rewrite Hw in *. }
    right. split; [apply flagged_app; by left|]. unfold ahead. destruct Hw' as [[code ->]| ->]; [done|].
    eexists [], _. split; [done|]. split; [apply (wi_list _ _ Hi')|]. apply flagged_app. by left.
  - destruct (check_step skt_fd xs w l Hi Hw) as (w1 & H1 & Hi1 & Hsv & _ & Hl).
    unfold main_step in Hm, H1. rewrite Hw in Hm, H1. rewrite H1 in Hm. injection Hm as <-.
    exists xs. split; [done|]. destruct Ha as [Ha|[Hf Ha]]; [left; by rewrite Hsv|].
    unfold ahead in Ha. rewrite Hw in Ha. destruct Ha as (ys & zs & -> & Hs & Hz). right. split; [done|].
    unfold ahead. destruct Hs as [|n t l zs Hn Hs]; [destruct Hz as (? & ? & ?%elem_of_nil & _); done|].
    destruct Hl as (u & Hu & Hmain). rewrite Hmain.
    assert (u = t) as ->.
    { destruct (slist_elem _ _ _ _ (wi_list _ _ Hi) Hu) as [q Hq]. congruence. }
    destruct (Z.eqb_spec (ti_complete t) 1) as [Hc|Hc]; exists ys, t, zs; (split; [done|]); [done|].
    apply flagged_cons in Hz as [[_ ?]|?]; done.
  - destruct (join_ok skt_fd xs w n ev w' Hi Hw Hm) as (q & Hi1 & Hw1 & Hhd & Hq & Hjo & _).
    exists xs. split; [done|]. destruct Ha as [Ha|[Hf Ha]]; [left; rewrite Hjo; set_solver|].
    unfold ahead in Ha. rewrite Hw in Ha. destruct Ha as (ys & t & zs & -> & Hz).
    apply flagged_cons in Hz as [[Ht _]|Hz]; [left|right].
    + rewrite Hjo. assert (i = q) as <-; [|set_solver].
      destruct (proj1 (wi_args _ _ Hi q n) Hq) as (fd & t' & Hin' & Ht' & _).
      assert (t' = t) as -> by (eapply (slist_unique _ _ n); [apply (wi_list _ _ Hi)|done|set_solver]). congruence.
    + split; [done|]. unfold ahead. rewrite Hw1. by exists ys, t, zs.
  - destruct (clear_ok skt_fd xs w n Hi Hw) as (w1 & ys & t & zs & l & H1 & Hxs & Hi1 & Hw1 & Hseg & Hjo & _).
    unfold main_step in Hm, H1. rewrite Hw in Hm, H1. rewrite H1 in Hm. injection Hm as <-.
    eexists. split; [exact Hi1|]. destruct Ha as [Ha|[Hf Ha]]; [left; by rewrite Hjo|].
    unfold ahead in Ha. rewrite Hw in Ha. destruct Ha as (ys' & t' & zs' & Hxs' & Hz).
    destruct (wi_list _ _ Hi) as [_ Hd]. rewrite Hxs in Hd. rewrite Hxs in Hxs'.
    destruct (same_split _ _ _ _ _ _ _ Hd Hxs') as (<- & <- & <-).
    assert (Hn : n ∉ zs.*1).
    { rewrite fmap_app in Hd. apply NoDup_app in Hd as (_ & _ & Hd). cbn in Hd. by apply NoDup_cons in Hd as [? _]. }
    apply (flagged_clear n) in Hz; [|done]. right. split.
    + rewrite Hxs. unfold flag_at. rewrite fmap_app. apply flagged_app. right.
      cbn. rewrite decide_True by done. apply flagged_cons. by right.
    + unfold ahead. rewrite Hw1. exists (flag_at n 0 (ys ++ [(n, t)])), (flag_at n 0 zs).
      split; [|done]. rewrite Hxs. unfold flag_at. rewrite <- fmap_app. by rewrite <- app_assoc.
Qed.

Lemma awaited_run i k xs w log w' : whole_inv xs w -> awaited i k xs w -> server_run peers None skt_fd w log w' ->
  exists xs', whole_inv xs' w' /\ awaited i k xs' w'.
Proof.
  intros Hi Ha Hr. induction Hr as [w|w log w1 ev w2 Hr IH Hs]; [eauto|].
  destruct (IH Hi Ha) as (xs1 & Hi1 & Ha1). destruct Hs as [ev w1 w2 Hev Hm|fuel j w1 log' w2 Hc|sig w1].
  - by eapply awaited_main.
  - destruct (conn_step_inv peers xs1 fuel j w1 log' w2 Hi1 Hc) as (f & Hi2 & Hf). exists (f xs1). split; [done|].
    destruct (conn_joined _ _ _ _ _ Hc) as [Hj _]. destruct Ha1 as [Ha1|[Hfl Ha1]]; [left; by rewrite Hj|].
    right. split; [by eapply flags_set_flagged|]. eapply ahead_flags; [exact Hf| |done].
    by apply conn_flags in Hc as (p & st & p' & st' & n & _ & _ & _ & _ & _ & ? & _).
  - exists xs1. split; [by destruct Hi1 | done].
Qed.
End Completion.
