(* ===== verification/WholeProps.v ===== *)
(** * The whole server: the theorems

    What holds of every run of main beside the threads of the connections:
    main does not fault and waits only for a thread about to return, joins
    each thread at most once and after its end, the device gets what the clients send; and which
    completions main sees and which it misses. *)

From stdpp Require Import base numbers strings gmap list.
From S2P Require Import Prelude CMem CString CText CircularBuffer RingSpec RingFacts CharDriver DriverSpec DriverWrite.
From S2P Require Import DriverProps Ioctl Slist Server ServerMain ServerFacts FlipFacts ServerSpec ServerConn.
From S2P Require Import ServerThreads ThreadFacts ThreadProps ServerWhole WholeFacts WholeRuns.

#[local] Open Scope Z_scope.

(** What accept(), inet_ntop() and malloc() must answer for main to go on: an
    address whose parts have at most two digits, and memory. *)
Definition event_good {S} (ev : accept_event) (w : whole S) : Prop :=
  match ev with
  | AcceptConn _ ip entry _ =>
      (exists e, entry = Some e /\ nodes (head (w_server w)) !! e = None) /\
      exists a b c d, ip = dotted a b c d /\ octet 2 a /\ octet 2 b /\ octet 2 c /\ octet 2 d
  | _ => True
  end.

(** Main can take its next step, or waits in pthread_join() for a thread that
    has but to close its file and return; that step is possible, and then
    main goes on. *)
Definition goes_on {S} `{CharDev S} `{AllocOracle} (peers : nat -> Peer) (skt_fd : Z) (ev : accept_event) (w : whole S) : Prop :=
  (exists w', main_step None skt_fd ev w = Some (Ok w')) \/
  exists n i st, w_main w = AtJoin n /\ w_args w !! i = Some n /\
    sys_threads (w_sys w) !! i = Some (Closing, st) /\ main_step None skt_fd ev w = None /\
    forall fuel, exists w1 w', conn_step peers fuel i w = Some (Ok ([], w1)) /\ main_step None skt_fd ev w1 = Some (Ok w').

(** The step of a thread that closes its file and returns. *)
Lemma closing_step {S} `{CharDev S} `{AllocOracle} peers fuel i (w : whole S) n st :
  (forall code, w_main w <> Stopped code) -> sys_threads (w_sys w) !! i = Some (Closing, st) -> w_args w !! i = Some n ->
  exists w1, conn_step peers fuel i w = Some (Ok ([], w1)) /\ w_main w1 = w_main w /\ finished w1 i.
Proof.
  intros Hns Hx Hn. destruct (file_close (resume (w_sys w) st)) as [[[] st1]|] eqn:Hcl; [|done].
  set (sg := System (t_dev st1) (t_lock st1) (<[i := (Finished, st1)]> (sys_threads (w_sys w)))).
  assert (Hs : system_step peers fuel i (w_sys w) = Some (Ok ([], sg))).
  { unfold system_step. rewrite Hx. cbn [mbind option_bind thread_step]. by rewrite (run_bind _ _ _ _ _ Hcl). }
  assert (Hf : flag_store i (w_sys w) sg = None).
  { unfold flag_store. rewrite Hx. cbn -[lookup]. rewrite lookup_insert_eq. injection Hcl as <-. cbn. by rewrite decide_True. }
  exists (Whole (w_main w) (set_head (w_server w) (head (w_server w))) (w_heap w) (w_args w) sg (w_caught w)).
  split; [|split; [done | exists st1; apply lookup_insert_eq]].
  unfold conn_step. rewrite Hs, Hn. cbn [mbind option_bind]. rewrite bind_ok, Hf, bind_ok.
  destruct (w_main w) eqn:Hm; try done. by destruct (Hns code).
Qed.

Lemma join_goes_on {S} `{CharDev S} `{AllocOracle} peers skt_fd xs (w : whole S) n ev : whole_inv xs w ->
  w_main w = AtJoin n -> goes_on peers skt_fd ev w.
Proof.
  intros Hi Hm. destruct (join_target skt_fd xs w n ev Hi Hm) as (t & i & p & st & Hin & Ht & Hj & Hst & [-> | ->] & Hs);
    [right | left; by eexists].
  assert (Hn : w_args w !! i = Some n) by (apply (wi_args _ _ Hi); by exists (connected_skt_fd t), t).
  exists n, i, st. do 4 (split; [done|]). intros fuel.
  destruct (closing_step peers fuel i w n st) as (w1 & Hc & Hm1 & [st1 Hf]); [by rewrite Hm|done|done|].
  destruct (conn_step_inv peers xs fuel i w [] w1 Hi Hc) as (f & Hi1 & _). rewrite Hm in Hm1.
  destruct (join_target skt_fd _ w1 n ev Hi1 Hm1) as (t1 & i1 & p1 & s1 & Hin1 & Ht1 & _ & Hst1 & _ & Hs1).
  assert (i1 = i) as ->.
  { assert (Hn1 : w_args w1 !! i = Some n).
    { apply conn_flags in Hc as (? & ? & ? & ? & ? & _ & _ & _ & _ & -> & _). done. }
    destruct (proj1 (wi_args _ _ Hi1 i n) Hn1) as (fd & t' & Hin' & Ht' & _).
    assert (t' = t1) as -> by (eapply (slist_unique _ _ n); [apply (wi_list _ _ Hi1)|done|done]). congruence. }
  rewrite Hf in Hst1. injection Hst1 as <- <-. by eexists w1, _.
Qed.

Lemma main_goes_on {S} `{CharDev S} `{AllocOracle} peers skt_fd xs (w : whole S) ev : whole_inv xs w ->
  w_caught w = false -> (forall code, w_main w <> Stopped code) -> event_good ev w -> goes_on peers skt_fd ev w.
Proof.
  intros Hi Hc Hns Hev. destruct (w_main w) as [|l|n|n|code] eqn:Hm.
  - left. unfold main_step, accept_step. rewrite Hm, Hc. destruct ev as [fd ip entry created| |]; [|by eexists..].
    destruct Hev as ((e & -> & He) & a & b & c & d & -> & Ha & Hb & Hcc & Hd).
    destruct (log_client_ok (w_heap w) a b c d Ha Hb Hcc Hd) as (h & -> & _). rewrite bind_ok.
    destruct (add_entry_appends created (list_fuel (w_server w)) (w_server w) xs e fd (wi_list _ _ Hi) He)
      as (sv & -> & _); [pose proof (slist_fuel _ _ (wi_list _ _ Hi)); lia|].
    rewrite bind_ok. destruct (create_thread _ _ _ _ _). by eexists.
  - left. destruct (check_step skt_fd xs w l Hi Hm) as (w' & H1 & _). exists w'. unfold main_step in *. by rewrite Hm in *.
  - by apply (join_goes_on peers skt_fd xs w n).
  - left. destruct (clear_ok skt_fd xs w n Hi Hm) as (w' & ys & t & zs & l & H1 & _). exists w'.
    unfold main_step in *. by rewrite Hm in *.
  - by destruct (Hns code).
Qed.

(** ** A server on the driver *)

Definition conn (fd : Z) (e : nat) : accept_event := AcceptConn fd (lit "10.0.2.15") (Some e) true.

(** [n] steps of thread [i], or of main without a connection. *)
Definition threads (n i : nat) : list (accept_event + nat) := replicate n (inr i).
Definition mains (n : nat) : list (accept_event + nat) := replicate n (inl AcceptAgain).

Definition demo_turns (order : list (accept_event + nat)) : option (list (nat * list char) * whole kstate) :=
  @turns kstate (driver_dev bump_oracle) bump_oracle (fun i => client (one_piece i)) None 3 1 order (server_start quiet_state).

Definition demo_end (order : list (accept_event + nat)) : whole kstate :=
  from_option snd (server_start quiet_state) (demo_turns order).
Definition demo_log (order : list (accept_event + nat)) : list (nat * list char) :=
  from_option fst [] (demo_turns order).

Abbreviation demo_run := (@server_run kstate (driver_dev bump_oracle) bump_oracle (fun i => client (one_piece i)) None 3).

Lemma demo_turns_run order : bool_decide (is_Some (demo_turns order)) = true ->
  demo_run (server_start quiet_state) (demo_log order) (demo_end order).
Proof.
  unfold demo_log, demo_end. destruct (demo_turns order) as [[log w]|] eqn:Ht; [|done]. intros _.
  exact (turns_run _ None 3 1 order _ [] _ log w (run_refl _ _ _ _) Ht).
Qed.

(** The first thread ends before main looks at it again. *)
Definition in_time : list (accept_event + nat) := inl (conn 7 5) :: mains 3 ++ threads 8 0.
(** ... and then a second connection comes. *)
Definition joined_order : list (accept_event + nat) := in_time ++ inl (conn 8 6) :: mains 6.
(** The first thread ends between the test of its flag and the clearing. *)
Definition raced : list (accept_event + nat) := inl (conn 7 5) :: mains 1 ++ threads 8 0.

(** The first thread has set its flag and not returned when main looks. *)
Definition waiting : list (accept_event + nat) :=
  inl (conn 7 5) :: mains 3 ++ threads 7 0 ++ inl (conn 8 6) :: mains 1.

(** ** Theorems *)

(** C7: in every run of the server, with its threads in any order, main joins
    each thread at most once and only after its end, and closes exactly the
    connections of the threads it joined.  As long as no signal came and main
    was not stopped by accept(), and for what accept(), inet_ntop() and
    malloc() answer within [event_good] (no connection, an error, or a
    connection from an address whose parts have at most two digits, with
    memory for its entry), main does not fault: it can take its next step, or
    it waits in pthread_join() for a thread that has set thread_complete and
    has but to close its file and return, and when that thread has done so,
    which it can, main goes on. *)
Theorem server_safe {S} `{CharDev S} `{AllocOracle} peers skt_fd (d : S) log (w : whole S) :
  server_run peers None skt_fd (server_start d) log w ->
  NoDup (joined (w_server w)) /\
  (forall i, i ∈ joined (w_server w) -> exists st, sys_threads (w_sys w) !! i = Some (Finished, st)) /\
  (exists xs, slist (head (w_server w)) xs /\ ids xs = seq 0 (started (w_server w)) /\
     Forall2 (fun i fd => exists n, entry xs n i fd) (joined (w_server w)) (closed (w_server w))) /\
  (w_caught w = false -> (forall code, w_main w <> Stopped code) ->
   forall ev, event_good ev w ->
     (exists w', main_step None skt_fd ev w = Some (Ok w')) \/
     exists n i st, w_main w = AtJoin n /\ w_args w !! i = Some n /\
       sys_threads (w_sys w) !! i = Some (Closing, st) /\ main_step None skt_fd ev w = None /\
       forall fuel, exists w1 w', conn_step peers fuel i w = Some (Ok ([], w1)) /\
         main_step None skt_fd ev w1 = Some (Ok w')).
Proof.
  intros Hr. destruct (run_inv skt_fd peers d log w Hr) as [xs Hi].
  split; [apply (wi_joined _ _ Hi)|]. split; [apply (wi_finished _ _ Hi)|]. split.
  - exists xs. split; [apply (wi_list _ _ Hi)|]. split; [apply (wi_ids _ _ Hi) | apply (wi_closed _ _ Hi)].
  - intros Hc Hns ev Hev. by apply (main_goes_on peers skt_fd xs).
Qed.

Lemma server_safe_witness :
  main_step None 3 AcceptAgain (demo_end waiting) = None /\
  exists i w1 w', @conn_step kstate (driver_dev bump_oracle) bump_oracle (fun i => client (one_piece i)) 1 i (demo_end waiting)
    = Some (Ok ([], w1)) /\ main_step None 3 AcceptAgain w1 = Some (Ok w').
Proof.
  destruct (@server_safe kstate (driver_dev bump_oracle) bump_oracle (fun i => client (one_piece i)) 3 quiet_state
    (demo_log waiting) (demo_end waiting)) as (_ & _ & _ & Hgo).
  - apply demo_turns_run. vm_compute. reflexivity.
  - destruct (Hgo ltac:(vm_compute; reflexivity) ltac:(intros code Hs; vm_compute in Hs; discriminate Hs) AcceptAgain I)
      as [[w' Hs]|(n & i & st & _ & _ & _ & Hnone & Hstep)].
    + exfalso. vm_compute in Hs. discriminate Hs.
    + split; [exact Hnone|]. destruct (Hstep 1%nat) as (w1 & w' & Hc & Hm). exists i, w1, w'. split; [exact Hc | exact Hm].
Defined.

(** C8: in every run of the server the driver holds what the threads wrote, in
    the order in which they wrote it; each thread has written the beginning
    of its client's packet, and a thread that was joined all of it; between
    the steps write_lock is free. *)
Theorem server_stores (o : AllocOracle) peers packets skt_fd d log (st : kstate) (w : whole kstate) :
  alloc_succeeds o -> implements st d ->
  (forall i, packet (packets i) /\ @arrives (peers i) 0 (packets i) /\ no_seek empty_buffer (packets i)) ->
  @server_run kstate (driver_dev o) o peers None skt_fd (server_start st) log w ->
  message_size (k_dev st) + chunks_size log.*2 + 1024 < 2 ^ 62 -> held d + chunks_size log.*2 < 2 ^ 60 ->
  implements (sys_dev (w_sys w)) (fold_left model_write log.*2 d) /\ sys_lock (w_sys w) = false /\
  (forall i, is_Some (sys_threads (w_sys w) !! i) -> told i log `prefix_of` packets i) /\
  (forall i, i ∈ joined (w_server w) -> told i log = packets i).
Proof.
  intros Hok Himp Hp Hr Hb1 Hb2.
  destruct (@run_interleaving kstate (driver_dev o) o peers skt_fd st log w Hr) as (ths & Hths & Hint).
  assert (Hs : starting peers packets (System st false ths)).
  { split; [done|]. intros i p s Hx. destruct (Hths i p s Hx) as [-> Hrecv]. rewrite Hrecv. by destruct (Hp i). }
  destruct (clients_inv o Hok peers packets _ d log _ Hs Himp Hint (conj Hb1 Hb2)) as [[Hrep _] Hl _ Heach].
  destruct (@run_inv kstate (driver_dev o) o skt_fd peers st log w Hr) as [xs Hi].
  split; [done|]. split; [done|]. split.
  - intros i [x Hx]. destruct (Heach i x Hx) as (rest & Hrest & _). by exists rest.
  - intros i Hj. destruct (wi_finished _ _ Hi i Hj) as [s Hx]. destruct (Heach i _ Hx) as (rest & Hrest & Hin).
    cbn in Hin. subst rest. by rewrite app_nil_r in Hrest.
Qed.

Lemma server_stores_witness :
  implements (sys_dev (w_sys (demo_end joined_order))) (DevModel [line "write1"; line "write22"; line "a1"] []).
Proof.
  destruct (server_stores bump_oracle (fun i => client (one_piece i)) one_piece 3 quiet_model (demo_log joined_order)
    quiet_state (demo_end joined_order)) as (Hd & _).
  - apply bump_oracle_succeeds.
  - apply quiet_implements.
  - intros i. split; [apply whole_packet|]. split; [|apply whole_no_seek]. intros k c Hk. cbn. by rewrite Hk.
  - apply demo_turns_run. vm_compute. reflexivity.
  - by vm_compute.
  - by vm_compute.
  - exact Hd.
Defined.

(** C9: a completion that is there when main waits for connections is seen:
    once a connection was accepted and main waits again, the thread has been
    joined, whatever the other threads did meanwhile. *)
Theorem completion_joined {S} `{CharDev S} `{AllocOracle} peers skt_fd (d : S) log (w : whole S) i log' (w' : whole S) :
  server_run peers None skt_fd (server_start d) log w ->
  w_main w = AtAccept -> flag_of w i = Some 1 ->
  server_run peers None skt_fd w log' w' -> w_main w' = AtAccept ->
  size (nodes (head (w_server w))) <> size (nodes (head (w_server w'))) ->
  i ∈ joined (w_server w').
Proof.
  intros Hr Hm Hf Hr' Hm' Hsz. destruct (run_inv skt_fd peers d log w Hr) as [xs Hi].
  destruct (awaited_run peers skt_fd i (size (nodes (head (w_server w)))) xs w log' w' Hi) as (xs' & _ & Ha); [|done|].
  - right. split; [by apply (flag_of_list xs w)|]. unfold ahead. by rewrite Hm.
  - destruct Ha as [?|[_ Ha]]; [done|]. unfold ahead in Ha. rewrite Hm' in Ha. by destruct Hsz.
Qed.

Lemma completion_joined_witness : (0%nat) ∈ joined (w_server (demo_end joined_order)).
Proof.
  apply (@completion_joined kstate (driver_dev bump_oracle) bump_oracle (fun i => client (one_piece i)) 3 quiet_state
    (demo_log in_time) (demo_end in_time) 0 [] (demo_end joined_order)).
  - apply demo_turns_run. vm_compute. reflexivity.
  - vm_compute. reflexivity.
  - vm_compute. reflexivity.
  - exact (@turns_run kstate (driver_dev bump_oracle) bump_oracle (fun i => client (one_piece i)) None 3 1
      (inl (conn 8 6) :: mains 6) (demo_end in_time) [] (demo_end in_time) [] (demo_end joined_order)
      (run_refl _ _ _ _) ltac:(vm_compute; reflexivity)).
  - vm_compute. reflexivity.
  - vm_compute. discriminate.
Defined.

(** C39: a completion that falls between main's test of thread_complete and
    the assignment that clears it is lost: when main is about to clear the
    flag of the entry of a thread that has come to its end and was not joined,
    then after that step, whatever main and the threads do, as long as no
    signal came, the thread is not joined, its flag stays 0, and every
    connection that main has closed is that of a thread it joined. *)
Theorem completion_lost {S} `{CharDev S} `{AllocOracle} peers skt_fd (d : S) log (w : whole S) n i ev w1 log' (w' : whole S) :
  server_run peers None skt_fd (server_start d) log w ->
  w_main w = AtClear n -> w_args w !! i = Some n -> ended w i -> i ∉ joined (w_server w) ->
  event_ok ev w -> main_step None skt_fd ev w = Some (Ok w1) ->
  server_run peers None skt_fd w1 log' w' -> w_caught w' = false ->
  i ∉ joined (w_server w') /\ flag_of w' i = Some 0 /\
  exists xs, slist (head (w_server w')) xs /\
    Forall2 (fun j fd => exists m, entry xs m j fd) (joined (w_server w')) (closed (w_server w')).
Proof.
  intros Hr Hm Hn Hend Hj Hev Hs Hr' _. destruct (run_inv skt_fd peers d log w Hr) as [xs Hi].
  destruct (clear_missed skt_fd xs w n i ev w1 Hi Hm Hn Hend Hj Hs) as [xs1 [Hi1 Hmiss]].
  destruct (missed_forever peers skt_fd i xs1 w1 log' w' Hi1 Hr' Hmiss) as [[xs' Hi'] (_ & ? & ?)].
  split; [done|]. split; [done|]. exists xs'. split; [apply (wi_list _ _ Hi') | apply (wi_closed _ _ Hi')].
Qed.

Lemma completion_lost_witness :
  flag_of (demo_end raced) 0 = Some 1 /\
  forall w1 log' w', main_step None 3 AcceptAgain (demo_end raced) = Some (Ok w1) -> demo_run w1 log' w' ->
    w_caught w' = false -> (0%nat) ∉ joined (w_server w').
Proof.
  split; [vm_compute; reflexivity|]. intros w1 log' w' Hs Hr Hc.
  apply (@completion_lost kstate (driver_dev bump_oracle) bump_oracle (fun i => client (one_piece i)) 3 quiet_state
    (demo_log raced) (demo_end raced) 5 0 AcceptAgain w1 log' w').
  - apply demo_turns_run. vm_compute. reflexivity.
  - vm_compute. reflexivity.
  - vm_compute. reflexivity.
  - destruct (sys_threads (w_sys (demo_end raced)) !! 0%nat) as [[p st]|] eqn:Hx; [|by vm_compute in Hx].
    exists p, st. split; [exact Hx|]. right.
    assert (Hp : fst <$> Some (p, st) = Some Finished); [|by injection Hp].
    rewrite <- Hx. vm_compute. reflexivity.
  - vm_compute. by intros ?%elem_of_nil.
  - done.
  - exact Hs.
  - exact Hr.
  - exact Hc.
Defined.
