(* ===== verification/SystemCalls.v ===== *)
(** * Running commands (examples/systemcalls/systemcalls.c)

    [do_system], [do_exec] and [do_exec_redirect].  What the kernel and the
    program that is run answer is the record [process_env]; the wait status
    is taken apart with the macros of bits/waitstatus.h. *)

From stdpp Require Import base numbers strings gmap list.
From S2P Require Import Prelude CMem CString CText.

#[local] Open Scope Z_scope.

(** ** The wait status *)

Definition WEXITSTATUS (status : Z) : Z := Z.shiftr (Z.land status 0xff00) 8.
Definition WTERMSIG (status : Z) : Z := Z.land status 0x7f.
Definition WIFEXITED (status : Z) : bool := WTERMSIG status =? 0.
Definition W_EXITCODE (ret sig : Z) : Z := Z.lor (Z.shiftl ret 8) sig.

Definition EXIT_SUCCESS : Z := 0.
Definition EXIT_FAILURE : Z := 1.

(** ** The environment *)

(** [run path argv] is the wait status of the program execv() starts, or
    [None] when execv() fails. *)
Record process_env : Type := ProcessEnv {
  fork_fails : bool;
  wait_fails : bool;
  creat_fails : bool;
  dup2_fails : bool;
  run : list char -> list (list char) -> option Z
}.

(** ** do_system: [return_val] is what system() returns *)
Definition do_system (return_val : Z) : bool := if return_val =? -1 then false else true.

(** ** The program name *)

Definition slash : char := Ascii.ascii_of_nat 47.

(** The loop over the tokens of input_str: the last value of arguments[0]. *)
Fixpoint name_loop (fuel : nat) (h : heap) (save token : ptr) (arguments0 : option ptr)
  : res (option ptr * heap) :=
  match fuel with
  | O => Fault OutOfFuel
  | S fuel' =>
      if is_null token then Ok (arguments0, h) else
      let arguments0 := Some token in
      '(token, save, h) ← strtok h save PNull slash;
      name_loop fuel' h save token arguments0
  end.

(** A token and its delimiter take two bytes of the hundred. *)
Definition name_fuel : nat := 51.

(** The string arguments[0] points to; [command0] is command[0]. *)
Definition program_name (h : heap) (command0 : ptr) : res (list char * heap) :=
  let '(input_str, h) := stack_array h 100 in
  h ← strcpy h (PAddr input_str 0) command0;
  '(split_arg0, save, h) ← strtok h PNull (PAddr input_str 0) slash;
  '(arguments0, h) ← name_loop name_fuel h save split_arg0 None;
  match arguments0 with
  | None => Fault UninitRead
  | Some p => s ← load_cstr h p; Ok (s, delete input_str h)
  end.

(** syslog() reads every argument; a NULL prints as "(null)". *)
Fixpoint syslog_all (h : heap) (ps : list ptr) : res unit :=
  match ps with
  | [] => Ok tt
  | p :: rest => _ ← (if is_null p then Ok [] else load_cstr h p); syslog_all h rest
  end.

(** The argument vector as execv() sees it, which ends with the first NULL. *)
Fixpoint load_argv (h : heap) (ps : list ptr) : res (list (list char)) :=
  match ps with
  | [] => Ok []
  | p :: rest =>
      if is_null p then Ok [] else s ← load_cstr h p; ss ← load_argv h rest; Ok (s :: ss)
  end.

(** ** The two processes *)

(** The child: execv(), or exit with EXIT_FAILURE. *)
Definition child_status (e : process_env) (path : list char) (argv : list (list char)) : Z :=
  match run e path argv with
  | Some status => status
  | None => W_EXITCODE EXIT_FAILURE 0
  end.

(** The parent: wait for the status and judge it. *)
Definition wait_result (e : process_env) (status : Z) : bool :=
  if wait_fails e then false
  else if WIFEXITED status then
    if WEXITSTATUS status =? EXIT_FAILURE then false else true
  else true.

(** [command] are the pointers passed after [count], which is their number. *)
Definition do_exec (e : process_env) (h : heap) (command : list ptr) : res (bool * heap) :=
  match command with
  | [] => Fault NullDeref
  | command0 :: rest =>
      '(name, h) ← program_name h command0;
      _ ← syslog_all h rest;
      if fork_fails e then Ok (false, h) else
      path ← load_cstr h command0;
      args ← load_argv h rest;
      Ok (wait_result e (child_status e path (name :: args)), h)
  end.

(** The third result tells whether the descriptor of the output file is
    still open in the caller. *)
Definition do_exec_redirect (e : process_env) (h : heap) (command : list ptr)
  : res (bool * heap * bool) :=
  if creat_fails e then Ok (false, h, false) else
  match command with
  | [] => Fault NullDeref
  | command0 :: rest =>
      '(name, h) ← program_name h command0;
      _ ← syslog_all h rest;
      if fork_fails e then Ok (false, h, true) else
      path ← load_cstr h command0;
      args ← load_argv h rest;
      let status := if dup2_fails e then W_EXITCODE EXIT_FAILURE 0
                    else child_status e path (name :: args) in
      Ok (wait_result e status, h, true)
  end.

(** ** Paths *)

(** The components of a path, joined by slashes. *)
Fixpoint join_path (c : list char) (rest : list (list char)) : list char :=
  match rest with
  | [] => c
  | c2 :: rest' => c ++ slash :: join_path c2 rest'
  end.

Definition component (c : list char) : Prop := c <> [] /\ slash ∉ c /\ NUL ∉ c.

Lemma join_path_no_nul c rest : component c -> Forall component rest -> NUL ∉ join_path c rest.
Proof.
  revert c. induction rest as [|c2 rest IH]; intros c Hc Hr; simpl; [apply Hc|].
  apply Forall_cons in Hr as [H2 Hr]. destruct Hc as (_ & _ & Hn).
  rewrite elem_of_app, elem_of_cons. pose proof (IH c2 H2 Hr). assert (NUL <> slash) by done. tauto.
Qed.

Lemma last_any {A} (l : list A) a d d' : List.last (a :: l) d = List.last (a :: l) d'.
Proof. revert a. induction l as [|b l IH]; intros a; [done|]. apply IH. Qed.

(** The loop ends with the last component; only block [b] is written. *)
Lemma name_loop_last rest : forall fuel h b o c blk arg0, component c -> Forall component rest ->
  h !! b = Some blk -> (o <= length blk)%nat -> cstr_blk (drop o blk) c ->
  (o + length c + (if rest is [] then 0 else 1) <= length blk)%nat ->
  cstr_blk (drop (o + length c + (if rest is [] then 0 else 1)) blk)
    (match rest with [] => [] | c2 :: r => join_path c2 r end) ->
  (S (length rest) < fuel)%nat ->
  exists p blk' , name_loop fuel h (PAddr b (o + length c + (if rest is [] then 0 else 1)))
      (PAddr b o) arg0 = Ok (Some p, <[b := blk']> h) /\
    load_cstr (<[b := blk']> h) p = Ok (List.last rest c).
Proof.
  induction rest as [|c2 rest IH]; intros fuel h b o c blk arg0 Hc Hr Hb Ho Hcs Hle Hrest Hf.
  - destruct fuel as [|[|fuel]]; [simpl in Hf; lia..|]. cbn [name_loop]. rewrite is_null_addr.
    rewrite strtok_end by (exists blk; done). rewrite bind_ok. cbv zeta.
    exists (PAddr b o), blk. rewrite insert_id by done. split; [done|].
    apply load_cstr_off. by exists blk.
  - destruct fuel as [|fuel]; [simpl in Hf; lia|]. cbn [name_loop]. rewrite is_null_addr.
    apply Forall_cons in Hr as [H2 Hr]. destruct (H2) as (Hne2 & Hs2 & Hn2).
    cbv iota beta in Hle, Hrest |- *. set (o2 := (o + length c + 1)%nat) in *.
    destruct rest as [|c3 rest].
    + rewrite (strtok_last h (PAddr b o2) PNull b o2 c2 slash eq_refl Hne2 Hs2) by (by exists blk).
      rewrite bind_ok. pose proof (cstr_blk_length _ _ Hrest) as Hl2. rewrite length_drop in Hl2.
      cbn [join_path] in Hl2, Hrest.
      destruct (IH fuel h b o2 c2 blk (Some (PAddr b o))) as (p & blk' & Hr1 & Hr2); try done.
      * lia.
      * rewrite Nat.add_0_r. apply (cstr_blk_drop _ _ (length c2)) in Hrest; [|done].
        by rewrite drop_drop, drop_all in Hrest.
      * simpl in *. lia.
      * exists p, blk'. rewrite Nat.add_0_r in Hr1. done.
    + destruct (strtok_token h (PAddr b o2) PNull b o2 c2 (join_path c3 rest) slash eq_refl Hne2 Hs2
        blk Hb) as (blk1 & -> & Hl1 & H1 & H3); [lia|done|].
      rewrite bind_ok. pose proof (cstr_blk_length _ _ Hrest) as Hl2.
      rewrite length_drop in Hl2. simpl in Hl2. rewrite length_app in Hl2. simpl in Hl2.
      destruct (IH fuel (<[b := blk1]> h) b o2 c2 blk1 (Some (PAddr b o))) as (p & blk' & Hr1 & Hr2);
        try done; [apply lookup_insert_eq | lia | lia | simpl in *; lia |].
      rewrite insert_insert_eq in Hr1, Hr2. exists p, blk'. split; [done|].
      rewrite Hr2. f_equal. apply (last_any rest c3).
Qed.

(** ** The name of an absolute path *)

(** A leading delimiter is skipped. *)
Lemma strtok_lead h save b o s blk delim : h !! b = Some blk -> (o < length blk)%nat ->
  cstr_blk (drop o blk) (delim :: s) -> s <> [] -> (forall r, s <> delim :: r) ->
  strtok h save (PAddr b o) delim = strtok h save (PAddr b (S o)) delim.
Proof.
  intros Hb Ho Hcs Hne Hd.
  assert (Hcs2 : cstr_blk (drop (S o) blk) s).
  { apply (cstr_blk_drop _ _ 1) in Hcs; [|simpl; lia]. simpl in Hcs.
    by rewrite drop_drop, Nat.add_1_r in Hcs. }
  unfold strtok. rewrite !is_null_addr.
  rewrite (load_cstr_off h b o (delim :: s)) by (exists blk; split; [done|]; split; [lia|done]).
  rewrite (load_cstr_off h b (S o) s) by (exists blk; split; [done|]; split; [lia|done]).
  rewrite !bind_ok. cbn [count_while]. rewrite bool_decide_eq_true_2 by done.
  destruct s as [|x s]; [done|]. cbn [count_while]. rewrite (bool_decide_eq_false_2 (x = delim)).
  - cbn [drop ptr_add]. rewrite !Nat2Z.id, Nat.add_0_r, Nat.add_1_r. done.
  - intros ->. by apply (Hd s).
Qed.

Lemma join_path_cons c rest : exists r, join_path c rest = c ++ r.
Proof. destruct rest; simpl; [exists []; by rewrite app_nil_r | by eexists]. Qed.

Lemma length_join_path c rest : component c -> Forall component rest ->
  (2 * length rest < length (join_path c rest))%nat.
Proof.
  revert c. induction rest as [|c2 rest IH]; intros c Hc Hr; simpl.
  - destruct Hc as [Hc _]. destruct c; [done|simpl; lia].
  - apply Forall_cons in Hr as [H2 Hr]. pose proof (IH c2 H2 Hr). rewrite length_app. simpl.
    destruct Hc as [Hc _]. destruct c; [done|simpl; lia].
Qed.

(** From the first token on: the loop, and the string it ends with. *)
Lemma name_from_first h b blk c rest : h !! b = None -> length blk = 100%nat ->
  component c -> Forall component rest -> (2 * length rest < 98)%nat ->
  cstr_blk (drop 1 blk) (join_path c rest) ->
  ('(split_arg0, save, h0) ← strtok (<[b := blk]> h) PNull (PAddr b 1) slash;
   '(arguments0, h0) ← name_loop name_fuel h0 save split_arg0 None;
   match arguments0 with
   | None => Fault UninitRead
   | Some p => s ← load_cstr h0 p; Ok (s, delete b h0)
   end) = Ok (List.last rest c, h).
Proof.
  intros Hb Hlb Hc Hr Hcount Hblk. destruct (Hc) as (Hcn & Hcs & Hcnul).
  pose proof (cstr_blk_length _ _ Hblk) as Hl1. rewrite length_drop in Hl1.
  assert (Hfin : forall blk1 q blk' save, name_loop name_fuel (<[b := blk1]> h) save (PAddr b 1) None
      = Ok (Some q, <[b := blk']> (<[b := blk1]> h)) ->
    load_cstr (<[b := blk']> (<[b := blk1]> h)) q = Ok (List.last rest c) ->
    ('(arguments0, h0) ← name_loop name_fuel (<[b := blk1]> h) save (PAddr b 1) None;
     match arguments0 with
     | None => Fault UninitRead
     | Some p => s ← load_cstr h0 p; Ok (s, delete b h0)
     end) = Ok (List.last rest c, h)).
  { intros blk1 q blk' save Hnl Hld. rewrite Hnl, bind_ok. cbv beta iota. rewrite Hld, bind_ok.
    by rewrite insert_insert_eq, delete_insert_id. }
  destruct rest as [|c2 rest].
  - rewrite (strtok_last _ PNull (PAddr b 1) b 1 c slash eq_refl Hcn Hcs), bind_ok
      by (exists blk; split; [apply lookup_insert_eq|]; split; [lia|done]).
    destruct (name_loop_last [] name_fuel (<[b := blk]> h) b 1 c blk None) as (q & blk' & Hnl & Hld);
      try done; [apply lookup_insert_eq | lia | simpl in *; lia | | unfold name_fuel; simpl; lia |].
    + rewrite Nat.add_0_r. apply (cstr_blk_drop _ _ (length c)) in Hblk; [|done].
      by rewrite drop_drop, drop_all in Hblk.
    + rewrite Nat.add_0_r in *. exact (Hfin _ _ _ _ Hnl Hld).
  - apply Forall_cons in Hr as [H2 Hr]. cbn [join_path] in *.
    destruct (strtok_token (<[b := blk]> h) PNull (PAddr b 1) b 1 c (join_path c2 rest) slash
      eq_refl Hcn Hcs blk) as (blk1 & -> & Hlb1 & Hc1 & Hr1);
      [apply lookup_insert_eq | lia | done |]. rewrite bind_ok, insert_insert_eq.
    rewrite length_app in Hl1. simpl in Hl1, Hcount.
    destruct (name_loop_last (c2 :: rest) name_fuel (<[b := blk1]> h) b 1 c blk1 None)
      as (q & blk' & Hnl & Hld); try done;
      [by constructor | apply lookup_insert_eq | lia | simpl; lia | unfold name_fuel; simpl; lia |].
    exact (Hfin _ _ _ _ Hnl Hld).
Qed.

(** The file name of an absolute path that fits into input_str. *)
Lemma program_name_ok h p c rest : component c -> Forall component rest ->
  str_at h p (slash :: join_path c rest) -> (length (join_path c rest) < 99)%nat ->
  program_name h (PAddr p 0) = Ok (List.last rest c, h).
Proof.
  intros Hc Hr Hp Hlen. unfold program_name, stack_array.
  pose proof (stack_array_fresh h) as Hb. set (b := fresh (dom h)) in *.
  assert (Hpb : p <> b) by (intros ->; destruct (str_at_live _ _ _ Hp); congruence).
  unfold strcpy. rewrite (load_cstr_0 _ _ (slash :: join_path c rest)), bind_ok
    by (by apply str_at_insert_ne).
  rewrite (store_bytes_ok _ _ (replicate 100 None)), bind_ok
    by (apply lookup_insert_eq || (rewrite length_replicate, length_app; simpl; lia)).
  rewrite insert_insert_eq. set (blk := list_inserts _ _ _).
  assert (Hlb : length blk = 100%nat) by (unfold blk; by rewrite length_inserts).
  assert (Hblk : cstr_blk blk (slash :: join_path c rest)).
  { apply stored_string; [|rewrite length_replicate; simpl; lia].
    apply not_elem_of_cons. split; [done|by apply join_path_no_nul]. }
  destruct (join_path_cons c rest) as [tl Htl]. destruct (Hc) as (Hcn & Hcs & _).
  rewrite (strtok_lead _ _ b 0 (join_path c rest) blk slash);
    [|apply lookup_insert_eq|lia|done|rewrite Htl; by destruct c|].
  - apply (cstr_blk_drop _ _ 1) in Hblk; [|simpl; lia]. cbn [drop] in Hblk.
    pose proof (length_join_path c rest Hc Hr).
    by apply name_from_first; try done; lia.
  - intros r Heq. rewrite Htl in Heq. destruct c as [|x c]; [done|]. injection Heq as -> _.
    set_solver.
Qed.
