(* ===== verification/Utilities.v ===== *)
(** * The small programs

    The threading example (examples/threading/threading.{h,c}), the writer
    (finder-app/writer.c) and the functions the course's test set-up calls
    (examples/autotest-validate/autotest-validate.c). *)

From stdpp Require Import base numbers strings gmap list.
From S2P Require Import Prelude CMem.

#[local] Open Scope Z_scope.

(** ** threading.c *)

Module Threading.

(** struct thread_data *)
Record thread_data : Type := ThreadData {
  thread : ptr;
  mutex : ptr;
  sleep_before_lock : Z;          (* unsigned int *)
  sleep_after_lock : Z;           (* unsigned int *)
  thread_complete_success : bool
}.

(** What a thread does, in order; a sleep in microseconds. *)
Inductive action : Type :=
| Sleep (us : Z)
| Lock
| Unlock.

Definition set_success (d : thread_data) (v : bool) : thread_data :=
  ThreadData (thread d) (mutex d) (sleep_before_lock d) (sleep_after_lock d) v.

(** [lock_ret] and [unlock_ret] are what the two calls on the mutex return. *)
Definition threadfunc (d : thread_data) (lock_ret unlock_ret : Z) : thread_data * list action :=
  let a1 := Sleep (u32 (sleep_before_lock d * 1000)) in
  let d := if negb (lock_ret =? 0) then set_success d false else d in
  let a2 := Sleep (u32 (sleep_after_lock d * 1000)) in
  let d := if negb (unlock_ret =? 0) then set_success d false else d in
  (set_success d true, [a1; Lock; a2; Unlock]).

Definition sizeof_thread_data : Z := 32.
Definition sizeof_pthread_t : Z := 8.
Definition sizeof_pthread_mutex_t : Z := 40.

(** [m] holds the blocks of malloc(); the variables of the caller are not
    among them.  [create_ret] is what pthread_create() returns.  The result
    is the value returned, the structure and where it is; the flag
    thread_complete_success is not initialised, [false] stands for it. *)
Definition start_thread_obtaining_mutex `{AllocOracle} (m : mem) (thread mutex : ptr)
    (wait_to_obtain_ms wait_to_release_ms create_ret : Z) : res (bool * thread_data * ptr * mem) :=
  let '(thread_param, m) := malloc m sizeof_thread_data in
  let '(_, m) := malloc m sizeof_pthread_t in
  if is_null thread_param then Fault NullDeref else
  let '(_, m) := malloc m sizeof_pthread_mutex_t in
  let d := ThreadData thread mutex (u32 wait_to_obtain_ms) (u32 wait_to_release_ms) false in
  if create_ret =? 0 then Ok (true, d, thread_param, m) else
  m ← kfree m thread;
  m ← kfree m mutex;
  Ok (false, d, thread_param, m).
End Threading.

(** ** writer.c *)

Module Writer.

(** Whether creat() succeeds, and what write() returns. *)
Record writer_env : Set := WriterEnv { creat_ok : bool; write_ret : Z }.

(** The exit status of main and what the file holds afterwards; [None] when
    the file was not touched.  [fname] and [text] are argv[1] and argv[2]. *)
Definition main (e : writer_env) (argc : Z) (fname text : list char) : Z * option (list char) :=
  if negb (argc =? 3) then (1, None)
  else if negb (creat_ok e) then (1, None)
  else
    let file := take (Z.to_nat (write_ret e)) text in
    if negb (u64 (write_ret e) =? zlen text) then (1, Some file)
    else (0, Some file).
End Writer.

(** ** autotest-validate.c *)

Module Autotest.
Definition this_function_returns_true : bool := true.
Definition this_function_returns_false : bool := false.
Definition my_username : list char := lit "geoffreyjensen6".

(** main of autotest-validate-main.c: what it prints, and its exit status. *)
Definition git_username : list char := lit "akshita-bhasin".
Definition true_or_false (b : bool) : list char := if b then lit "true" else lit "false".
Definition autotest_main : list char * Z :=
  (lit "this_function_returns_true returned " ++ true_or_false this_function_returns_true ++ [newline] ++
   lit "this_function_returns_false returned " ++ true_or_false this_function_returns_false ++ [newline], 0).
End Autotest.
