(* ===== verification/UtilityProps.v ===== *)
(** * Properties of the examples and the writer *)

From stdpp Require Import base numbers strings gmap list.
From S2P Require Import Prelude CMem CString CText SystemCalls Utilities.

#[local] Open Scope Z_scope.

(** ** Commands *)

Lemma load_argv_ok h ps ss : Forall2 (fun p s => exists b, p = PAddr b 0 /\ str_at h b s) ps ss ->
  load_argv h ps = Ok ss.
Proof.
  induction 1 as [|p s ps ss (b & -> & Hs) _ IH]; [done|]. cbn [load_argv]. rewrite is_null_addr.
  by rewrite (load_cstr_0 _ _ _ Hs), bind_ok, IH.
Qed.

Lemma syslog_all_ok h ps ss : Forall2 (fun p s => exists b, p = PAddr b 0 /\ str_at h b s) ps ss ->
  syslog_all h ps = Ok tt.
Proof.
  induction 1 as [|p s ps ss (b & -> & Hs) _ IH]; [done|]. cbn [syslog_all]. rewrite is_null_addr.
  by rewrite (load_cstr_0 _ _ _ Hs), bind_ok, IH.
Qed.

(** What do_exec returns, for any wait status. *)
Lemma do_exec_returns e h p c rest ps args : component c -> Forall component rest ->
  str_at h p (slash :: join_path c rest) -> (length (join_path c rest) < 99)%nat ->
  Forall2 (fun p s => exists b, p = PAddr b 0 /\ str_at h b s) ps args ->
  do_exec e h (PAddr p 0 :: ps)
  = Ok (negb (fork_fails e) && wait_result e (child_status e (slash :: join_path c rest) (List.last rest c :: args)), h).
Proof.
  intros Hc Hr Hp Hlen Hps. unfold do_exec.
  rewrite (program_name_ok h p c rest Hc Hr Hp Hlen), bind_ok, (syslog_all_ok _ _ _ Hps), bind_ok.
  destruct (fork_fails e); [done|]. by rewrite (load_cstr_0 _ _ _ Hp), bind_ok, (load_argv_ok _ _ _ Hps), bind_ok.
Qed.

Lemma exit_code_status code : 0 <= code < 256 -> WIFEXITED (W_EXITCODE code 0) = true /\ WEXITSTATUS (W_EXITCODE code 0) = code.
Proof.
  intros Hc. unfold WIFEXITED, WTERMSIG, WEXITSTATUS, W_EXITCODE. rewrite Z.lor_0_r. split.
  - change 0x7f with (Z.ones 7). rewrite Z.land_ones, Z.shiftl_mul_pow2 by lia. apply Z.eqb_eq.
    replace (code * 2 ^ 8) with (code * 2 * 2 ^ 7) by lia. by apply Z.mod_mul.
  - change 0xff00 with (Z.shiftl (Z.ones 8) 8). rewrite <- Z.shiftl_land, Z.shiftr_shiftl_l, Z.land_ones by lia.
    rewrite Z.shiftl_0_r. apply Z.mod_small. lia.
Qed.

(** C35: do_exec runs the program at the absolute path, of at most 99
    characters, with its file name as the first argument and the other
    arguments as they are, and leaves memory as it was.  It returns false when
    fork(), wait() or execv() fails and when the program exits with
    EXIT_FAILURE, and true when nothing fails and the program exits with 0. *)
Theorem do_exec_result e h p c rest ps args : component c -> Forall component rest ->
  str_at h p (slash :: join_path c rest) -> (length (join_path c rest) < 99)%nat ->
  Forall2 (fun p s => exists b, p = PAddr b 0 /\ str_at h b s) ps args ->
  let outcome := run e (slash :: join_path c rest) (List.last rest c :: args) in
  exists r, do_exec e h (PAddr p 0 :: ps) = Ok (r, h) /\
    (fork_fails e = true \/ wait_fails e = true \/ outcome = None \/ outcome = Some (W_EXITCODE EXIT_FAILURE 0) ->
     r = false) /\
    (fork_fails e = false -> wait_fails e = false -> outcome = Some (W_EXITCODE EXIT_SUCCESS 0) -> r = true).
Proof.
  intros Hc Hr Hp Hlen Hps outcome. eexists. split; [by apply do_exec_returns|].
  unfold child_status, wait_result. fold outcome. split.
  - intros [-> |[-> |[-> | ->]]]; destruct (fork_fails e), (wait_fails e); done.
  - by intros -> -> ->.
Qed.

Definition demo_exec_heap : heap :=
  {[ 0%nat := cstring (lit "/bin/grep"); 1%nat := cstring (lit "-q") ]}.

(** Every program exits with this status. *)
Definition exit_with (code : Z) : process_env :=
  ProcessEnv false false false false (fun _ _ => Some (W_EXITCODE code 0)).

Lemma do_exec_result_witness :
  do_exec (exit_with 0) demo_exec_heap [PAddr 0 0; PAddr 1 0] = Ok (true, demo_exec_heap) /\
  do_exec (exit_with 1) demo_exec_heap [PAddr 0 0; PAddr 1 0] = Ok (false, demo_exec_heap).
Proof.
  assert (Hall : forall code, code = EXIT_SUCCESS \/ code = EXIT_FAILURE ->
    do_exec (exit_with code) demo_exec_heap [PAddr 0 0; PAddr 1 0] = Ok (code =? 0, demo_exec_heap)).
  { intros code Hcode.
    destruct (do_exec_result (exit_with code) demo_exec_heap 0 (lit "bin") [lit "grep"] [PAddr 1 0] [lit "-q"])
      as (r & Hr & Hf & Ht).
    - split; [done|]. split; by_decide.
    - constructor; [|constructor]. split; [done|]. split; by_decide.
    - by apply str_at_cstring.
    - simpl. lia.
    - constructor; [|constructor]. exists 1%nat. split; [done|]. by apply str_at_cstring.
    - rewrite Hr. destruct Hcode as [-> | ->]; [by rewrite Ht | by rewrite Hf by auto]. }
  split; [exact (Hall 0 (or_introl eq_refl)) | exact (Hall 1 (or_intror eq_refl))].
Defined.

(** The documentation asks for false on every other exit status but 0 too;
    do_exec returns true. *)
Theorem do_exec_other_status e h p c rest ps args code : component c -> Forall component rest ->
  str_at h p (slash :: join_path c rest) -> (length (join_path c rest) < 99)%nat ->
  Forall2 (fun p s => exists b, p = PAddr b 0 /\ str_at h b s) ps args ->
  fork_fails e = false -> wait_fails e = false ->
  run e (slash :: join_path c rest) (List.last rest c :: args) = Some (W_EXITCODE code 0) -> 1 < code < 256 ->
  do_exec e h (PAddr p 0 :: ps) = Ok (true, h).
Proof.
  intros Hc Hr Hp Hlen Hps Hf Hw Hrun Hcode. rewrite (do_exec_returns e h p c rest ps args) by done.
  unfold child_status, wait_result. rewrite Hrun, Hf, Hw. destruct (exit_code_status code ltac:(lia)) as [-> ->].
  rewrite (proj2 (Z.eqb_neq _ _)); [done|]. unfold EXIT_FAILURE. lia.
Qed.

(** Do_exec_redirect behaves like do_exec and, whenever creat()
    succeeded, returns with the descriptor of the output file still open. *)
Theorem do_exec_redirect_result e h p c rest ps args : component c -> Forall component rest ->
  str_at h p (slash :: join_path c rest) -> (length (join_path c rest) < 99)%nat ->
  Forall2 (fun p s => exists b, p = PAddr b 0 /\ str_at h b s) ps args ->
  do_exec_redirect e h (PAddr p 0 :: ps)
  = if creat_fails e then Ok (false, h, false)
    else
      '(r, h) ← do_exec (ProcessEnv (fork_fails e) (wait_fails e) (creat_fails e) (dup2_fails e)
                   (fun path argv => if dup2_fails e then None else run e path argv)) h (PAddr p 0 :: ps);
      Ok (r, h, true).
Proof.
  intros Hc Hr Hp Hlen Hps. unfold do_exec_redirect, do_exec. destruct (creat_fails e); [done|].
  rewrite (program_name_ok h p c rest Hc Hr Hp Hlen), !bind_ok, (syslog_all_ok _ _ _ Hps), !bind_ok.
  cbn [fork_fails]. destruct (fork_fails e); [done|].
  rewrite (load_cstr_0 _ _ _ Hp), !bind_ok, (load_argv_ok _ _ _ Hps), !bind_ok. unfold child_status. cbn [run].
  by destruct (dup2_fails e).
Qed.

Lemma do_exec_redirect_result_witness :
  do_exec_redirect (exit_with 2) demo_exec_heap [PAddr 0 0; PAddr 1 0] = Ok (true, demo_exec_heap, true).
Proof.
  rewrite (do_exec_redirect_result (exit_with 2) demo_exec_heap 0 (lit "bin") [lit "grep"] [PAddr 1 0]
    [lit "-q"]).
  - by vm_compute.
  - split; [done|]. split; by_decide.
  - constructor; [|constructor]. split; [done|]. split; by_decide.
  - by apply str_at_cstring.
  - simpl. lia.
  - constructor; [|constructor]. exists 1%nat. split; [done|]. by apply str_at_cstring.
Defined.

(** ** Threads *)

Lemma malloc_ok (o : AllocOracle) m n : alloc_succeeds o -> exists b, m_heap m !! b = None /\
  malloc m n = (PAddr b 0, Mem (<[b := replicate (Z.to_nat n) None]> (m_heap m)) (S (m_tick m))).
Proof.
  intros Hok. destruct (Hok (m_tick m) (m_heap m) n) as (b & Hc & Hb). exists b. split; [done|].
  unfold malloc, alloc_block, alloc_choice. by rewrite Hc, Hb.
Qed.

(** Start_thread_obtaining_mutex hands the thread its arguments and
    returns true when the thread was started - leaving behind two blocks
    that nothing refers to.  When it was not started, the function frees the
    caller's own variable (here one inside an object, such as a stack frame)
    instead of the structure it allocated. *)
Theorem start_thread_result (o : AllocOracle) m thread mutex w1 w2 create_ret :
  alloc_succeeds o ->
  (create_ret = 0 -> exists tp lost1 lost2 m',
     Threading.start_thread_obtaining_mutex m thread mutex w1 w2 create_ret
     = Ok (true, Threading.ThreadData thread mutex (u32 w1) (u32 w2) false, PAddr tp 0, m') /\
     NoDup [tp; lost1; lost2] /\
     (forall b, b ∈ [tp; lost1; lost2] -> m_heap m !! b = None /\ is_Some (m_heap m' !! b)) /\
     (forall b, b ∉ [tp; lost1; lost2] -> m_heap m' !! b = m_heap m !! b)) /\
  (create_ret <> 0 -> (exists b i, thread = PAddr b (S i)) ->
     Threading.start_thread_obtaining_mutex m thread mutex w1 w2 create_ret = Fault BadFree).
Proof.
  intros Hok. unfold Threading.start_thread_obtaining_mutex.
  destruct (malloc_ok o m Threading.sizeof_thread_data Hok) as (b1 & H1 & ->).
  set (m1 := Mem _ _). destruct (malloc_ok o m1 Threading.sizeof_pthread_t Hok) as (b2 & H2 & ->).
  set (m2 := Mem _ (S (m_tick m1))). rewrite is_null_addr.
  destruct (malloc_ok o m2 Threading.sizeof_pthread_mutex_t Hok) as (b3 & H3 & ->).
  simpl in H2, H3.
  assert (b2 <> b1) by (intros ->; by rewrite lookup_insert_eq in H2).
  assert (b3 <> b2) by (intros ->; by rewrite lookup_insert_eq in H3).
  rewrite lookup_insert_ne in H2, H3 by done.
  assert (b3 <> b1) by (intros ->; by rewrite lookup_insert_eq in H3).
  rewrite lookup_insert_ne in H3 by done.
  split.
  - intros ->. change (0 =? 0) with true. cbv iota. eexists b1, b2, b3, _. split; [reflexivity|].
    simpl. split; [|split].
    + rewrite !NoDup_cons. set_solver by (auto using NoDup_nil_2).
    + intros b Hb. rewrite !elem_of_cons, elem_of_nil in Hb.
      destruct Hb as [->|[->|[->|[]]]]; (split; [done|]); eexists; heap_look.
    + intros b Hb. rewrite !lookup_insert_ne by set_solver. done.
  - intros Hne (b & i & ->). rewrite (proj2 (Z.eqb_neq _ _) Hne).
    by rewrite kfree_inner.
Qed.

Lemma start_thread_result_witness :
  @Threading.start_thread_obtaining_mutex bump_oracle (Mem ∅ 0) (PAddr 7 8) (PAddr 7 16) 5 10 11
  = Fault BadFree.
Proof.
  apply (start_thread_result bump_oracle (Mem ∅ 0) (PAddr 7 8) (PAddr 7 16) 5 10 11).
  - apply bump_oracle_succeeds.
  - done.
  - exists 7%nat, 7%nat. reflexivity.
Defined.

(** The thread sleeps, takes the mutex, sleeps and releases it, in this
    order, and reports success whatever the two calls on the mutex return. *)
Theorem threadfunc_result d lock_ret unlock_ret :
  0 <= Threading.sleep_before_lock d * 1000 < 2 ^ 32 ->
  0 <= Threading.sleep_after_lock d * 1000 < 2 ^ 32 ->
  let '(d', actions) := Threading.threadfunc d lock_ret unlock_ret in
  actions = [Threading.Sleep (Threading.sleep_before_lock d * 1000); Threading.Lock;
             Threading.Sleep (Threading.sleep_after_lock d * 1000); Threading.Unlock] /\
  Threading.thread_complete_success d' = true /\ Threading.mutex d' = Threading.mutex d.
Proof.
  intros H1 H2. unfold Threading.threadfunc. rewrite u32_small by done.
  destruct (lock_ret =? 0), (unlock_ret =? 0); simpl; by rewrite u32_small.
Qed.

(** ** The writer *)

(** The writer exits with 0 exactly when it got its two arguments, the
    file could be created and write() took the whole text; the file then
    holds the text. *)
Theorem writer_result e argc fname text : -1 <= Writer.write_ret e <= zlen text ->
  zlen text < 2 ^ 63 ->
  let '(code, content) := Writer.main e argc fname text in
  (code = 0 <-> argc = 3 /\ Writer.creat_ok e = true /\ Writer.write_ret e = zlen text) /\
  (code = 0 -> content = Some text) /\ (code = 0 \/ code = 1).
Proof.
  intros Hw Ht. unfold Writer.main. destruct (Z.eqb_spec argc 3) as [->|]; simpl; [|naive_solver].
  destruct (Writer.creat_ok e); simpl; [|naive_solver].
  assert (Hu : u64 (Writer.write_ret e) = zlen text <-> Writer.write_ret e = zlen text).
  { destruct (decide (Writer.write_ret e = -1)) as [->|].
    - pose proof (zlen_nonneg text). rewrite u64_neg by lia. lia.
    - rewrite u64_small by lia. done. }
  destruct (Z.eqb_spec (u64 (Writer.write_ret e)) (zlen text)) as [Heq|Hne]; simpl.
  - apply Hu in Heq. split; [naive_solver|]. split; [|by left]. intros _.
    rewrite Heq, take_ge; [done|]. unfold zlen. lia.
  - split; [naive_solver|]. split; [done|by right].
Qed.

Lemma writer_result_witness :
  Writer.main (Writer.WriterEnv true 5) 3 (lit "/tmp/f") (lit "hello") = (0, Some (lit "hello")).
Proof.
  destruct (writer_result (Writer.WriterEnv true 5) 3 (lit "/tmp/f") (lit "hello"))
    as (_ & H & _); [done|done|].
  rewrite <- (H eq_refl). reflexivity.
Defined.
