(* ===== verification/CecTypes.v ===== *)
(** * HDMI CEC messages: data and statements (linux/cec.h)

    struct cec_msg, the statements that change a message in the notation of
    the source, the constants of linux/cec.h that the functions of
    linux/cec-funcs.h use, and the inline functions of linux/cec.h.

    A message is changed in place: a builder is a statement, from the
    message before it to the message after it, or a fault when it stores
    outside the array.  An index that is a constant of the source is checked
    when the definition is elaborated ([InBounds]); a computed index is
    checked when it is used ([load], [store]). *)

From stdpp Require Import base numbers list.
From S2P Require Import Prelude.

#[local] Open Scope Z_scope.

Declare Scope cec_scope.

(** ** Bit operations, with the precedence they have in C *)

Infix ".|" := Z.lor (at level 52, left associativity) : Z_scope.
Infix ".&" := Z.land (at level 51, left associativity) : Z_scope.

(** [c ? a : b] *)
Definition ite (c a b : Z) : Z := if c =? 0 then b else a.

(** The value of a comparison. *)
Definition truth (b : bool) : Z := if b then 1 else 0.

(** ** Arrays of bytes *)

(** An array of [n] bytes: the elements of a C array or the bytes of a
    struct or a union. *)
Definition arr (n : nat) : Type := list Z.

Class InBounds (i n : nat) : Prop := in_bounds : Is_true (Nat.ltb i n).
#[global] Hint Extern 0 (InBounds _ _) => exact I : typeclass_instances.

(** Elements at constant indices; a u16 field is stored little-endian. *)
Definition get {n} (a : arr n) (i : nat) `{!InBounds i n} : Z := nth i a 0.
Definition get16 {n} (a : arr n) (i : nat) `{!InBounds (S i) n} : Z :=
  nth i a 0 .| (nth (S i) a 0 ≪ 8).
Definition set8 {n} (a : arr n) (i : nat) `{!InBounds i n} (v : Z) : arr n := <[i := u8 v]> a.
Definition set16 {n} (a : arr n) (i : nat) `{!InBounds (S i) n} (v : Z) : arr n :=
  <[S i := u8 (v ≫ 8)]> (<[i := u8 v]> a).

(** Elements at computed indices. *)
Definition load (a : list Z) (i : nat) : res Z := lift_opt OutOfBounds (a !! i).
Definition store (a : list Z) (i : nat) (v : Z) : res (list Z) :=
  if Nat.ltb i (length a) then Ok (<[i := v]> a) else Fault OutOfBounds.

(** memcpy(dst + off, src, n) *)
Definition memcpy (dst : list Z) (off : nat) (src : list Z) (n : nat) : res (list Z) :=
  if Nat.leb n (length src) && Nat.leb (off + n) (length dst)
  then Ok (take off dst ++ take n src ++ drop (off + n) dst)
  else Fault OutOfBounds.

(** strlen() of the array a char pointer points to. *)
Fixpoint cstrlen (s : list Z) : res Z :=
  match s with
  | [] => Fault OutOfBounds
  | c :: r => if c =? 0 then Ok 0 else n ← cstrlen r; Ok (1 + n)
  end.

(** ** The message *)

Definition CEC_MAX_MSG_SIZE : nat := 16.

Record cec_msg : Type := CecMsg {
  tx_ts : Z;
  rx_ts : Z;
  len : Z;
  timeout : Z;
  sequence : Z;
  flags : Z;
  msg : arr CEC_MAX_MSG_SIZE;
  reply : Z;
  rx_status : Z;
  tx_status : Z;
  tx_arb_lost_cnt : Z;
  tx_nack_cnt : Z;
  tx_low_drive_cnt : Z;
  tx_error_cnt : Z }.

Notation "m .[ i ]" := (get (msg m) i)
  (at level 2, i at level 60, left associativity, format "m .[ i ]") : Z_scope.

Definition with_len (m : cec_msg) (v : Z) : cec_msg :=
  CecMsg (tx_ts m) (rx_ts m) v (timeout m) (sequence m) (flags m) (msg m) (reply m)
    (rx_status m) (tx_status m) (tx_arb_lost_cnt m) (tx_nack_cnt m) (tx_low_drive_cnt m) (tx_error_cnt m).
Definition with_timeout (m : cec_msg) (v : Z) : cec_msg :=
  CecMsg (tx_ts m) (rx_ts m) (len m) v (sequence m) (flags m) (msg m) (reply m)
    (rx_status m) (tx_status m) (tx_arb_lost_cnt m) (tx_nack_cnt m) (tx_low_drive_cnt m) (tx_error_cnt m).
Definition with_msg (m : cec_msg) (b : arr CEC_MAX_MSG_SIZE) : cec_msg :=
  CecMsg (tx_ts m) (rx_ts m) (len m) (timeout m) (sequence m) (flags m) b (reply m)
    (rx_status m) (tx_status m) (tx_arb_lost_cnt m) (tx_nack_cnt m) (tx_low_drive_cnt m) (tx_error_cnt m).
Definition with_reply (m : cec_msg) (v : Z) : cec_msg :=
  CecMsg (tx_ts m) (rx_ts m) (len m) (timeout m) (sequence m) (flags m) (msg m) v
    (rx_status m) (tx_status m) (tx_arb_lost_cnt m) (tx_nack_cnt m) (tx_low_drive_cnt m) (tx_error_cnt m).

(** ** Statements *)

Definition stmt : Type := cec_msg -> res cec_msg.

Definition skip : stmt := fun m => Ok m.
Definition seq_stmt (s t : stmt) : stmt := fun m => m ← s m; t m.

(** A statement that reads the message, and one that uses a result. *)
Definition reading (k : cec_msg -> stmt) : stmt := fun m => k m m.
Definition with_result {A} (r : res A) (k : A -> stmt) : stmt := fun m => a ← r; k a m.

Definition set_len (v : Z) : stmt := fun m => Ok (with_len m (u32 v)).
Definition add_len (v : Z) : stmt := fun m => Ok (with_len m (u32 (len m + v))).
Definition set_timeout (v : Z) : stmt := fun m => Ok (with_timeout m (u32 v)).
Definition set_reply (v : Z) : stmt := fun m => Ok (with_reply m (u8 v)).
Definition set_byte (i : nat) (v : Z) : stmt := fun m =>
  b ← store (msg m) i (u8 v); Ok (with_msg m b).
Definition or_byte (i : nat) (v : Z) : stmt := fun m =>
  b ← load (msg m) i; set_byte i (b .| v) m.

(** msg->msg[msg->len++] = v: the old length is the index. *)
Definition push_byte (v : Z) : stmt := fun m =>
  set_byte (Z.to_nat (len m)) v (with_len m (u32 (len m + 1))).

(** memcpy(msg->msg + off, src, n) *)
Definition copy_bytes (off : nat) (src : list Z) (n : Z) : stmt := fun m =>
  b ← memcpy (msg m) off src (Z.to_nat n); Ok (with_msg m b).

Notation "s ;; t" := (seq_stmt s t) (at level 100, t at level 200, right associativity) : cec_scope.
Notation "'let!' x := r 'in' k" := (with_result r (fun x => k)) (at level 200, x name, r at level 100, k at level 200) : cec_scope.
Notation "'msg->len' ::= e" := (set_len e%Z) (at level 90, e at level 70) : cec_scope.
Notation "'msg->len' += e" := (add_len e%Z) (at level 90, e at level 70) : cec_scope.
Notation "'msg->reply' ::= e" := (set_reply e%Z) (at level 90, e at level 70) : cec_scope.
Notation "'msg->timeout' ::= e" := (set_timeout e%Z) (at level 90, e at level 70) : cec_scope.
Notation "'msg->msg[' i ']' ::= e" := (set_byte i%nat e%Z) (at level 90, i at level 60, e at level 70) : cec_scope.
Notation "'msg->msg[' i ']' |= e" := (or_byte i%nat e%Z) (at level 90, i at level 60, e at level 70) : cec_scope.
Notation "'msg->msg[msg->len++]' ::= e" := (push_byte e%Z) (at level 90, e at level 70) : cec_scope.

#[local] Open Scope cec_scope.

(** Constants: status bits and addresses. *)

Definition CEC_TX_STATUS_OK : Z := 1 ≪ 0.
Definition CEC_RX_STATUS_OK : Z := 1 ≪ 0.
Definition CEC_RX_STATUS_FEATURE_ABORT : Z := 1 ≪ 2.
Definition CEC_PHYS_ADDR_INVALID : Z := 0xffff.
Definition CEC_MAX_LOG_ADDRS : nat := 4.
Definition CEC_LOG_ADDR_TV : Z := 0.
Definition CEC_LOG_ADDR_RECORD_1 : Z := 1.
Definition CEC_LOG_ADDR_RECORD_2 : Z := 2.
Definition CEC_LOG_ADDR_TUNER_1 : Z := 3.
Definition CEC_LOG_ADDR_PLAYBACK_1 : Z := 4.
Definition CEC_LOG_ADDR_AUDIOSYSTEM : Z := 5.
Definition CEC_LOG_ADDR_TUNER_2 : Z := 6.
Definition CEC_LOG_ADDR_TUNER_3 : Z := 7.
Definition CEC_LOG_ADDR_PLAYBACK_2 : Z := 8.
Definition CEC_LOG_ADDR_RECORD_3 : Z := 9.
Definition CEC_LOG_ADDR_TUNER_4 : Z := 10.
Definition CEC_LOG_ADDR_PLAYBACK_3 : Z := 11.
Definition CEC_LOG_ADDR_BACKUP_1 : Z := 12.
Definition CEC_LOG_ADDR_BACKUP_2 : Z := 13.
Definition CEC_LOG_ADDR_SPECIFIC : Z := 14.
Definition CEC_LOG_ADDR_UNREGISTERED : Z := 15.
Definition CEC_LOG_ADDR_MASK_TV : Z := 1 ≪ CEC_LOG_ADDR_TV.
Definition CEC_LOG_ADDR_MASK_RECORD : Z := ((1 ≪ CEC_LOG_ADDR_RECORD_1) .| (1 ≪ CEC_LOG_ADDR_RECORD_2) .| (1 ≪ CEC_LOG_ADDR_RECORD_3)).
Definition CEC_LOG_ADDR_MASK_TUNER : Z := ((1 ≪ CEC_LOG_ADDR_TUNER_1) .| (1 ≪ CEC_LOG_ADDR_TUNER_2) .| (1 ≪ CEC_LOG_ADDR_TUNER_3) .| (1 ≪ CEC_LOG_ADDR_TUNER_4)).
Definition CEC_LOG_ADDR_MASK_PLAYBACK : Z := ((1 ≪ CEC_LOG_ADDR_PLAYBACK_1) .| (1 ≪ CEC_LOG_ADDR_PLAYBACK_2) .| (1 ≪ CEC_LOG_ADDR_PLAYBACK_3)).
Definition CEC_LOG_ADDR_MASK_AUDIOSYSTEM : Z := 1 ≪ CEC_LOG_ADDR_AUDIOSYSTEM.
Definition CEC_LOG_ADDR_MASK_BACKUP : Z := ((1 ≪ CEC_LOG_ADDR_BACKUP_1) .| (1 ≪ CEC_LOG_ADDR_BACKUP_2)).
Definition CEC_LOG_ADDR_MASK_SPECIFIC : Z := 1 ≪ CEC_LOG_ADDR_SPECIFIC.
Definition CEC_LOG_ADDR_MASK_UNREGISTERED : Z := 1 ≪ CEC_LOG_ADDR_UNREGISTERED.
Definition CEC_LOG_ADDRS_FL_CDC_ONLY : Z := 1 ≪ 2.

(** Constants: opcodes. *)

Definition CEC_MSG_ACTIVE_SOURCE : Z := 0x82.
Definition CEC_MSG_IMAGE_VIEW_ON : Z := 0x04.
Definition CEC_MSG_TEXT_VIEW_ON : Z := 0x0d.
Definition CEC_MSG_INACTIVE_SOURCE : Z := 0x9d.
Definition CEC_MSG_REQUEST_ACTIVE_SOURCE : Z := 0x85.
Definition CEC_MSG_ROUTING_CHANGE : Z := 0x80.
Definition CEC_MSG_ROUTING_INFORMATION : Z := 0x81.
Definition CEC_MSG_SET_STREAM_PATH : Z := 0x86.
Definition CEC_MSG_STANDBY : Z := 0x36.
Definition CEC_MSG_RECORD_OFF : Z := 0x0b.
Definition CEC_MSG_RECORD_ON : Z := 0x09.
Definition CEC_MSG_RECORD_STATUS : Z := 0x0a.
Definition CEC_MSG_RECORD_TV_SCREEN : Z := 0x0f.
Definition CEC_MSG_CLEAR_ANALOGUE_TIMER : Z := 0x33.
Definition CEC_MSG_CLEAR_DIGITAL_TIMER : Z := 0x99.
Definition CEC_MSG_CLEAR_EXT_TIMER : Z := 0xa1.
Definition CEC_MSG_SET_ANALOGUE_TIMER : Z := 0x34.
Definition CEC_MSG_SET_DIGITAL_TIMER : Z := 0x97.
Definition CEC_MSG_SET_EXT_TIMER : Z := 0xa2.
Definition CEC_MSG_SET_TIMER_PROGRAM_TITLE : Z := 0x67.
Definition CEC_MSG_TIMER_CLEARED_STATUS : Z := 0x43.
Definition CEC_MSG_TIMER_STATUS : Z := 0x35.
Definition CEC_MSG_CEC_VERSION : Z := 0x9e.
Definition CEC_MSG_GET_CEC_VERSION : Z := 0x9f.
Definition CEC_MSG_GIVE_PHYSICAL_ADDR : Z := 0x83.
Definition CEC_MSG_GET_MENU_LANGUAGE : Z := 0x91.
Definition CEC_MSG_REPORT_PHYSICAL_ADDR : Z := 0x84.
Definition CEC_MSG_SET_MENU_LANGUAGE : Z := 0x32.
Definition CEC_MSG_REPORT_FEATURES : Z := 0xa6.
Definition CEC_MSG_GIVE_FEATURES : Z := 0xa5.
Definition CEC_MSG_DECK_CONTROL : Z := 0x42.
Definition CEC_MSG_DECK_STATUS : Z := 0x1b.
Definition CEC_MSG_GIVE_DECK_STATUS : Z := 0x1a.
Definition CEC_MSG_PLAY : Z := 0x41.
Definition CEC_MSG_GIVE_TUNER_DEVICE_STATUS : Z := 0x08.
Definition CEC_MSG_SELECT_ANALOGUE_SERVICE : Z := 0x92.
Definition CEC_MSG_SELECT_DIGITAL_SERVICE : Z := 0x93.
Definition CEC_MSG_TUNER_DEVICE_STATUS : Z := 0x07.
Definition CEC_MSG_TUNER_STEP_DECREMENT : Z := 0x06.
Definition CEC_MSG_TUNER_STEP_INCREMENT : Z := 0x05.
Definition CEC_MSG_DEVICE_VENDOR_ID : Z := 0x87.
Definition CEC_MSG_GIVE_DEVICE_VENDOR_ID : Z := 0x8c.
Definition CEC_MSG_VENDOR_COMMAND : Z := 0x89.
Definition CEC_MSG_VENDOR_COMMAND_WITH_ID : Z := 0xa0.
Definition CEC_MSG_VENDOR_REMOTE_BUTTON_DOWN : Z := 0x8a.
Definition CEC_MSG_VENDOR_REMOTE_BUTTON_UP : Z := 0x8b.
Definition CEC_MSG_SET_OSD_STRING : Z := 0x64.
Definition CEC_MSG_GIVE_OSD_NAME : Z := 0x46.
Definition CEC_MSG_SET_OSD_NAME : Z := 0x47.
Definition CEC_MSG_MENU_REQUEST : Z := 0x8d.
Definition CEC_MSG_MENU_STATUS : Z := 0x8e.
Definition CEC_MSG_USER_CONTROL_PRESSED : Z := 0x44.
Definition CEC_MSG_USER_CONTROL_RELEASED : Z := 0x45.
Definition CEC_MSG_GIVE_DEVICE_POWER_STATUS : Z := 0x8f.
Definition CEC_MSG_REPORT_POWER_STATUS : Z := 0x90.
Definition CEC_MSG_FEATURE_ABORT : Z := 0x00.
Definition CEC_MSG_ABORT : Z := 0xff.
Definition CEC_MSG_GIVE_AUDIO_STATUS : Z := 0x71.
Definition CEC_MSG_GIVE_SYSTEM_AUDIO_MODE_STATUS : Z := 0x7d.
Definition CEC_MSG_REPORT_AUDIO_STATUS : Z := 0x7a.
Definition CEC_MSG_REPORT_SHORT_AUDIO_DESCRIPTOR : Z := 0xa3.
Definition CEC_MSG_REQUEST_SHORT_AUDIO_DESCRIPTOR : Z := 0xa4.
Definition CEC_MSG_SET_SYSTEM_AUDIO_MODE : Z := 0x72.
Definition CEC_MSG_SYSTEM_AUDIO_MODE_REQUEST : Z := 0x70.
Definition CEC_MSG_SYSTEM_AUDIO_MODE_STATUS : Z := 0x7e.
Definition CEC_MSG_SET_AUDIO_RATE : Z := 0x9a.
Definition CEC_MSG_INITIATE_ARC : Z := 0xc0.
Definition CEC_MSG_REPORT_ARC_INITIATED : Z := 0xc1.
Definition CEC_MSG_REPORT_ARC_TERMINATED : Z := 0xc2.
Definition CEC_MSG_REQUEST_ARC_INITIATION : Z := 0xc3.
Definition CEC_MSG_REQUEST_ARC_TERMINATION : Z := 0xc4.
Definition CEC_MSG_TERMINATE_ARC : Z := 0xc5.
Definition CEC_MSG_REQUEST_CURRENT_LATENCY : Z := 0xa7.
Definition CEC_MSG_REPORT_CURRENT_LATENCY : Z := 0xa8.
Definition CEC_MSG_CDC_MESSAGE : Z := 0xf8.
Definition CEC_MSG_CDC_HEC_INQUIRE_STATE : Z := 0x00.
Definition CEC_MSG_CDC_HEC_REPORT_STATE : Z := 0x01.
Definition CEC_MSG_CDC_HEC_SET_STATE_ADJACENT : Z := 0x02.
Definition CEC_MSG_CDC_HEC_SET_STATE : Z := 0x03.
Definition CEC_MSG_CDC_HEC_REQUEST_DEACTIVATION : Z := 0x04.
Definition CEC_MSG_CDC_HEC_NOTIFY_ALIVE : Z := 0x05.
Definition CEC_MSG_CDC_HEC_DISCOVER : Z := 0x06.
Definition CEC_MSG_CDC_HPD_SET_STATE : Z := 0x10.
Definition CEC_MSG_CDC_HPD_REPORT_STATE : Z := 0x11.

(** Constants: operands. *)

Definition CEC_OP_RECORD_SRC_OWN : Z := 1.
Definition CEC_OP_RECORD_SRC_DIGITAL : Z := 2.
Definition CEC_OP_RECORD_SRC_ANALOG : Z := 3.
Definition CEC_OP_RECORD_SRC_EXT_PLUG : Z := 4.
Definition CEC_OP_RECORD_SRC_EXT_PHYS_ADDR : Z := 5.
Definition CEC_OP_SERVICE_ID_METHOD_BY_CHANNEL : Z := 1.
Definition CEC_OP_DIG_SERVICE_BCAST_SYSTEM_ATSC_GEN : Z := 0x01.
Definition CEC_OP_DIG_SERVICE_BCAST_SYSTEM_ATSC_CABLE : Z := 0x10.
Definition CEC_OP_DIG_SERVICE_BCAST_SYSTEM_ATSC_SAT : Z := 0x11.
Definition CEC_OP_DIG_SERVICE_BCAST_SYSTEM_ATSC_T : Z := 0x12.
Definition CEC_OP_PROG_INFO_NOT_ENOUGH_SPACE : Z := 0x09.
Definition CEC_OP_PROG_INFO_MIGHT_NOT_BE_ENOUGH_SPACE : Z := 0x0b.
Definition CEC_OP_PROG_ERROR_DUPLICATE : Z := 0x0e.
Definition CEC_OP_PRIM_DEVTYPE_TV : Z := 0.
Definition CEC_OP_PRIM_DEVTYPE_SWITCH : Z := 6.
Definition CEC_OP_PRIM_DEVTYPE_PROCESSOR : Z := 7.
Definition CEC_OP_FEAT_EXT : Z := 0x80.

(** ** Functions of linux/cec.h *)

Definition cec_msg_initiator (m : cec_msg) : Z := u8 (m.[0] ≫ 4).

Definition cec_msg_destination (m : cec_msg) : Z := u8 (m.[0] .& 0xf).

Definition cec_msg_opcode (m : cec_msg) : Z := if 1 <? len m then m.[1] else -1.

Definition cec_msg_is_broadcast (m : cec_msg) : Z := truth ((m.[0] .& 0xf) =? 0xf).

(** memset(msg, 0, sizeof( *msg)) *)
Definition zero_msg : cec_msg := CecMsg 0 0 0 0 0 0 (replicate CEC_MAX_MSG_SIZE 0) 0 0 0 0 0 0 0.

Definition cec_msg_init (initiator destination : Z) : stmt := fun _ =>
  (msg->msg[0] ::= (initiator ≪ 4) .| destination;;
   msg->len ::= 1) zero_msg.

(** The original may be the message itself: it is read before the stores. *)
Definition cec_msg_set_reply_to (orig : cec_msg) : stmt :=
  msg->msg[0] ::= (cec_msg_destination orig ≪ 4) .| cec_msg_initiator orig;;
  msg->timeout ::= 0;;
  msg->reply ::= 0.

Definition cec_msg_status_is_ok (m : cec_msg) : Z :=
  if negb (tx_status m =? 0) && ((tx_status m .& CEC_TX_STATUS_OK) =? 0) then 0
  else if negb (rx_status m =? 0) && ((rx_status m .& CEC_RX_STATUS_OK) =? 0) then 0
  else if (tx_status m =? 0) && (rx_status m =? 0) then 0
  else truth ((rx_status m .& CEC_RX_STATUS_FEATURE_ABORT) =? 0).

Definition cec_has_tv (log_addr_mask : Z) : Z := log_addr_mask .& CEC_LOG_ADDR_MASK_TV.
Definition cec_has_record (log_addr_mask : Z) : Z := log_addr_mask .& CEC_LOG_ADDR_MASK_RECORD.
Definition cec_has_tuner (log_addr_mask : Z) : Z := log_addr_mask .& CEC_LOG_ADDR_MASK_TUNER.
Definition cec_has_playback (log_addr_mask : Z) : Z := log_addr_mask .& CEC_LOG_ADDR_MASK_PLAYBACK.
Definition cec_has_audiosystem (log_addr_mask : Z) : Z := log_addr_mask .& CEC_LOG_ADDR_MASK_AUDIOSYSTEM.
Definition cec_has_backup (log_addr_mask : Z) : Z := log_addr_mask .& CEC_LOG_ADDR_MASK_BACKUP.
Definition cec_has_specific (log_addr_mask : Z) : Z := log_addr_mask .& CEC_LOG_ADDR_MASK_SPECIFIC.
Definition cec_is_unregistered (log_addr_mask : Z) : Z := log_addr_mask .& CEC_LOG_ADDR_MASK_UNREGISTERED.
Definition cec_is_unconfigured (log_addr_mask : Z) : Z := truth (log_addr_mask =? 0).

(** struct cec_log_addrs *)
Record cec_log_addrs : Type := CecLogAddrs {
  log_addr : arr CEC_MAX_LOG_ADDRS;
  log_addr_mask : Z;
  las_cec_version : Z;
  num_log_addrs : Z;
  las_vendor_id : Z;
  las_flags : Z;
  osd_name : arr 15;
  primary_device_type : arr CEC_MAX_LOG_ADDRS;
  log_addr_type : arr CEC_MAX_LOG_ADDRS;
  las_all_device_types : arr CEC_MAX_LOG_ADDRS;
  features : list (arr 12) }.

Definition cec_is_2nd_tv (las : cec_log_addrs) : Z :=
  truth (negb (num_log_addrs las =? 0) &&
         (CEC_LOG_ADDR_SPECIFIC <=? get (log_addr las) 0) &&
         (get (primary_device_type las) 0 =? CEC_OP_PRIM_DEVTYPE_TV)).

Definition cec_is_processor (las : cec_log_addrs) : Z :=
  truth (negb (num_log_addrs las =? 0) &&
         (CEC_LOG_ADDR_BACKUP_1 <=? get (log_addr las) 0) &&
         (get (primary_device_type las) 0 =? CEC_OP_PRIM_DEVTYPE_PROCESSOR)).

Definition cec_is_switch (las : cec_log_addrs) : Z :=
  truth ((num_log_addrs las =? 1) &&
         (get (log_addr las) 0 =? CEC_LOG_ADDR_UNREGISTERED) &&
         (get (primary_device_type las) 0 =? CEC_OP_PRIM_DEVTYPE_SWITCH) &&
         ((las_flags las .& CEC_LOG_ADDRS_FL_CDC_ONLY) =? 0)).

Definition cec_is_cdc_only (las : cec_log_addrs) : Z :=
  truth ((num_log_addrs las =? 1) &&
         (get (log_addr las) 0 =? CEC_LOG_ADDR_UNREGISTERED) &&
         (get (primary_device_type las) 0 =? CEC_OP_PRIM_DEVTYPE_SWITCH) &&
         negb ((las_flags las .& CEC_LOG_ADDRS_FL_CDC_ONLY) =? 0)).
