(* ===== verification/CecRecord.v ===== *)
(** * CEC messages: playing, routing, recording and timers

    The functions of linux/cec-funcs.h up to the timer programming feature.
    A cec_msg_ function is a statement that fills in a message; a cec_ops_
    function returns what it stores through its pointers, converted to the
    type of the target. *)

From stdpp Require Import base numbers list.
From S2P Require Import Prelude CecTypes.

#[local] Open Scope Z_scope.
#[local] Open Scope cec_scope.

(** ** One Touch Play Feature *)

Definition cec_msg_active_source (phys_addr : Z) : stmt :=
  msg->len ::= 4;;
  msg->msg[0] |= 0xf;;
  msg->msg[1] ::= CEC_MSG_ACTIVE_SOURCE;;
  msg->msg[2] ::= phys_addr ≫ 8;;
  msg->msg[3] ::= phys_addr .& 0xff.

Definition cec_ops_active_source (m : cec_msg) : Z := u16 ((m.[2] ≪ 8) .| m.[3]).

Definition cec_msg_image_view_on : stmt :=
  msg->len ::= 2;;
  msg->msg[1] ::= CEC_MSG_IMAGE_VIEW_ON.

Definition cec_msg_text_view_on : stmt :=
  msg->len ::= 2;;
  msg->msg[1] ::= CEC_MSG_TEXT_VIEW_ON.

(** ** Routing Control Feature *)

Definition cec_msg_inactive_source (phys_addr : Z) : stmt :=
  msg->len ::= 4;;
  msg->msg[1] ::= CEC_MSG_INACTIVE_SOURCE;;
  msg->msg[2] ::= phys_addr ≫ 8;;
  msg->msg[3] ::= phys_addr .& 0xff.

Definition cec_ops_inactive_source (m : cec_msg) : Z := u16 ((m.[2] ≪ 8) .| m.[3]).

Definition cec_msg_request_active_source (reply : Z) : stmt :=
  msg->len ::= 2;;
  msg->msg[0] |= 0xf;;
  msg->msg[1] ::= CEC_MSG_REQUEST_ACTIVE_SOURCE;;
  msg->reply ::= ite reply CEC_MSG_ACTIVE_SOURCE 0.

Definition cec_msg_routing_information (phys_addr : Z) : stmt :=
  msg->len ::= 4;;
  msg->msg[0] |= 0xf;;
  msg->msg[1] ::= CEC_MSG_ROUTING_INFORMATION;;
  msg->msg[2] ::= phys_addr ≫ 8;;
  msg->msg[3] ::= phys_addr .& 0xff.

Definition cec_ops_routing_information (m : cec_msg) : Z := u16 ((m.[2] ≪ 8) .| m.[3]).

Definition cec_msg_routing_change (reply orig_phys_addr new_phys_addr : Z) : stmt :=
  msg->len ::= 6;;
  msg->msg[0] |= 0xf;;
  msg->msg[1] ::= CEC_MSG_ROUTING_CHANGE;;
  msg->msg[2] ::= orig_phys_addr ≫ 8;;
  msg->msg[3] ::= orig_phys_addr .& 0xff;;
  msg->msg[4] ::= new_phys_addr ≫ 8;;
  msg->msg[5] ::= new_phys_addr .& 0xff;;
  msg->reply ::= ite reply CEC_MSG_ROUTING_INFORMATION 0.

Definition cec_ops_routing_change (m : cec_msg) : Z * Z :=
  let orig_phys_addr := u16 ((m.[2] ≪ 8) .| m.[3]) in
  let new_phys_addr := u16 ((m.[4] ≪ 8) .| m.[5]) in
  (orig_phys_addr, new_phys_addr).

Definition cec_msg_set_stream_path (phys_addr : Z) : stmt :=
  msg->len ::= 4;;
  msg->msg[0] |= 0xf;;
  msg->msg[1] ::= CEC_MSG_SET_STREAM_PATH;;
  msg->msg[2] ::= phys_addr ≫ 8;;
  msg->msg[3] ::= phys_addr .& 0xff.

Definition cec_ops_set_stream_path (m : cec_msg) : Z := u16 ((m.[2] ≪ 8) .| m.[3]).

(** ** Standby Feature *)

Definition cec_msg_standby : stmt :=
  msg->len ::= 2;;
  msg->msg[1] ::= CEC_MSG_STANDBY.

(** ** One Touch Record Feature *)

Definition cec_msg_record_off (reply : Z) : stmt :=
  msg->len ::= 2;;
  msg->msg[1] ::= CEC_MSG_RECORD_OFF;;
  msg->reply ::= ite reply CEC_MSG_RECORD_STATUS 0.

(** *** Structures

    A structure that a union overlaps with others is its bytes in memory,
    with the offsets of a little-endian target; the fields are read and
    written at their offsets. *)

Definition cec_op_arib_data : Type := arr 6.
Definition cec_op_atsc_data : Type := arr 4.
Definition cec_op_dvb_data : Type := arr 6.

Definition cec_op_channel_data : Type := arr 6.
Definition channel_number_fmt (c : cec_op_channel_data) : Z := get (n:=6) c 0.
Definition major (c : cec_op_channel_data) : Z := get16 (n:=6) c 2.
Definition minor (c : cec_op_channel_data) : Z := get16 (n:=6) c 4.
Definition set_channel_number_fmt (c : cec_op_channel_data) (v : Z) : cec_op_channel_data := set8 (n:=6) c 0 v.
Definition set_major (c : cec_op_channel_data) (v : Z) : cec_op_channel_data := set16 (n:=6) c 2 v.
Definition set_minor (c : cec_op_channel_data) (v : Z) : cec_op_channel_data := set16 (n:=6) c 4 v.

(** service_id_method, dig_bcast_system, then the union of the four
    structures above at offset 2. *)
Definition cec_op_digital_service_id : Type := arr 8.
Definition service_id_method (d : cec_op_digital_service_id) : Z := get (n:=8) d 0.
Definition dig_bcast_system (d : cec_op_digital_service_id) : Z := get (n:=8) d 1.
Definition digital_channel (d : cec_op_digital_service_id) : cec_op_channel_data := drop 2 d.
Definition atsc_transport_id (d : cec_op_digital_service_id) : Z := get16 (n:=8) d 2.
Definition atsc_program_number (d : cec_op_digital_service_id) : Z := get16 (n:=8) d 4.
Definition dvb_transport_id (d : cec_op_digital_service_id) : Z := get16 (n:=8) d 2.
Definition dvb_service_id (d : cec_op_digital_service_id) : Z := get16 (n:=8) d 4.
Definition dvb_orig_network_id (d : cec_op_digital_service_id) : Z := get16 (n:=8) d 6.
Definition set_service_id_method (d : cec_op_digital_service_id) (v : Z) : cec_op_digital_service_id := set8 (n:=8) d 0 v.
Definition set_dig_bcast_system (d : cec_op_digital_service_id) (v : Z) : cec_op_digital_service_id := set8 (n:=8) d 1 v.
Definition set_digital_channel_number_fmt (d : cec_op_digital_service_id) (v : Z) : cec_op_digital_service_id := set8 (n:=8) d 2 v.
Definition set_digital_major (d : cec_op_digital_service_id) (v : Z) : cec_op_digital_service_id := set16 (n:=8) d 4 v.
Definition set_digital_minor (d : cec_op_digital_service_id) (v : Z) : cec_op_digital_service_id := set16 (n:=8) d 6 v.
Definition set_dvb_transport_id (d : cec_op_digital_service_id) (v : Z) : cec_op_digital_service_id := set16 (n:=8) d 2 v.
Definition set_dvb_service_id (d : cec_op_digital_service_id) (v : Z) : cec_op_digital_service_id := set16 (n:=8) d 4 v.
Definition set_dvb_orig_network_id (d : cec_op_digital_service_id) (v : Z) : cec_op_digital_service_id := set16 (n:=8) d 6 v.

(** The cases of the switch in cec_set_digital_service_id(). *)
Definition is_atsc (s : Z) : bool :=
  (s =? CEC_OP_DIG_SERVICE_BCAST_SYSTEM_ATSC_GEN) || (s =? CEC_OP_DIG_SERVICE_BCAST_SYSTEM_ATSC_CABLE)
  || (s =? CEC_OP_DIG_SERVICE_BCAST_SYSTEM_ATSC_SAT) || (s =? CEC_OP_DIG_SERVICE_BCAST_SYSTEM_ATSC_T).

(** The member analog of the unions: a type, a frequency at offset 2 and a
    broadcast system at offset 4. *)
Definition analog_ana_bcast_type (a : arr 8) : Z := get a 0.
Definition analog_ana_freq (a : arr 8) : Z := get16 a 2.
Definition analog_bcast_system (a : arr 8) : Z := get a 4.
Definition set_analog_ana_bcast_type (a : arr 8) (v : Z) : arr 8 := set8 a 0 v.
Definition set_analog_ana_freq (a : arr 8) (v : Z) : arr 8 := set16 a 2 v.
Definition set_analog_bcast_system (a : arr 8) (v : Z) : arr 8 := set8 a 4 v.

(** The source of a recording: its type and the bytes of the union. *)
Record cec_op_record_src : Type := RecordSrc { rs_type : Z; rs_u : arr 8 }.
Definition rs_digital (r : cec_op_record_src) : cec_op_digital_service_id := rs_u r.
Definition rs_analog (r : cec_op_record_src) : arr 8 := rs_u r.
Definition ext_plug_plug (r : cec_op_record_src) : Z := get (rs_u r) 0.
Definition ext_phys_addr_phys_addr (r : cec_op_record_src) : Z := get16 (rs_u r) 0.
Definition set_ext_plug_plug (r : cec_op_record_src) (v : Z) : cec_op_record_src :=
  RecordSrc (rs_type r) (set8 (rs_u r) 0 v).
Definition set_ext_phys_addr_phys_addr (r : cec_op_record_src) (v : Z) : cec_op_record_src :=
  RecordSrc (rs_type r) (set16 (rs_u r) 0 v).

Definition cec_set_digital_service_id (p : nat) (digital : cec_op_digital_service_id) : stmt :=
  msg->msg[p] ::= (service_id_method digital ≪ 7) .| dig_bcast_system digital;;
  if service_id_method digital =? CEC_OP_SERVICE_ID_METHOD_BY_CHANNEL then
    msg->msg[p + 1] ::= (channel_number_fmt (digital_channel digital) ≪ 2) .|
                        (major (digital_channel digital) ≫ 8);;
    msg->msg[p + 2] ::= major (digital_channel digital) .& 0xff;;
    msg->msg[p + 3] ::= minor (digital_channel digital) ≫ 8;;
    msg->msg[p + 4] ::= minor (digital_channel digital) .& 0xff;;
    msg->msg[p + 5] ::= 0;;
    msg->msg[p + 6] ::= 0
  else if is_atsc (dig_bcast_system digital) then
    msg->msg[p + 1] ::= atsc_transport_id digital ≫ 8;;
    msg->msg[p + 2] ::= atsc_transport_id digital .& 0xff;;
    msg->msg[p + 3] ::= atsc_program_number digital ≫ 8;;
    msg->msg[p + 4] ::= atsc_program_number digital .& 0xff;;
    msg->msg[p + 5] ::= 0;;
    msg->msg[p + 6] ::= 0
  else
    msg->msg[p + 1] ::= dvb_transport_id digital ≫ 8;;
    msg->msg[p + 2] ::= dvb_transport_id digital .& 0xff;;
    msg->msg[p + 3] ::= dvb_service_id digital ≫ 8;;
    msg->msg[p + 4] ::= dvb_service_id digital .& 0xff;;
    msg->msg[p + 5] ::= dvb_orig_network_id digital ≫ 8;;
    msg->msg[p + 6] ::= dvb_orig_network_id digital .& 0xff.

Definition cec_get_digital_service_id (m : list Z) (p : nat) (digital : cec_op_digital_service_id) :
    res cec_op_digital_service_id :=
  b0 ← load m p;
  let digital := set_service_id_method digital (b0 ≫ 7) in
  let digital := set_dig_bcast_system digital (b0 .& 0x7f) in
  b1 ← load m (p + 1);
  b2 ← load m (p + 2);
  b3 ← load m (p + 3);
  b4 ← load m (p + 4);
  if service_id_method digital =? CEC_OP_SERVICE_ID_METHOD_BY_CHANNEL then
    let digital := set_digital_channel_number_fmt digital (b1 ≫ 2) in
    let digital := set_digital_major digital (((b1 .& 3) ≪ 6) .| b2) in
    Ok (set_digital_minor digital ((b3 ≪ 8) .| b4))
  else
    b5 ← load m (p + 5);
    b6 ← load m (p + 6);
    let digital := set_dvb_transport_id digital ((b1 ≪ 8) .| b2) in
    let digital := set_dvb_service_id digital ((b3 ≪ 8) .| b4) in
    Ok (set_dvb_orig_network_id digital ((b5 ≪ 8) .| b6)).

Definition cec_msg_record_on_own : stmt :=
  msg->len ::= 3;;
  msg->msg[1] ::= CEC_MSG_RECORD_ON;;
  msg->msg[2] ::= CEC_OP_RECORD_SRC_OWN.

Definition cec_msg_record_on_digital (digital : cec_op_digital_service_id) : stmt :=
  msg->len ::= 10;;
  msg->msg[1] ::= CEC_MSG_RECORD_ON;;
  msg->msg[2] ::= CEC_OP_RECORD_SRC_DIGITAL;;
  cec_set_digital_service_id 3 digital.

Definition cec_msg_record_on_analog (ana_bcast_type ana_freq bcast_system : Z) : stmt :=
  msg->len ::= 7;;
  msg->msg[1] ::= CEC_MSG_RECORD_ON;;
  msg->msg[2] ::= CEC_OP_RECORD_SRC_ANALOG;;
  msg->msg[3] ::= ana_bcast_type;;
  msg->msg[4] ::= ana_freq ≫ 8;;
  msg->msg[5] ::= ana_freq .& 0xff;;
  msg->msg[6] ::= bcast_system.

Definition cec_msg_record_on_plug (plug : Z) : stmt :=
  msg->len ::= 4;;
  msg->msg[1] ::= CEC_MSG_RECORD_ON;;
  msg->msg[2] ::= CEC_OP_RECORD_SRC_EXT_PLUG;;
  msg->msg[3] ::= plug.

Definition cec_msg_record_on_phys_addr (phys_addr : Z) : stmt :=
  msg->len ::= 5;;
  msg->msg[1] ::= CEC_MSG_RECORD_ON;;
  msg->msg[2] ::= CEC_OP_RECORD_SRC_EXT_PHYS_ADDR;;
  msg->msg[3] ::= phys_addr ≫ 8;;
  msg->msg[4] ::= phys_addr .& 0xff.

Definition cec_msg_record_on (reply : Z) (rec_src : cec_op_record_src) : stmt :=
  (if rs_type rec_src =? CEC_OP_RECORD_SRC_OWN then cec_msg_record_on_own
   else if rs_type rec_src =? CEC_OP_RECORD_SRC_DIGITAL then
     cec_msg_record_on_digital (rs_digital rec_src)
   else if rs_type rec_src =? CEC_OP_RECORD_SRC_ANALOG then
     cec_msg_record_on_analog (analog_ana_bcast_type (rs_analog rec_src))
       (analog_ana_freq (rs_analog rec_src)) (analog_bcast_system (rs_analog rec_src))
   else if rs_type rec_src =? CEC_OP_RECORD_SRC_EXT_PLUG then
     cec_msg_record_on_plug (ext_plug_plug rec_src)
   else if rs_type rec_src =? CEC_OP_RECORD_SRC_EXT_PHYS_ADDR then
     cec_msg_record_on_phys_addr (ext_phys_addr_phys_addr rec_src)
   else skip);;
  msg->reply ::= ite reply CEC_MSG_RECORD_STATUS 0.

Definition cec_ops_record_on (m : cec_msg) (rec_src : cec_op_record_src) : res cec_op_record_src :=
  let rec_src := RecordSrc (u8 m.[2]) (rs_u rec_src) in
  if rs_type rec_src =? CEC_OP_RECORD_SRC_OWN then Ok rec_src
  else if rs_type rec_src =? CEC_OP_RECORD_SRC_DIGITAL then
    digital ← cec_get_digital_service_id (msg m) 3 (rs_digital rec_src);
    Ok (RecordSrc (rs_type rec_src) digital)
  else if rs_type rec_src =? CEC_OP_RECORD_SRC_ANALOG then
    let a := set_analog_ana_bcast_type (rs_analog rec_src) m.[3] in
    let a := set_analog_ana_freq a ((m.[4] ≪ 8) .| m.[5]) in
    Ok (RecordSrc (rs_type rec_src) (set_analog_bcast_system a m.[6]))
  else if rs_type rec_src =? CEC_OP_RECORD_SRC_EXT_PLUG then
    Ok (set_ext_plug_plug rec_src m.[3])
  else if rs_type rec_src =? CEC_OP_RECORD_SRC_EXT_PHYS_ADDR then
    Ok (set_ext_phys_addr_phys_addr rec_src ((m.[3] ≪ 8) .| m.[4]))
  else Ok rec_src.

Definition cec_msg_record_status (rec_status : Z) : stmt :=
  msg->len ::= 3;;
  msg->msg[1] ::= CEC_MSG_RECORD_STATUS;;
  msg->msg[2] ::= rec_status.

Definition cec_ops_record_status (m : cec_msg) : Z := u8 m.[2].

Definition cec_msg_record_tv_screen (reply : Z) : stmt :=
  msg->len ::= 2;;
  msg->msg[1] ::= CEC_MSG_RECORD_TV_SCREEN;;
  msg->reply ::= ite reply CEC_MSG_RECORD_ON 0.

(** ** Timer Programming Feature *)

Definition timer_status_has_duration (prog_info prog_error : Z) : bool :=
  (prog_info =? CEC_OP_PROG_INFO_NOT_ENOUGH_SPACE)
  || (prog_info =? CEC_OP_PROG_INFO_MIGHT_NOT_BE_ENOUGH_SPACE)
  || (prog_error =? CEC_OP_PROG_ERROR_DUPLICATE).

Definition cec_msg_timer_status (timer_overlap_warning media_info prog_info prog_error
    duration_hr duration_min : Z) : stmt :=
  msg->len ::= 3;;
  msg->msg[1] ::= CEC_MSG_TIMER_STATUS;;
  msg->msg[2] ::= (timer_overlap_warning ≪ 7) .|
                  (media_info ≪ 5) .|
                  (ite prog_info 0x10 0) .|
                  (ite prog_info prog_info prog_error);;
  if timer_status_has_duration prog_info prog_error then
    msg->len += 2;;
    msg->msg[3] ::= ((duration_hr / 10) ≪ 4) .| (duration_hr mod 10);;
    msg->msg[4] ::= ((duration_min / 10) ≪ 4) .| (duration_min mod 10)
  else skip.

Definition cec_ops_timer_status (m : cec_msg) : Z * Z * Z * Z * Z * Z :=
  let timer_overlap_warning := u8 (m.[2] ≫ 7) in
  let media_info := u8 ((m.[2] ≫ 5) .& 3) in
  let '(prog_info, prog_error) :=
    if negb ((m.[2] .& 0x10) =? 0) then (u8 (m.[2] .& 0xf), 0) else (0, u8 (m.[2] .& 0xf)) in
  let '(duration_hr, duration_min) :=
    if timer_status_has_duration prog_info prog_error then
      (u8 ((m.[3] ≫ 4) * 10 + (m.[3] .& 0xf)), u8 ((m.[4] ≫ 4) * 10 + (m.[4] .& 0xf)))
    else (0, 0) in
  (timer_overlap_warning, media_info, prog_info, prog_error, duration_hr, duration_min).

Definition cec_msg_timer_cleared_status (timer_cleared_status : Z) : stmt :=
  msg->len ::= 3;;
  msg->msg[1] ::= CEC_MSG_TIMER_CLEARED_STATUS;;
  msg->msg[2] ::= timer_cleared_status.

Definition cec_ops_timer_cleared_status (m : cec_msg) : Z := u8 m.[2].

Definition cec_msg_clear_analogue_timer (reply day month start_hr start_min duration_hr
    duration_min recording_seq ana_bcast_type ana_freq bcast_system : Z) : stmt :=
  msg->len ::= 13;;
  msg->msg[1] ::= CEC_MSG_CLEAR_ANALOGUE_TIMER;;
  msg->msg[2] ::= day;;
  msg->msg[3] ::= month;;
  msg->msg[4] ::= ((start_hr / 10) ≪ 4) .| (start_hr mod 10);;
  msg->msg[5] ::= ((start_min / 10) ≪ 4) .| (start_min mod 10);;
  msg->msg[6] ::= ((duration_hr / 10) ≪ 4) .| (duration_hr mod 10);;
  msg->msg[7] ::= ((duration_min / 10) ≪ 4) .| (duration_min mod 10);;
  msg->msg[8] ::= recording_seq;;
  msg->msg[9] ::= ana_bcast_type;;
  msg->msg[10] ::= ana_freq ≫ 8;;
  msg->msg[11] ::= ana_freq .& 0xff;;
  msg->msg[12] ::= bcast_system;;
  msg->reply ::= ite reply CEC_MSG_TIMER_CLEARED_STATUS 0.

Definition cec_ops_clear_analogue_timer (m : cec_msg) : Z * Z * Z * Z * Z * Z * Z * Z * Z * Z :=
  let day := u8 m.[2] in
  let month := u8 m.[3] in
  let start_hr := u8 ((m.[4] ≫ 4) * 10 + (m.[4] .& 0xf)) in
  let start_min := u8 ((m.[5] ≫ 4) * 10 + (m.[5] .& 0xf)) in
  let duration_hr := u8 ((m.[6] ≫ 4) * 10 + (m.[6] .& 0xf)) in
  let duration_min := u8 ((m.[7] ≫ 4) * 10 + (m.[7] .& 0xf)) in
  let recording_seq := u8 m.[8] in
  let ana_bcast_type := u8 m.[9] in
  let ana_freq := u16 ((m.[10] ≪ 8) .| m.[11]) in
  let bcast_system := u8 m.[12] in
  (day, month, start_hr, start_min, duration_hr, duration_min,
   recording_seq, ana_bcast_type, ana_freq, bcast_system).

Definition cec_msg_clear_digital_timer (reply day month start_hr start_min duration_hr
    duration_min recording_seq : Z) (digital : cec_op_digital_service_id) : stmt :=
  msg->len ::= 16;;
  msg->reply ::= ite reply CEC_MSG_TIMER_CLEARED_STATUS 0;;
  msg->msg[1] ::= CEC_MSG_CLEAR_DIGITAL_TIMER;;
  msg->msg[2] ::= day;;
  msg->msg[3] ::= month;;
  msg->msg[4] ::= ((start_hr / 10) ≪ 4) .| (start_hr mod 10);;
  msg->msg[5] ::= ((start_min / 10) ≪ 4) .| (start_min mod 10);;
  msg->msg[6] ::= ((duration_hr / 10) ≪ 4) .| (duration_hr mod 10);;
  msg->msg[7] ::= ((duration_min / 10) ≪ 4) .| (duration_min mod 10);;
  msg->msg[8] ::= recording_seq;;
  cec_set_digital_service_id 9 digital.

Definition cec_ops_clear_digital_timer (m : cec_msg) (digital : cec_op_digital_service_id) :
    res (Z * Z * Z * Z * Z * Z * Z * cec_op_digital_service_id) :=
  let day := u8 m.[2] in
  let month := u8 m.[3] in
  let start_hr := u8 ((m.[4] ≫ 4) * 10 + (m.[4] .& 0xf)) in
  let start_min := u8 ((m.[5] ≫ 4) * 10 + (m.[5] .& 0xf)) in
  let duration_hr := u8 ((m.[6] ≫ 4) * 10 + (m.[6] .& 0xf)) in
  let duration_min := u8 ((m.[7] ≫ 4) * 10 + (m.[7] .& 0xf)) in
  let recording_seq := u8 m.[8] in
  digital ← cec_get_digital_service_id (msg m) 9 digital;
  Ok (day, month, start_hr, start_min, duration_hr, duration_min, recording_seq, digital).

Definition cec_msg_clear_ext_timer (reply day month start_hr start_min duration_hr duration_min
    recording_seq ext_src_spec plug phys_addr : Z) : stmt :=
  msg->len ::= 13;;
  msg->msg[1] ::= CEC_MSG_CLEAR_EXT_TIMER;;
  msg->msg[2] ::= day;;
  msg->msg[3] ::= month;;
  msg->msg[4] ::= ((start_hr / 10) ≪ 4) .| (start_hr mod 10);;
  msg->msg[5] ::= ((start_min / 10) ≪ 4) .| (start_min mod 10);;
  msg->msg[6] ::= ((duration_hr / 10) ≪ 4) .| (duration_hr mod 10);;
  msg->msg[7] ::= ((duration_min / 10) ≪ 4) .| (duration_min mod 10);;
  msg->msg[8] ::= recording_seq;;
  msg->msg[9] ::= ext_src_spec;;
  msg->msg[10] ::= plug;;
  msg->msg[11] ::= phys_addr ≫ 8;;
  msg->msg[12] ::= phys_addr .& 0xff;;
  msg->reply ::= ite reply CEC_MSG_TIMER_CLEARED_STATUS 0.

Definition cec_ops_clear_ext_timer (m : cec_msg) : Z * Z * Z * Z * Z * Z * Z * Z * Z * Z :=
  let day := u8 m.[2] in
  let month := u8 m.[3] in
  let start_hr := u8 ((m.[4] ≫ 4) * 10 + (m.[4] .& 0xf)) in
  let start_min := u8 ((m.[5] ≫ 4) * 10 + (m.[5] .& 0xf)) in
  let duration_hr := u8 ((m.[6] ≫ 4) * 10 + (m.[6] .& 0xf)) in
  let duration_min := u8 ((m.[7] ≫ 4) * 10 + (m.[7] .& 0xf)) in
  let recording_seq := u8 m.[8] in
  let ext_src_spec := u8 m.[9] in
  let plug := u8 m.[10] in
  let phys_addr := u16 ((m.[11] ≪ 8) .| m.[12]) in
  (day, month, start_hr, start_min, duration_hr, duration_min,
   recording_seq, ext_src_spec, plug, phys_addr).

Definition cec_msg_set_analogue_timer (reply day month start_hr start_min duration_hr
    duration_min recording_seq ana_bcast_type ana_freq bcast_system : Z) : stmt :=
  msg->len ::= 13;;
  msg->msg[1] ::= CEC_MSG_SET_ANALOGUE_TIMER;;
  msg->msg[2] ::= day;;
  msg->msg[3] ::= month;;
  msg->msg[4] ::= ((start_hr / 10) ≪ 4) .| (start_hr mod 10);;
  msg->msg[5] ::= ((start_min / 10) ≪ 4) .| (start_min mod 10);;
  msg->msg[6] ::= ((duration_hr / 10) ≪ 4) .| (duration_hr mod 10);;
  msg->msg[7] ::= ((duration_min / 10) ≪ 4) .| (duration_min mod 10);;
  msg->msg[8] ::= recording_seq;;
  msg->msg[9] ::= ana_bcast_type;;
  msg->msg[10] ::= ana_freq ≫ 8;;
  msg->msg[11] ::= ana_freq .& 0xff;;
  msg->msg[12] ::= bcast_system;;
  msg->reply ::= ite reply CEC_MSG_TIMER_STATUS 0.

Definition cec_ops_set_analogue_timer (m : cec_msg) : Z * Z * Z * Z * Z * Z * Z * Z * Z * Z :=
  let day := u8 m.[2] in
  let month := u8 m.[3] in
  let start_hr := u8 ((m.[4] ≫ 4) * 10 + (m.[4] .& 0xf)) in
  let start_min := u8 ((m.[5] ≫ 4) * 10 + (m.[5] .& 0xf)) in
  let duration_hr := u8 ((m.[6] ≫ 4) * 10 + (m.[6] .& 0xf)) in
  let duration_min := u8 ((m.[7] ≫ 4) * 10 + (m.[7] .& 0xf)) in
  let recording_seq := u8 m.[8] in
  let ana_bcast_type := u8 m.[9] in
  let ana_freq := u16 ((m.[10] ≪ 8) .| m.[11]) in
  let bcast_system := u8 m.[12] in
  (day, month, start_hr, start_min, duration_hr, duration_min,
   recording_seq, ana_bcast_type, ana_freq, bcast_system).

Definition cec_msg_set_digital_timer (reply day month start_hr start_min duration_hr
    duration_min recording_seq : Z) (digital : cec_op_digital_service_id) : stmt :=
  msg->len ::= 16;;
  msg->reply ::= ite reply CEC_MSG_TIMER_STATUS 0;;
  msg->msg[1] ::= CEC_MSG_SET_DIGITAL_TIMER;;
  msg->msg[2] ::= day;;
  msg->msg[3] ::= month;;
  msg->msg[4] ::= ((start_hr / 10) ≪ 4) .| (start_hr mod 10);;
  msg->msg[5] ::= ((start_min / 10) ≪ 4) .| (start_min mod 10);;
  msg->msg[6] ::= ((duration_hr / 10) ≪ 4) .| (duration_hr mod 10);;
  msg->msg[7] ::= ((duration_min / 10) ≪ 4) .| (duration_min mod 10);;
  msg->msg[8] ::= recording_seq;;
  cec_set_digital_service_id 9 digital.

Definition cec_ops_set_digital_timer (m : cec_msg) (digital : cec_op_digital_service_id) :
    res (Z * Z * Z * Z * Z * Z * Z * cec_op_digital_service_id) :=
  let day := u8 m.[2] in
  let month := u8 m.[3] in
  let start_hr := u8 ((m.[4] ≫ 4) * 10 + (m.[4] .& 0xf)) in
  let start_min := u8 ((m.[5] ≫ 4) * 10 + (m.[5] .& 0xf)) in
  let duration_hr := u8 ((m.[6] ≫ 4) * 10 + (m.[6] .& 0xf)) in
  let duration_min := u8 ((m.[7] ≫ 4) * 10 + (m.[7] .& 0xf)) in
  let recording_seq := u8 m.[8] in
  digital ← cec_get_digital_service_id (msg m) 9 digital;
  Ok (day, month, start_hr, start_min, duration_hr, duration_min, recording_seq, digital).

Definition cec_msg_set_ext_timer (reply day month start_hr start_min duration_hr duration_min
    recording_seq ext_src_spec plug phys_addr : Z) : stmt :=
  msg->len ::= 13;;
  msg->msg[1] ::= CEC_MSG_SET_EXT_TIMER;;
  msg->msg[2] ::= day;;
  msg->msg[3] ::= month;;
  msg->msg[4] ::= ((start_hr / 10) ≪ 4) .| (start_hr mod 10);;
  msg->msg[5] ::= ((start_min / 10) ≪ 4) .| (start_min mod 10);;
  msg->msg[6] ::= ((duration_hr / 10) ≪ 4) .| (duration_hr mod 10);;
  msg->msg[7] ::= ((duration_min / 10) ≪ 4) .| (duration_min mod 10);;
  msg->msg[8] ::= recording_seq;;
  msg->msg[9] ::= ext_src_spec;;
  msg->msg[10] ::= plug;;
  msg->msg[11] ::= phys_addr ≫ 8;;
  msg->msg[12] ::= phys_addr .& 0xff;;
  msg->reply ::= ite reply CEC_MSG_TIMER_STATUS 0.

Definition cec_ops_set_ext_timer (m : cec_msg) : Z * Z * Z * Z * Z * Z * Z * Z * Z * Z :=
  let day := u8 m.[2] in
  let month := u8 m.[3] in
  let start_hr := u8 ((m.[4] ≫ 4) * 10 + (m.[4] .& 0xf)) in
  let start_min := u8 ((m.[5] ≫ 4) * 10 + (m.[5] .& 0xf)) in
  let duration_hr := u8 ((m.[6] ≫ 4) * 10 + (m.[6] .& 0xf)) in
  let duration_min := u8 ((m.[7] ≫ 4) * 10 + (m.[7] .& 0xf)) in
  let recording_seq := u8 m.[8] in
  let ext_src_spec := u8 m.[9] in
  let plug := u8 m.[10] in
  let phys_addr := u16 ((m.[11] ≪ 8) .| m.[12]) in
  (day, month, start_hr, start_min, duration_hr, duration_min,
   recording_seq, ext_src_spec, plug, phys_addr).

Definition cec_msg_set_timer_program_title (prog_title : list Z) : stmt :=
  let! n := cstrlen prog_title in
  let len := u32 n in
  let len := if 14 <? len then 14 else len in
  msg->len ::= 2 + len;;
  msg->msg[1] ::= CEC_MSG_SET_TIMER_PROGRAM_TITLE;;
  copy_bytes 2 prog_title len.

Definition cec_ops_set_timer_program_title (m : cec_msg) (prog_title : list Z) : res (list Z) :=
  let len := if 2 <? len m then u32 (len m - 2) else 0 in
  let len := if 14 <? len then 14 else len in
  prog_title ← memcpy prog_title 0 (drop 2 (msg m)) (Z.to_nat len);
  store prog_title (Z.to_nat len) 0.
