(* ===== verification/CecControl.v ===== *)
(** * CEC messages: system, deck, tuner, vendor, display and menus

    The functions of linux/cec-funcs.h from the system information feature
    to the general protocol messages.  A pointer into the message is its
    offset in msg->msg. *)

From stdpp Require Import base numbers list.
From S2P Require Import Prelude CecTypes CecRecord.

#[local] Open Scope Z_scope.
#[local] Open Scope cec_scope.

(** ** System Information Feature *)

Definition cec_msg_cec_version (cec_version : Z) : stmt :=
  msg->len ::= 3;;
  msg->msg[1] ::= CEC_MSG_CEC_VERSION;;
  msg->msg[2] ::= cec_version.

Definition cec_ops_cec_version (m : cec_msg) : Z := u8 m.[2].

Definition cec_msg_get_cec_version (reply : Z) : stmt :=
  msg->len ::= 2;;
  msg->msg[1] ::= CEC_MSG_GET_CEC_VERSION;;
  msg->reply ::= ite reply CEC_MSG_CEC_VERSION 0.

Definition cec_msg_report_physical_addr (phys_addr prim_devtype : Z) : stmt :=
  msg->len ::= 5;;
  msg->msg[0] |= 0xf;;
  msg->msg[1] ::= CEC_MSG_REPORT_PHYSICAL_ADDR;;
  msg->msg[2] ::= phys_addr ≫ 8;;
  msg->msg[3] ::= phys_addr .& 0xff;;
  msg->msg[4] ::= prim_devtype.

Definition cec_ops_report_physical_addr (m : cec_msg) : Z * Z :=
  let phys_addr := u16 ((m.[2] ≪ 8) .| m.[3]) in
  let prim_devtype := u8 m.[4] in
  (phys_addr, prim_devtype).

Definition cec_msg_give_physical_addr (reply : Z) : stmt :=
  msg->len ::= 2;;
  msg->msg[1] ::= CEC_MSG_GIVE_PHYSICAL_ADDR;;
  msg->reply ::= ite reply CEC_MSG_REPORT_PHYSICAL_ADDR 0.

Definition cec_msg_set_menu_language (language : list Z) : stmt :=
  msg->len ::= 5;;
  msg->msg[0] |= 0xf;;
  msg->msg[1] ::= CEC_MSG_SET_MENU_LANGUAGE;;
  copy_bytes 2 language 3.

Definition cec_ops_set_menu_language (m : cec_msg) (language : list Z) : res (list Z) :=
  language ← memcpy language 0 (drop 2 (msg m)) 3;
  store language 3 0.

Definition cec_msg_get_menu_language (reply : Z) : stmt :=
  msg->len ::= 2;;
  msg->msg[1] ::= CEC_MSG_GET_MENU_LANGUAGE;;
  msg->reply ::= ite reply CEC_MSG_SET_MENU_LANGUAGE 0.

Definition cec_msg_report_features (cec_version all_device_types rc_profile dev_features : Z) : stmt :=
  msg->len ::= 6;;
  msg->msg[0] |= 0xf;;
  msg->msg[1] ::= CEC_MSG_REPORT_FEATURES;;
  msg->msg[2] ::= cec_version;;
  msg->msg[3] ::= all_device_types;;
  msg->msg[4] ::= rc_profile;;
  msg->msg[5] ::= dev_features.

(** while (p < &msg->msg[limit] && ( *p & CEC_OP_FEAT_EXT)) p++; *)
Fixpoint scan_ext (fuel : nat) (m : cec_msg) (limit p : nat) : res nat :=
  match fuel with
  | O => Fault OutOfFuel
  | S fuel' =>
      if Nat.ltb p limit then
        b ← load (msg m) p;
        if negb ((b .& CEC_OP_FEAT_EXT) =? 0) then scan_ext fuel' m limit (S p) else Ok p
      else Ok p
  end.

(** The pointers rc_profile and dev_features are offsets into msg->msg, or
    NULL. *)
Definition cec_ops_report_features (m : cec_msg) : res (Z * Z * option nat * option nat) :=
  let cec_version := u8 m.[2] in
  let all_device_types := u8 m.[3] in
  p ← scan_ext CEC_MAX_MSG_SIZE m 14 4;
  b ← load (msg m) p;
  '(p, dev_features) ←
    (if (b .& CEC_OP_FEAT_EXT) =? 0 then
       p' ← scan_ext CEC_MAX_MSG_SIZE m 15 p;
       Ok (p', Some (S p))
     else Ok (p, None));
  b ← load (msg m) p;
  if negb ((b .& CEC_OP_FEAT_EXT) =? 0) then Ok (cec_version, all_device_types, None, None)
  else Ok (cec_version, all_device_types, Some 4%nat, dev_features).

Definition cec_msg_give_features (reply : Z) : stmt :=
  msg->len ::= 2;;
  msg->msg[1] ::= CEC_MSG_GIVE_FEATURES;;
  msg->reply ::= ite reply CEC_MSG_REPORT_FEATURES 0.

(** ** Deck Control Feature *)

Definition cec_msg_deck_control (deck_control_mode : Z) : stmt :=
  msg->len ::= 3;;
  msg->msg[1] ::= CEC_MSG_DECK_CONTROL;;
  msg->msg[2] ::= deck_control_mode.

Definition cec_ops_deck_control (m : cec_msg) : Z := u8 m.[2].

Definition cec_msg_deck_status (deck_info : Z) : stmt :=
  msg->len ::= 3;;
  msg->msg[1] ::= CEC_MSG_DECK_STATUS;;
  msg->msg[2] ::= deck_info.

Definition cec_ops_deck_status (m : cec_msg) : Z := u8 m.[2].

Definition cec_msg_give_deck_status (reply status_req : Z) : stmt :=
  msg->len ::= 3;;
  msg->msg[1] ::= CEC_MSG_GIVE_DECK_STATUS;;
  msg->msg[2] ::= status_req;;
  msg->reply ::= ite reply CEC_MSG_DECK_STATUS 0.

Definition cec_ops_give_deck_status (m : cec_msg) : Z := u8 m.[2].

Definition cec_msg_play (play_mode : Z) : stmt :=
  msg->len ::= 3;;
  msg->msg[1] ::= CEC_MSG_PLAY;;
  msg->msg[2] ::= play_mode.

Definition cec_ops_play (m : cec_msg) : Z := u8 m.[2].

(** ** Tuner Control Feature *)

(** The union of digital and analog is its eight bytes. *)
Record cec_op_tuner_device_info : Type := TunerDeviceInfo {
  rec_flag : Z; tuner_display_info : Z; is_analog : Z; tdi_u : arr 8 }.

Definition cec_msg_tuner_device_status_analog (rec_flag tuner_display_info ana_bcast_type
    ana_freq bcast_system : Z) : stmt :=
  msg->len ::= 7;;
  msg->msg[1] ::= CEC_MSG_TUNER_DEVICE_STATUS;;
  msg->msg[2] ::= (rec_flag ≪ 7) .| tuner_display_info;;
  msg->msg[3] ::= ana_bcast_type;;
  msg->msg[4] ::= ana_freq ≫ 8;;
  msg->msg[5] ::= ana_freq .& 0xff;;
  msg->msg[6] ::= bcast_system.

Definition cec_msg_tuner_device_status_digital (rec_flag tuner_display_info : Z)
    (digital : cec_op_digital_service_id) : stmt :=
  msg->len ::= 10;;
  msg->msg[1] ::= CEC_MSG_TUNER_DEVICE_STATUS;;
  msg->msg[2] ::= (rec_flag ≪ 7) .| tuner_display_info;;
  cec_set_digital_service_id 3 digital.

Definition cec_msg_tuner_device_status (tuner_dev_info : cec_op_tuner_device_info) : stmt :=
  if negb (is_analog tuner_dev_info =? 0) then
    cec_msg_tuner_device_status_analog (rec_flag tuner_dev_info) (tuner_display_info tuner_dev_info)
      (analog_ana_bcast_type (tdi_u tuner_dev_info)) (analog_ana_freq (tdi_u tuner_dev_info))
      (analog_bcast_system (tdi_u tuner_dev_info))
  else
    cec_msg_tuner_device_status_digital (rec_flag tuner_dev_info) (tuner_display_info tuner_dev_info)
      (tdi_u tuner_dev_info).

Definition cec_ops_tuner_device_status (m : cec_msg) (tuner_dev_info : cec_op_tuner_device_info) :
    res cec_op_tuner_device_info :=
  let is_analog := truth (len m <? 10) in
  let rec_flag := u8 (m.[2] ≫ 7) in
  let tuner_display_info := u8 (m.[2] .& 0x7f) in
  if negb (is_analog =? 0) then
    let a := set_analog_ana_bcast_type (tdi_u tuner_dev_info) m.[3] in
    let a := set_analog_ana_freq a ((m.[4] ≪ 8) .| m.[5]) in
    Ok (TunerDeviceInfo rec_flag tuner_display_info is_analog (set_analog_bcast_system a m.[6]))
  else
    digital ← cec_get_digital_service_id (msg m) 3 (tdi_u tuner_dev_info);
    Ok (TunerDeviceInfo rec_flag tuner_display_info is_analog digital).

Definition cec_msg_give_tuner_device_status (reply status_req : Z) : stmt :=
  msg->len ::= 3;;
  msg->msg[1] ::= CEC_MSG_GIVE_TUNER_DEVICE_STATUS;;
  msg->msg[2] ::= status_req;;
  msg->reply ::= ite reply CEC_MSG_TUNER_DEVICE_STATUS 0.

Definition cec_ops_give_tuner_device_status (m : cec_msg) : Z := u8 m.[2].

Definition cec_msg_select_analogue_service (ana_bcast_type ana_freq bcast_system : Z) : stmt :=
  msg->len ::= 6;;
  msg->msg[1] ::= CEC_MSG_SELECT_ANALOGUE_SERVICE;;
  msg->msg[2] ::= ana_bcast_type;;
  msg->msg[3] ::= ana_freq ≫ 8;;
  msg->msg[4] ::= ana_freq .& 0xff;;
  msg->msg[5] ::= bcast_system.

Definition cec_ops_select_analogue_service (m : cec_msg) : Z * Z * Z :=
  let ana_bcast_type := u8 m.[2] in
  let ana_freq := u16 ((m.[3] ≪ 8) .| m.[4]) in
  let bcast_system := u8 m.[5] in
  (ana_bcast_type, ana_freq, bcast_system).

Definition cec_msg_select_digital_service (digital : cec_op_digital_service_id) : stmt :=
  msg->len ::= 9;;
  msg->msg[1] ::= CEC_MSG_SELECT_DIGITAL_SERVICE;;
  cec_set_digital_service_id 2 digital.

Definition cec_ops_select_digital_service (m : cec_msg) (digital : cec_op_digital_service_id) :
    res cec_op_digital_service_id :=
  cec_get_digital_service_id (msg m) 2 digital.

Definition cec_msg_tuner_step_decrement : stmt :=
  msg->len ::= 2;;
  msg->msg[1] ::= CEC_MSG_TUNER_STEP_DECREMENT.

Definition cec_msg_tuner_step_increment : stmt :=
  msg->len ::= 2;;
  msg->msg[1] ::= CEC_MSG_TUNER_STEP_INCREMENT.

(** ** Vendor Specific Commands Feature *)

Definition cec_msg_device_vendor_id (vendor_id : Z) : stmt :=
  msg->len ::= 5;;
  msg->msg[0] |= 0xf;;
  msg->msg[1] ::= CEC_MSG_DEVICE_VENDOR_ID;;
  msg->msg[2] ::= vendor_id ≫ 16;;
  msg->msg[3] ::= (vendor_id ≫ 8) .& 0xff;;
  msg->msg[4] ::= vendor_id .& 0xff.

Definition cec_ops_device_vendor_id (m : cec_msg) : Z := u32 ((m.[2] ≪ 16) .| (m.[3] ≪ 8) .| m.[4]).

Definition cec_msg_give_device_vendor_id (reply : Z) : stmt :=
  msg->len ::= 2;;
  msg->msg[1] ::= CEC_MSG_GIVE_DEVICE_VENDOR_ID;;
  msg->reply ::= ite reply CEC_MSG_DEVICE_VENDOR_ID 0.

Definition cec_msg_vendor_command (size : Z) (vendor_cmd : list Z) : stmt :=
  let size := if 14 <? size then 14 else size in
  msg->len ::= 2 + size;;
  msg->msg[1] ::= CEC_MSG_VENDOR_COMMAND;;
  copy_bytes 2 vendor_cmd size.

Definition cec_ops_vendor_command (m : cec_msg) : Z * nat :=
  let size := u8 (u32 (len m - 2)) in
  let size := if 14 <? size then 14 else size in
  (size, 2%nat).

Definition cec_msg_vendor_command_with_id (vendor_id size : Z) (vendor_cmd : list Z) : stmt :=
  let size := if 11 <? size then 11 else size in
  msg->len ::= 5 + size;;
  msg->msg[1] ::= CEC_MSG_VENDOR_COMMAND_WITH_ID;;
  msg->msg[2] ::= vendor_id ≫ 16;;
  msg->msg[3] ::= (vendor_id ≫ 8) .& 0xff;;
  msg->msg[4] ::= vendor_id .& 0xff;;
  copy_bytes 5 vendor_cmd size.

Definition cec_ops_vendor_command_with_id (m : cec_msg) : Z * Z * nat :=
  let size := u8 (u32 (len m - 5)) in
  let size := if 11 <? size then 11 else size in
  let vendor_id := u32 ((m.[2] ≪ 16) .| (m.[3] ≪ 8) .| m.[4]) in
  (vendor_id, size, 5%nat).

Definition cec_msg_vendor_remote_button_down (size : Z) (rc_code : list Z) : stmt :=
  let size := if 14 <? size then 14 else size in
  msg->len ::= 2 + size;;
  msg->msg[1] ::= CEC_MSG_VENDOR_REMOTE_BUTTON_DOWN;;
  copy_bytes 2 rc_code size.

Definition cec_ops_vendor_remote_button_down (m : cec_msg) : Z * nat :=
  let size := u8 (u32 (len m - 2)) in
  let size := if 14 <? size then 14 else size in
  (size, 2%nat).

Definition cec_msg_vendor_remote_button_up : stmt :=
  msg->len ::= 2;;
  msg->msg[1] ::= CEC_MSG_VENDOR_REMOTE_BUTTON_UP.

(** ** OSD Display Feature *)

Definition cec_msg_set_osd_string (disp_ctl : Z) (osd : list Z) : stmt :=
  let! n := cstrlen osd in
  let len := u32 n in
  let len := if 13 <? len then 13 else len in
  msg->len ::= 3 + len;;
  msg->msg[1] ::= CEC_MSG_SET_OSD_STRING;;
  msg->msg[2] ::= disp_ctl;;
  copy_bytes 3 osd len.

Definition cec_ops_set_osd_string (m : cec_msg) (osd : list Z) : res (Z * list Z) :=
  let len := if 3 <? len m then u32 (len m - 3) else 0 in
  let disp_ctl := u8 m.[2] in
  let len := if 13 <? len then 13 else len in
  osd ← memcpy osd 0 (drop 3 (msg m)) (Z.to_nat len);
  osd ← store osd (Z.to_nat len) 0;
  Ok (disp_ctl, osd).

(** ** Device OSD Transfer Feature *)

Definition cec_msg_set_osd_name (name : list Z) : stmt :=
  let! n := cstrlen name in
  let len := u32 n in
  let len := if 14 <? len then 14 else len in
  msg->len ::= 2 + len;;
  msg->msg[1] ::= CEC_MSG_SET_OSD_NAME;;
  copy_bytes 2 name len.

Definition cec_ops_set_osd_name (m : cec_msg) (name : list Z) : res (list Z) :=
  let len := if 2 <? len m then u32 (len m - 2) else 0 in
  let len := if 14 <? len then 14 else len in
  name ← memcpy name 0 (drop 2 (msg m)) (Z.to_nat len);
  store name (Z.to_nat len) 0.

Definition cec_msg_give_osd_name (reply : Z) : stmt :=
  msg->len ::= 2;;
  msg->msg[1] ::= CEC_MSG_GIVE_OSD_NAME;;
  msg->reply ::= ite reply CEC_MSG_SET_OSD_NAME 0.

(** ** Device Menu Control Feature *)

Definition cec_msg_menu_status (menu_state : Z) : stmt :=
  msg->len ::= 3;;
  msg->msg[1] ::= CEC_MSG_MENU_STATUS;;
  msg->msg[2] ::= menu_state.

Definition cec_ops_menu_status (m : cec_msg) : Z := u8 m.[2].

Definition cec_msg_menu_request (reply menu_req : Z) : stmt :=
  msg->len ::= 3;;
  msg->msg[1] ::= CEC_MSG_MENU_REQUEST;;
  msg->msg[2] ::= menu_req;;
  msg->reply ::= ite reply CEC_MSG_MENU_STATUS 0.

Definition cec_ops_menu_request (m : cec_msg) : Z := u8 m.[2].

(** The union of the channel identifier and the operands of one byte. *)
Record cec_op_ui_command : Type := UiCommand { ui_cmd : Z; has_opt_arg : Z; ui_u : arr 6 }.
Definition channel_identifier (u : cec_op_ui_command) : cec_op_channel_data := ui_u u.
Definition ui_play_mode (u : cec_op_ui_command) : Z := get (ui_u u) 0.
Definition set_ui_play_mode (u : arr 6) (v : Z) : arr 6 := set8 u 0 v.

Definition ui_one_byte (c : Z) : bool :=
  (c =? 0x56) || (c =? 0x57) || (c =? 0x60) || (c =? 0x68) || (c =? 0x69) || (c =? 0x6a).

Definition cec_msg_user_control_pressed (ui : cec_op_ui_command) : stmt :=
  msg->len ::= 3;;
  msg->msg[1] ::= CEC_MSG_USER_CONTROL_PRESSED;;
  msg->msg[2] ::= ui_cmd ui;;
  if has_opt_arg ui =? 0 then skip
  else if ui_one_byte (ui_cmd ui) then
    msg->len += 1;;
    msg->msg[3] ::= ui_play_mode ui
  else if ui_cmd ui =? 0x67 then
    msg->len += 4;;
    msg->msg[3] ::= (channel_number_fmt (channel_identifier ui) ≪ 2) .|
                    (major (channel_identifier ui) ≫ 8);;
    msg->msg[4] ::= major (channel_identifier ui) .& 0xff;;
    msg->msg[5] ::= minor (channel_identifier ui) ≫ 8;;
    msg->msg[6] ::= minor (channel_identifier ui) .& 0xff
  else skip.

Definition cec_ops_user_control_pressed (m : cec_msg) (ui : cec_op_ui_command) : cec_op_ui_command :=
  let ui := UiCommand (u8 m.[2]) 0 (ui_u ui) in
  if len m =? 3 then ui
  else if ui_one_byte (ui_cmd ui) then
    UiCommand (ui_cmd ui) 1 (set_ui_play_mode (ui_u ui) m.[3])
  else if ui_cmd ui =? 0x67 then
    if len m <? 7 then ui
    else
      let c := set_channel_number_fmt (channel_identifier ui) (m.[3] ≫ 2) in
      let c := set_major c (((m.[3] .& 3) ≪ 6) .| m.[4]) in
      UiCommand (ui_cmd ui) 1 (set_minor c ((m.[5] ≪ 8) .| m.[6]))
  else ui.

Definition cec_msg_user_control_released : stmt :=
  msg->len ::= 2;;
  msg->msg[1] ::= CEC_MSG_USER_CONTROL_RELEASED.

(** ** Remote Control Passthrough Feature *)

(** ** Power Status Feature *)

Definition cec_msg_report_power_status (pwr_state : Z) : stmt :=
  msg->len ::= 3;;
  msg->msg[1] ::= CEC_MSG_REPORT_POWER_STATUS;;
  msg->msg[2] ::= pwr_state.

Definition cec_ops_report_power_status (m : cec_msg) : Z := u8 m.[2].

Definition cec_msg_give_device_power_status (reply : Z) : stmt :=
  msg->len ::= 2;;
  msg->msg[1] ::= CEC_MSG_GIVE_DEVICE_POWER_STATUS;;
  msg->reply ::= ite reply CEC_MSG_REPORT_POWER_STATUS 0.

(** ** General Protocol Messages *)

Definition cec_msg_feature_abort (abort_msg reason : Z) : stmt :=
  msg->len ::= 4;;
  msg->msg[1] ::= CEC_MSG_FEATURE_ABORT;;
  msg->msg[2] ::= abort_msg;;
  msg->msg[3] ::= reason.

Definition cec_ops_feature_abort (m : cec_msg) : Z * Z :=
  let abort_msg := u8 m.[2] in
  let reason := u8 m.[3] in
  (abort_msg, reason).

(** This changes the current message into a feature abort message. *)
Definition cec_msg_reply_feature_abort (reason : Z) : stmt :=
  reading cec_msg_set_reply_to;;
  msg->len ::= 4;;
  reading (fun m => msg->msg[2] ::= m.[1]);;
  msg->msg[3] ::= reason;;
  msg->msg[1] ::= CEC_MSG_FEATURE_ABORT.

Definition cec_msg_abort : stmt :=
  msg->len ::= 2;;
  msg->msg[1] ::= CEC_MSG_ABORT.
