(* ===== verification/CecAudio.v ===== *)
(** * CEC messages: audio, latency and capability discovery

    The functions of linux/cec-funcs.h from the system audio control
    feature on. *)

From stdpp Require Import base numbers list.
From S2P Require Import Prelude CecTypes.

#[local] Open Scope Z_scope.
#[local] Open Scope cec_scope.

(** ** System Audio Control Feature *)

Definition cec_msg_report_audio_status (aud_mute_status aud_vol_status : Z) : stmt :=
  msg->len ::= 3;;
  msg->msg[1] ::= CEC_MSG_REPORT_AUDIO_STATUS;;
  msg->msg[2] ::= (aud_mute_status ≪ 7) .| (aud_vol_status .& 0x7f).

Definition cec_ops_report_audio_status (m : cec_msg) : Z * Z :=
  let aud_mute_status := u8 (m.[2] ≫ 7) in
  let aud_vol_status := u8 (m.[2] .& 0x7f) in
  (aud_mute_status, aud_vol_status).

Definition cec_msg_give_audio_status (reply : Z) : stmt :=
  msg->len ::= 2;;
  msg->msg[1] ::= CEC_MSG_GIVE_AUDIO_STATUS;;
  msg->reply ::= ite reply CEC_MSG_REPORT_AUDIO_STATUS 0.

Definition cec_msg_set_system_audio_mode (sys_aud_status : Z) : stmt :=
  msg->len ::= 3;;
  msg->msg[1] ::= CEC_MSG_SET_SYSTEM_AUDIO_MODE;;
  msg->msg[2] ::= sys_aud_status.

Definition cec_ops_set_system_audio_mode (m : cec_msg) : Z := u8 m.[2].

Definition cec_msg_system_audio_mode_request (reply phys_addr : Z) : stmt :=
  msg->len ::= (if phys_addr =? 0xffff then 2 else 4);;
  msg->msg[1] ::= CEC_MSG_SYSTEM_AUDIO_MODE_REQUEST;;
  msg->msg[2] ::= phys_addr ≫ 8;;
  msg->msg[3] ::= phys_addr .& 0xff;;
  msg->reply ::= ite reply CEC_MSG_SET_SYSTEM_AUDIO_MODE 0.

Definition cec_ops_system_audio_mode_request (m : cec_msg) : Z :=
  if len m <? 4 then 0xffff else u16 ((m.[2] ≪ 8) .| m.[3]).

Definition cec_msg_system_audio_mode_status (sys_aud_status : Z) : stmt :=
  msg->len ::= 3;;
  msg->msg[1] ::= CEC_MSG_SYSTEM_AUDIO_MODE_STATUS;;
  msg->msg[2] ::= sys_aud_status.

Definition cec_ops_system_audio_mode_status (m : cec_msg) : Z := u8 m.[2].

Definition cec_msg_give_system_audio_mode_status (reply : Z) : stmt :=
  msg->len ::= 2;;
  msg->msg[1] ::= CEC_MSG_GIVE_SYSTEM_AUDIO_MODE_STATUS;;
  msg->reply ::= ite reply CEC_MSG_SYSTEM_AUDIO_MODE_STATUS 0.

(** The loop from [i] on, [k] rounds before its end. *)
Fixpoint put_descriptors (k i : nat) (descriptors : list Z) : stmt :=
  match k with
  | O => skip
  | S k' =>
      let! d := load descriptors i in
      msg->msg[2 + i * 3] ::= (d ≫ 16) .& 0xff;;
      msg->msg[3 + i * 3] ::= (d ≫ 8) .& 0xff;;
      msg->msg[4 + i * 3] ::= d .& 0xff;;
      put_descriptors k' (S i) descriptors
  end.

Definition cec_msg_report_short_audio_descriptor (num_descriptors : Z) (descriptors : list Z) : stmt :=
  let num_descriptors := if 4 <? num_descriptors then 4 else num_descriptors in
  msg->len ::= 2 + num_descriptors * 3;;
  msg->msg[1] ::= CEC_MSG_REPORT_SHORT_AUDIO_DESCRIPTOR;;
  put_descriptors (Z.to_nat num_descriptors) 0 descriptors.

Fixpoint get_descriptors (k i : nat) (m : cec_msg) (descriptors : list Z) : res (list Z) :=
  match k with
  | O => Ok descriptors
  | S k' =>
      b2 ← load (msg m) (2 + i * 3);
      b3 ← load (msg m) (3 + i * 3);
      b4 ← load (msg m) (4 + i * 3);
      descriptors ← store descriptors i (u32 ((b2 ≪ 16) .| (b3 ≪ 8) .| b4));
      get_descriptors k' (S i) m descriptors
  end.

Definition cec_ops_report_short_audio_descriptor (m : cec_msg) (descriptors : list Z) : res (Z * list Z) :=
  let num_descriptors := u8 (u32 (len m - 2) / 3) in
  let num_descriptors := if 4 <? num_descriptors then 4 else num_descriptors in
  descriptors ← get_descriptors (Z.to_nat num_descriptors) 0 m descriptors;
  Ok (num_descriptors, descriptors).

Fixpoint put_formats (k i : nat) (audio_format_id audio_format_code : list Z) : stmt :=
  match k with
  | O => skip
  | S k' =>
      let! id := load audio_format_id i in
      let! code := load audio_format_code i in
      msg->msg[2 + i] ::= (id ≪ 6) .| (code .& 0x3f);;
      put_formats k' (S i) audio_format_id audio_format_code
  end.

Definition cec_msg_request_short_audio_descriptor (reply num_descriptors : Z)
    (audio_format_id audio_format_code : list Z) : stmt :=
  let num_descriptors := if 4 <? num_descriptors then 4 else num_descriptors in
  msg->len ::= 2 + num_descriptors;;
  msg->msg[1] ::= CEC_MSG_REQUEST_SHORT_AUDIO_DESCRIPTOR;;
  msg->reply ::= ite reply CEC_MSG_REPORT_SHORT_AUDIO_DESCRIPTOR 0;;
  put_formats (Z.to_nat num_descriptors) 0 audio_format_id audio_format_code.

Fixpoint get_formats (k i : nat) (m : cec_msg) (audio_format_id audio_format_code : list Z) :
    res (list Z * list Z) :=
  match k with
  | O => Ok (audio_format_id, audio_format_code)
  | S k' =>
      b ← load (msg m) (2 + i);
      audio_format_id ← store audio_format_id i (u8 (b ≫ 6));
      audio_format_code ← store audio_format_code i (u8 (b .& 0x3f));
      get_formats k' (S i) m audio_format_id audio_format_code
  end.

Definition cec_ops_request_short_audio_descriptor (m : cec_msg) (audio_format_id audio_format_code : list Z) :
    res (Z * list Z * list Z) :=
  let num_descriptors := u8 (u32 (len m - 2)) in
  let num_descriptors := if 4 <? num_descriptors then 4 else num_descriptors in
  '(audio_format_id, audio_format_code) ←
    get_formats (Z.to_nat num_descriptors) 0 m audio_format_id audio_format_code;
  Ok (num_descriptors, audio_format_id, audio_format_code).

(** ** Audio Rate Control Feature *)

Definition cec_msg_set_audio_rate (audio_rate : Z) : stmt :=
  msg->len ::= 3;;
  msg->msg[1] ::= CEC_MSG_SET_AUDIO_RATE;;
  msg->msg[2] ::= audio_rate.

Definition cec_ops_set_audio_rate (m : cec_msg) : Z := u8 m.[2].

(** ** Audio Return Channel Control Feature *)

Definition cec_msg_report_arc_initiated : stmt :=
  msg->len ::= 2;;
  msg->msg[1] ::= CEC_MSG_REPORT_ARC_INITIATED.

Definition cec_msg_initiate_arc (reply : Z) : stmt :=
  msg->len ::= 2;;
  msg->msg[1] ::= CEC_MSG_INITIATE_ARC;;
  msg->reply ::= ite reply CEC_MSG_REPORT_ARC_INITIATED 0.

Definition cec_msg_request_arc_initiation (reply : Z) : stmt :=
  msg->len ::= 2;;
  msg->msg[1] ::= CEC_MSG_REQUEST_ARC_INITIATION;;
  msg->reply ::= ite reply CEC_MSG_INITIATE_ARC 0.

Definition cec_msg_report_arc_terminated : stmt :=
  msg->len ::= 2;;
  msg->msg[1] ::= CEC_MSG_REPORT_ARC_TERMINATED.

Definition cec_msg_terminate_arc (reply : Z) : stmt :=
  msg->len ::= 2;;
  msg->msg[1] ::= CEC_MSG_TERMINATE_ARC;;
  msg->reply ::= ite reply CEC_MSG_REPORT_ARC_TERMINATED 0.

Definition cec_msg_request_arc_termination (reply : Z) : stmt :=
  msg->len ::= 2;;
  msg->msg[1] ::= CEC_MSG_REQUEST_ARC_TERMINATION;;
  msg->reply ::= ite reply CEC_MSG_TERMINATE_ARC 0.

(** ** Dynamic Audio Lipsync Feature *)

Definition cec_msg_report_current_latency (phys_addr video_latency low_latency_mode
    audio_out_compensated audio_out_delay : Z) : stmt :=
  msg->len ::= 6;;
  msg->msg[0] |= 0xf;;
  msg->msg[1] ::= CEC_MSG_REPORT_CURRENT_LATENCY;;
  msg->msg[2] ::= phys_addr ≫ 8;;
  msg->msg[3] ::= phys_addr .& 0xff;;
  msg->msg[4] ::= video_latency;;
  msg->msg[5] ::= (low_latency_mode ≪ 2) .| audio_out_compensated;;
  if audio_out_compensated =? 3 then msg->msg[msg->len++] ::= audio_out_delay else skip.

Definition cec_ops_report_current_latency (m : cec_msg) : Z * Z * Z * Z * Z :=
  let phys_addr := u16 ((m.[2] ≪ 8) .| m.[3]) in
  let video_latency := u8 m.[4] in
  let low_latency_mode := u8 ((m.[5] ≫ 2) .& 1) in
  let audio_out_compensated := u8 (m.[5] .& 3) in
  let audio_out_delay :=
    if (audio_out_compensated =? 3) && (7 <=? len m) then u8 m.[6] else 0 in
  (phys_addr, video_latency, low_latency_mode, audio_out_compensated, audio_out_delay).

Definition cec_msg_request_current_latency (reply phys_addr : Z) : stmt :=
  msg->len ::= 4;;
  msg->msg[0] |= 0xf;;
  msg->msg[1] ::= CEC_MSG_REQUEST_CURRENT_LATENCY;;
  msg->msg[2] ::= phys_addr ≫ 8;;
  msg->msg[3] ::= phys_addr .& 0xff;;
  msg->reply ::= ite reply CEC_MSG_REPORT_CURRENT_LATENCY 0.

Definition cec_ops_request_current_latency (m : cec_msg) : Z := u16 ((m.[2] ≪ 8) .| m.[3]).

(** ** Capability Discovery and Control Feature *)

Definition cec_msg_cdc_hec_inquire_state (phys_addr1 phys_addr2 : Z) : stmt :=
  msg->len ::= 9;;
  msg->msg[0] |= 0xf;;
  msg->msg[1] ::= CEC_MSG_CDC_MESSAGE;;
  msg->msg[4] ::= CEC_MSG_CDC_HEC_INQUIRE_STATE;;
  msg->msg[5] ::= phys_addr1 ≫ 8;;
  msg->msg[6] ::= phys_addr1 .& 0xff;;
  msg->msg[7] ::= phys_addr2 ≫ 8;;
  msg->msg[8] ::= phys_addr2 .& 0xff.

Definition cec_ops_cdc_hec_inquire_state (m : cec_msg) : Z * Z * Z :=
  let phys_addr := u16 ((m.[2] ≪ 8) .| m.[3]) in
  let phys_addr1 := u16 ((m.[5] ≪ 8) .| m.[6]) in
  let phys_addr2 := u16 ((m.[7] ≪ 8) .| m.[8]) in
  (phys_addr, phys_addr1, phys_addr2).

Definition cec_msg_cdc_hec_report_state (target_phys_addr hec_func_state host_func_state
    enc_func_state cdc_errcode has_field hec_field : Z) : stmt :=
  msg->len ::= ite has_field 10 8;;
  msg->msg[0] |= 0xf;;
  msg->msg[1] ::= CEC_MSG_CDC_MESSAGE;;
  msg->msg[4] ::= CEC_MSG_CDC_HEC_REPORT_STATE;;
  msg->msg[5] ::= target_phys_addr ≫ 8;;
  msg->msg[6] ::= target_phys_addr .& 0xff;;
  msg->msg[7] ::= (hec_func_state ≪ 6) .|
                  (host_func_state ≪ 4) .|
                  (enc_func_state ≪ 2) .|
                  cdc_errcode;;
  if negb (has_field =? 0) then
    msg->msg[8] ::= hec_field ≫ 8;;
    msg->msg[9] ::= hec_field .& 0xff
  else skip.

Definition cec_ops_cdc_hec_report_state (m : cec_msg) : Z * Z * Z * Z * Z * Z * Z * Z :=
  let phys_addr := u16 ((m.[2] ≪ 8) .| m.[3]) in
  let target_phys_addr := u16 ((m.[5] ≪ 8) .| m.[6]) in
  let hec_func_state := u8 (m.[7] ≫ 6) in
  let host_func_state := u8 ((m.[7] ≫ 4) .& 3) in
  let enc_func_state := u8 ((m.[7] ≫ 4) .& 3) in
  let cdc_errcode := u8 (m.[7] .& 3) in
  let has_field := truth (10 <=? len m) in
  let hec_field := u16 (ite has_field ((m.[8] ≪ 8) .| m.[9]) 0) in
  (phys_addr, target_phys_addr, hec_func_state, host_func_state, enc_func_state, cdc_errcode,
   has_field, hec_field).

Definition cec_msg_cdc_hec_set_state (phys_addr1 phys_addr2 hec_set_state phys_addr3 phys_addr4
    phys_addr5 : Z) : stmt :=
  msg->len ::= 10;;
  msg->msg[0] |= 0xf;;
  msg->msg[1] ::= CEC_MSG_CDC_MESSAGE;;
  msg->msg[4] ::= CEC_MSG_CDC_HEC_INQUIRE_STATE;;
  msg->msg[5] ::= phys_addr1 ≫ 8;;
  msg->msg[6] ::= phys_addr1 .& 0xff;;
  msg->msg[7] ::= phys_addr2 ≫ 8;;
  msg->msg[8] ::= phys_addr2 .& 0xff;;
  msg->msg[9] ::= hec_set_state;;
  if negb (phys_addr3 =? CEC_PHYS_ADDR_INVALID) then
    msg->msg[msg->len++] ::= phys_addr3 ≫ 8;;
    msg->msg[msg->len++] ::= phys_addr3 .& 0xff;;
    if negb (phys_addr4 =? CEC_PHYS_ADDR_INVALID) then
      msg->msg[msg->len++] ::= phys_addr4 ≫ 8;;
      msg->msg[msg->len++] ::= phys_addr4 .& 0xff;;
      if negb (phys_addr5 =? CEC_PHYS_ADDR_INVALID) then
        msg->msg[msg->len++] ::= phys_addr5 ≫ 8;;
        msg->msg[msg->len++] ::= phys_addr5 .& 0xff
      else skip
    else skip
  else skip.

Definition cec_ops_cdc_hec_set_state (m : cec_msg) : Z * Z * Z * Z * Z * Z * Z :=
  let phys_addr := u16 ((m.[2] ≪ 8) .| m.[3]) in
  let phys_addr1 := u16 ((m.[5] ≪ 8) .| m.[6]) in
  let phys_addr2 := u16 ((m.[7] ≪ 8) .| m.[8]) in
  let hec_set_state := u8 m.[9] in
  let phys_addr3 := if 12 <=? len m then u16 ((m.[10] ≪ 8) .| m.[11]) else CEC_PHYS_ADDR_INVALID in
  let phys_addr4 := if 14 <=? len m then u16 ((m.[12] ≪ 8) .| m.[13]) else CEC_PHYS_ADDR_INVALID in
  let phys_addr5 := if 16 <=? len m then u16 ((m.[14] ≪ 8) .| m.[15]) else CEC_PHYS_ADDR_INVALID in
  (phys_addr, phys_addr1, phys_addr2, hec_set_state, phys_addr3, phys_addr4, phys_addr5).

Definition cec_msg_cdc_hec_set_state_adjacent (phys_addr1 hec_set_state : Z) : stmt :=
  msg->len ::= 8;;
  msg->msg[0] |= 0xf;;
  msg->msg[1] ::= CEC_MSG_CDC_MESSAGE;;
  msg->msg[4] ::= CEC_MSG_CDC_HEC_SET_STATE_ADJACENT;;
  msg->msg[5] ::= phys_addr1 ≫ 8;;
  msg->msg[6] ::= phys_addr1 .& 0xff;;
  msg->msg[7] ::= hec_set_state.

Definition cec_ops_cdc_hec_set_state_adjacent (m : cec_msg) : Z * Z * Z :=
  let phys_addr := u16 ((m.[2] ≪ 8) .| m.[3]) in
  let phys_addr1 := u16 ((m.[5] ≪ 8) .| m.[6]) in
  let hec_set_state := u8 m.[7] in
  (phys_addr, phys_addr1, hec_set_state).

Definition cec_msg_cdc_hec_request_deactivation (phys_addr1 phys_addr2 phys_addr3 : Z) : stmt :=
  msg->len ::= 11;;
  msg->msg[0] |= 0xf;;
  msg->msg[1] ::= CEC_MSG_CDC_MESSAGE;;
  msg->msg[4] ::= CEC_MSG_CDC_HEC_REQUEST_DEACTIVATION;;
  msg->msg[5] ::= phys_addr1 ≫ 8;;
  msg->msg[6] ::= phys_addr1 .& 0xff;;
  msg->msg[7] ::= phys_addr2 ≫ 8;;
  msg->msg[8] ::= phys_addr2 .& 0xff;;
  msg->msg[9] ::= phys_addr3 ≫ 8;;
  msg->msg[10] ::= phys_addr3 .& 0xff.

Definition cec_ops_cdc_hec_request_deactivation (m : cec_msg) : Z * Z * Z * Z :=
  let phys_addr := u16 ((m.[2] ≪ 8) .| m.[3]) in
  let phys_addr1 := u16 ((m.[5] ≪ 8) .| m.[6]) in
  let phys_addr2 := u16 ((m.[7] ≪ 8) .| m.[8]) in
  let phys_addr3 := u16 ((m.[9] ≪ 8) .| m.[10]) in
  (phys_addr, phys_addr1, phys_addr2, phys_addr3).

Definition cec_msg_cdc_hec_notify_alive : stmt :=
  msg->len ::= 5;;
  msg->msg[0] |= 0xf;;
  msg->msg[1] ::= CEC_MSG_CDC_MESSAGE;;
  msg->msg[4] ::= CEC_MSG_CDC_HEC_NOTIFY_ALIVE.

Definition cec_ops_cdc_hec_notify_alive (m : cec_msg) : Z := u16 ((m.[2] ≪ 8) .| m.[3]).

Definition cec_msg_cdc_hec_discover : stmt :=
  msg->len ::= 5;;
  msg->msg[0] |= 0xf;;
  msg->msg[1] ::= CEC_MSG_CDC_MESSAGE;;
  msg->msg[4] ::= CEC_MSG_CDC_HEC_DISCOVER.

Definition cec_ops_cdc_hec_discover (m : cec_msg) : Z := u16 ((m.[2] ≪ 8) .| m.[3]).

Definition cec_msg_cdc_hpd_set_state (input_port hpd_state : Z) : stmt :=
  msg->len ::= 6;;
  msg->msg[0] |= 0xf;;
  msg->msg[1] ::= CEC_MSG_CDC_MESSAGE;;
  msg->msg[4] ::= CEC_MSG_CDC_HPD_SET_STATE;;
  msg->msg[5] ::= (input_port ≪ 4) .| hpd_state.

Definition cec_ops_cdc_hpd_set_state (m : cec_msg) : Z * Z * Z :=
  let phys_addr := u16 ((m.[2] ≪ 8) .| m.[3]) in
  let input_port := u8 (m.[5] ≫ 4) in
  let hpd_state := u8 (m.[5] .& 0xf) in
  (phys_addr, input_port, hpd_state).

Definition cec_msg_cdc_hpd_report_state (hpd_state hpd_error : Z) : stmt :=
  msg->len ::= 6;;
  msg->msg[0] |= 0xf;;
  msg->msg[1] ::= CEC_MSG_CDC_MESSAGE;;
  msg->msg[4] ::= CEC_MSG_CDC_HPD_REPORT_STATE;;
  msg->msg[5] ::= (hpd_state ≪ 4) .| hpd_error.

Definition cec_ops_cdc_hpd_report_state (m : cec_msg) : Z * Z * Z :=
  let phys_addr := u16 ((m.[2] ≪ 8) .| m.[3]) in
  let hpd_state := u8 (m.[5] ≫ 4) in
  let hpd_error := u8 (m.[5] .& 0xf) in
  (phys_addr, hpd_state, hpd_error).
