(* ===== verification/CecCommands.v ===== *)
(** * CEC commands

    The messages as values: what a device wants to say ([cec_command]), the
    builder that says it ([send]), what its header must be ([opcode],
    [broadcast], [answer]), and a receiver that dispatches on the opcode and
    decodes the operands ([receive]).  [in_range] bounds each operand by the
    bits the message has for it; [delivered] is what arrives. *)

From stdpp Require Import base numbers list.
From S2P Require Import Prelude CecTypes CecRecord CecControl CecAudio.

#[local] Open Scope Z_scope.

(** ** Operands that are structures *)

Inductive service : Type :=
| ByChannel (system fmt major minor : Z)
| ByAtsc (system transport_id program_number : Z)
| ByDvb (system transport_id service_id orig_network_id : Z).

Inductive rec_source : Type :=
| SrcOwn
| SrcDigital (s : service)
| SrcAnalog (ana_bcast_type ana_freq bcast_system : Z)
| SrcPlug (plug : Z)
| SrcPhysAddr (phys_addr : Z).

Inductive tuned : Type :=
| TunedDigital (s : service)
| TunedAnalog (ana_bcast_type ana_freq bcast_system : Z).

Inductive ui_arg : Type :=
| NoArg
| OneByte (v : Z)
| Channel (fmt major minor : Z).

(** The structures a caller fills in, byte by byte, and what their fields
    say. *)
Definition le16 (v : Z) : list Z := [u8 v; u8 (v ≫ 8)].

Definition digital_of (s : service) : cec_op_digital_service_id :=
  match s with
  | ByChannel sys fmt ma mi => [1; u8 sys; u8 fmt; 0] ++ le16 ma ++ le16 mi
  | ByAtsc sys t p => [0; u8 sys] ++ le16 t ++ le16 p ++ [0; 0]
  | ByDvb sys t s o => [0; u8 sys] ++ le16 t ++ le16 s ++ le16 o
  end.

Definition service_of (d : cec_op_digital_service_id) : service :=
  if service_id_method d =? CEC_OP_SERVICE_ID_METHOD_BY_CHANNEL then
    ByChannel (dig_bcast_system d) (channel_number_fmt (digital_channel d))
      (major (digital_channel d)) (minor (digital_channel d))
  else if is_atsc (dig_bcast_system d) then
    ByAtsc (dig_bcast_system d) (atsc_transport_id d) (atsc_program_number d)
  else ByDvb (dig_bcast_system d) (dvb_transport_id d) (dvb_service_id d) (dvb_orig_network_id d).

Definition analog_of (t f b : Z) : arr 8 := [u8 t; 0] ++ le16 f ++ [u8 b; 0; 0; 0].

Definition record_src_of (s : rec_source) : cec_op_record_src :=
  match s with
  | SrcOwn => RecordSrc CEC_OP_RECORD_SRC_OWN (replicate 8 0)
  | SrcDigital s => RecordSrc CEC_OP_RECORD_SRC_DIGITAL (digital_of s)
  | SrcAnalog t f b => RecordSrc CEC_OP_RECORD_SRC_ANALOG (analog_of t f b)
  | SrcPlug p => RecordSrc CEC_OP_RECORD_SRC_EXT_PLUG (u8 p :: replicate 7 0)
  | SrcPhysAddr p => RecordSrc CEC_OP_RECORD_SRC_EXT_PHYS_ADDR (le16 p ++ replicate 6 0)
  end.

Definition source_of (r : cec_op_record_src) : option rec_source :=
  if rs_type r =? CEC_OP_RECORD_SRC_OWN then Some SrcOwn
  else if rs_type r =? CEC_OP_RECORD_SRC_DIGITAL then Some (SrcDigital (service_of (rs_digital r)))
  else if rs_type r =? CEC_OP_RECORD_SRC_ANALOG then
    Some (SrcAnalog (analog_ana_bcast_type (rs_analog r)) (analog_ana_freq (rs_analog r))
            (analog_bcast_system (rs_analog r)))
  else if rs_type r =? CEC_OP_RECORD_SRC_EXT_PLUG then Some (SrcPlug (ext_plug_plug r))
  else if rs_type r =? CEC_OP_RECORD_SRC_EXT_PHYS_ADDR then
    Some (SrcPhysAddr (ext_phys_addr_phys_addr r))
  else None.

Definition tuner_info_of (flag info : Z) (t : tuned) : cec_op_tuner_device_info :=
  match t with
  | TunedDigital s => TunerDeviceInfo flag info 0 (digital_of s)
  | TunedAnalog t f b => TunerDeviceInfo flag info 1 (analog_of t f b)
  end.

Definition tuned_of (i : cec_op_tuner_device_info) : tuned :=
  if is_analog i =? 0 then TunedDigital (service_of (tdi_u i))
  else TunedAnalog (analog_ana_bcast_type (tdi_u i)) (analog_ana_freq (tdi_u i))
         (analog_bcast_system (tdi_u i)).

Definition ui_command_of (c : Z) (a : ui_arg) : cec_op_ui_command :=
  match a with
  | NoArg => UiCommand c 0 (replicate 6 0)
  | OneByte v => UiCommand c 1 (u8 v :: replicate 5 0)
  | Channel f ma mi => UiCommand c 1 ([u8 f; 0] ++ le16 ma ++ le16 mi)
  end.

Definition ui_arg_of (u : cec_op_ui_command) : ui_arg :=
  if has_opt_arg u =? 0 then NoArg
  else if ui_one_byte (ui_cmd u) then OneByte (ui_play_mode u)
  else Channel (channel_number_fmt (channel_identifier u)) (major (channel_identifier u))
         (minor (channel_identifier u)).

(** [n] bytes of a message from the offset [p]. *)
Definition slice (m : cec_msg) (p : nat) (n : Z) : list Z := take (Z.to_nat n) (drop p (msg m)).

(** The characters before the terminator. *)
Fixpoint before_nul (s : list Z) : list Z :=
  match s with
  | [] => []
  | c :: r => if c =? 0 then [] else c :: before_nul r
  end.

(** ** Commands *)

Inductive cec_command : Type :=
| ActiveSource (phys_addr : Z)
| ImageViewOn
| TextViewOn
| InactiveSource (phys_addr : Z)
| RequestActiveSource
| RoutingInformation (phys_addr : Z)
| RoutingChange (orig_phys_addr new_phys_addr : Z)
| SetStreamPath (phys_addr : Z)
| Standby
| RecordOff
| RecordOn (src : rec_source)
| RecordStatus (rec_status : Z)
| RecordTvScreen
| TimerStatus (timer_overlap_warning media_info prog_info prog_error duration_hr duration_min : Z)
| TimerClearedStatus (timer_cleared_status : Z)
| ClearAnalogueTimer (day month start_hr start_min duration_hr duration_min recording_seq
    ana_bcast_type ana_freq bcast_system : Z)
| ClearDigitalTimer (day month start_hr start_min duration_hr duration_min recording_seq : Z) (s :
    service)
| ClearExtTimer (day month start_hr start_min duration_hr duration_min recording_seq ext_src_spec
    plug phys_addr : Z)
| SetAnalogueTimer (day month start_hr start_min duration_hr duration_min recording_seq
    ana_bcast_type ana_freq bcast_system : Z)
| SetDigitalTimer (day month start_hr start_min duration_hr duration_min recording_seq : Z) (s :
    service)
| SetExtTimer (day month start_hr start_min duration_hr duration_min recording_seq ext_src_spec plug
    phys_addr : Z)
| SetTimerProgramTitle (title : list Z)
| CecVersion (cec_version : Z)
| GetCecVersion
| ReportPhysicalAddr (phys_addr prim_devtype : Z)
| GivePhysicalAddr
| SetMenuLanguage (language : list Z)
| GetMenuLanguage
| ReportFeatures (cec_version all_device_types rc_profile dev_features : Z)
| GiveFeatures
| DeckControl (deck_control_mode : Z)
| DeckStatus (deck_info : Z)
| GiveDeckStatus (status_req : Z)
| Play (play_mode : Z)
| TunerDeviceStatus (rec_flag tuner_display_info : Z) (t : tuned)
| GiveTunerDeviceStatus (status_req : Z)
| SelectAnalogueService (ana_bcast_type ana_freq bcast_system : Z)
| SelectDigitalService (s : service)
| TunerStepDecrement
| TunerStepIncrement
| DeviceVendorId (vendor_id : Z)
| GiveDeviceVendorId
| VendorCommand (cmd : list Z)
| VendorCommandWithId (vendor_id : Z) (cmd : list Z)
| VendorRemoteButtonDown (code : list Z)
| VendorRemoteButtonUp
| SetOsdString (disp_ctl : Z) (osd : list Z)
| SetOsdName (name : list Z)
| GiveOsdName
| MenuStatus (menu_state : Z)
| MenuRequest (menu_req : Z)
| UserControlPressed (ui_cmd : Z) (arg : ui_arg)
| UserControlReleased
| ReportPowerStatus (pwr_state : Z)
| GiveDevicePowerStatus
| FeatureAbort (abort_msg reason : Z)
| AbortMessage
| ReportAudioStatus (aud_mute_status aud_vol_status : Z)
| GiveAudioStatus
| SetSystemAudioMode (sys_aud_status : Z)
| SystemAudioModeRequest (phys_addr : Z)
| SystemAudioModeStatus (sys_aud_status : Z)
| GiveSystemAudioModeStatus
| ReportShortAudioDescriptor (ds : list Z)
| RequestShortAudioDescriptor (fs : list (Z * Z))
| SetAudioRate (audio_rate : Z)
| ReportArcInitiated
| InitiateArc
| RequestArcInitiation
| ReportArcTerminated
| TerminateArc
| RequestArcTermination
| ReportCurrentLatency (phys_addr video_latency low_latency_mode audio_out_compensated
    audio_out_delay : Z)
| RequestCurrentLatency (phys_addr : Z)
| CdcHecInquireState (phys_addr1 phys_addr2 : Z)
| CdcHecReportState (target_phys_addr hec_func_state host_func_state enc_func_state cdc_errcode
    has_field hec_field : Z)
| CdcHecSetState (phys_addr1 phys_addr2 hec_set_state phys_addr3 phys_addr4 phys_addr5 : Z)
| CdcHecSetStateAdjacent (phys_addr1 hec_set_state : Z)
| CdcHecRequestDeactivation (phys_addr1 phys_addr2 phys_addr3 : Z)
| CdcHecNotifyAlive
| CdcHecDiscover
| CdcHpdSetState (input_port hpd_state : Z)
| CdcHpdReportState (hpd_state hpd_error : Z).

(** The builder of a command; [r] is the parameter reply of the builders
    that have one. *)
Definition send (r : Z) (c : cec_command) : stmt :=
  match c with
  | ActiveSource phys_addr => cec_msg_active_source phys_addr
  | ImageViewOn => cec_msg_image_view_on
  | TextViewOn => cec_msg_text_view_on
  | InactiveSource phys_addr => cec_msg_inactive_source phys_addr
  | RequestActiveSource => cec_msg_request_active_source r
  | RoutingInformation phys_addr => cec_msg_routing_information phys_addr
  | RoutingChange orig_phys_addr new_phys_addr => cec_msg_routing_change r orig_phys_addr new_phys_addr
  | SetStreamPath phys_addr => cec_msg_set_stream_path phys_addr
  | Standby => cec_msg_standby
  | RecordOff => cec_msg_record_off r
  | RecordOn src => cec_msg_record_on r (record_src_of src)
  | RecordStatus rec_status => cec_msg_record_status rec_status
  | RecordTvScreen => cec_msg_record_tv_screen r
  | TimerStatus timer_overlap_warning media_info prog_info prog_error duration_hr duration_min =>
      cec_msg_timer_status timer_overlap_warning media_info prog_info prog_error duration_hr
      duration_min
  | TimerClearedStatus timer_cleared_status => cec_msg_timer_cleared_status timer_cleared_status
  | ClearAnalogueTimer day month start_hr start_min duration_hr duration_min recording_seq
      ana_bcast_type ana_freq bcast_system => cec_msg_clear_analogue_timer r day month start_hr
      start_min duration_hr duration_min recording_seq ana_bcast_type ana_freq bcast_system
  | ClearDigitalTimer day month start_hr start_min duration_hr duration_min recording_seq s =>
      cec_msg_clear_digital_timer r day month start_hr start_min duration_hr duration_min
      recording_seq
        (digital_of s)
  | ClearExtTimer day month start_hr start_min duration_hr duration_min recording_seq ext_src_spec
      plug phys_addr => cec_msg_clear_ext_timer r day month start_hr start_min duration_hr
      duration_min recording_seq ext_src_spec plug phys_addr
  | SetAnalogueTimer day month start_hr start_min duration_hr duration_min recording_seq
      ana_bcast_type ana_freq bcast_system => cec_msg_set_analogue_timer r day month start_hr
      start_min duration_hr duration_min recording_seq ana_bcast_type ana_freq bcast_system
  | SetDigitalTimer day month start_hr start_min duration_hr duration_min recording_seq s =>
      cec_msg_set_digital_timer r day month start_hr start_min duration_hr duration_min recording_seq
        (digital_of s)
  | SetExtTimer day month start_hr start_min duration_hr duration_min recording_seq ext_src_spec plug
      phys_addr => cec_msg_set_ext_timer r day month start_hr start_min duration_hr duration_min
      recording_seq ext_src_spec plug phys_addr
  | SetTimerProgramTitle title => cec_msg_set_timer_program_title (title ++ [0])
  | CecVersion cec_version => cec_msg_cec_version cec_version
  | GetCecVersion => cec_msg_get_cec_version r
  | ReportPhysicalAddr phys_addr prim_devtype => cec_msg_report_physical_addr phys_addr prim_devtype
  | GivePhysicalAddr => cec_msg_give_physical_addr r
  | SetMenuLanguage language => cec_msg_set_menu_language language
  | GetMenuLanguage => cec_msg_get_menu_language r
  | ReportFeatures v d rc dev => cec_msg_report_features v d rc dev
  | GiveFeatures => cec_msg_give_features r
  | DeckControl deck_control_mode => cec_msg_deck_control deck_control_mode
  | DeckStatus deck_info => cec_msg_deck_status deck_info
  | GiveDeckStatus status_req => cec_msg_give_deck_status r status_req
  | Play play_mode => cec_msg_play play_mode
  | TunerDeviceStatus rec_flag tuner_display_info t => cec_msg_tuner_device_status (tuner_info_of
      rec_flag tuner_display_info t)
  | GiveTunerDeviceStatus status_req => cec_msg_give_tuner_device_status r status_req
  | SelectAnalogueService ana_bcast_type ana_freq bcast_system => cec_msg_select_analogue_service
      ana_bcast_type ana_freq bcast_system
  | SelectDigitalService s => cec_msg_select_digital_service (digital_of s)
  | TunerStepDecrement => cec_msg_tuner_step_decrement
  | TunerStepIncrement => cec_msg_tuner_step_increment
  | DeviceVendorId vendor_id => cec_msg_device_vendor_id vendor_id
  | GiveDeviceVendorId => cec_msg_give_device_vendor_id r
  | VendorCommand cmd => cec_msg_vendor_command (zlen cmd) cmd
  | VendorCommandWithId vendor_id cmd => cec_msg_vendor_command_with_id vendor_id (zlen cmd) cmd
  | VendorRemoteButtonDown code => cec_msg_vendor_remote_button_down (zlen code) code
  | VendorRemoteButtonUp => cec_msg_vendor_remote_button_up
  | SetOsdString disp_ctl osd => cec_msg_set_osd_string disp_ctl (osd ++ [0])
  | SetOsdName name => cec_msg_set_osd_name (name ++ [0])
  | GiveOsdName => cec_msg_give_osd_name r
  | MenuStatus menu_state => cec_msg_menu_status menu_state
  | MenuRequest menu_req => cec_msg_menu_request r menu_req
  | UserControlPressed ui_cmd arg => cec_msg_user_control_pressed (ui_command_of ui_cmd arg)
  | UserControlReleased => cec_msg_user_control_released
  | ReportPowerStatus pwr_state => cec_msg_report_power_status pwr_state
  | GiveDevicePowerStatus => cec_msg_give_device_power_status r
  | FeatureAbort abort_msg reason => cec_msg_feature_abort abort_msg reason
  | AbortMessage => cec_msg_abort
  | ReportAudioStatus aud_mute_status aud_vol_status => cec_msg_report_audio_status aud_mute_status
      aud_vol_status
  | GiveAudioStatus => cec_msg_give_audio_status r
  | SetSystemAudioMode sys_aud_status => cec_msg_set_system_audio_mode sys_aud_status
  | SystemAudioModeRequest phys_addr => cec_msg_system_audio_mode_request r phys_addr
  | SystemAudioModeStatus sys_aud_status => cec_msg_system_audio_mode_status sys_aud_status
  | GiveSystemAudioModeStatus => cec_msg_give_system_audio_mode_status r
  | ReportShortAudioDescriptor ds => cec_msg_report_short_audio_descriptor (zlen ds) ds
  | RequestShortAudioDescriptor fs => cec_msg_request_short_audio_descriptor r (zlen fs) fs.*1 fs.*2
  | SetAudioRate audio_rate => cec_msg_set_audio_rate audio_rate
  | ReportArcInitiated => cec_msg_report_arc_initiated
  | InitiateArc => cec_msg_initiate_arc r
  | RequestArcInitiation => cec_msg_request_arc_initiation r
  | ReportArcTerminated => cec_msg_report_arc_terminated
  | TerminateArc => cec_msg_terminate_arc r
  | RequestArcTermination => cec_msg_request_arc_termination r
  | ReportCurrentLatency phys_addr video_latency low_latency_mode audio_out_compensated
      audio_out_delay => cec_msg_report_current_latency phys_addr video_latency low_latency_mode
      audio_out_compensated audio_out_delay
  | RequestCurrentLatency phys_addr => cec_msg_request_current_latency r phys_addr
  | CdcHecInquireState phys_addr1 phys_addr2 => cec_msg_cdc_hec_inquire_state phys_addr1 phys_addr2
  | CdcHecReportState target_phys_addr hec_func_state host_func_state enc_func_state cdc_errcode
      has_field hec_field => cec_msg_cdc_hec_report_state target_phys_addr hec_func_state
      host_func_state enc_func_state cdc_errcode has_field hec_field
  | CdcHecSetState phys_addr1 phys_addr2 hec_set_state phys_addr3 phys_addr4 phys_addr5 =>
      cec_msg_cdc_hec_set_state phys_addr1 phys_addr2 hec_set_state phys_addr3 phys_addr4 phys_addr5
  | CdcHecSetStateAdjacent phys_addr1 hec_set_state => cec_msg_cdc_hec_set_state_adjacent phys_addr1
      hec_set_state
  | CdcHecRequestDeactivation phys_addr1 phys_addr2 phys_addr3 =>
      cec_msg_cdc_hec_request_deactivation phys_addr1 phys_addr2 phys_addr3
  | CdcHecNotifyAlive => cec_msg_cdc_hec_notify_alive
  | CdcHecDiscover => cec_msg_cdc_hec_discover
  | CdcHpdSetState input_port hpd_state => cec_msg_cdc_hpd_set_state input_port hpd_state
  | CdcHpdReportState hpd_state hpd_error => cec_msg_cdc_hpd_report_state hpd_state hpd_error
  end.

(** What the header of a command must say: its opcode, that it is broadcast,
    the opcode of the answer its builder can ask for. *)
Definition opcode (c : cec_command) : Z :=
  match c with
  | ActiveSource _ => CEC_MSG_ACTIVE_SOURCE
  | ImageViewOn => CEC_MSG_IMAGE_VIEW_ON
  | TextViewOn => CEC_MSG_TEXT_VIEW_ON
  | InactiveSource _ => CEC_MSG_INACTIVE_SOURCE
  | RequestActiveSource => CEC_MSG_REQUEST_ACTIVE_SOURCE
  | RoutingInformation _ => CEC_MSG_ROUTING_INFORMATION
  | RoutingChange _ _ => CEC_MSG_ROUTING_CHANGE
  | SetStreamPath _ => CEC_MSG_SET_STREAM_PATH
  | Standby => CEC_MSG_STANDBY
  | RecordOff => CEC_MSG_RECORD_OFF
  | RecordOn _ => CEC_MSG_RECORD_ON
  | RecordStatus _ => CEC_MSG_RECORD_STATUS
  | RecordTvScreen => CEC_MSG_RECORD_TV_SCREEN
  | TimerStatus _ _ _ _ _ _ => CEC_MSG_TIMER_STATUS
  | TimerClearedStatus _ => CEC_MSG_TIMER_CLEARED_STATUS
  | ClearAnalogueTimer _ _ _ _ _ _ _ _ _ _ => CEC_MSG_CLEAR_ANALOGUE_TIMER
  | ClearDigitalTimer _ _ _ _ _ _ _ _ => CEC_MSG_CLEAR_DIGITAL_TIMER
  | ClearExtTimer _ _ _ _ _ _ _ _ _ _ => CEC_MSG_CLEAR_EXT_TIMER
  | SetAnalogueTimer _ _ _ _ _ _ _ _ _ _ => CEC_MSG_SET_ANALOGUE_TIMER
  | SetDigitalTimer _ _ _ _ _ _ _ _ => CEC_MSG_SET_DIGITAL_TIMER
  | SetExtTimer _ _ _ _ _ _ _ _ _ _ => CEC_MSG_SET_EXT_TIMER
  | SetTimerProgramTitle _ => CEC_MSG_SET_TIMER_PROGRAM_TITLE
  | CecVersion _ => CEC_MSG_CEC_VERSION
  | GetCecVersion => CEC_MSG_GET_CEC_VERSION
  | ReportPhysicalAddr _ _ => CEC_MSG_REPORT_PHYSICAL_ADDR
  | GivePhysicalAddr => CEC_MSG_GIVE_PHYSICAL_ADDR
  | SetMenuLanguage _ => CEC_MSG_SET_MENU_LANGUAGE
  | GetMenuLanguage => CEC_MSG_GET_MENU_LANGUAGE
  | ReportFeatures _ _ _ _ => CEC_MSG_REPORT_FEATURES
  | GiveFeatures => CEC_MSG_GIVE_FEATURES
  | DeckControl _ => CEC_MSG_DECK_CONTROL
  | DeckStatus _ => CEC_MSG_DECK_STATUS
  | GiveDeckStatus _ => CEC_MSG_GIVE_DECK_STATUS
  | Play _ => CEC_MSG_PLAY
  | TunerDeviceStatus _ _ _ => CEC_MSG_TUNER_DEVICE_STATUS
  | GiveTunerDeviceStatus _ => CEC_MSG_GIVE_TUNER_DEVICE_STATUS
  | SelectAnalogueService _ _ _ => CEC_MSG_SELECT_ANALOGUE_SERVICE
  | SelectDigitalService _ => CEC_MSG_SELECT_DIGITAL_SERVICE
  | TunerStepDecrement => CEC_MSG_TUNER_STEP_DECREMENT
  | TunerStepIncrement => CEC_MSG_TUNER_STEP_INCREMENT
  | DeviceVendorId _ => CEC_MSG_DEVICE_VENDOR_ID
  | GiveDeviceVendorId => CEC_MSG_GIVE_DEVICE_VENDOR_ID
  | VendorCommand _ => CEC_MSG_VENDOR_COMMAND
  | VendorCommandWithId _ _ => CEC_MSG_VENDOR_COMMAND_WITH_ID
  | VendorRemoteButtonDown _ => CEC_MSG_VENDOR_REMOTE_BUTTON_DOWN
  | VendorRemoteButtonUp => CEC_MSG_VENDOR_REMOTE_BUTTON_UP
  | SetOsdString _ _ => CEC_MSG_SET_OSD_STRING
  | SetOsdName _ => CEC_MSG_SET_OSD_NAME
  | GiveOsdName => CEC_MSG_GIVE_OSD_NAME
  | MenuStatus _ => CEC_MSG_MENU_STATUS
  | MenuRequest _ => CEC_MSG_MENU_REQUEST
  | UserControlPressed _ _ => CEC_MSG_USER_CONTROL_PRESSED
  | UserControlReleased => CEC_MSG_USER_CONTROL_RELEASED
  | ReportPowerStatus _ => CEC_MSG_REPORT_POWER_STATUS
  | GiveDevicePowerStatus => CEC_MSG_GIVE_DEVICE_POWER_STATUS
  | FeatureAbort _ _ => CEC_MSG_FEATURE_ABORT
  | AbortMessage => CEC_MSG_ABORT
  | ReportAudioStatus _ _ => CEC_MSG_REPORT_AUDIO_STATUS
  | GiveAudioStatus => CEC_MSG_GIVE_AUDIO_STATUS
  | SetSystemAudioMode _ => CEC_MSG_SET_SYSTEM_AUDIO_MODE
  | SystemAudioModeRequest _ => CEC_MSG_SYSTEM_AUDIO_MODE_REQUEST
  | SystemAudioModeStatus _ => CEC_MSG_SYSTEM_AUDIO_MODE_STATUS
  | GiveSystemAudioModeStatus => CEC_MSG_GIVE_SYSTEM_AUDIO_MODE_STATUS
  | ReportShortAudioDescriptor _ => CEC_MSG_REPORT_SHORT_AUDIO_DESCRIPTOR
  | RequestShortAudioDescriptor _ => CEC_MSG_REQUEST_SHORT_AUDIO_DESCRIPTOR
  | SetAudioRate _ => CEC_MSG_SET_AUDIO_RATE
  | ReportArcInitiated => CEC_MSG_REPORT_ARC_INITIATED
  | InitiateArc => CEC_MSG_INITIATE_ARC
  | RequestArcInitiation => CEC_MSG_REQUEST_ARC_INITIATION
  | ReportArcTerminated => CEC_MSG_REPORT_ARC_TERMINATED
  | TerminateArc => CEC_MSG_TERMINATE_ARC
  | RequestArcTermination => CEC_MSG_REQUEST_ARC_TERMINATION
  | ReportCurrentLatency _ _ _ _ _ => CEC_MSG_REPORT_CURRENT_LATENCY
  | RequestCurrentLatency _ => CEC_MSG_REQUEST_CURRENT_LATENCY
  | _ => CEC_MSG_CDC_MESSAGE
  end.

Definition broadcast (c : cec_command) : bool :=
  match c with
  | ActiveSource _
  | RequestActiveSource
  | RoutingInformation _
  | RoutingChange _ _
  | SetStreamPath _
  | ReportPhysicalAddr _ _
  | SetMenuLanguage _
  | ReportFeatures _ _ _ _
  | DeviceVendorId _
  | ReportCurrentLatency _ _ _ _ _
  | RequestCurrentLatency _
  | CdcHecInquireState _ _
  | CdcHecReportState _ _ _ _ _ _ _
  | CdcHecSetState _ _ _ _ _ _
  | CdcHecSetStateAdjacent _ _
  | CdcHecRequestDeactivation _ _ _
  | CdcHecNotifyAlive
  | CdcHecDiscover
  | CdcHpdSetState _ _
  | CdcHpdReportState _ _ => true
  | _ => false
  end.

Definition answer (c : cec_command) : option Z :=
  match c with
  | RequestActiveSource => Some CEC_MSG_ACTIVE_SOURCE
  | RoutingChange _ _ => Some CEC_MSG_ROUTING_INFORMATION
  | RecordOff => Some CEC_MSG_RECORD_STATUS
  | RecordOn _ => Some CEC_MSG_RECORD_STATUS
  | RecordTvScreen => Some CEC_MSG_RECORD_ON
  | ClearAnalogueTimer _ _ _ _ _ _ _ _ _ _ => Some CEC_MSG_TIMER_CLEARED_STATUS
  | ClearDigitalTimer _ _ _ _ _ _ _ _ => Some CEC_MSG_TIMER_CLEARED_STATUS
  | ClearExtTimer _ _ _ _ _ _ _ _ _ _ => Some CEC_MSG_TIMER_CLEARED_STATUS
  | SetAnalogueTimer _ _ _ _ _ _ _ _ _ _ => Some CEC_MSG_TIMER_STATUS
  | SetDigitalTimer _ _ _ _ _ _ _ _ => Some CEC_MSG_TIMER_STATUS
  | SetExtTimer _ _ _ _ _ _ _ _ _ _ => Some CEC_MSG_TIMER_STATUS
  | GetCecVersion => Some CEC_MSG_CEC_VERSION
  | GivePhysicalAddr => Some CEC_MSG_REPORT_PHYSICAL_ADDR
  | GetMenuLanguage => Some CEC_MSG_SET_MENU_LANGUAGE
  | GiveFeatures => Some CEC_MSG_REPORT_FEATURES
  | GiveDeckStatus _ => Some CEC_MSG_DECK_STATUS
  | GiveTunerDeviceStatus _ => Some CEC_MSG_TUNER_DEVICE_STATUS
  | GiveDeviceVendorId => Some CEC_MSG_DEVICE_VENDOR_ID
  | GiveOsdName => Some CEC_MSG_SET_OSD_NAME
  | MenuRequest _ => Some CEC_MSG_MENU_STATUS
  | GiveDevicePowerStatus => Some CEC_MSG_REPORT_POWER_STATUS
  | GiveAudioStatus => Some CEC_MSG_REPORT_AUDIO_STATUS
  | SystemAudioModeRequest _ => Some CEC_MSG_SET_SYSTEM_AUDIO_MODE
  | GiveSystemAudioModeStatus => Some CEC_MSG_SYSTEM_AUDIO_MODE_STATUS
  | RequestShortAudioDescriptor _ => Some CEC_MSG_REPORT_SHORT_AUDIO_DESCRIPTOR
  | InitiateArc => Some CEC_MSG_REPORT_ARC_INITIATED
  | RequestArcInitiation => Some CEC_MSG_INITIATE_ARC
  | TerminateArc => Some CEC_MSG_REPORT_ARC_TERMINATED
  | RequestArcTermination => Some CEC_MSG_TERMINATE_ARC
  | RequestCurrentLatency _ => Some CEC_MSG_REPORT_CURRENT_LATENCY
  | _ => None
  end.

(** The operand bytes of a feature report. *)
Definition features_of (m : cec_msg) (v d : Z) (rc dev : option nat) : res (option cec_command) :=
  match rc, dev with
  | Some p, Some q =>
      b ← load (msg m) p;
      b' ← load (msg m) q;
      Ok (Some (ReportFeatures v d b b'))
  | _, _ => Ok None
  end.

(** The decoder of an opcode in a table. *)
Fixpoint assoc {A} (k : Z) (l : list (Z * A)) : option A :=
  match l with
  | [] => None
  | (k', a) :: l => if k =? k' then Some a else assoc k l
  end.

Definition decoder : Type := cec_msg -> res (option cec_command).

(** A capability discovery message has a second opcode in byte 4. *)
Definition cdc_decoders : list (Z * decoder) :=
  [(CEC_MSG_CDC_HEC_INQUIRE_STATE, fun m =>
    let '(_, phys_addr1, phys_addr2) := cec_ops_cdc_hec_inquire_state m in
    Ok (Some (CdcHecInquireState phys_addr1 phys_addr2)));
   (CEC_MSG_CDC_HEC_REPORT_STATE, fun m =>
    let '(_, target_phys_addr, hec_func_state, host_func_state, enc_func_state, cdc_errcode,
        has_field, hec_field) := cec_ops_cdc_hec_report_state m in
    Ok (Some (CdcHecReportState target_phys_addr hec_func_state host_func_state enc_func_state
        cdc_errcode has_field hec_field)));
   (CEC_MSG_CDC_HEC_SET_STATE, fun m =>
    let '(_, phys_addr1, phys_addr2, hec_set_state, phys_addr3, phys_addr4, phys_addr5) :=
        cec_ops_cdc_hec_set_state m in
    Ok (Some (CdcHecSetState phys_addr1 phys_addr2 hec_set_state phys_addr3 phys_addr4 phys_addr5)));
   (CEC_MSG_CDC_HEC_SET_STATE_ADJACENT, fun m =>
    let '(_, phys_addr1, hec_set_state) := cec_ops_cdc_hec_set_state_adjacent m in
    Ok (Some (CdcHecSetStateAdjacent phys_addr1 hec_set_state)));
   (CEC_MSG_CDC_HEC_REQUEST_DEACTIVATION, fun m =>
    let '(_, phys_addr1, phys_addr2, phys_addr3) := cec_ops_cdc_hec_request_deactivation m in
    Ok (Some (CdcHecRequestDeactivation phys_addr1 phys_addr2 phys_addr3)));
   (CEC_MSG_CDC_HEC_NOTIFY_ALIVE, fun m =>
    Ok (Some CdcHecNotifyAlive));
   (CEC_MSG_CDC_HEC_DISCOVER, fun m =>
    Ok (Some CdcHecDiscover));
   (CEC_MSG_CDC_HPD_SET_STATE, fun m =>
    let '(_, input_port, hpd_state) := cec_ops_cdc_hpd_set_state m in
    Ok (Some (CdcHpdSetState input_port hpd_state)));
   (CEC_MSG_CDC_HPD_REPORT_STATE, fun m =>
    let '(_, hpd_state, hpd_error) := cec_ops_cdc_hpd_report_state m in
    Ok (Some (CdcHpdReportState hpd_state hpd_error)))].

Definition receive_cdc : decoder := fun m =>
  match assoc m.[4] cdc_decoders with Some d => d m | None => Ok None end.

Definition decoders : list (Z * decoder) :=
  [(CEC_MSG_ACTIVE_SOURCE, fun m =>
    Ok (Some (ActiveSource (cec_ops_active_source m))));
   (CEC_MSG_IMAGE_VIEW_ON, fun m =>
    Ok (Some ImageViewOn));
   (CEC_MSG_TEXT_VIEW_ON, fun m =>
    Ok (Some TextViewOn));
   (CEC_MSG_INACTIVE_SOURCE, fun m =>
    Ok (Some (InactiveSource (cec_ops_inactive_source m))));
   (CEC_MSG_REQUEST_ACTIVE_SOURCE, fun m =>
    Ok (Some RequestActiveSource));
   (CEC_MSG_ROUTING_INFORMATION, fun m =>
    Ok (Some (RoutingInformation (cec_ops_routing_information m))));
   (CEC_MSG_ROUTING_CHANGE, fun m =>
    let '(orig_phys_addr, new_phys_addr) := cec_ops_routing_change m in
    Ok (Some (RoutingChange orig_phys_addr new_phys_addr)));
   (CEC_MSG_SET_STREAM_PATH, fun m =>
    Ok (Some (SetStreamPath (cec_ops_set_stream_path m))));
   (CEC_MSG_STANDBY, fun m =>
    Ok (Some Standby));
   (CEC_MSG_RECORD_OFF, fun m =>
    Ok (Some RecordOff));
   (CEC_MSG_RECORD_ON, fun m =>
    rs ← cec_ops_record_on m (RecordSrc 0 (replicate 8 0)); Ok (RecordOn <$> source_of rs));
   (CEC_MSG_RECORD_STATUS, fun m =>
    Ok (Some (RecordStatus (cec_ops_record_status m))));
   (CEC_MSG_RECORD_TV_SCREEN, fun m =>
    Ok (Some RecordTvScreen));
   (CEC_MSG_TIMER_STATUS, fun m =>
    let '(timer_overlap_warning, media_info, prog_info, prog_error, duration_hr, duration_min) :=
        cec_ops_timer_status m in
    Ok (Some (TimerStatus timer_overlap_warning media_info prog_info prog_error duration_hr
        duration_min)));
   (CEC_MSG_TIMER_CLEARED_STATUS, fun m =>
    Ok (Some (TimerClearedStatus (cec_ops_timer_cleared_status m))));
   (CEC_MSG_CLEAR_ANALOGUE_TIMER, fun m =>
    let '(day, month, start_hr, start_min, duration_hr, duration_min, recording_seq, ana_bcast_type,
        ana_freq, bcast_system) := cec_ops_clear_analogue_timer m in
    Ok (Some (ClearAnalogueTimer day month start_hr start_min duration_hr duration_min recording_seq
        ana_bcast_type ana_freq bcast_system)));
   (CEC_MSG_CLEAR_DIGITAL_TIMER, fun m =>
    '(day, month, sh, sm, dh, dm, rec, d) ← cec_ops_clear_digital_timer m (replicate 8 0);
    Ok (Some (ClearDigitalTimer day month sh sm dh dm rec (service_of d))));
   (CEC_MSG_CLEAR_EXT_TIMER, fun m =>
    let '(day, month, start_hr, start_min, duration_hr, duration_min, recording_seq, ext_src_spec,
        plug, phys_addr) := cec_ops_clear_ext_timer m in
    Ok (Some (ClearExtTimer day month start_hr start_min duration_hr duration_min recording_seq
        ext_src_spec plug phys_addr)));
   (CEC_MSG_SET_ANALOGUE_TIMER, fun m =>
    let '(day, month, start_hr, start_min, duration_hr, duration_min, recording_seq, ana_bcast_type,
        ana_freq, bcast_system) := cec_ops_set_analogue_timer m in
    Ok (Some (SetAnalogueTimer day month start_hr start_min duration_hr duration_min recording_seq
        ana_bcast_type ana_freq bcast_system)));
   (CEC_MSG_SET_DIGITAL_TIMER, fun m =>
    '(day, month, sh, sm, dh, dm, rec, d) ← cec_ops_set_digital_timer m (replicate 8 0);
    Ok (Some (SetDigitalTimer day month sh sm dh dm rec (service_of d))));
   (CEC_MSG_SET_EXT_TIMER, fun m =>
    let '(day, month, start_hr, start_min, duration_hr, duration_min, recording_seq, ext_src_spec,
        plug, phys_addr) := cec_ops_set_ext_timer m in
    Ok (Some (SetExtTimer day month start_hr start_min duration_hr duration_min recording_seq
        ext_src_spec plug phys_addr)));
   (CEC_MSG_SET_TIMER_PROGRAM_TITLE, fun m =>
    t ← cec_ops_set_timer_program_title m (replicate 15 0); Ok (Some (SetTimerProgramTitle
        (before_nul t))));
   (CEC_MSG_CEC_VERSION, fun m =>
    Ok (Some (CecVersion (cec_ops_cec_version m))));
   (CEC_MSG_GET_CEC_VERSION, fun m =>
    Ok (Some GetCecVersion));
   (CEC_MSG_REPORT_PHYSICAL_ADDR, fun m =>
    let '(phys_addr, prim_devtype) := cec_ops_report_physical_addr m in
    Ok (Some (ReportPhysicalAddr phys_addr prim_devtype)));
   (CEC_MSG_GIVE_PHYSICAL_ADDR, fun m =>
    Ok (Some GivePhysicalAddr));
   (CEC_MSG_SET_MENU_LANGUAGE, fun m =>
    t ← cec_ops_set_menu_language m (replicate 4 0); Ok (Some (SetMenuLanguage (before_nul t))));
   (CEC_MSG_GET_MENU_LANGUAGE, fun m =>
    Ok (Some GetMenuLanguage));
   (CEC_MSG_REPORT_FEATURES, fun m =>
    '(v, d, rc, dev) ← cec_ops_report_features m;
    features_of m v d rc dev);
   (CEC_MSG_GIVE_FEATURES, fun m =>
    Ok (Some GiveFeatures));
   (CEC_MSG_DECK_CONTROL, fun m =>
    Ok (Some (DeckControl (cec_ops_deck_control m))));
   (CEC_MSG_DECK_STATUS, fun m =>
    Ok (Some (DeckStatus (cec_ops_deck_status m))));
   (CEC_MSG_GIVE_DECK_STATUS, fun m =>
    Ok (Some (GiveDeckStatus (cec_ops_give_deck_status m))));
   (CEC_MSG_PLAY, fun m =>
    Ok (Some (Play (cec_ops_play m))));
   (CEC_MSG_TUNER_DEVICE_STATUS, fun m =>
    i ← cec_ops_tuner_device_status m (TunerDeviceInfo 0 0 0 (replicate 8 0));
    Ok (Some (TunerDeviceStatus (rec_flag i) (tuner_display_info i) (tuned_of i))));
   (CEC_MSG_GIVE_TUNER_DEVICE_STATUS, fun m =>
    Ok (Some (GiveTunerDeviceStatus (cec_ops_give_tuner_device_status m))));
   (CEC_MSG_SELECT_ANALOGUE_SERVICE, fun m =>
    let '(ana_bcast_type, ana_freq, bcast_system) := cec_ops_select_analogue_service m in
    Ok (Some (SelectAnalogueService ana_bcast_type ana_freq bcast_system)));
   (CEC_MSG_SELECT_DIGITAL_SERVICE, fun m =>
    d ← cec_ops_select_digital_service m (replicate 8 0); Ok (Some (SelectDigitalService (service_of
        d))));
   (CEC_MSG_TUNER_STEP_DECREMENT, fun m =>
    Ok (Some TunerStepDecrement));
   (CEC_MSG_TUNER_STEP_INCREMENT, fun m =>
    Ok (Some TunerStepIncrement));
   (CEC_MSG_DEVICE_VENDOR_ID, fun m =>
    Ok (Some (DeviceVendorId (cec_ops_device_vendor_id m))));
   (CEC_MSG_GIVE_DEVICE_VENDOR_ID, fun m =>
    Ok (Some GiveDeviceVendorId));
   (CEC_MSG_VENDOR_COMMAND, fun m =>
    let '(n, p) := cec_ops_vendor_command m in Ok (Some (VendorCommand (slice m p n))));
   (CEC_MSG_VENDOR_COMMAND_WITH_ID, fun m =>
    let '(v, n, p) := cec_ops_vendor_command_with_id m in Ok (Some (VendorCommandWithId v (slice m p
        n))));
   (CEC_MSG_VENDOR_REMOTE_BUTTON_DOWN, fun m =>
    let '(n, p) := cec_ops_vendor_remote_button_down m in Ok (Some (VendorRemoteButtonDown (slice m p
        n))));
   (CEC_MSG_VENDOR_REMOTE_BUTTON_UP, fun m =>
    Ok (Some VendorRemoteButtonUp));
   (CEC_MSG_SET_OSD_STRING, fun m =>
    '(c, t) ← cec_ops_set_osd_string m (replicate 14 0); Ok (Some (SetOsdString c (before_nul t))));
   (CEC_MSG_SET_OSD_NAME, fun m =>
    t ← cec_ops_set_osd_name m (replicate 15 0); Ok (Some (SetOsdName (before_nul t))));
   (CEC_MSG_GIVE_OSD_NAME, fun m =>
    Ok (Some GiveOsdName));
   (CEC_MSG_MENU_STATUS, fun m =>
    Ok (Some (MenuStatus (cec_ops_menu_status m))));
   (CEC_MSG_MENU_REQUEST, fun m =>
    Ok (Some (MenuRequest (cec_ops_menu_request m))));
   (CEC_MSG_USER_CONTROL_PRESSED, fun m =>
    let u := cec_ops_user_control_pressed m (UiCommand 0 0 (replicate 6 0)) in
    Ok (Some (UserControlPressed (CecControl.ui_cmd u) (ui_arg_of u))));
   (CEC_MSG_USER_CONTROL_RELEASED, fun m =>
    Ok (Some UserControlReleased));
   (CEC_MSG_REPORT_POWER_STATUS, fun m =>
    Ok (Some (ReportPowerStatus (cec_ops_report_power_status m))));
   (CEC_MSG_GIVE_DEVICE_POWER_STATUS, fun m =>
    Ok (Some GiveDevicePowerStatus));
   (CEC_MSG_FEATURE_ABORT, fun m =>
    let '(abort_msg, reason) := cec_ops_feature_abort m in
    Ok (Some (FeatureAbort abort_msg reason)));
   (CEC_MSG_ABORT, fun m =>
    Ok (Some AbortMessage));
   (CEC_MSG_REPORT_AUDIO_STATUS, fun m =>
    let '(aud_mute_status, aud_vol_status) := cec_ops_report_audio_status m in
    Ok (Some (ReportAudioStatus aud_mute_status aud_vol_status)));
   (CEC_MSG_GIVE_AUDIO_STATUS, fun m =>
    Ok (Some GiveAudioStatus));
   (CEC_MSG_SET_SYSTEM_AUDIO_MODE, fun m =>
    Ok (Some (SetSystemAudioMode (cec_ops_set_system_audio_mode m))));
   (CEC_MSG_SYSTEM_AUDIO_MODE_REQUEST, fun m =>
    Ok (Some (SystemAudioModeRequest (cec_ops_system_audio_mode_request m))));
   (CEC_MSG_SYSTEM_AUDIO_MODE_STATUS, fun m =>
    Ok (Some (SystemAudioModeStatus (cec_ops_system_audio_mode_status m))));
   (CEC_MSG_GIVE_SYSTEM_AUDIO_MODE_STATUS, fun m =>
    Ok (Some GiveSystemAudioModeStatus));
   (CEC_MSG_REPORT_SHORT_AUDIO_DESCRIPTOR, fun m =>
    '(n, ds) ← cec_ops_report_short_audio_descriptor m (replicate 4 0);
    Ok (Some (ReportShortAudioDescriptor (take (Z.to_nat n) ds))));
   (CEC_MSG_REQUEST_SHORT_AUDIO_DESCRIPTOR, fun m =>
    '(n, ids, codes) ← cec_ops_request_short_audio_descriptor m (replicate 4 0) (replicate 4 0);
    Ok (Some (RequestShortAudioDescriptor (take (Z.to_nat n) (zip ids codes)))));
   (CEC_MSG_SET_AUDIO_RATE, fun m =>
    Ok (Some (SetAudioRate (cec_ops_set_audio_rate m))));
   (CEC_MSG_REPORT_ARC_INITIATED, fun m =>
    Ok (Some ReportArcInitiated));
   (CEC_MSG_INITIATE_ARC, fun m =>
    Ok (Some InitiateArc));
   (CEC_MSG_REQUEST_ARC_INITIATION, fun m =>
    Ok (Some RequestArcInitiation));
   (CEC_MSG_REPORT_ARC_TERMINATED, fun m =>
    Ok (Some ReportArcTerminated));
   (CEC_MSG_TERMINATE_ARC, fun m =>
    Ok (Some TerminateArc));
   (CEC_MSG_REQUEST_ARC_TERMINATION, fun m =>
    Ok (Some RequestArcTermination));
   (CEC_MSG_REPORT_CURRENT_LATENCY, fun m =>
    let '(phys_addr, video_latency, low_latency_mode, audio_out_compensated, audio_out_delay) :=
        cec_ops_report_current_latency m in
    Ok (Some (ReportCurrentLatency phys_addr video_latency low_latency_mode audio_out_compensated
        audio_out_delay)));
   (CEC_MSG_REQUEST_CURRENT_LATENCY, fun m =>
    Ok (Some (RequestCurrentLatency (cec_ops_request_current_latency m))));
   (CEC_MSG_CDC_MESSAGE, fun m =>
    receive_cdc m)].

(** A receiver: it looks at the opcode and decodes the operands. *)
Definition receive : decoder := fun m =>
  match assoc (cec_msg_opcode m) decoders with Some d => d m | None => Ok None end.

(** ** Ranges *)

Definition bits (n x : Z) : Prop := 0 <= x < 2 ^ n.
Definition two_digits (x : Z) : Prop := 0 <= x < 100.

(** An array of bytes whose size fits __u8, and a string without a
    terminator inside. *)
Definition bytes (l : list Z) : Prop := Forall (bits 8) l.
Definition text (l : list Z) : Prop := Forall (fun c => 0 < c < 256) l /\ zlen l < 2 ^ 32.

Definition service_in_range (s : service) : Prop :=
  match s with
  | ByChannel sys fmt ma mi => bits 7 sys /\ bits 6 fmt /\ bits 10 ma /\ bits 16 mi
  | ByAtsc sys t p => bits 7 sys /\ is_atsc sys = true /\ bits 16 t /\ bits 16 p
  | ByDvb sys t s o => bits 7 sys /\ is_atsc sys = false /\ bits 16 t /\ bits 16 s /\ bits 16 o
  end.

Definition source_in_range (s : rec_source) : Prop :=
  match s with
  | SrcOwn => True
  | SrcDigital s => service_in_range s
  | SrcAnalog t f b => bits 8 t /\ bits 16 f /\ bits 8 b
  | SrcPlug p => bits 8 p
  | SrcPhysAddr p => bits 16 p
  end.

Definition tuned_in_range (t : tuned) : Prop :=
  match t with
  | TunedDigital s => service_in_range s
  | TunedAnalog t f b => bits 8 t /\ bits 16 f /\ bits 8 b
  end.

Definition ui_in_range (c : Z) (a : ui_arg) : Prop :=
  match a with
  | NoArg => True
  | OneByte v => ui_one_byte c = true /\ bits 8 v
  | Channel f ma mi => c = 0x67 /\ bits 6 f /\ bits 10 ma /\ bits 16 mi
  end.

Definition timer_in_range (day month start_hr start_min duration_hr duration_min recording_seq : Z) : Prop :=
  bits 8 day /\ bits 8 month /\ two_digits start_hr /\ two_digits start_min /\
  two_digits duration_hr /\ two_digits duration_min /\ bits 8 recording_seq.

(** Each operand fits the bits its message has for it; an operand that is
    not transmitted has the value the decoder reports. *)
Definition in_range (c : cec_command) : Prop :=
  match c with
  | ActiveSource p | InactiveSource p | RoutingInformation p | SetStreamPath p
  | SystemAudioModeRequest p | RequestCurrentLatency p => bits 16 p
  | RoutingChange p q | CdcHecInquireState p q => bits 16 p /\ bits 16 q
  | RecordOn s => source_in_range s
  | TimerStatus ov mi pi pe dh dm =>
      bits 1 ov /\ bits 2 mi /\ bits 4 pi /\ bits 4 pe /\ (pi = 0 \/ pe = 0) /\
      two_digits dh /\ two_digits dm /\
      (timer_status_has_duration pi pe = false -> dh = 0 /\ dm = 0)
  | ClearAnalogueTimer d mo sh sm dh dm rs t f b | SetAnalogueTimer d mo sh sm dh dm rs t f b =>
      timer_in_range d mo sh sm dh dm rs /\ bits 8 t /\ bits 16 f /\ bits 8 b
  | ClearDigitalTimer d mo sh sm dh dm rs s | SetDigitalTimer d mo sh sm dh dm rs s =>
      timer_in_range d mo sh sm dh dm rs /\ service_in_range s
  | ClearExtTimer d mo sh sm dh dm rs e pl p | SetExtTimer d mo sh sm dh dm rs e pl p =>
      timer_in_range d mo sh sm dh dm rs /\ bits 8 e /\ bits 8 pl /\ bits 16 p
  | SetTimerProgramTitle s | SetOsdName s => text s
  | SetMenuLanguage s => text s /\ length s = 3%nat
  | SetOsdString c s => bits 8 c /\ text s
  | ReportPhysicalAddr p d => bits 16 p /\ bits 8 d
  | ReportFeatures v d rc dev => bits 8 v /\ bits 8 d /\ bits 7 rc /\ bits 8 dev
  | TunerDeviceStatus flag info t => bits 1 flag /\ bits 7 info /\ tuned_in_range t
  | SelectAnalogueService t f b => bits 8 t /\ bits 16 f /\ bits 8 b
  | SelectDigitalService s => service_in_range s
  | DeviceVendorId v => bits 24 v
  | VendorCommand l | VendorRemoteButtonDown l => bytes l /\ zlen l < 256
  | VendorCommandWithId v l => bits 24 v /\ bytes l /\ zlen l < 256
  | UserControlPressed c a => bits 8 c /\ ui_in_range c a
  | FeatureAbort op reason => bits 8 op /\ bits 8 reason
  | ReportAudioStatus mute vol => bits 1 mute /\ bits 7 vol
  | ReportShortAudioDescriptor ds => Forall (bits 24) ds /\ zlen ds < 256
  | RequestShortAudioDescriptor fs =>
      Forall (fun f => bits 2 f.1 /\ bits 6 f.2) fs /\ zlen fs < 256
  | ReportCurrentLatency p v low comp delay =>
      bits 16 p /\ bits 8 v /\ bits 1 low /\ bits 2 comp /\ bits 8 delay /\ (comp = 3 \/ delay = 0)
  | CdcHecReportState t hec host enc err has f =>
      bits 16 t /\ bits 2 hec /\ bits 2 host /\ bits 2 enc /\ bits 2 err /\ bits 1 has /\ bits 16 f /\
      (has = 1 \/ f = 0)
  | CdcHecSetState p1 p2 s p3 p4 p5 =>
      bits 16 p1 /\ bits 16 p2 /\ bits 8 s /\ bits 16 p3 /\ bits 16 p4 /\ bits 16 p5
  | CdcHecSetStateAdjacent p s => bits 16 p /\ bits 8 s
  | CdcHecRequestDeactivation p q r => bits 16 p /\ bits 16 q /\ bits 16 r
  | CdcHpdSetState p s | CdcHpdReportState p s => bits 4 p /\ bits 4 s
  | RecordStatus b | TimerClearedStatus b | CecVersion b | DeckControl b | DeckStatus b
  | GiveDeckStatus b | Play b | GiveTunerDeviceStatus b | MenuStatus b | MenuRequest b
  | ReportPowerStatus b | SetSystemAudioMode b | SystemAudioModeStatus b | SetAudioRate b => bits 8 b
  | _ => True
  end.

(** ** What arrives

    Strings and arrays are cut to the room in the message.  The decoders
    shift the two high bits of a major channel number by six instead of
    eight, report the host state as the state of the external network, and
    take a request to set the state for an inquiry. *)

Definition short_major (ma : Z) : Z := ((ma ≫ 8) ≪ 6) .| (ma .& 0xff).

Definition delivered_service (s : service) : service :=
  match s with
  | ByChannel sys fmt ma mi => ByChannel sys fmt (short_major ma) mi
  | _ => s
  end.

Definition delivered (c : cec_command) : cec_command :=
  match c with
  | RecordOn (SrcDigital s) => RecordOn (SrcDigital (delivered_service s))
  | ClearDigitalTimer d mo sh sm dh dm rs s => ClearDigitalTimer d mo sh sm dh dm rs (delivered_service s)
  | SetDigitalTimer d mo sh sm dh dm rs s => SetDigitalTimer d mo sh sm dh dm rs (delivered_service s)
  | TunerDeviceStatus flag info (TunedDigital s) => TunerDeviceStatus flag info (TunedDigital (delivered_service s))
  | SelectDigitalService s => SelectDigitalService (delivered_service s)
  | SetTimerProgramTitle s => SetTimerProgramTitle (take 14 s)
  | SetOsdName s => SetOsdName (take 14 s)
  | SetOsdString c s => SetOsdString c (take 13 s)
  | VendorCommand l => VendorCommand (take 14 l)
  | VendorRemoteButtonDown l => VendorRemoteButtonDown (take 14 l)
  | VendorCommandWithId v l => VendorCommandWithId v (take 11 l)
  | UserControlPressed c (Channel f ma mi) => UserControlPressed c (Channel f (short_major ma) mi)
  | ReportShortAudioDescriptor ds => ReportShortAudioDescriptor (take 4 ds)
  | RequestShortAudioDescriptor fs => RequestShortAudioDescriptor (take 4 fs)
  | CdcHecReportState t hec host enc err has f => CdcHecReportState t hec host host err has f
  | CdcHecSetState p1 p2 s p3 p4 p5 => CdcHecInquireState p1 p2
  | c => c
  end.
