(* ===== verification/CecFacts.v ===== *)
(** * CEC messages: bit fields, arrays and evaluation

    What the packed fields of a message give back, what the copies into and
    out of a message do, the type invariant [msg_typed], and the tactics
    that run a builder or a decoder on a message of sixteen bytes. *)

From stdpp Require Import base numbers list.
From Stdlib Require Import ZArith Lia.
From S2P Require Import Prelude CecTypes CecRecord CecControl CecAudio CecCommands.

#[local] Open Scope Z_scope.

(** ** Bit fields *)

Create HintDb cec.

Lemma land_ones_mask x k c : 0 <= k -> c = Z.ones k -> x .& c = x mod 2 ^ k.
Proof. intros ? ->. by apply Z.land_ones. Qed.

(** Turn shifts, masks and disjoint ors into arithmetic and decide it. *)
Ltac bit_arith :=
  unfold bits, two_digits, u8, u16, u32 in *;
  repeat match goal with
  | |- context [Z.land ?x 0xff] => rewrite (land_ones_mask x 8 0xff) by done
  | |- context [Z.land ?x 0x7f] => rewrite (land_ones_mask x 7 0x7f) by done
  | |- context [Z.land ?x 0x3f] => rewrite (land_ones_mask x 6 0x3f) by done
  | |- context [Z.land ?x 0xf] => rewrite (land_ones_mask x 4 0xf) by done
  | |- context [Z.land ?x 3] => rewrite (land_ones_mask x 2 3) by done
  | |- context [Z.land ?x 1] => rewrite (land_ones_mask x 1 1) by done
  end;
  rewrite ?Z.shiftr_div_pow2, ?Z.shiftl_mul_pow2 by done;
  rewrite <- ?Z.lor_assoc;
  repeat match goal with
  | |- context [Z.lor (?a * 2 ^ ?k) ?b] =>
      lazymatch b with context [Z.lor _ _] => fail | _ => idtac end;
      rewrite (lor_disjoint a b k) by (Z.div_mod_to_equations; lia)
  end;
  Z.div_mod_to_equations; lia.

Lemma u8_u8 x : u8 (u8 x) = u8 x.
Proof. bit_arith. Qed.

Lemma u8_bits x : bits 8 (u8 x).
Proof. bit_arith. Qed.

Lemma u8_id x : bits 8 x -> u8 x = x.
Proof. bit_arith. Qed.

Lemma u32_bits x : bits 32 (u32 x).
Proof. bit_arith. Qed.

(** A number in two or three bytes, most significant first. *)
Lemma be16 x : bits 16 x -> u16 ((u8 (x ≫ 8) ≪ 8) .| u8 (x .& 0xff)) = x.
Proof. bit_arith. Qed.

Lemma be24 x : bits 24 x ->
  u32 ((u8 (x ≫ 16) ≪ 16) .| (u8 ((x ≫ 8) .& 0xff) ≪ 8) .| u8 (x .& 0xff)) = x.
Proof. bit_arith. Qed.

Lemma be24_masked x : bits 24 x ->
  u32 ((u8 ((x ≫ 16) .& 0xff) ≪ 16) .| (u8 ((x ≫ 8) .& 0xff) ≪ 8) .| u8 (x .& 0xff)) = x.
Proof. bit_arith. Qed.

(** A number in two bytes of memory, least significant first. *)
Lemma le16_read x : bits 16 x -> u8 x .| (u8 (x ≫ 8) ≪ 8) = x.
Proof. rewrite Z.lor_comm. bit_arith. Qed.

(** Two decimal digits. *)
Lemma bcd x : two_digits x ->
  u8 ((u8 (((x / 10) ≪ 4) .| (x mod 10)) ≫ 4) * 10 + (u8 (((x / 10) ≪ 4) .| (x mod 10)) .& 0xf)) = x.
Proof. bit_arith. Qed.

(** Two fields in a byte. *)
Lemma high_field k a b : 0 <= k <= 8 -> bits (8 - k) a -> bits k b -> u8 (u8 ((a ≪ k) .| b) ≫ k) = a.
Proof.
  unfold bits, u8. intros Hk Ha Hb.
  assert (Hp : 2 ^ 8 = 2 ^ (8 - k) * 2 ^ k) by (rewrite <- Z.pow_add_r by lia; f_equal; lia).
  rewrite Z.shiftl_mul_pow2, Z.shiftr_div_pow2, lor_disjoint by lia.
  rewrite (Z.mod_small (a * 2 ^ k + b)) by nia.
  rewrite Z.div_add_l, (Z.div_small b), Z.add_0_r by lia. apply Z.mod_small. nia.
Qed.

Lemma low_field k c a b : 0 <= k <= 8 -> c = Z.ones k -> bits (8 - k) a -> bits k b ->
  u8 (u8 ((a ≪ k) .| b) .& c) = b.
Proof.
  unfold bits, u8. intros Hk Hc Ha Hb.
  assert (Hp : 2 ^ 8 = 2 ^ (8 - k) * 2 ^ k) by (rewrite <- Z.pow_add_r by lia; f_equal; lia).
  rewrite (land_ones_mask _ k) by (done || lia). rewrite Z.shiftl_mul_pow2, lor_disjoint by lia.
  rewrite (Z.mod_small (a * 2 ^ k + b)) by nia.
  rewrite Z.add_comm, Z.mod_add, (Z.mod_small b) by lia. apply Z.mod_small. nia.
Qed.

(** ** The types of the fields *)

Definition msg_typed (m : cec_msg) : Prop :=
  length (msg m) = CEC_MAX_MSG_SIZE /\ Forall (bits 8) (msg m) /\
  bits 64 (tx_ts m) /\ bits 64 (rx_ts m) /\ bits 32 (len m) /\ bits 32 (timeout m) /\
  bits 32 (sequence m) /\ bits 32 (flags m) /\ bits 8 (reply m) /\ bits 8 (rx_status m) /\
  bits 8 (tx_status m) /\ bits 8 (tx_arb_lost_cnt m) /\ bits 8 (tx_nack_cnt m) /\
  bits 8 (tx_low_drive_cnt m) /\ bits 8 (tx_error_cnt m).

(** The arrays a builder reads hold bytes, enough of them, and as many as
    the parameter for their size can say. *)
Definition typed_command (c : cec_command) : Prop :=
  match c with
  | SetTimerProgramTitle s | SetOsdName s | SetOsdString _ s => bytes s
  | SetMenuLanguage s => bytes s /\ (3 <= length s)%nat
  | VendorCommand l | VendorRemoteButtonDown l | VendorCommandWithId _ l => bytes l /\ zlen l < 256
  | ReportShortAudioDescriptor ds => zlen ds < 256
  | RequestShortAudioDescriptor fs => zlen fs < 256
  | _ => True
  end.

(** What a builder leaves alone. *)
Definition same_frame (m m' : cec_msg) : Prop :=
  tx_ts m' = tx_ts m /\ rx_ts m' = rx_ts m /\ timeout m' = timeout m /\ sequence m' = sequence m /\
  flags m' = flags m /\ rx_status m' = rx_status m /\ tx_status m' = tx_status m.

(** The header the command asks for. *)
Definition header (r : Z) (c : cec_command) (m m' : cec_msg) : Prop :=
  cec_msg_opcode m' = opcode c /\
  cec_msg_initiator m' = cec_msg_initiator m /\
  cec_msg_destination m' = (if broadcast c then CEC_LOG_ADDR_UNREGISTERED else cec_msg_destination m) /\
  reply m' = match answer c with Some a => ite r a 0 | None => reply m end /\
  same_frame m m'.

(** ** Evaluation *)

Lemma length16 {A} (l : list A) : length l = 16%nat ->
  exists a b c d e f g h i j k n o p q r, l = [a; b; c; d; e; f; g; h; i; j; k; n; o; p; q; r].
Proof.
  intros H. do 16 (destruct l as [|? l]; [discriminate|]). destruct l; [|discriminate].
  do 16 eexists. reflexivity.
Qed.

(** A typed message as its fields. *)
Ltac open_msg m H :=
  let Hl := fresh "Hl" in let Hb := fresh "Hb" in
  let f1 := fresh "tx" in let f2 := fresh "rx" in let f3 := fresh "l" in let f4 := fresh "tmo" in
  let f5 := fresh "sq" in let f6 := fresh "fl" in let f7 := fresh "bs" in let f8 := fresh "rp" in
  let f9 := fresh "rs" in let fa := fresh "ts" in let fb := fresh "ct" in let fc := fresh "ct" in
  let fd := fresh "ct" in let fe := fresh "ct" in
  destruct m as [f1 f2 f3 f4 f5 f6 f7 f8 f9 fa fb fc fd fe];
  destruct H as (Hl & Hb & ? & ? & ? & ? & ? & ? & ? & ? & ? & ? & ? & ? & ?);
  cbn [msg tx_ts rx_ts len timeout sequence flags reply rx_status tx_status tx_arb_lost_cnt
       tx_nack_cnt tx_low_drive_cnt tx_error_cnt] in *;
  apply length16 in Hl as (? & ? & ? & ? & ? & ? & ? & ? & ? & ? & ? & ? & ? & ? & ? & ? & ->);
  repeat (apply Forall_cons in Hb as [? Hb]); clear Hb.

Ltac is_pos p := lazymatch p with xH => idtac | xO ?q => is_pos q | xI ?q => is_pos q end.
Ltac is_const z := lazymatch z with Z0 => idtac | Zpos ?p => is_pos p | Zneg ?p => is_pos p end.

(** Evaluate conversions and tests of constants. *)
Ltac fold_consts :=
  repeat match goal with
  | |- context [u8 ?c] => is_const c; let v := eval vm_compute in (u8 c) in change (u8 c) with v
  | |- context [u32 ?c] => is_const c; let v := eval vm_compute in (u32 c) in change (u32 c) with v
  | |- context [ui_one_byte ?c] => is_const c;
      let v := eval vm_compute in (ui_one_byte c) in change (ui_one_byte c) with v
  | |- context [ite ?c ?a ?b] => is_const c;
      let v := eval cbv beta iota delta [ite Z.eqb] in (ite c a b) in change (ite c a b) with v
  | |- context [?a + ?b] => is_const a; is_const b;
      let v := eval vm_compute in (a + b) in change (a + b) with v
  | |- context [?a - ?b] => is_const a; is_const b;
      let v := eval vm_compute in (a - b) in change (a - b) with v
  | |- context [?a * ?b] => is_const a; is_const b;
      let v := eval vm_compute in (a * b) in change (a * b) with v
  | |- context [?a / ?b] => is_const a; is_const b;
      let v := eval vm_compute in (a / b) in change (a / b) with v
  | |- context [?a =? ?b] => is_const a; is_const b;
      let v := eval vm_compute in (a =? b) in change (a =? b) with v
  | |- context [?a <? ?b] => is_const a; is_const b;
      let v := eval vm_compute in (a <? b) in change (a <? b) with v
  | |- context [?a <=? ?b] => is_const a; is_const b;
      let v := eval vm_compute in (a <=? b) in change (a <=? b) with v
  end.

Ltac cec_cbv :=
  cbv -[u8 u16 u32 ite Z.lor Z.land Z.shiftl Z.shiftr Z.div Z.modulo Z.add Z.mul Z.sub Z.eqb Z.ltb
        Z.leb zlen is_atsc timer_status_has_duration ui_one_byte opcode broadcast answer
        copy_bytes cstrlen].

Ltac cec_eval := cec_cbv; repeat (progress fold_consts; cec_cbv).

(** [runs o P]: the statement ends, in a message with [P]. *)
Definition runs (o : res cec_msg) (P : cec_msg -> Prop) : Prop :=
  match o with Ok m => P m | Fault _ => False end.

Lemma runs_eq o o' P : o = o' -> runs o' P -> runs o P.
Proof. by intros ->. Qed.

Lemma runs_exists o P : runs o P -> exists m', o = Ok m' /\ P m'.
Proof. destruct o; simpl; [eauto | done]. Qed.

Ltac split_operands :=
  repeat match goal with
  | s : service |- _ => destruct s
  | s : tuned |- _ => destruct s
  | s : rec_source |- _ => destruct s
  | s : ui_arg |- _ => destruct s
  end.

Ltac split_tests :=
  repeat match goal with
  | |- context [?a =? ?b] => destruct (a =? b) eqn:?
  | |- context [is_atsc ?s] => destruct (is_atsc s) eqn:?
  | |- context [timer_status_has_duration ?i ?e] => destruct (timer_status_has_duration i e) eqn:?
  | |- context [ui_one_byte ?c] => destruct (ui_one_byte c) eqn:?
  end.

(** Run a builder on a message given by its fields: a test that is not
    decided by constants is split, and the rest is run in each case. *)
Ltac cec_step := eapply runs_eq; [cec_eval; reflexivity|].
Ltac cec_run := cec_step; split_tests; cec_step; cbn [runs].

(** ** What every builder does *)

Lemma lor_nibble b : b .| 0xf = ((b / 16) ≪ 4) .| 0xf.
Proof.
  apply Z.bits_inj'. intros n Hn. rewrite !Z.lor_spec, Z.shiftl_spec by done.
  change 0xf with (Z.ones 4). rewrite Z.testbit_ones_nonneg by lia.
  destruct (Z.ltb_spec n 4); [by rewrite !orb_true_r|]. rewrite !orb_false_r.
  change 16 with (2 ^ 4). rewrite Z.div_pow2_bits by lia. f_equal. lia.
Qed.

Lemma keep_initiator b : bits 8 b -> u8 (u8 (b .| 0xf) ≫ 4) = u8 (b ≫ 4).
Proof. rewrite lor_nibble. bit_arith. Qed.

Lemma make_broadcast b : bits 8 b -> u8 (u8 (b .| 0xf) .& 0xf) = 15.
Proof. rewrite lor_nibble. bit_arith. Qed.
