(* ===== verification/CecSend.v ===== *)
(** * CEC messages: every builder

    [sent_all]: each builder, on a message whose fields have their types,
    ends without a store outside the array, in a message whose fields have
    their types, of a length between 2 and 16, with the header the command
    asks for. *)

From stdpp Require Import base numbers list.
From Stdlib Require Import ZArith Lia.
From S2P Require Import Prelude CecTypes CecRecord CecControl CecAudio CecCommands CecFacts.

#[local] Open Scope Z_scope.

Definition sent (r : Z) (c : cec_command) (m m' : cec_msg) : Prop :=
  msg_typed m' /\ 2 <= len m' <= 16 /\ header r c m m'.

Lemma bits_const n c : (0 <=? c) && (c <? 2 ^ n) = true -> bits n c.
Proof. unfold bits. intros H. apply andb_true_iff in H as [?%Z.leb_le ?%Z.ltb_lt]. lia. Qed.

Lemma byte_ite c a : bits 8 a -> u8 (ite c a 0) = ite c a 0.
Proof. unfold ite. case_match; [done|]. apply u8_id. Qed.

Lemma sent_intro r c m bs l rp :
  msg_typed m -> length bs = 16%nat -> Forall (bits 8) bs -> 2 <= l <= 16 ->
  nth 1 bs 0 = opcode c -> u8 (nth 0 bs 0 ≫ 4) = cec_msg_initiator m ->
  u8 (nth 0 bs 0 .& 0xf) = (if broadcast c then 15 else cec_msg_destination m) ->
  rp = match answer c with Some a => u8 (ite r a 0) | None => reply m end ->
  sent r c m
    (CecMsg (tx_ts m) (rx_ts m) l (timeout m) (sequence m) (flags m) bs rp (rx_status m) (tx_status m)
       (tx_arb_lost_cnt m) (tx_nack_cnt m) (tx_low_drive_cnt m) (tx_error_cnt m)).
Proof.
  intros Hm Hlen Hb Hl Hop Hi Hd ->. pose proof Hm as (_ & _ & Hm').
  assert (Hr : bits 8 (match answer c with Some a => u8 (ite r a 0) | None => reply m end)).
  { destruct (answer c); [apply u8_bits | tauto]. }
  split; [|split; [done|]].
  - split; [done|]. split; [done|]. unfold bits in *. cbn. intuition lia.
  - split; [|split; [done|split; [done|split]]].
    + unfold cec_msg_opcode. cbn [len].
      by rewrite (proj2 (Z.ltb_lt 1 l)) by lia.
    + cbn. destruct c; cbn; try done; by apply byte_ite, bits_const.
    + by repeat split.
Qed.

(** ** Copies into a message *)

Lemma cstrlen_ok s : exists n, cstrlen (s ++ [0]) = Ok n /\ 0 <= n <= zlen s.
Proof.
  induction s as [|c s (n & Hn & Hb)]; simpl; [by exists 0|]. rewrite zlen_cons.
  case_match; [exists 0; split; [done|lia]|]. rewrite Hn. exists (1 + n). split; [done|lia].
Qed.

Lemma copy_bytes_ok off src n m :
  (Z.to_nat n <= length src)%nat -> (off + Z.to_nat n <= length (msg m))%nat ->
  copy_bytes off src n m =
    Ok (with_msg m (take off (msg m) ++ take (Z.to_nat n) src ++ drop (off + Z.to_nat n) (msg m))).
Proof.
  intros H1 H2. unfold copy_bytes, memcpy.
  by rewrite (proj2 (Nat.leb_le _ _) H1), (proj2 (Nat.leb_le _ _) H2).
Qed.

(** The array after the copy of [k] bytes to offset [off]. *)
Definition patched (off k : nat) (src l : list Z) : list Z :=
  take off l ++ take k src ++ drop (off + k) l.

Lemma length_patched off k src l :
  (k <= length src)%nat -> (off + k <= length l)%nat -> length (patched off k src l) = length l.
Proof. intros. unfold patched. rewrite !length_app, !length_take, length_drop. lia. Qed.

Lemma bytes_patched off k src l : Forall (bits 8) l -> bytes src -> Forall (bits 8) (patched off k src l).
Proof.
  intros. unfold patched. apply Forall_app. split; [by apply Forall_take|].
  apply Forall_app. split; [by apply Forall_take | by apply Forall_drop].
Qed.

(** ** Proof steps *)

Ltac byte := first [assumption | apply u8_bits | apply u32_bits | apply bits_const; reflexivity].
Ltac bytes_tac := repeat (apply Forall_cons; split; [byte|]); by apply Forall_nil.

(** The header and the types of a message given by its fields. *)
Ltac sent_tac H :=
  eapply (sent_intro _ _ _ _ _ _ H);
    [ reflexivity | bytes_tac
    | first [lia | unfold ite; case_match; by vm_compute]
    | reflexivity
    | first [reflexivity | by apply keep_initiator]
    | first [reflexivity | by apply make_broadcast]
    | reflexivity ].

(** The same after a copy of at most [max] bytes to an offset of 2 or more. *)
Ltac copy_tac H :=
  cec_step; cbn [runs];
  rewrite copy_bytes_ok by (cbn [msg length]; lia); cbn [runs msg];
  match goal with |- context [take ?off ?l ++ take ?k ?src ++ drop _ ?l] =>
    fold (patched off k src l) end;
  cbv beta iota delta [with_msg tx_ts rx_ts len timeout sequence flags reply rx_status tx_status tx_arb_lost_cnt
       tx_nack_cnt tx_low_drive_cnt tx_error_cnt];
  eapply (sent_intro _ _ _ _ _ _ H);
    [ rewrite length_patched; [reflexivity | lia | cbn [length]; lia]
    | apply bytes_patched; [bytes_tac | done]
    | rewrite ?u32_small by lia; lia
    | reflexivity
    | first [reflexivity | by apply keep_initiator]
    | first [reflexivity | by apply make_broadcast]
    | reflexivity ].

(** The size of a copy: the array's, at most [max]. *)
Lemma capped_size (max n : Z) (l : list Z) : 0 <= max -> 0 <= n <= zlen l ->
  exists k, (if max <? n then max else n) = k /\ 0 <= k <= max /\ (Z.to_nat k <= length l)%nat.
Proof. intros. eexists. split; [reflexivity|]. unfold zlen in *. zbool; lia. Qed.

Lemma bytes_nul s : bytes s -> bytes (s ++ [0]).
Proof. intros. apply Forall_app. split; [done|]. bytes_tac. Qed.

Lemma string_size max s : 0 <= max -> exists n k, cstrlen (s ++ [0]) = Ok n /\
  (if max <? u32 n then max else u32 n) = k /\ 0 <= k <= max /\ (Z.to_nat k <= length (s ++ [0%Z]))%nat.
Proof.
  intros Hmax. destruct (cstrlen_ok s) as (n & Hn & Hr). exists n.
  destruct (capped_size max (u32 n) (s ++ [0])) as (k & ? & ? & ?); [done | | by exists k].
  rewrite zlen_app. pose proof (zlen_nonneg [0]). unfold u32. pose proof (Z.mod_le n (2 ^ 32)).
  pose proof (Z.mod_pos_bound n (2 ^ 32)). lia.
Qed.

(** The number of elements of an array, at most four. *)
Lemma capped4 {A} (l : list A) : (if 4 <? zlen l then 4 else zlen l) = zlen (take 4 l).
Proof. unfold zlen. rewrite length_take. zbool; lia. Qed.

(** A string of at most [max] characters. *)
Tactic Notation "string_tac" constr(H) constr(s) constr(max) :=
  let n := fresh "n" in let k := fresh "k" in let E1 := fresh in let E2 := fresh in
  destruct (string_size max s) as (n & k & E1 & E2 & ? & ?); [done|]; cbn [send];
  unfold cec_msg_set_timer_program_title, cec_msg_set_osd_name, cec_msg_set_osd_string, with_result;
  rewrite E1, bind_ok, E2; pose proof (bytes_nul s ltac:(done)); clear E1 E2;
  generalize dependent (s ++ [0]); intros; copy_tac H.

(** An array of at most [max] bytes. *)
Tactic Notation "array_tac" constr(H) constr(l) constr(max) :=
  let k := fresh "k" in let E := fresh in
  destruct (capped_size max (zlen l) l) as (k & E & ? & ?); [done | pose proof (zlen_nonneg l); lia |];
  cbn [send];
  unfold cec_msg_vendor_command, cec_msg_vendor_command_with_id, cec_msg_vendor_remote_button_down;
  rewrite E; copy_tac H.

(** Lengths of lists given by their elements. *)
Ltac fold_lengths :=
  repeat match goal with |- context [zlen ?l] =>
    let v := eval vm_compute in (zlen l) in change (zlen l) with v end.

(** At most four descriptors, one by one. *)
Ltac four l := destruct l as [|? [|? [|? [|? ?]]]].

Ltac descriptors_tac H :=
  cbn [send]; unfold cec_msg_report_short_audio_descriptor, cec_msg_request_short_audio_descriptor;
  rewrite capped4; cbn [take];
  fold_lengths;
  cec_run; sent_tac H.

(** ** Every builder *)

Lemma sent_all r c m : typed_command c -> msg_typed m -> runs (send r c m) (sent r c m).
Proof.
  intros Hc H. pose proof H as H'. open_msg m H.
  destruct c; split_operands; cbn [typed_command] in Hc; try (cec_run; sent_tac H').
  - string_tac H' title 14.
  - destruct Hc. copy_tac H'.
  - destruct Hc. array_tac H' cmd 14.
  - destruct Hc. array_tac H' cmd 11.
  - destruct Hc. array_tac H' code 14.
  - string_tac H' osd 13.
  - string_tac H' name 14.
  - four ds; descriptors_tac H'.
  - four fs; descriptors_tac H'.
Qed.
