(* ===== verification/CecReceive.v ===== *)
(** * CEC messages: what the receiver gets

    [received_all]: the receiver of a message that a builder filled in
    decodes the command that was sent, as [delivered] describes it. *)

From stdpp Require Import base numbers list.
From Stdlib Require Import ZArith Lia.
From S2P Require Import Prelude CecTypes CecRecord CecControl CecAudio CecCommands CecFacts CecSend.

#[local] Open Scope Z_scope.

(** The decoder of the opcode decides. *)
Lemma receive_at m d : assoc (cec_msg_opcode m) decoders = Some d -> receive m = d m.
Proof. intros H. unfold receive. by rewrite H. Qed.

Lemma receive_cdc_at m d : assoc m.[4] cdc_decoders = Some d -> receive_cdc m = d m.
Proof. intros H. unfold receive_cdc. by rewrite H. Qed.

(** ** Services *)

(** The seven bytes of a service. *)
Definition service_bytes (s : service) : list Z :=
  match s with
  | ByChannel sys fmt ma mi =>
      [(1 ≪ 7) .| sys; (fmt ≪ 2) .| (ma ≫ 8); ma .& 0xff; mi ≫ 8; mi .& 0xff; 0; 0]
  | ByAtsc sys t p => [(0 ≪ 7) .| sys; t ≫ 8; t .& 0xff; p ≫ 8; p .& 0xff; 0; 0]
  | ByDvb sys t s o => [(0 ≪ 7) .| sys; t ≫ 8; t .& 0xff; s ≫ 8; s .& 0xff; o ≫ 8; o .& 0xff]
  end.

Definition service_byte (s : service) (i : nat) : Z := nth i (service_bytes s) 0.

Definition put_service (p : nat) (s : service) : stmt :=
  seq_stmt (set_byte p (service_byte s 0)) (seq_stmt (set_byte (p + 1) (service_byte s 1))
  (seq_stmt (set_byte (p + 2) (service_byte s 2)) (seq_stmt (set_byte (p + 3) (service_byte s 3))
  (seq_stmt (set_byte (p + 4) (service_byte s 4)) (seq_stmt (set_byte (p + 5) (service_byte s 5))
  (set_byte (p + 6) (service_byte s 6))))))).

Ltac open_ranges :=
  unfold timer_in_range, text in *; repeat match goal with H : _ /\ _ |- _ => destruct H end.

Lemma bits_mono j k x : j <= k -> bits j x -> bits k x.
Proof. unfold bits. intros Hk Hx. pose proof (Z.pow_le_mono_r 2 j k). lia. Qed.

Ltac bits_tac := solve [assumption | eapply bits_mono; [|eassumption]; lia].

Lemma set_service p s : service_in_range s ->
  cec_set_digital_service_id p (digital_of s) = put_service p s.
Proof.
  destruct s; cbn [service_in_range]; intros; open_ranges;
    unfold cec_set_digital_service_id, put_service, service_byte, service_id_method, dig_bcast_system,
      digital_channel, channel_number_fmt, CecRecord.major, CecRecord.minor, atsc_transport_id,
      atsc_program_number, dvb_transport_id, dvb_service_id, dvb_orig_network_id, get, get16;
    cbn [digital_of le16 app drop nth service_bytes]; rewrite ?le16_read, ?u8_id by bits_tac;
    cbn [Z.eqb CEC_OP_SERVICE_ID_METHOD_BY_CHANNEL Pos.eqb].
  - reflexivity.
  - by rewrite H0.
  - by rewrite H0.
Qed.

(** A 16-bit number written as two bytes of a structure reads as itself. *)
Lemma le16_u16 x : u8 x .| (u8 (x ≫ 8) ≪ 8) = u16 x.
Proof. rewrite Z.lor_comm. bit_arith. Qed.

Lemma u16_id x : bits 16 x -> u16 x = x.
Proof. bit_arith. Qed.

Lemma service_method a sys : bits 1 a -> bits 7 sys -> u8 (u8 ((a ≪ 7) .| sys) ≫ 7) = a.
Proof. intros. by apply high_field; [lia | |]. Qed.

Lemma service_system a sys : bits 1 a -> bits 7 sys -> u8 (u8 ((a ≪ 7) .| sys) .& 0x7f) = sys.
Proof. intros. by apply low_field; [lia | done | |]. Qed.

Lemma channel_fmt fmt ma : bits 6 fmt -> bits 10 ma -> u8 (u8 ((fmt ≪ 2) .| (ma ≫ 8)) ≫ 2) = fmt.
Proof. intros. apply high_field; [lia | done | bit_arith]. Qed.

Lemma bits_lor k a b : 0 <= k -> bits k a -> bits k b -> bits k (a .| b).
Proof.
  unfold bits. intros Hk Ha Hb.
  rewrite <- (Z.mod_small a (2 ^ k)), <- (Z.mod_small b (2 ^ k)), <- !Z.land_ones by done.
  rewrite <- Z.land_lor_distr_l, Z.land_ones by done. apply Z.mod_pos_bound. lia.
Qed.

Lemma channel_major fmt ma : bits 6 fmt -> bits 10 ma ->
  u16 (((u8 ((fmt ≪ 2) .| (ma ≫ 8)) .& 3) ≪ 6) .| u8 (ma .& 0xff)) = short_major ma.
Proof.
  intros. assert (u8 ((fmt ≪ 2) .| (ma ≫ 8)) .& 3 = ma ≫ 8) as -> by bit_arith.
  unfold short_major. rewrite u8_id by bit_arith. apply u16_id, bits_lor; [lia | bit_arith..].
Qed.

(** What the decoder makes of them, wherever they stand in a message. *)
Lemma get_service l p s : service_in_range s ->
  (forall i, (i < 7)%nat -> l !! (p + i)%nat = Some (u8 (service_byte s i))) ->
  exists d, cec_get_digital_service_id l p (replicate 8 0) = Ok d /\ service_of d = delivered_service s.
Proof.
  intros Hs Hl. unfold cec_get_digital_service_id, load.
  pose proof (Hl 0%nat ltac:(lia)) as Hl0. rewrite Nat.add_0_r in Hl0.
  rewrite Hl0, !Hl by lia. cbn [lift_opt]. rewrite !bind_ok.
  unfold set_service_id_method, set_dig_bcast_system, set_digital_channel_number_fmt, set_digital_major,
    set_digital_minor, set_dvb_transport_id, set_dvb_service_id, set_dvb_orig_network_id, set8, set16.
  cbn [replicate insert list_insert alter]. unfold service_id_method, get. cbn [nth].
  destruct s; cbn [service_in_range] in Hs; open_ranges; unfold service_byte; cbn [service_bytes nth];
    rewrite ?service_method, ?service_system by (assumption || done);
    eexists; (split; [reflexivity|]); unfold service_of, service_id_method, dig_bcast_system,
      digital_channel, channel_number_fmt, CecRecord.major, CecRecord.minor, atsc_transport_id,
      atsc_program_number, dvb_transport_id, dvb_service_id, dvb_orig_network_id, get, get16;
    cbn [nth drop Z.eqb Pos.eqb CEC_OP_SERVICE_ID_METHOD_BY_CHANNEL delivered_service];
    rewrite ?le16_u16, ?be16 by bits_tac.
  - by rewrite channel_fmt, channel_major by done.
  - by rewrite H0.
  - by rewrite H0.
Qed.

(** ** Proof steps *)

(** The command arrives as [delivered] describes it. *)
Definition arrives (r : Z) (c : cec_command) (m : cec_msg) : Prop :=
  runs (send r c m) (fun m' => receive m' = Ok (Some (delivered c))).

(** Find the decoder and run it. *)
Ltac dispatch :=
  etransitivity; [apply receive_at; reflexivity|];
  try (etransitivity; [apply receive_cdc_at; reflexivity|]);
  etransitivity; [cec_eval; reflexivity|].

(** One operand. *)
Ltac field :=
  rewrite ?u8_u8;
  first [ reflexivity | by apply u8_id | by apply be16 | by apply be24 | by apply be24_masked
        | by apply bcd
        | apply high_field; [lia | assumption | assumption]
        | apply low_field; [lia | reflexivity | assumption | assumption]
        | by apply le16_read ].

Ltac fields :=
  cbn [delivered delivered_service]; f_equal; f_equal; f_equal; try field.

(** ** Commands with a service *)

Ltac service_cbv :=
  cbv -[u8 u16 u32 ite Z.lor Z.land Z.shiftl Z.shiftr Z.div Z.modulo Z.add Z.mul Z.sub Z.eqb
        cec_set_digital_service_id digital_of cec_get_digital_service_id service_of replicate
        delivered_service].
Ltac service_eval := service_cbv; repeat (progress fold_consts; service_cbv).

Ltac service_tac s :=
  let f := fresh "f" in let Hf := fresh "Hf" in let d := fresh "d" in let E := fresh "E" in
  let Hd := fresh "Hd" in
  unfold arrives; eapply runs_eq; [service_eval; rewrite set_service by done; reflexivity|];
  remember (service_byte s) as f eqn:Hf; unfold put_service; rewrite <- Hf; cec_step; cbn [runs];
  (etransitivity; [apply receive_at; reflexivity|]); service_eval;
  match goal with |- context [cec_get_digital_service_id ?l ?p ?z] =>
    destruct (get_service l p s) as (d & E & Hd); [done | | change z with (replicate 8 0); rewrite E]
  end;
  [ intros i Hi; rewrite <- Hf; do 7 (destruct i as [|i]; [reflexivity|]); lia
  | service_eval; rewrite Hd ].

Lemma arrives_service r c m :
  match c with
  | SelectDigitalService _ | RecordOn (SrcDigital _) | TunerDeviceStatus _ _ (TunedDigital _)
  | ClearDigitalTimer _ _ _ _ _ _ _ _ | SetDigitalTimer _ _ _ _ _ _ _ _ => True
  | _ => False
  end -> in_range c -> msg_typed m -> arrives r c m.
Proof.
  intros Hk Hc H. open_msg m H.
  destruct c; try done;
    repeat match goal with x : rec_source |- _ => destruct x | x : tuned |- _ => destruct x end;
    try done; clear Hk;
    cbn [in_range source_in_range tuned_in_range] in Hc; open_ranges;
    match goal with s : service |- _ => service_tac s end; fields.
Qed.

(** ** Commands whose operands stand side by side *)

(** The commands that need an argument of their own below or above. *)
Definition plain (c : cec_command) : Prop :=
  match c with
  | RecordOn _ | TimerStatus _ _ _ _ _ _ | ClearDigitalTimer _ _ _ _ _ _ _ _
  | SetDigitalTimer _ _ _ _ _ _ _ _ | SetTimerProgramTitle _ | SetMenuLanguage _
  | ReportFeatures _ _ _ _ | TunerDeviceStatus _ _ _ | SelectDigitalService _
  | VendorCommand _ | VendorCommandWithId _ _ | VendorRemoteButtonDown _ | SetOsdString _ _
  | SetOsdName _ | UserControlPressed _ _ | ReportAudioStatus _ _ | SystemAudioModeRequest _
  | ReportShortAudioDescriptor _ | RequestShortAudioDescriptor _ | ReportCurrentLatency _ _ _ _ _
  | CdcHecReportState _ _ _ _ _ _ _ => False
  | _ => True
  end.

Lemma arrives_plain r c m : plain c -> in_range c -> msg_typed m -> arrives r c m.
Proof.
  intros Hk Hc H. open_msg m H. destruct c; try done; clear Hk; cbn [in_range] in Hc; open_ranges;
    unfold arrives; cec_run; dispatch; fields.
Qed.
