(* ===== verification/CecArrive.v ===== *)
(** * CEC messages: strings, arrays and mixed operands

    The commands whose operands share a byte, are optional, or are strings,
    arrays or feature bytes; [received_all] puts them together with the
    commands of [CecReceive]. *)

From stdpp Require Import base numbers list.
From Stdlib Require Import ZArith Lia.
From S2P Require Import Prelude CecTypes CecRecord CecControl CecAudio CecCommands CecFacts CecSend.
From S2P Require Import CecReceive.

#[local] Open Scope Z_scope.

(** ** Proof steps *)

Ltac open_arrival :=
  let H := fresh "H" in let Hc := fresh "Hc" in intros Hc H;
  match type of H with msg_typed ?m => open_msg m H end;
  cbn [in_range source_in_range tuned_in_range ui_in_range] in Hc; open_ranges; unfold arrives.

Ltac rerun := etransitivity; [cec_eval; reflexivity|].
Ltac norm :=
  repeat match goal with
  | |- context [u8 (u8 ?x)] => rewrite (u8_u8 x)
  | H : bits _ ?x |- context [u8 ?x] => rewrite (u8_id x) by bits_tac
  | H : bits _ ?x |- context [u16 ?x] => rewrite (u16_id x) by bits_tac
  | |- context [u8 ?x .| (u8 (?x ≫ 8) ≪ 8)] => rewrite (le16_u16 x)
  | H : bits _ ?x |- context [u16 ((u8 (?x ≫ 8) ≪ 8) .| u8 (?x .& 0xff))] => rewrite (be16 x) by bits_tac
  end.
Lemma mask_id k c x : 0 <= k -> c = Z.ones k -> bits k x -> x .& c = x.
Proof. intros ? Hc ?. rewrite (land_ones_mask _ k) by done. by apply Z.mod_small. Qed.

(** ** Operands that share a byte or are optional *)

Lemma arrives_record r s m :
  match s with SrcDigital _ => False | _ => True end ->
  in_range (RecordOn s) -> msg_typed m -> arrives r (RecordOn s) m.
Proof.
  intros Hk. destruct s; try done; open_arrival; cec_run; dispatch; norm; reflexivity.
Qed.

Lemma arrives_tuner r a b t f s m :
  in_range (TunerDeviceStatus a b (TunedAnalog t f s)) -> msg_typed m ->
  arrives r (TunerDeviceStatus a b (TunedAnalog t f s)) m.
Proof.
  open_arrival; cec_run; dispatch; norm; fields.
Qed.

Lemma arrives_ui r c a m :
  in_range (UserControlPressed c a) -> msg_typed m -> arrives r (UserControlPressed c a) m.
Proof.
  destruct a; open_arrival.
  - cec_run; dispatch; fields.
  - match goal with H : ui_one_byte c = true |- _ => rename H into Hone end.
    cec_step. rewrite Hone. cec_step. cbn [runs]. dispatch. rewrite !u8_u8, (u8_id c), Hone by done.
    rerun. norm. by rewrite Hone.
  - subst. cec_step. cec_step. cbn [runs]. dispatch. norm.
    by rewrite channel_fmt, channel_major by bits_tac.
Qed.

Lemma arrives_audio r a b m :
  in_range (ReportAudioStatus a b) -> msg_typed m -> arrives r (ReportAudioStatus a b) m.
Proof. open_arrival. cec_run. dispatch. rewrite !(mask_id 7 127 b) by done. fields. Qed.

Lemma arrives_audio_mode r p m :
  in_range (SystemAudioModeRequest p) -> msg_typed m -> arrives r (SystemAudioModeRequest p) m.
Proof. open_arrival. cec_run; dispatch; fields. by apply Z.eqb_eq in Heqb. Qed.

Lemma arrives_latency r a v c d e m :
  in_range (ReportCurrentLatency a v c d e) -> msg_typed m -> arrives r (ReportCurrentLatency a v c d e) m.
Proof.
  open_arrival.
  assert (Hlow : u8 ((u8 ((c ≪ 2) .| d) ≫ 2) .& 1) = c) by bit_arith.
  assert (Hcomp : u8 (u8 ((c ≪ 2) .| d) .& 3) = d) by bit_arith.
  cec_run; dispatch; rewrite Hlow, Hcomp, Heqb; fields.
  apply Z.eqb_neq in Heqb. intuition lia.
Qed.

Lemma arrives_hec_report r t hec host enc err has f m :
  in_range (CdcHecReportState t hec host enc err has f) -> msg_typed m ->
  arrives r (CdcHecReportState t hec host enc err has f) m.
Proof.
  open_arrival.
  assert (has = 0 \/ has = 1) as [-> | ->] by (unfold bits in *; lia); cec_step; cbn [runs]; dispatch; fields.
  all: bit_arith.
Qed.
Lemma land_bit x k : 0 <= k -> x .& 2 ^ k = ((x / 2 ^ k) mod 2) * 2 ^ k.
Proof.
  intros Hk. apply Z.bits_inj'. intros n Hn. rewrite Z.land_spec, Z.pow2_bits_eqb by done.
  destruct (Z.eqb_spec k n) as [->|Hne].
  - rewrite andb_true_r, Z.mul_pow2_bits, Z.sub_diag by done.
    rewrite (Z.mod_pow2_bits_low _ 1) by lia. rewrite Z.div_pow2_bits by lia. f_equal; lia.
  - rewrite andb_false_r. destruct (Z.lt_ge_cases n k).
    + by rewrite Z.mul_pow2_bits_low by lia.
    + rewrite Z.mul_pow2_bits by lia. by rewrite (Z.mod_pow2_bits_high _ 1) by lia.
Qed.

Lemma timer_byte a b f v : bits 1 a -> bits 2 b -> bits 1 f -> bits 4 v ->
  u8 ((a ≪ 7) .| (b ≪ 5) .| (f * 16) .| v) = a * 128 + b * 32 + f * 16 + v.
Proof. intros. change 16 with (2 ^ 4). bit_arith. Qed.


(** The byte of the four indicators: [flag] says whether [v] is a programmed
    info or an error. *)
Lemma ops_timer_status a mi pi pe dh dm m : in_range (TimerStatus a mi pi pe dh dm) ->
  m.[2] = u8 ((a ≪ 7) .| (mi ≪ 5) .| ite pi 0x10 0 .| ite pi pi pe) ->
  cec_ops_timer_status m =
    (a, mi, pi, pe,
     if timer_status_has_duration pi pe then u8 ((m.[3] ≫ 4) * 10 + (m.[3] .& 0xf)) else 0,
     if timer_status_has_duration pi pe then u8 ((m.[4] ≫ 4) * 10 + (m.[4] .& 0xf)) else 0).
Proof.
  cbn [in_range]. intros Hr Hb. open_ranges. unfold cec_ops_timer_status. rewrite Hb.
  set (flag := if pi =? 0 then 0 else 1). set (v := if pi =? 0 then pe else pi).
  assert (Hv : bits 1 flag /\ bits 4 v) by (unfold flag, v; zbool; split; (done || by unfold bits)).
  destruct Hv as [Hf Hv].
  assert (u8 ((a ≪ 7) .| (mi ≪ 5) .| ite pi 0x10 0 .| ite pi pi pe)
          = a * 128 + mi * 32 + flag * 16 + v) as ->.
  { rewrite <- timer_byte by done. unfold ite, flag, v. by zbool. }
  assert ((a * 128 + mi * 32 + flag * 16 + v) .& 0x10 = flag * 16) as ->.
  { change 0x10 with (2 ^ 4). rewrite land_bit by done. bit_arith. }
  assert (u8 ((a * 128 + mi * 32 + flag * 16 + v) ≫ 7) = a) as -> by bit_arith.
  assert (u8 (((a * 128 + mi * 32 + flag * 16 + v) ≫ 5) .& 3) = mi) as -> by bit_arith.
  assert (u8 ((a * 128 + mi * 32 + flag * 16 + v) .& 0xf) = v) as -> by bit_arith.
  assert ((if negb (flag * 16 =? 0) then (v, 0) else (0, v)) = (pi, pe)) as ->.
  { unfold flag, v. destruct (Z.eqb_spec pi 0); cbn; [by subst|]. f_equal. intuition lia. }
  by destruct (timer_status_has_duration pi pe).
Qed.

Lemma arrives_timer_status r a mi pi pe dh dm m :
  in_range (TimerStatus a mi pi pe dh dm) -> msg_typed m -> arrives r (TimerStatus a mi pi pe dh dm) m.
Proof.
  intros Hr. pose proof Hr as Hr'. revert Hr. open_arrival.
  destruct (timer_status_has_duration pi pe) eqn:E; cec_step; rewrite E; cec_step; cbn [runs];
    (etransitivity; [apply receive_at; reflexivity|]); cbv beta;
    rewrite (ops_timer_status a mi pi pe dh dm) by done; rewrite E; fields.
  all: match goal with H : _ = _ -> _ /\ _ |- _ => by destruct (H eq_refl) end.
Qed.

(** ** Strings and arrays *)

Lemma receive_long m d : 1 < len m -> assoc m.[1] decoders = Some d -> receive m = d m.
Proof.
  intros Hl Hd. apply receive_at. unfold cec_msg_opcode.
  by rewrite (proj2 (Z.ltb_lt 1 (len m))) by done.
Qed.

Lemma drop_patched off k src l : (off <= length l)%nat ->
  drop off (patched off k src l) = take k src ++ drop (off + k) l.
Proof. intros. unfold patched. rewrite drop_app_length'; [done|]. rewrite length_take. lia. Qed.

Lemma slice_patched off k src l : (off <= length l)%nat -> (k <= length src)%nat ->
  take k (drop off (patched off k src l)) = take k src.
Proof. intros. rewrite drop_patched by done. rewrite take_app_length'; [done|]. rewrite length_take. lia. Qed.

Lemma cstrlen_text s : text s -> cstrlen (s ++ [0]) = Ok (zlen s).
Proof.
  intros [Hs _]. induction Hs as [|c s Hc Hs IH]; [done|]. simpl.
  rewrite (proj2 (Z.eqb_neq c 0)) by lia. by rewrite IH, zlen_cons.
Qed.

Lemma before_nul_app s t : Forall (fun c => 0 < c < 256) s -> before_nul (s ++ 0 :: t) = s.
Proof.
  induction 1 as [|c s Hc Hs IH]; [done|]. simpl. rewrite (proj2 (Z.eqb_neq c 0)) by lia. by rewrite IH.
Qed.

(** A copy of [t] into a caller's array, terminated. *)
Lemma text_out t rest buf : Forall (fun c => 0 < c < 256) t -> (length t < length buf)%nat ->
  exists b, (b ← memcpy buf 0 (t ++ rest) (length t); store b (length t) 0) = Ok b /\ before_nul b = t.
Proof.
  intros Ht Hl. unfold memcpy, store. rewrite length_app.
  rewrite (proj2 (Nat.leb_le _ _)), (proj2 (Nat.leb_le (0 + _) _)) by lia. cbn [andb]. rewrite bind_ok.
  rewrite take_0, app_nil_l, take_app_length, length_app, length_drop, (proj2 (Nat.ltb_lt _ _)) by lia.
  eexists. split; [reflexivity|]. rewrite insert_app_r_alt, Nat.sub_diag by done.
  destruct (drop (0 + length t) buf) as [|z zs] eqn:E.
  - apply (f_equal length) in E. rewrite length_drop in E. simpl in E. lia.
  - by apply before_nul_app.
Qed.

Lemma text_bytes s : text s -> bytes s.
Proof. intros [Hs _]. eapply Forall_impl; [exact Hs|]. unfold bits. simpl. lia. Qed.

Lemma text_cap max s : text s -> 0 <= max ->
  (if max <? u32 (zlen s) then max else u32 (zlen s)) = zlen (take (Z.to_nat max) s).
Proof.
  intros [_ Hs] Hm. rewrite u32_small by (pose proof (zlen_nonneg s); lia).
  unfold zlen. rewrite length_take. zbool; lia.
Qed.

Lemma take_text n s : text s -> text (take n s).
Proof.
  intros [H1 H2]. split; [by apply Forall_take|]. unfold zlen in *. rewrite length_take. lia.
Qed.

(** The part the decoders of strings share. *)
Definition text_of (m : cec_msg) (off max : Z) (buf : list Z) : res (list Z) :=
  let len := if off <? len m then u32 (len m - off) else 0 in
  let len := if max <? len then max else len in
  b ← memcpy buf 0 (drop (Z.to_nat off) (msg m)) (Z.to_nat len); store b (Z.to_nat len) 0.

Lemma text_of_ok m off max buf t rest :
  drop (Z.to_nat off) (msg m) = t ++ rest -> len m = off + zlen t -> 0 <= off -> zlen t <= max < 2 ^ 32 ->
  Forall (fun c => 0 < c < 256) t -> (length t < length buf)%nat ->
  exists b, text_of m off max buf = Ok b /\ before_nul b = t.
Proof.
  intros Hd Hl Ho Hm Ht Hb. unfold text_of. rewrite Hd, Hl. pose proof (zlen_nonneg t).
  replace (if off <? off + zlen t then u32 (off + zlen t - off) else 0) with (zlen t).
  2:{ zbool; [|lia]. rewrite u32_small; lia. }
  replace (if max <? zlen t then max else zlen t) with (zlen t) by (zbool; lia).
  unfold zlen. rewrite Nat2Z.id. by apply text_out.
Qed.

(** A string's copy is the text that fits. *)
Lemma patched_text off max s r l : text s ->
  patched off (Z.to_nat (zlen (take max s))) (s ++ r) l = patched off (length (take max s)) (take max s) l.
Proof.
  intros _. unfold patched, zlen. rewrite Nat2Z.id. f_equal. f_equal.
  rewrite take_app_le, (take_ge (take max s)) by (rewrite ?length_take; lia). rewrite length_take.
  destruct (Nat.le_gt_cases max (length s)); [by rewrite Nat.min_l|].
  by rewrite Nat.min_r, !take_ge by lia.
Qed.


Lemma text_received m off max size t l :
  msg m = patched (Z.to_nat off) (length t) t l -> len m = off + zlen t -> text t ->
  (Z.to_nat off <= length l)%nat -> 0 <= off -> zlen t <= max < 2 ^ 32 -> (length t < size)%nat ->
  exists b, text_of m off max (replicate size 0) = Ok b /\ before_nul b = t.
Proof.
  intros Hm Hl [Ht _] Ho Ho' Hmax Hs.
  apply (text_of_ok _ _ _ _ t (drop (Z.to_nat off + length t) l)); try done.
  - by rewrite Hm, drop_patched, take_ge by lia.
  - by rewrite length_replicate.
Qed.

(** The message with the text [t], what fits of [s]. *)
Tactic Notation "text_tac" constr(s) constr(max) constr(off) :=
  let t := fresh "t" in let src := fresh "src" in let Et := fresh "Et" in let Es := fresh "Es" in
  let Hp := fresh "Hp" in
  pose proof (take_text (Z.to_nat max) s ltac:(done));
  assert (zlen (take (Z.to_nat max) s) <= max) by (unfold zlen; rewrite length_take; lia);
  assert (length (take (Z.to_nat max) s) <= length s)%nat by (rewrite length_take; lia);
  pose proof (zlen_nonneg (take (Z.to_nat max) s));
  pose proof (fun l => patched_text (Z.to_nat off) (Z.to_nat max) s [0] l ltac:(done)) as Hp;
  cbn [send];
  unfold cec_msg_set_timer_program_title, cec_msg_set_osd_name, cec_msg_set_osd_string, with_result;
  rewrite cstrlen_text, bind_ok, text_cap by done;
  remember (take (Z.to_nat max) s) as t eqn:Et; remember (s ++ [0]) as src eqn:Es;
  assert (length src = S (length s)) by (rewrite Es, length_app; simpl; lia);
  assert (Z.to_nat (zlen t) = length t) by (unfold zlen; lia);
  cec_step; cbn [runs];
  rewrite copy_bytes_ok by (cbn [msg length]; lia); cbn [runs msg];
  match goal with |- context [take ?o ?l ++ take ?k src ++ drop _ ?l] =>
    change (take o l ++ take k src ++ drop (o + k) l) with (patched (Z.to_nat off) k src l) end;
  rewrite Hp, u32_small by lia;
  (etransitivity; [apply receive_long; [cbn [with_msg len]; lia | reflexivity]|]); cbv beta;
  match goal with |- context [with_msg ?m0 ?bs] =>
    destruct (text_received (with_msg m0 bs) off max (S (Z.to_nat max)) t _ eq_refl eq_refl)
      as (b & E & Hb); [done | cbn [length]; lia | done | lia | unfold zlen in *; lia |] end;
  subst t.

Lemma ops_osd_string m buf : cec_ops_set_osd_string m buf = (b ← text_of m 3 13 buf; Ok (u8 m.[2], b)).
Proof. unfold cec_ops_set_osd_string, text_of. by destruct (memcpy buf _ _ _). Qed.

Lemma arrives_text r c m :
  match c with SetTimerProgramTitle _ | SetOsdName _ | SetOsdString _ _ => True | _ => False end ->
  in_range c -> msg_typed m -> arrives r c m.
Proof.
  intros Hk. destruct c; try done; clear Hk; intros Hc Hm; open_msg m Hm; unfold arrives.
  - assert (text title) by done. text_tac title 14 2.
    change (cec_ops_set_timer_program_title ?m (replicate 15 0)) with (text_of m 2 14 (replicate 15 0)).
    setoid_rewrite E. rewrite bind_ok. by rewrite Hb.
  - destruct Hc as [Hc1 Hc2]. assert (text osd) by done. text_tac osd 13 3.
    rewrite ops_osd_string. setoid_rewrite E. rewrite !bind_ok, Hb.
    transitivity (Ok (Some (SetOsdString (u8 (u8 disp_ctl)) (take 13 osd)))); [reflexivity|].
    by rewrite u8_u8, u8_id.
  - assert (text name) by done. text_tac name 14 2.
    change (cec_ops_set_osd_name ?m (replicate 15 0)) with (text_of m 2 14 (replicate 15 0)).
    setoid_rewrite E. rewrite bind_ok. by rewrite Hb.
Qed.

(** ** Arrays of bytes *)

Lemma array_cap max (l : list Z) : 0 <= max ->
  (if max <? zlen l then max else zlen l) = zlen (take (Z.to_nat max) l).
Proof. intros Hm. unfold zlen. rewrite length_take. zbool; lia. Qed.

Lemma patched_array off max src l :
  patched off (Z.to_nat (zlen (take max src))) src l = patched off (length (take max src)) (take max src) l.
Proof.
  unfold patched, zlen. rewrite Nat2Z.id, take_ge with (l := take max src) by lia. f_equal. f_equal.
  rewrite length_take. destruct (Nat.le_gt_cases max (length src)); [by rewrite Nat.min_l|].
  by rewrite Nat.min_r, !take_ge by lia.
Qed.

Lemma slice_received m off o max t l :
  o = Z.of_nat off -> msg m = patched off (length t) t l -> len m = o + zlen t -> (off <= length l)%nat ->
  zlen t <= max < 256 ->
  let n := u8 (u32 (len m - o)) in slice m off (if max <? n then max else n) = t.
Proof.
  intros Hof Hm Hl Ho Hmax n. pose proof (zlen_nonneg t).
  assert (n = zlen t) as ->.
  { unfold n. rewrite Hl, u32_small, u8_small by lia. lia. }
  unfold slice. rewrite Hm. replace (if max <? zlen t then max else zlen t) with (zlen t) by (zbool; lia).
  unfold zlen. by rewrite Nat2Z.id, slice_patched, take_ge.
Qed.

Tactic Notation "array_arrives" constr(s) constr(max) constr(off) :=
  let t := fresh "t" in let Et := fresh "Et" in let Hp := fresh "Hp" in
  assert (zlen (take (Z.to_nat max) s) <= max) by (unfold zlen; rewrite length_take; lia);
  assert (length (take (Z.to_nat max) s) <= length s)%nat by (rewrite length_take; lia);
  pose proof (zlen_nonneg (take (Z.to_nat max) s));
  pose proof (patched_array off (Z.to_nat max) s) as Hp;
  cbn [send];
  unfold cec_msg_vendor_command, cec_msg_vendor_command_with_id, cec_msg_vendor_remote_button_down;
  rewrite array_cap by done;
  remember (take (Z.to_nat max) s) as t eqn:Et;
  assert (Z.to_nat (zlen t) = length t) by (unfold zlen; lia);
  cec_step; cbn [runs];
  rewrite copy_bytes_ok by (cbn [msg length]; lia); cbn [runs msg];
  match goal with |- context [take ?o ?l ++ take ?k s ++ drop _ ?l] =>
    change (take o l ++ take k s ++ drop (o + k) l) with (patched o k s l) end;
  rewrite Hp, u32_small by lia;
  (etransitivity; [apply receive_long; [cbn [with_msg len]; lia | reflexivity]|]); cbv beta;
  unfold cec_ops_vendor_command, cec_ops_vendor_command_with_id, cec_ops_vendor_remote_button_down;
  cbv beta iota zeta;
  match goal with |- context [with_msg ?m0 ?bs] =>
    let o := eval vm_compute in (Z.of_nat off) in
    rewrite (slice_received (with_msg m0 bs) off o max t _ eq_refl eq_refl eq_refl
               ltac:(cbn [length]; lia) ltac:(lia)) end;
  subst t.

Lemma arrives_array r c m :
  match c with VendorCommand _ | VendorCommandWithId _ _ | VendorRemoteButtonDown _ => True | _ => False end ->
  in_range c -> msg_typed m -> arrives r c m.
Proof.
  intros Hk. destruct c; try done; clear Hk; intros Hc Hm; open_msg m Hm; unfold arrives;
    cbn [in_range] in Hc; open_ranges.
  - by array_arrives cmd 14 2%nat.
  - array_arrives cmd 11 5%nat.
    transitivity (Ok (Some (VendorCommandWithId
      (u32 ((u8 (vendor_id ≫ 16) ≪ 16) .| (u8 ((vendor_id ≫ 8) .& 0xff) ≪ 8) .| u8 (vendor_id .& 0xff)))
      (take 11 cmd)))); [reflexivity|].
    by rewrite be24.
  - by array_arrives code 14 2%nat.
Qed.

Lemma arrives_language r s m :
  in_range (SetMenuLanguage s) -> msg_typed m -> arrives r (SetMenuLanguage s) m.
Proof.
  intros [[Hs _] Hl] Hm. open_msg m Hm. do 4 (destruct s as [|? s]; try done).
  repeat (apply Forall_cons in Hs as [? Hs]). unfold arrives.
  eapply runs_eq; [cec_eval; unfold copy_bytes; cec_eval; reflexivity|]. cbn [runs].
  dispatch. by rewrite !(proj2 (Z.eqb_neq _ _)) by lia.
Qed.

Ltac descriptors_arrive :=
  unfold arrives; cbn [send];
  unfold cec_msg_report_short_audio_descriptor, cec_msg_request_short_audio_descriptor;
  rewrite capped4; cbn [take];
  fold_lengths;
  cec_step; cbn [runs]; dispatch.

Lemma arrives_descriptors r ds m :
  in_range (ReportShortAudioDescriptor ds) -> msg_typed m -> arrives r (ReportShortAudioDescriptor ds) m.
Proof.
  intros [Hs _] Hm. open_msg m Hm. four ds; repeat (apply Forall_cons in Hs as [? Hs]);
    descriptors_arrive; cbn [delivered take]; by rewrite ?be24_masked by done.
Qed.

Lemma format_id i c : bits 2 i -> bits 6 c -> u8 (u8 ((i ≪ 6) .| (c .& 0x3f)) ≫ 6) = i.
Proof. intros. rewrite (mask_id 6) by done. by apply high_field; [lia | |]. Qed.

Lemma format_code i c : bits 2 i -> bits 6 c -> u8 (u8 ((i ≪ 6) .| (c .& 0x3f)) .& 0x3f) = c.
Proof. intros. rewrite (mask_id 6 0x3f c) by done. by apply low_field; [lia | done | |]. Qed.

Lemma arrives_formats r fs m :
  in_range (RequestShortAudioDescriptor fs) -> msg_typed m -> arrives r (RequestShortAudioDescriptor fs) m.
Proof.
  intros [Hs _] Hm. open_msg m Hm.
  destruct fs as [|[] [|[] [|[] [|[] ?]]]]; repeat (apply Forall_cons in Hs as [[? ?] Hs]); cbn [fst snd] in *;
    descriptors_arrive; cbn [delivered take]; by rewrite ?format_id, ?format_code by done.
Qed.

(** ** Feature reports *)

Definition ext (b : Z) : bool := negb ((b .& CEC_OP_FEAT_EXT) =? 0).

Lemma ext_false b : bits 7 b -> ext b = false.
Proof.
  intros. unfold ext, CEC_OP_FEAT_EXT. change 0x80 with (2 ^ 7). rewrite land_bit by done.
  unfold bits in *. by rewrite Z.div_small by lia.
Qed.

Lemma scan_ext_stop fuel m limit p b :
  (0 < fuel)%nat -> load (msg m) p = Ok b -> ext b = false -> scan_ext fuel m limit p = Ok p.
Proof.
  intros Hf Hb He. destruct fuel as [|fuel]; [lia|]. cbn [scan_ext]. rewrite Hb, bind_ok.
  fold (ext b). rewrite He. by case_match.
Qed.

Lemma features_plain m b : load (msg m) 4 = Ok b -> ext b = false ->
  cec_ops_report_features m = Ok (u8 m.[2], u8 m.[3], Some 4%nat, Some 5%nat).
Proof.
  intros Hb He. unfold cec_ops_report_features. pose proof He as He'. unfold ext in He'.
  apply negb_false_iff in He'.
  rewrite (scan_ext_stop _ _ _ _ b), bind_ok, Hb, bind_ok, He' by (done || unfold CEC_MAX_MSG_SIZE; lia).
  rewrite (scan_ext_stop _ _ _ _ b), !bind_ok, Hb, bind_ok, He' by (done || unfold CEC_MAX_MSG_SIZE; lia).
  done.
Qed.

Lemma arrives_features r v d rc dev m :
  in_range (ReportFeatures v d rc dev) -> msg_typed m -> arrives r (ReportFeatures v d rc dev) m.
Proof.
  open_arrival. cec_step. cbn [runs]. etransitivity; [apply receive_at; reflexivity|]. cbv beta.
  erewrite features_plain; [|reflexivity|].
  - rewrite bind_ok. rerun. norm. done.
  - rewrite u8_id by bits_tac. by apply ext_false.
Qed.

(** ** Every command *)

Ltac arrival l :=
  match goal with Hc : in_range _, Hm : msg_typed _ |- _ =>
    refine (l _ _ _ _ Hc Hm); exact I end.

Lemma received_all r c m : in_range c -> msg_typed m -> arrives r c m.
Proof.
  intros Hc Hm.
  destruct c; try arrival arrives_plain.
  - destruct src; first [arrival arrives_service | arrival arrives_record].
  - by apply arrives_timer_status.
  - arrival arrives_service.
  - arrival arrives_service.
  - arrival arrives_text.
  - by apply arrives_language.
  - by apply arrives_features.
  - destruct t; [arrival arrives_service | by apply arrives_tuner].
  - arrival arrives_service.
  - arrival arrives_array.
  - arrival arrives_array.
  - arrival arrives_array.
  - arrival arrives_text.
  - arrival arrives_text.
  - by apply arrives_ui.
  - by apply arrives_audio.
  - by apply arrives_audio_mode.
  - by apply arrives_descriptors.
  - by apply arrives_formats.
  - by apply arrives_latency.
  - by apply arrives_hec_report.
Qed.
