(* ===== verification/CecSafe.v ===== *)
(** * CEC messages: decoding what comes from the bus

    A received message may be too short for its opcode, hold operands out of
    range or claim any length.  No decoder leaves the message or the buffer
    of its caller ([receive_ok]), and the search for the feature bytes ends
    where a reference search does ([report_features_spec]). *)

From stdpp Require Import base numbers list.
From Stdlib Require Import ZArith Lia.
From S2P Require Import Prelude CecTypes CecRecord CecControl CecAudio CecCommands CecFacts CecArrive.

#[local] Open Scope Z_scope.

(** ** Results that are not faults *)

Definition is_ok {A} (o : res A) : Prop := match o with Ok _ => True | Fault _ => False end.

Lemma is_ok_exists {A} (o : res A) : is_ok o -> exists a, o = Ok a.
Proof. destruct o; [eauto | done]. Qed.

Lemma is_ok_bind {A B} (o : res A) (k : A -> res B) :
  is_ok o -> (forall a, o = Ok a -> is_ok (k a)) -> is_ok (mbind k o).
Proof. destruct o as [a|]; [|done]. intros _ Hk. by apply Hk. Qed.

Lemma load_is_ok l i : (i < length l)%nat -> is_ok (load l i).
Proof. intros Hi. unfold load. destruct (lookup_lt_is_Some_2 l i Hi) as [b ->]. done. Qed.

Lemma store_is_ok l i v : (i < length l)%nat -> is_ok (store l i v).
Proof. intros Hi. unfold store. by rewrite (proj2 (Nat.ltb_lt _ _)). Qed.

Lemma store_length l i v l' : store l i v = Ok l' -> length l' = length l.
Proof. unfold store. case_match; [|done]. intros [= <-]. apply length_insert. Qed.

Lemma memcpy_is_ok dst off src n :
  (n <= length src)%nat -> (off + n <= length dst)%nat -> is_ok (memcpy dst off src n).
Proof. intros. unfold memcpy. by rewrite !(proj2 (Nat.leb_le _ _)). Qed.

Lemma memcpy_length dst off src n dst' : memcpy dst off src n = Ok dst' -> length dst' = length dst.
Proof.
  unfold memcpy. case_match eqn:E; [|done]. intros [= <-].
  apply andb_prop in E as [?%Nat.leb_le ?%Nat.leb_le]. rewrite !length_app, !length_take, length_drop. lia.
Qed.

(** The next step of a decoder does not fault. *)
Ltac ok_step :=
  match goal with
  | |- is_ok (Ok _) => exact I
  | |- is_ok (mbind _ _) => apply is_ok_bind; [|intros]
  | |- is_ok (load _ _) => apply load_is_ok
  | |- is_ok (store _ _ _) => apply store_is_ok
  | |- is_ok (if _ then _ else _) => case_match
  | |- is_ok (let '(_, _) := ?x in _) => destruct x
  end.

(** ** The loops *)

Lemma capped_le max n : 0 <= max -> (Z.to_nat (if (max <? n)%Z then max else n) <= Z.to_nat max)%nat.
Proof. intros. zbool; lia. Qed.

Lemma get_descriptors_ok k m : length (msg m) = 16%nat ->
  forall i ds, (i + k <= 4)%nat -> (i + k <= length ds)%nat -> is_ok (get_descriptors k i m ds).
Proof.
  intros Hm. induction k as [|k IH]; intros i ds Hk Hd; [done|]. cbn [get_descriptors].
  repeat ok_step; try lia. apply IH; [lia|].
  match goal with H : store _ _ _ = Ok _ |- _ => apply store_length in H as -> end. lia.
Qed.

Lemma get_formats_ok k m : length (msg m) = 16%nat ->
  forall i l1 l2, (i + k <= 4)%nat -> (i + k <= length l1)%nat -> (i + k <= length l2)%nat ->
  is_ok (get_formats k i m l1 l2).
Proof.
  intros Hm. induction k as [|k IH]; intros i l1 l2 Hk H1 H2; [done|]. cbn [get_formats].
  repeat ok_step; try lia.
  repeat match goal with H : store _ _ _ = Ok _ |- _ => apply store_length in H end.
  apply IH; lia.
Qed.

Lemma text_ok m off max n buf :
  length (msg m) = 16%nat -> (off + Z.to_nat max <= 16)%nat -> length buf = S (Z.to_nat max) -> 0 <= max ->
  is_ok (b ← memcpy buf 0 (drop off (msg m)) (Z.to_nat (if max <? n then max else n));
         store b (Z.to_nat (if max <? n then max else n)) 0).
Proof.
  intros Hm Ho Hb Hmax. pose proof (capped_le max n Hmax). ok_step.
  - apply memcpy_is_ok; [rewrite length_drop|]; lia.
  - match goal with H : memcpy _ _ _ _ = Ok _ |- _ => apply memcpy_length in H end.
    apply store_is_ok. lia.
Qed.

Lemma service_ok l p d : (p + 7 <= length l)%nat -> is_ok (cec_get_digital_service_id l p d).
Proof. intros. unfold cec_get_digital_service_id. repeat ok_step; lia. Qed.

(** ** Feature bytes *)

Lemma byte_at m i : (i < length (msg m))%nat -> exists b, msg m !! i = Some b.
Proof. intros Hi. by apply (lookup_lt_is_Some_2 (msg m)). Qed.

Lemma load_at m i b : msg m !! i = Some b -> load (msg m) i = Ok b.
Proof. intros H. unfold load. by rewrite (H : (msg m : list Z) !! i = Some b). Qed.

(** The scan stops at the limit or at the first byte without the extension
    bit. *)
Lemma scan_ext_spec m limit : (limit < length (msg m))%nat ->
  forall fuel p, (limit - p < fuel)%nat -> (p <= limit)%nat ->
  exists q, scan_ext fuel m limit p = Ok q /\ (p <= q <= limit)%nat /\
    (forall i b, (p <= i < q)%nat -> msg m !! i = Some b -> ext b = true) /\
    ((q < limit)%nat -> exists b, msg m !! q = Some b /\ ext b = false).
Proof.
  intros Hm. induction fuel as [|fuel IH]; intros p Hf Hp; [lia|]. cbn [scan_ext].
  destruct (Nat.ltb_spec p limit) as [Hlt|]; [|exists p; repeat split; intros; lia].
  destruct (byte_at m p ltac:(lia)) as [b Hb].
  rewrite (load_at m p b Hb), bind_ok. fold (ext b). destruct (ext b) eqn:He.
  - destruct (IH (S p)) as (q & Hq & Hr & Hi & Hs); [lia..|]. exists q. repeat split; [done|lia..| |done].
    intros i b' Hi' Hb'. destruct (decide (i = p)) as [->|]; [congruence|]. apply (Hi i); [lia|done].
  - exists p. repeat split; [lia..| |by exists b]. intros. lia.
Qed.

(** The place of the first byte without the extension bit, of the eleven
    after the device types. *)
Definition first_plain (m : cec_msg) : option nat :=
  fst <$> list_find (fun b => ext b = false) (take 11 (drop 4 (msg m))).

Lemma features_window m i b : take 11 (drop 4 (msg m)) !! i = Some b <-> (i < 11)%nat /\ msg m !! (4 + i)%nat = Some b.
Proof. rewrite lookup_take_Some, lookup_drop. tauto. Qed.

Lemma first_plain_some m i b : (i < 11)%nat -> msg m !! (4 + i)%nat = Some b -> ext b = false ->
  (forall j c, (4 <= j < 4 + i)%nat -> msg m !! j = Some c -> ext c = true) -> first_plain m = Some i.
Proof.
  intros Hi Hb He Hj. unfold first_plain.
  assert (list_find (fun b => ext b = false) (take 11 (drop 4 (msg m))) = Some (i, b)) as ->; [|done].
  apply list_find_Some. split; [by apply features_window|]. split; [done|].
  intros j c Hc Hlt. apply features_window in Hc as [_ Hc]. rewrite (Hj (4 + j)%nat c); [done|lia|done].
Qed.

Lemma first_plain_none m : (forall j c, (4 <= j < 15)%nat -> msg m !! j = Some c -> ext c = true) ->
  first_plain m = None.
Proof.
  intros Hj. unfold first_plain.
  assert (list_find (fun b => ext b = false) (take 11 (drop 4 (msg m))) = None) as ->; [|done].
  apply list_find_None, Forall_lookup. intros i b Hb. apply features_window in Hb as [Hi Hb].
  by rewrite (Hj (4 + i)%nat b) by (done || lia).
Qed.

Lemma report_features_spec m : length (msg m) = CEC_MAX_MSG_SIZE ->
  cec_ops_report_features m =
    Ok (match first_plain m with
        | Some i => (u8 m.[2], u8 m.[3], Some 4%nat, Some (5 + i)%nat)
        | None => (u8 m.[2], u8 m.[3], None, None)
        end).
Proof.
  unfold CEC_MAX_MSG_SIZE. intros Hm.
  destruct (scan_ext_spec m 14 ltac:(lia) 16 4) as (q & Hq & Hr & Hi & Hs); [lia..|].
  destruct (byte_at m q ltac:(lia)) as [b Hb].
  unfold cec_ops_report_features, CEC_MAX_MSG_SIZE. rewrite Hq, bind_ok.
  pose proof (load_at m q b Hb) as Hl. rewrite Hl, bind_ok.
  pose proof (scan_ext_stop 16 m 15 q b ltac:(lia) Hl) as Hstop. destruct (ext b) eqn:He.
  - assert (Hn : (b .& CEC_OP_FEAT_EXT) =? 0 = false) by (by apply negb_true_iff).
    rewrite Hn, bind_ok, Hl, bind_ok, Hn, first_plain_none; [done|]. intros j c Hj Hc.
    assert (q = 14%nat) by (destruct (decide (q = 14)%nat); [done|]; destruct Hs as (? & ? & ?); [lia|congruence]).
    destruct (decide (j = q)) as [->|]; [congruence | apply (Hi j); [lia|done]].
  - assert (Hn : (b .& CEC_OP_FEAT_EXT) =? 0 = true) by (by apply negb_false_iff).
    rewrite Hn, Hstop, !bind_ok, Hl, bind_ok, Hn by done. cbn [negb].
    rewrite (first_plain_some m (q - 4) b); [|lia|by replace (4 + (q - 4))%nat with q by lia|done|].
    + by replace (5 + (q - 4))%nat with (S q) by lia.
    + intros j c Hj. apply Hi. lia.
Qed.

(** ** Every decoder *)

Lemma report_features_ok m : length (msg m) = CEC_MAX_MSG_SIZE ->
  is_ok ('(v, d, rc, dev) ← cec_ops_report_features m; features_of m v d rc dev).
Proof.
  intros Hm. rewrite report_features_spec, bind_ok by done. unfold CEC_MAX_MSG_SIZE in Hm.
  destruct (first_plain m) as [i|] eqn:Hi; [|done]. unfold first_plain in Hi.
  apply fmap_Some in Hi as ([j b] & Hf & ->). apply list_find_Some in Hf as (Hj & _).
  apply features_window in Hj as [? _]. cbn [fst features_of]. repeat ok_step; lia.
Qed.

(** The decoders that read at computed places or fill a buffer in. *)
Section decoders.
Context (m : cec_msg) (Hm : length (msg m) = CEC_MAX_MSG_SIZE).

Ltac service_step :=
  first [apply service_ok; rewrite Hm; unfold CEC_MAX_MSG_SIZE; lia | ok_step].

Lemma record_on_ok src : is_ok (cec_ops_record_on m src).
Proof. unfold cec_ops_record_on. repeat service_step. Qed.

Lemma clear_digital_timer_ok d : is_ok (cec_ops_clear_digital_timer m d).
Proof. unfold cec_ops_clear_digital_timer. repeat service_step. Qed.

Lemma set_digital_timer_ok d : is_ok (cec_ops_set_digital_timer m d).
Proof. unfold cec_ops_set_digital_timer. repeat service_step. Qed.

Lemma tuner_device_status_ok i : is_ok (cec_ops_tuner_device_status m i).
Proof. unfold cec_ops_tuner_device_status. repeat service_step. Qed.

Lemma select_digital_service_ok d : is_ok (cec_ops_select_digital_service m d).
Proof. unfold cec_ops_select_digital_service. repeat service_step. Qed.

Lemma set_timer_program_title_ok b : length b = 15%nat -> is_ok (cec_ops_set_timer_program_title m b).
Proof. intros. unfold cec_ops_set_timer_program_title. apply text_ok; (done || lia). Qed.

Lemma set_osd_name_ok b : length b = 15%nat -> is_ok (cec_ops_set_osd_name m b).
Proof. intros. unfold cec_ops_set_osd_name. apply text_ok; (done || lia). Qed.

Lemma set_osd_string_ok b : length b = 14%nat -> is_ok (cec_ops_set_osd_string m b).
Proof.
  intros. rewrite ops_osd_string. apply is_ok_bind; [|by intros].
  unfold text_of. apply text_ok; (done || lia).
Qed.

Lemma set_menu_language_ok b : length b = 4%nat -> is_ok (cec_ops_set_menu_language m b).
Proof. intros. unfold cec_ops_set_menu_language. apply (text_ok m 2 3 3); (done || lia). Qed.

Lemma report_short_audio_descriptor_ok b :
  length b = 4%nat -> is_ok (cec_ops_report_short_audio_descriptor m b).
Proof.
  intros Hb. unfold cec_ops_report_short_audio_descriptor. apply is_ok_bind; [|by intros].
  apply get_descriptors_ok; rewrite ?Hb; [done | apply (capped_le 4); lia..].
Qed.

Lemma request_short_audio_descriptor_ok b c :
  length b = 4%nat -> length c = 4%nat -> is_ok (cec_ops_request_short_audio_descriptor m b c).
Proof.
  intros Hb Hc. unfold cec_ops_request_short_audio_descriptor. apply is_ok_bind; [|by intros []].
  apply get_formats_ok; rewrite ?Hb, ?Hc; [done | apply (capped_le 4); lia..].
Qed.
End decoders.

Create HintDb cec_ok.
#[export] Hint Resolve record_on_ok clear_digital_timer_ok set_digital_timer_ok tuner_device_status_ok
  select_digital_service_ok set_timer_program_title_ok set_osd_name_ok set_osd_string_ok
  set_menu_language_ok report_short_audio_descriptor_ok request_short_audio_descriptor_ok
  report_features_ok : cec_ok.

Definition safe (e : Z * decoder) : Prop := forall m, length (msg m) = CEC_MAX_MSG_SIZE -> is_ok (e.2 m).

Lemma assoc_safe {k l d} : Forall safe l -> assoc k l = Some d -> safe (k, d).
Proof.
  intros Hl. induction Hl as [|[k' d'] l Hd _ IH]; cbn [assoc]; [done|].
  case_match; [by intros [= <-] | apply IH].
Qed.

Ltac each_decoder :=
  repeat apply Forall_cons_2; try apply Forall_nil_2; unfold safe; cbn [snd]; intros m Hm;
  first [ repeat case_match; exact I
        | apply is_ok_bind; [auto with cec_ok | intros; repeat case_match; exact I]
        | auto with cec_ok ].

Lemma cdc_decoders_safe : Forall safe cdc_decoders.
Proof. unfold cdc_decoders. each_decoder. Qed.

Lemma receive_cdc_ok m : length (msg m) = CEC_MAX_MSG_SIZE -> is_ok (receive_cdc m).
Proof.
  intros Hm. unfold receive_cdc. destruct (assoc _ cdc_decoders) eqn:E; [|done].
  exact (assoc_safe cdc_decoders_safe E m Hm).
Qed.

#[export] Hint Resolve receive_cdc_ok : cec_ok.

Lemma decoders_safe : Forall safe decoders.
Proof. unfold decoders. each_decoder. Qed.

Lemma receive_ok m : length (msg m) = CEC_MAX_MSG_SIZE -> is_ok (receive m).
Proof.
  intros Hm. unfold receive. destruct (assoc _ decoders) eqn:E; [|done].
  exact (assoc_safe decoders_safe E m Hm).
Qed.
