(* ===== verification/CecProps.v ===== *)
(** * CEC messages: the theorems

    What linux/cec.h and linux/cec-funcs.h promise: a builder fills a message
    in within its bounds and with the header of its command, a decoder gives
    back what was sent, and no message from the bus makes a decoder leave its
    buffers. *)

From stdpp Require Import base numbers list.
From Stdlib Require Import ZArith Lia.
From S2P Require Import Prelude CecTypes CecRecord CecControl CecAudio CecCommands CecFacts CecSend CecReceive.
From S2P Require Import CecArrive CecSafe.

#[local] Open Scope Z_scope.

(** ** When nothing is lost *)

(** The commands that arrive as they were sent: the strings and arrays have
    room in the message, a major channel number has at most eight bits, the
    two states of a report agree, and no state is set. *)
Definition fits_service (s : service) : Prop :=
  match s with ByChannel _ _ ma _ => ma < 256 | _ => True end.

Definition fits (c : cec_command) : Prop :=
  match c with
  | RecordOn (SrcDigital s) | ClearDigitalTimer _ _ _ _ _ _ _ s | SetDigitalTimer _ _ _ _ _ _ _ s
  | TunerDeviceStatus _ _ (TunedDigital s) | SelectDigitalService s => fits_service s
  | UserControlPressed _ (Channel _ ma _) => ma < 256
  | SetTimerProgramTitle s | SetOsdName s | VendorCommand s | VendorRemoteButtonDown s => (length s <= 14)%nat
  | SetOsdString _ s => (length s <= 13)%nat
  | VendorCommandWithId _ l => (length l <= 11)%nat
  | ReportShortAudioDescriptor ds => (length ds <= 4)%nat
  | RequestShortAudioDescriptor fs => (length fs <= 4)%nat
  | CdcHecReportState _ _ host enc _ _ _ => host = enc
  | CdcHecSetState _ _ _ _ _ _ => False
  | _ => True
  end.

Lemma short_major_iff ma : bits 10 ma -> short_major ma = ma <-> ma < 256.
Proof.
  intros Hma. unfold short_major. rewrite (land_ones_mask ma 8 0xff) by done.
  rewrite Z.shiftr_div_pow2 by done. unfold bits in Hma.
  split; intros H.
  - destruct (Z.lt_ge_cases ma 256) as [|Hge]; [done|exfalso].
    apply (f_equal (fun z => z / 256)) in H. change 256 with (2 ^ 8) in H at 1.
    rewrite <- Z.shiftr_div_pow2, Z.shiftr_lor, Z.shiftr_shiftl_r, !Z.shiftr_div_pow2 in H by done.
    rewrite (Z.div_small (ma mod _)), Z.lor_0_r in H by (apply Z.mod_pos_bound; lia).
    change (2 ^ (8 - 6)) with 4 in H. change (2 ^ 8) with 256 in H.
    Z.div_mod_to_equations. lia.
  - change (2 ^ 8) with 256. rewrite Z.div_small, Z.mod_small by lia. done.
Qed.

Lemma take_iff {A} n (l : list A) : take n l = l <-> (length l <= n)%nat.
Proof.
  split; [|apply take_ge]. intros H. apply (f_equal length) in H. rewrite length_take in H. lia.
Qed.

Lemma delivered_service_iff s : service_in_range s -> delivered_service s = s <-> fits_service s.
Proof.
  destruct s; cbn; [|tauto..]. intros (_ & _ & Hma & _). rewrite <- short_major_iff by done. split; intros; congruence.
Qed.

Lemma delivered_iff c : in_range c -> delivered c = c <-> fits c.
Proof.
  intros Hc.
  destruct c; cbn [in_range delivered fits] in *; try done;
    repeat match goal with
    | s : rec_source |- _ => destruct s; cbn [source_in_range] in *; try done
    | t : tuned |- _ => destruct t; cbn [tuned_in_range] in *; try done
    | a : ui_arg |- _ => destruct a; cbn [ui_in_range] in *; try done
    end; open_ranges.
  all: try (match goal with H : service_in_range ?s |- _ => rewrite <- (delivered_service_iff s H) end; split; intros; congruence).
  all: try (rewrite <- take_iff; split; intros; congruence).
  all: try (rewrite <- short_major_iff by done; split; intros; congruence).
  split; intros; congruence.
Qed.

(** ** Sequences of statements *)

Lemma runs_seq s t m P Q : runs (s m) P -> (forall m1, P m1 -> runs (t m1) Q) -> runs (seq_stmt s t m) Q.
Proof. unfold seq_stmt. destruct (s m) as [m1|]; [|done]. intros HP Ht. by apply Ht. Qed.

Lemma runs_and o P Q : runs o P -> runs o Q -> runs o (fun m => P m /\ Q m).
Proof. by destruct o. Qed.

Lemma runs_mono o (P Q : cec_msg -> Prop) : runs o P -> (forall m, P m -> Q m) -> runs o Q.
Proof. destruct o; cbn; auto. Qed.

Lemma in_range_typed c : in_range c -> typed_command c.
Proof.
  destruct c; cbn; try done; unfold text, bytes; intros; open_ranges; try done;
    try split; try lia; eapply Forall_impl; try eassumption; unfold bits; intros; cbn in *; lia.
Qed.

Lemma land_add_disjoint x a b : a .& b = 0 -> (x .& a) + (x .& b) = x .& (a .| b).
Proof.
  intros Hab. rewrite Z.add_nocarry_lor, Z.land_lor_distr_r; [done|].
  apply Z.bits_inj'. intros n _. apply (f_equal (fun z => Z.testbit z n)) in Hab.
  rewrite !Z.land_spec, Z.bits_0 in *. by destruct (Z.testbit x n), (Z.testbit a n), (Z.testbit b n).
Qed.

(** The two addresses of the first byte. *)
Definition addressed (i d : Z) (m : cec_msg) : Prop := cec_msg_initiator m = i /\ cec_msg_destination m = d.

Lemma two_nibbles i d : bits 4 i -> bits 4 d ->
  u8 (u8 ((i ≪ 4) .| d) ≫ 4) = i /\ u8 (u8 ((i ≪ 4) .| d) .& 0xf) = d.
Proof. intros. split; [by apply high_field; [lia|..] | by apply low_field; [lia|done|..]]. Qed.

(** The bytes and the fields of a message given by its fields have their
    types. *)
Ltac each_byte := repeat apply Forall_cons_2; try apply Forall_nil_2; solve [apply u8_bits | done].
Ltac typed_msg := split; [done|]; split; [each_byte | by repeat (split; [done|])].

(** A fresh message. *)
Lemma init_msg i d m : bits 4 i -> bits 4 d ->
  runs (cec_msg_init i d m) (fun m' => msg_typed m' /\ addressed i d m' /\ len m' = 1 /\
    cec_msg_opcode m' = -1 /\ timeout m' = 0 /\ reply m' = 0 /\ cec_msg_status_is_ok m' = 0).
Proof.
  intros Hi Hd. cec_step. cbn [runs]. split; [|split; [by apply two_nibbles | done]].
  typed_msg.
Qed.

Lemma addresses_bits m : msg_typed m -> bits 4 (cec_msg_initiator m) /\ bits 4 (cec_msg_destination m).
Proof.
  intros H. open_msg m H. unfold cec_msg_initiator, cec_msg_destination, get. cbn [msg nth].
  split; bit_arith.
Qed.

(** A message made the answer to another. *)
Lemma reply_msg orig m : msg_typed orig -> msg_typed m ->
  runs (cec_msg_set_reply_to orig m) (fun m' => msg_typed m' /\
    addressed (cec_msg_destination orig) (cec_msg_initiator orig) m' /\
    len m' = len m /\ drop 1 (msg m') = drop 1 (msg m) /\ timeout m' = 0 /\ reply m' = 0).
Proof.
  intros Ho H. apply addresses_bits in Ho as [Hi Hd].
  unfold cec_msg_set_reply_to.
  generalize dependent (cec_msg_initiator orig). generalize dependent (cec_msg_destination orig).
  intros d Hd i Hi. open_msg m H. cec_step. cbn [runs].
  split; [|split; [by apply two_nibbles | done]].
  typed_msg.
Qed.

(** ** Theorems *)

(** C23: every builder ends, on any message, without a store outside the
    array; the fields of the message keep their types, and its length is
    between 2 and 16. *)
Theorem cec_send_typed r c m : typed_command c -> msg_typed m ->
  runs (send r c m) (fun m' => msg_typed m' /\ 2 <= len m' <= 16).
Proof. intros Hc Hm. eapply runs_mono; [by apply sent_all|]. by intros m' (? & ? & _). Qed.

(** A message whose bytes are all 0xff and whose length is wrong. *)
Definition dirty : cec_msg :=
  CecMsg 7 8 4294967295 9 10 11 (replicate CEC_MAX_MSG_SIZE 0xff) 12 13 14 15 16 17 18.

Lemma dirty_typed : msg_typed dirty.
Proof. typed_msg. Qed.

Lemma cec_send_typed_witness :
  runs (send 0 (VendorCommand (replicate 40 1)) dirty) (fun m' => msg_typed m' /\ 2 <= len m' <= 16).
Proof.
  apply (cec_send_typed 0 (VendorCommand (replicate 40 1)) dirty).
  - split; [each_byte | done].
  - apply dirty_typed.
Defined.

(** The message a builder leaves has the opcode of the command and the
    initiator it had; it is addressed to all devices exactly when the
    command must be broadcast and to the former destination otherwise; the
    opcode of the answer is set when an answer is wanted; the time stamps,
    the timeout, the sequence number, the flags and the status are left
    alone. *)
Theorem cec_send_header r c m : typed_command c -> msg_typed m ->
  runs (send r c m) (fun m' =>
    cec_msg_opcode m' = opcode c /\
    cec_msg_initiator m' = cec_msg_initiator m /\
    cec_msg_destination m' = (if broadcast c then CEC_LOG_ADDR_UNREGISTERED else cec_msg_destination m) /\
    reply m' = match answer c with Some a => ite r a 0 | None => reply m end /\
    same_frame m m').
Proof. intros Hc Hm. eapply runs_mono; [by apply sent_all|]. by intros m' (_ & _ & H). Qed.

Lemma cec_send_header_witness :
  runs (send 1 (RoutingChange 0x1000 0x2000) dirty) (fun m' =>
    cec_msg_opcode m' = CEC_MSG_ROUTING_CHANGE /\ reply m' = CEC_MSG_ROUTING_INFORMATION).
Proof.
  pose proof (cec_send_header 1 (RoutingChange 0x1000 0x2000) dirty I dirty_typed) as H.
  destruct (send 1 (RoutingChange 0x1000 0x2000) dirty); [|done]. destruct H as (H1 & _ & _ & H2 & _).
  split; [exact H1 | exact H2].
Defined.

(** C20: a message that is initialised with two addresses, filled in by the
    builder of a command and taken off the bus names its sender and the device
    (or all devices) it is for, and decodes to the command itself when the
    command [fits]; any other command arrives as [delivered] has it: strings
    and arrays cut to the room in the message, the two high bits of a major
    channel number shifted by six, the host state in place of the state of the
    external network, and a request to set the CDC state as an inquiry. *)
Theorem cec_exchange i d r c m : bits 4 i -> bits 4 d -> in_range c ->
  runs (seq_stmt (cec_msg_init i d) (send r c) m) (fun m' =>
    (fits c -> receive m' = Ok (Some c)) /\ receive m' = Ok (Some (delivered c)) /\ cec_msg_initiator m' = i /\
    cec_msg_destination m' = if broadcast c then CEC_LOG_ADDR_UNREGISTERED else d).
Proof.
  intros Hi Hd Hc. eapply runs_seq; [by apply init_msg|]. intros m1 (Hm & [Hmi Hmd] & _).
  pose proof (received_all r c m1 Hc Hm) as Ha.
  pose proof (sent_all r c m1 (in_range_typed c Hc) Hm) as Hs.
  eapply runs_mono; [exact (runs_and _ _ _ Ha Hs)|].
  intros m' (Hr & _ & _ & _ & H1 & H2 & _). rewrite H1, H2, Hmi, Hmd.
  split; [|done]. intros Hf. unfold arrives in Hr. by rewrite (proj2 (delivered_iff c Hc) Hf) in Hr.
Qed.

Lemma cec_exchange_witness :
  runs (seq_stmt (cec_msg_init 4 0) (send 0 (SetOsdName (replicate 9 65))) dirty) (fun m' =>
    receive m' = Ok (Some (SetOsdName (replicate 9 65))) /\ cec_msg_initiator m' = 4 /\
    cec_msg_destination m' = 0) /\
  runs (seq_stmt (cec_msg_init 4 0) (send 0 (SetOsdName (replicate 20 65))) dirty) (fun m' =>
    receive m' = Ok (Some (SetOsdName (replicate 14 65)))).
Proof.
  split.
  - eapply runs_mono; [apply (cec_exchange 4 0 0 (SetOsdName (replicate 9 65)) dirty); [done|done|]|].
    + split; [each_byte | done].
    + intros m' (H1 & _ & H2 & H3). split; [apply H1; cbn; lia | split; [exact H2 | exact H3]].
  - eapply runs_mono; [apply (cec_exchange 4 0 0 (SetOsdName (replicate 20 65)) dirty); [done|done|]|].
    + split; [each_byte | done].
    + intros m' (_ & H & _). exact H.
Defined.

(** C21: the receiver gets exactly the command that was sent if and only if
    the strings and arrays fit, a major channel number is below 256, the
    two states of a CDC state report agree and the command does not set a
    CDC state. *)
Theorem cec_lossless_iff r c m : in_range c -> msg_typed m ->
  runs (send r c m) (fun m' => receive m' = Ok (Some c)) <-> fits c.
Proof.
  intros Hc Hm. rewrite <- delivered_iff by done. pose proof (received_all r c m Hc Hm) as Ha.
  unfold arrives in Ha. destruct (send r c m) as [m'|]; [|done]. cbn [runs] in *. rewrite Ha.
  split; [by intros [= ?] | by intros ->].
Qed.

Lemma cec_lossless_iff_witness :
  ~ runs (send 0 (SelectDigitalService (ByChannel 1 2 256 7)) dirty)
      (fun m' => receive m' = Ok (Some (SelectDigitalService (ByChannel 1 2 256 7)))).
Proof.
  intros H. apply (cec_lossless_iff 0 (SelectDigitalService (ByChannel 1 2 256 7)) dirty) in H.
  - exact (Z.lt_irrefl 256 H).
  - cbn. unfold bits. lia.
  - apply dirty_typed.
Defined.

(** C22: whatever message comes from the bus, of any length and with any
    operands, its decoder returns: no load leaves the message, no store the
    buffer of the caller, no loop goes on. *)
Theorem cec_receive_safe m : msg_typed m -> exists c, receive m = Ok c.
Proof. intros [Hm _]. by apply is_ok_exists, receive_ok. Qed.

Lemma cec_receive_safe_witness : exists c, receive dirty = Ok c.
Proof. apply (cec_receive_safe dirty). apply dirty_typed. Defined.

(** The two loops of cec_ops_report_features agree with a search for
    the first of the bytes 4 to 14 that has no extension bit: the device
    features begin after it, and both pointers are NULL when there is none.
    The second loop never advances. *)
Theorem cec_report_features_search m : msg_typed m ->
  cec_ops_report_features m =
    Ok (match first_plain m with
        | Some i => (m.[2], m.[3], Some 4%nat, Some (5 + i)%nat)
        | None => (m.[2], m.[3], None, None)
        end).
Proof.
  intros H. rewrite report_features_spec by apply H. open_msg m H. unfold get. cbn [msg nth].
  by rewrite !u8_id.
Qed.

Lemma cec_report_features_search_witness :
  cec_ops_report_features
    (with_msg dirty [4; 0xa6; 6; 0x10; 0x81; 0x82; 0x03; 0x84; 0; 0; 0; 0; 0; 0; 0; 0]) =
  Ok (6, 0x10, Some 4%nat, Some 7%nat).
Proof.
  rewrite (cec_report_features_search
    (with_msg dirty [4; 0xa6; 6; 0x10; 0x81; 0x82; 0x03; 0x84; 0; 0; 0; 0; 0; 0; 0; 0])).
  - vm_compute. reflexivity.
  - typed_msg.
Defined.

(** An answer goes back: a message made the reply to another and filled
    in by any builder is addressed to the initiator of the other, unless it
    is a broadcast, comes from its destination, and decodes to the command
    of the answer. *)
Theorem cec_reply_returns orig c m : msg_typed orig -> msg_typed m -> in_range c ->
  runs (seq_stmt (cec_msg_set_reply_to orig) (send 0 c) m) (fun m' =>
    receive m' = Ok (Some (delivered c)) /\ cec_msg_initiator m' = cec_msg_destination orig /\
    cec_msg_destination m' = (if broadcast c then CEC_LOG_ADDR_UNREGISTERED else cec_msg_initiator orig) /\
    timeout m' = 0 /\ reply m' = 0).
Proof.
  intros Ho Hm Hc. eapply runs_seq; [by apply reply_msg|]. intros m1 (Hm1 & [Hi Hd] & _ & _ & Ht & Hr).
  pose proof (received_all 0 c m1 Hc Hm1) as Ha.
  pose proof (sent_all 0 c m1 (in_range_typed c Hc) Hm1) as Hs.
  eapply runs_mono; [exact (runs_and _ _ _ Ha Hs)|].
  intros m' (Hrc & _ & _ & _ & H1 & H2 & H3 & _ & _ & H4 & _).
  rewrite H1, H2, H3, H4, Hi, Hd, Ht, Hr. split; [done|]. by destruct (answer c).
Qed.

Lemma cec_reply_returns_witness :
  runs (seq_stmt (cec_msg_set_reply_to (with_msg dirty (0x40 :: replicate 15 0)))
    (send 0 (ReportPowerStatus 1)) dirty) (fun m' =>
    receive m' = Ok (Some (ReportPowerStatus 1)) /\ cec_msg_initiator m' = 0 /\ cec_msg_destination m' = 4 /\
    timeout m' = 0 /\ reply m' = 0).
Proof.
  apply (cec_reply_returns (with_msg dirty (0x40 :: replicate 15 0)) (ReportPowerStatus 1) dirty).
  - typed_msg.
  - apply dirty_typed.
  - done.
Defined.

(** Cec_msg_reply_feature_abort turns a message into its refusal in
    place: it goes back to the initiator and decodes to a feature abort that
    names the opcode byte of the refused message and the reason. *)
Theorem cec_feature_abort_reply reason m : bits 8 reason -> msg_typed m ->
  runs (cec_msg_reply_feature_abort reason m) (fun m' =>
    receive m' = Ok (Some (FeatureAbort m.[1] reason)) /\ msg_typed m' /\ len m' = 4 /\
    cec_msg_initiator m' = cec_msg_destination m /\ cec_msg_destination m' = cec_msg_initiator m /\
    timeout m' = 0 /\ reply m' = 0).
Proof.
  intros Hreason Hm. unfold cec_msg_reply_feature_abort. eapply runs_seq; [by apply reply_msg|].
  intros m1 (Hm1 & [Hi Hd] & _ & Hb & Ht & Hr). rewrite <- Hi, <- Hd.
  assert (Hop : m.[1] = m1.[1]).
  { unfold get. transitivity (nth 0 (drop 1 (msg m)) 0); [by destruct (msg m) as [|? []]|].
    rewrite <- Hb. by destruct (msg m1) as [|? []]. }
  rewrite Hop. clear Hi Hd Hb Hop Hm. open_msg m1 Hm1. cec_step. cbn [runs].
  cbn [timeout reply] in *. split; [|split].
  - etransitivity; [apply receive_at; reflexivity|]. cbv beta. unfold cec_ops_feature_abort, get.
    cbn [msg nth]. by rewrite !u8_id by (done || apply u8_bits).
  - typed_msg.
  - done.
Qed.

Lemma cec_feature_abort_reply_witness :
  runs (cec_msg_reply_feature_abort 4 dirty) (fun m' => receive m' = Ok (Some (FeatureAbort 255 4))).
Proof.
  eapply runs_mono; [apply (cec_feature_abort_reply 4 dirty) | by intros m' [H _]]; [done | apply dirty_typed].
Defined.

(** The classes of logical addresses partition them: a mask of logical
    addresses is the sum of what the eight tests select from it. *)
Theorem cec_classes_partition mask : bits 16 mask ->
  cec_has_tv mask + cec_has_record mask + cec_has_tuner mask + cec_has_playback mask +
  cec_has_audiosystem mask + cec_has_backup mask + cec_has_specific mask + cec_is_unregistered mask = mask.
Proof.
  intros Hm. unfold cec_has_tv, cec_has_record, cec_has_tuner, cec_has_playback, cec_has_audiosystem,
    cec_has_backup, cec_has_specific, cec_is_unregistered.
  rewrite !land_add_disjoint by reflexivity. by apply (mask_id 16).
Qed.

Lemma cec_classes_partition_witness :
  cec_has_tv 0x910 + cec_has_record 0x910 + cec_has_tuner 0x910 + cec_has_playback 0x910 +
  cec_has_audiosystem 0x910 + cec_has_backup 0x910 + cec_has_specific 0x910 + cec_is_unregistered 0x910 = 0x910.
Proof. apply (cec_classes_partition 0x910). unfold bits. lia. Defined.
