(* ===== verification/QueueMem.v ===== *)
(** * Linked queues: memory and statements (sys/queue.h)

    The macros of sys/queue.h link structures of the caller through two
    words each: the entry of an element (its next and previous words) and
    the head of a queue (its first and last words).  A word is not yet
    written, NULL, a pointer to a head or an element, or the address of the
    first word of one of them (&elm->field.tqe_next, &head->tqh_first).  The
    macros become statements that read and write these words, in the order of
    the source; a word of a structure that is not there, a read of a word not
    yet written and an access through NULL are faults. *)

From stdpp Require Import base numbers gmap list.
From S2P Require Import Prelude.

(** ** Words *)

(** A head or an element. *)
Inductive loc : Set :=
| Head (h : nat)
| Elem (n : nat).

#[global] Instance loc_eq_dec : EqDecision loc.
Proof. solve_decision. Defined.
#[global] Instance loc_countable : Countable loc.
Proof.
  refine (inj_countable' (fun p => match p with Head h => inl h | Elem n => inr n end)
            (fun s => match s with inl h => Head h | inr n => Elem n end) _).
  by intros [].
Defined.

Inductive word : Set :=
| WUninit
| WNull
| WPtr (p : loc)
| WSlot (p : loc).

#[global] Instance word_eq_dec : EqDecision word.
Proof. solve_decision. Defined.

(** The first and second words of the structures that are allocated. *)
Record store : Type := Store { nexts : gmap loc word; prevs : gmap loc word }.

(** ** Statements *)

Definition M (A : Type) : Type := store -> res (A * store).

#[global] Instance M_ret : MRet M := fun A a m => Ok (a, m).
#[global] Instance M_bind : MBind M := fun A B k c m => '(a, m') ← c m; k a m'.

Definition fail {A} (f : fault) : M A := fun _ => Fault f.

(** [run c m m']: the statement ends, from the store [m] in [m']. *)
Definition run (c : M unit) (m m' : store) : Prop := c m = Ok (tt, m').

Definition initialised (o : option word) : res word :=
  match o with
  | None => Fault UseAfterFree
  | Some WUninit => Fault UninitRead
  | Some w => Ok w
  end.

Definition rd_next (p : loc) : M word := fun m => w ← initialised (nexts m !! p); Ok (w, m).
Definition rd_prev (p : loc) : M word := fun m => w ← initialised (prevs m !! p); Ok (w, m).

Definition wr_next (p : loc) (w : word) : M unit := fun m =>
  match nexts m !! p with
  | Some _ => Ok (tt, Store (<[p := w]> (nexts m)) (prevs m))
  | None => Fault UseAfterFree
  end.
Definition wr_prev (p : loc) (w : word) : M unit := fun m =>
  match prevs m !! p with
  | Some _ => Ok (tt, Store (nexts m) (<[p := w]> (prevs m)))
  | None => Fault UseAfterFree
  end.

(** The element a pointer points to; the structure whose first word an
    address is. *)
Definition elem (w : word) : M nat :=
  match w with
  | WPtr (Elem n) => mret n
  | WUninit => fail UninitRead
  | WNull => fail NullDeref
  | _ => fail OutOfBounds
  end.
Definition slot (w : word) : M loc :=
  match w with
  | WSlot p => mret p
  | WUninit => fail UninitRead
  | WNull => fail NullDeref
  | _ => fail OutOfBounds
  end.

(** *p = w and *p, for the address of a first word. *)
Definition wr_at (p : word) (w : word) : M unit := q ← slot p; wr_next q w.
Definition rd_at (p : word) : M word := q ← slot p; rd_next q.

(** if (w == NULL) s else t *)
Definition if_null {A} (w : word) (s t : M A) : M A := if decide (w = WNull) then s else t.

(** The for loops: from [var] on until [stop], by the word that [step]
    reads; the body threads a value of its own. *)
Fixpoint for_each {S : Type} (fuel : nat) (stop : word) (step : nat -> M word)
    (body : nat -> S -> M S) (var : word) (s : S) : M S :=
  match fuel with
  | O => fail OutOfFuel
  | S fuel' =>
      if decide (var = stop) then mret s
      else
        x ← elem var;
        s ← body x s;
        var ← step x;
        for_each fuel' stop step body var s
  end.

(** ** Chains *)

(** [end_of p xs]: the last structure of a chain that starts at [p]. *)
Definition end_of (p : loc) (xs : list nat) : loc := match last xs with Some x => Elem x | None => p end.

(** The word that leads to the first of [xs], or [e]. *)
Definition to_first (xs : list nat) (e : word) : word := match xs with [] => e | x :: _ => WPtr (Elem x) end.

(** The first words lead from each of [xs] to the next one and then to [e];
    [path]: so does the one of [p]. *)
Fixpoint rest (ns : gmap loc word) (xs : list nat) (e : word) : Prop :=
  match xs with [] => True | x :: r => ns !! Elem x = Some (to_first r e) /\ rest ns r e end.

Definition path (ns : gmap loc word) (p : loc) (xs : list nat) (e : word) : Prop :=
  ns !! p = Some (to_first xs e) /\ rest ns xs e.

(** The second words lead back, as [b] refers to a structure. *)
Fixpoint back (ps : gmap loc word) (b : loc -> word) (p : loc) (xs : list nat) : Prop :=
  match xs with [] => True | x :: r => ps !! Elem x = Some (b p) /\ back ps b (Elem x) r end.

(** The structures of a chain. *)
Definition locs (p : loc) (xs : list nat) : list loc := p :: (Elem <$> xs).

(** [n] is the entry of a structure the caller has allocated. *)
Definition allocated (m : store) (n : nat) : Prop :=
  is_Some (nexts m !! Elem n) /\ is_Some (prevs m !! Elem n).

(** Nothing but the given structures is changed. *)
Definition changes_only (ps : list loc) (m m' : store) : Prop :=
  forall q, q ∉ ps -> nexts m' !! q = nexts m !! q /\ prevs m' !! q = prevs m !! q.
