(* ===== verification/Queues.v ===== *)
(** * Linked queues: the macros (sys/queue.h)

    LIST, STAILQ, SIMPLEQ, TAILQ and CIRCLEQ, a Module each.  A head and an
    element are given by their numbers; the fields are words of the store:
    the field first of a head and the field next of an element are first
    words, the fields last and prev are second words. *)

From stdpp Require Import base numbers gmap list.
From S2P Require Import Prelude QueueMem.

(** ** Lists *)

Module Lists.

(** LIST_HEAD, LIST_ENTRY *)
Definition lh_first (head : nat) : M word := rd_next (Head head).
Definition set_lh_first (head : nat) : word -> M unit := wr_next (Head head).
Definition le_next (elm : nat) : M word := rd_next (Elem elm).
Definition le_prev (elm : nat) : M word := rd_prev (Elem elm).
Definition set_le_next (elm : nat) : word -> M unit := wr_next (Elem elm).
Definition set_le_prev (elm : nat) : word -> M unit := wr_prev (Elem elm).

(** The words of a head that is defined with its initialiser. *)
Definition LIST_HEAD_INITIALIZER : word := WNull.

Definition LIST_INIT (head : nat) : M unit := set_lh_first head WNull.

Definition LIST_INSERT_AFTER (listelm elm : nat) : M unit :=
  next ← le_next listelm;
  set_le_next elm next;;
  if_null next (mret tt)
    (next ← le_next listelm; next ← elem next; set_le_prev next (WSlot (Elem elm)));;
  set_le_next listelm (WPtr (Elem elm));;
  set_le_prev elm (WSlot (Elem listelm)).

Definition LIST_INSERT_BEFORE (listelm elm : nat) : M unit :=
  prev ← le_prev listelm;
  set_le_prev elm prev;;
  set_le_next elm (WPtr (Elem listelm));;
  prev ← le_prev listelm;
  wr_at prev (WPtr (Elem elm));;
  set_le_prev listelm (WSlot (Elem elm)).

Definition LIST_INSERT_HEAD (head elm : nat) : M unit :=
  first ← lh_first head;
  set_le_next elm first;;
  if_null first (mret tt)
    (first ← lh_first head; first ← elem first; set_le_prev first (WSlot (Elem elm)));;
  set_lh_first head (WPtr (Elem elm));;
  set_le_prev elm (WSlot (Head head)).

Definition LIST_REMOVE (elm : nat) : M unit :=
  next ← le_next elm;
  if_null next (mret tt)
    (next ← elem next; prev ← le_prev elm; set_le_prev next prev);;
  prev ← le_prev elm;
  next ← le_next elm;
  wr_at prev next.

Definition LIST_FOREACH {S} (fuel : nat) (head : nat) (body : nat -> S -> M S) (s : S) : M S :=
  var ← lh_first head; for_each fuel WNull le_next body var s.

Definition LIST_EMPTY (head : nat) : M bool := w ← lh_first head; mret (bool_decide (w = WNull)).
Definition LIST_FIRST (head : nat) : M word := lh_first head.
Definition LIST_NEXT (elm : nat) : M word := le_next elm.

End Lists.

(** ** Singly linked tail queues *)

Module Stailq.

(** STAILQ_HEAD, STAILQ_ENTRY *)
Definition stqh_first (head : nat) : M word := rd_next (Head head).
Definition stqh_last (head : nat) : M word := rd_prev (Head head).
Definition set_stqh_first (head : nat) : word -> M unit := wr_next (Head head).
Definition set_stqh_last (head : nat) : word -> M unit := wr_prev (Head head).
Definition stqe_next (elm : nat) : M word := rd_next (Elem elm).
Definition set_stqe_next (elm : nat) : word -> M unit := wr_next (Elem elm).

Definition STAILQ_HEAD_INITIALIZER (head : nat) : word * word := (WNull, WSlot (Head head)).

Definition STAILQ_INIT (head : nat) : M unit :=
  set_stqh_first head WNull;;
  set_stqh_last head (WSlot (Head head)).

Definition STAILQ_INSERT_HEAD (head elm : nat) : M unit :=
  first ← stqh_first head;
  set_stqe_next elm first;;
  if_null first (set_stqh_last head (WSlot (Elem elm))) (mret tt);;
  set_stqh_first head (WPtr (Elem elm)).

Definition STAILQ_INSERT_TAIL (head elm : nat) : M unit :=
  set_stqe_next elm WNull;;
  last ← stqh_last head;
  wr_at last (WPtr (Elem elm));;
  set_stqh_last head (WSlot (Elem elm)).

Definition STAILQ_INSERT_AFTER (head listelm elm : nat) : M unit :=
  next ← stqe_next listelm;
  set_stqe_next elm next;;
  if_null next (set_stqh_last head (WSlot (Elem elm))) (mret tt);;
  set_stqe_next listelm (WPtr (Elem elm)).

Definition STAILQ_REMOVE_HEAD (head : nat) : M unit :=
  first ← stqh_first head;
  first ← elem first;
  next ← stqe_next first;
  set_stqh_first head next;;
  if_null next (set_stqh_last head (WSlot (Head head))) (mret tt).

(** The walk to the element before [elm]. *)
Fixpoint stailq_find (fuel : nat) (curelm elm : nat) : M nat :=
  match fuel with
  | O => fail OutOfFuel
  | S fuel' =>
      next ← stqe_next curelm;
      if decide (next = WPtr (Elem elm)) then mret curelm
      else next ← elem next; stailq_find fuel' next elm
  end.

Definition STAILQ_REMOVE (fuel : nat) (head elm : nat) : M unit :=
  first ← stqh_first head;
  if decide (first = WPtr (Elem elm)) then STAILQ_REMOVE_HEAD head
  else
    curelm ← elem first;
    curelm ← stailq_find fuel curelm elm;
    next ← stqe_next curelm;
    next ← elem next;
    next ← stqe_next next;
    set_stqe_next curelm next;;
    if_null next (set_stqh_last head (WSlot (Elem curelm))) (mret tt).

Definition STAILQ_FOREACH {S} (fuel : nat) (head : nat) (body : nat -> S -> M S) (s : S) : M S :=
  var ← stqh_first head; for_each fuel WNull stqe_next body var s.

Definition STAILQ_EMPTY (head : nat) : M bool := w ← stqh_first head; mret (bool_decide (w = WNull)).
Definition STAILQ_FIRST (head : nat) : M word := stqh_first head.
Definition STAILQ_NEXT (elm : nat) : M word := stqe_next elm.

Definition STAILQ_CONCAT (head1 head2 : nat) : M unit :=
  empty ← STAILQ_EMPTY head2;
  if (empty : bool) then mret tt
  else
    last ← stqh_last head1;
    first ← stqh_first head2;
    wr_at last first;;
    last ← stqh_last head2;
    set_stqh_last head1 last;;
    STAILQ_INIT head2.

End Stailq.

(** ** Simple queues *)

Module Simpleq.

(** SIMPLEQ_HEAD, SIMPLEQ_ENTRY *)
Definition sqh_first (head : nat) : M word := rd_next (Head head).
Definition sqh_last (head : nat) : M word := rd_prev (Head head).
Definition set_sqh_first (head : nat) : word -> M unit := wr_next (Head head).
Definition set_sqh_last (head : nat) : word -> M unit := wr_prev (Head head).
Definition sqe_next (elm : nat) : M word := rd_next (Elem elm).
Definition set_sqe_next (elm : nat) : word -> M unit := wr_next (Elem elm).

Definition SIMPLEQ_HEAD_INITIALIZER (head : nat) : word * word := (WNull, WSlot (Head head)).

Definition SIMPLEQ_INIT (head : nat) : M unit :=
  set_sqh_first head WNull;;
  set_sqh_last head (WSlot (Head head)).

Definition SIMPLEQ_INSERT_HEAD (head elm : nat) : M unit :=
  first ← sqh_first head;
  set_sqe_next elm first;;
  if_null first (set_sqh_last head (WSlot (Elem elm))) (mret tt);;
  set_sqh_first head (WPtr (Elem elm)).

Definition SIMPLEQ_INSERT_TAIL (head elm : nat) : M unit :=
  set_sqe_next elm WNull;;
  last ← sqh_last head;
  wr_at last (WPtr (Elem elm));;
  set_sqh_last head (WSlot (Elem elm)).

Definition SIMPLEQ_INSERT_AFTER (head listelm elm : nat) : M unit :=
  next ← sqe_next listelm;
  set_sqe_next elm next;;
  if_null next (set_sqh_last head (WSlot (Elem elm))) (mret tt);;
  set_sqe_next listelm (WPtr (Elem elm)).

Definition SIMPLEQ_REMOVE_HEAD (head : nat) : M unit :=
  first ← sqh_first head;
  first ← elem first;
  next ← sqe_next first;
  set_sqh_first head next;;
  if_null next (set_sqh_last head (WSlot (Head head))) (mret tt).

(** The walk to the element before [elm]. *)
Fixpoint simpleq_find (fuel : nat) (curelm elm : nat) : M nat :=
  match fuel with
  | O => fail OutOfFuel
  | S fuel' =>
      next ← sqe_next curelm;
      if decide (next = WPtr (Elem elm)) then mret curelm
      else next ← elem next; simpleq_find fuel' next elm
  end.

Definition SIMPLEQ_REMOVE (fuel : nat) (head elm : nat) : M unit :=
  first ← sqh_first head;
  if decide (first = WPtr (Elem elm)) then SIMPLEQ_REMOVE_HEAD head
  else
    curelm ← elem first;
    curelm ← simpleq_find fuel curelm elm;
    next ← sqe_next curelm;
    next ← elem next;
    next ← sqe_next next;
    set_sqe_next curelm next;;
    if_null next (set_sqh_last head (WSlot (Elem curelm))) (mret tt).

Definition SIMPLEQ_FOREACH {S} (fuel : nat) (head : nat) (body : nat -> S -> M S) (s : S) : M S :=
  var ← sqh_first head; for_each fuel WNull sqe_next body var s.

Definition SIMPLEQ_EMPTY (head : nat) : M bool := w ← sqh_first head; mret (bool_decide (w = WNull)).
Definition SIMPLEQ_FIRST (head : nat) : M word := sqh_first head.
Definition SIMPLEQ_NEXT (elm : nat) : M word := sqe_next elm.

End Simpleq.

(** ** Tail queues *)

Module Tailq.

(** TAILQ_HEAD, TAILQ_ENTRY *)
Definition tqh_first (head : nat) : M word := rd_next (Head head).
Definition tqh_last (head : nat) : M word := rd_prev (Head head).
Definition set_tqh_first (head : nat) : word -> M unit := wr_next (Head head).
Definition set_tqh_last (head : nat) : word -> M unit := wr_prev (Head head).
Definition tqe_next (elm : nat) : M word := rd_next (Elem elm).
Definition tqe_prev (elm : nat) : M word := rd_prev (Elem elm).
Definition set_tqe_next (elm : nat) : word -> M unit := wr_next (Elem elm).
Definition set_tqe_prev (elm : nat) : word -> M unit := wr_prev (Elem elm).

Definition TAILQ_HEAD_INITIALIZER (head : nat) : word * word := (WNull, WSlot (Head head)).

Definition TAILQ_INIT (head : nat) : M unit :=
  set_tqh_first head WNull;;
  set_tqh_last head (WSlot (Head head)).

Definition TAILQ_INSERT_HEAD (head elm : nat) : M unit :=
  first ← tqh_first head;
  set_tqe_next elm first;;
  if_null first (set_tqh_last head (WSlot (Elem elm)))
    (first ← tqh_first head; first ← elem first; set_tqe_prev first (WSlot (Elem elm)));;
  set_tqh_first head (WPtr (Elem elm));;
  set_tqe_prev elm (WSlot (Head head)).

Definition TAILQ_INSERT_TAIL (head elm : nat) : M unit :=
  set_tqe_next elm WNull;;
  last ← tqh_last head;
  set_tqe_prev elm last;;
  last ← tqh_last head;
  wr_at last (WPtr (Elem elm));;
  set_tqh_last head (WSlot (Elem elm)).

Definition TAILQ_INSERT_AFTER (head listelm elm : nat) : M unit :=
  next ← tqe_next listelm;
  set_tqe_next elm next;;
  if_null next (set_tqh_last head (WSlot (Elem elm)))
    (next ← tqe_next elm; next ← elem next; set_tqe_prev next (WSlot (Elem elm)));;
  set_tqe_next listelm (WPtr (Elem elm));;
  set_tqe_prev elm (WSlot (Elem listelm)).

Definition TAILQ_INSERT_BEFORE (listelm elm : nat) : M unit :=
  prev ← tqe_prev listelm;
  set_tqe_prev elm prev;;
  set_tqe_next elm (WPtr (Elem listelm));;
  prev ← tqe_prev listelm;
  wr_at prev (WPtr (Elem elm));;
  set_tqe_prev listelm (WSlot (Elem elm)).

Definition TAILQ_REMOVE (head elm : nat) : M unit :=
  next ← tqe_next elm;
  if_null next (prev ← tqe_prev elm; set_tqh_last head prev)
    (next ← elem next; prev ← tqe_prev elm; set_tqe_prev next prev);;
  prev ← tqe_prev elm;
  next ← tqe_next elm;
  wr_at prev next.

Definition TAILQ_FOREACH {S} (fuel : nat) (head : nat) (body : nat -> S -> M S) (s : S) : M S :=
  var ← tqh_first head; for_each fuel WNull tqe_next body var s.

(** (( struct headname * )p)->tqh_last: the second word of the structure
    whose first word [p] is the address of, the last of a head or the prev
    of an element. *)
Definition as_head_last (p : word) : M word := q ← slot p; rd_prev q.

Definition TAILQ_LAST (head : nat) : M word :=
  last ← tqh_last head; prev ← as_head_last last; rd_at prev.
Definition TAILQ_PREV (elm : nat) : M word :=
  prev ← tqe_prev elm; prev ← as_head_last prev; rd_at prev.

Definition TAILQ_FOREACH_REVERSE {S} (fuel : nat) (head : nat) (body : nat -> S -> M S) (s : S) : M S :=
  var ← TAILQ_LAST head; for_each fuel WNull TAILQ_PREV body var s.

Definition TAILQ_EMPTY (head : nat) : M bool := w ← tqh_first head; mret (bool_decide (w = WNull)).
Definition TAILQ_FIRST (head : nat) : M word := tqh_first head.
Definition TAILQ_NEXT (elm : nat) : M word := tqe_next elm.

Definition TAILQ_CONCAT (head1 head2 : nat) : M unit :=
  empty ← TAILQ_EMPTY head2;
  if (empty : bool) then mret tt
  else
    last ← tqh_last head1;
    first ← tqh_first head2;
    wr_at last first;;
    first ← tqh_first head2;
    first ← elem first;
    last ← tqh_last head1;
    set_tqe_prev first last;;
    last ← tqh_last head2;
    set_tqh_last head1 last;;
    TAILQ_INIT head2.

End Tailq.

(** ** Circular queues *)

Module Circleq.

(** CIRCLEQ_HEAD, CIRCLEQ_ENTRY *)
Definition cqh_first (head : nat) : M word := rd_next (Head head).
Definition cqh_last (head : nat) : M word := rd_prev (Head head).
Definition set_cqh_first (head : nat) : word -> M unit := wr_next (Head head).
Definition set_cqh_last (head : nat) : word -> M unit := wr_prev (Head head).
Definition cqe_next (elm : nat) : M word := rd_next (Elem elm).
Definition cqe_prev (elm : nat) : M word := rd_prev (Elem elm).
Definition set_cqe_next (elm : nat) : word -> M unit := wr_next (Elem elm).
Definition set_cqe_prev (elm : nat) : word -> M unit := wr_prev (Elem elm).

(** if (w == (void * )(head)) s else t *)
Definition if_head {A} (w : word) (head : nat) (s t : M A) : M A :=
  if decide (w = WPtr (Head head)) then s else t.

Definition CIRCLEQ_HEAD_INITIALIZER (head : nat) : word * word := (WPtr (Head head), WPtr (Head head)).

Definition CIRCLEQ_INIT (head : nat) : M unit :=
  set_cqh_first head (WPtr (Head head));;
  set_cqh_last head (WPtr (Head head)).

Definition CIRCLEQ_INSERT_AFTER (head listelm elm : nat) : M unit :=
  next ← cqe_next listelm;
  set_cqe_next elm next;;
  set_cqe_prev elm (WPtr (Elem listelm));;
  next ← cqe_next listelm;
  if_head next head (set_cqh_last head (WPtr (Elem elm)))
    (next ← elem next; set_cqe_prev next (WPtr (Elem elm)));;
  set_cqe_next listelm (WPtr (Elem elm)).

Definition CIRCLEQ_INSERT_BEFORE (head listelm elm : nat) : M unit :=
  set_cqe_next elm (WPtr (Elem listelm));;
  prev ← cqe_prev listelm;
  set_cqe_prev elm prev;;
  prev ← cqe_prev listelm;
  if_head prev head (set_cqh_first head (WPtr (Elem elm)))
    (prev ← elem prev; set_cqe_next prev (WPtr (Elem elm)));;
  set_cqe_prev listelm (WPtr (Elem elm)).

Definition CIRCLEQ_INSERT_HEAD (head elm : nat) : M unit :=
  first ← cqh_first head;
  set_cqe_next elm first;;
  set_cqe_prev elm (WPtr (Head head));;
  last ← cqh_last head;
  if_head last head (set_cqh_last head (WPtr (Elem elm)))
    (first ← cqh_first head; first ← elem first; set_cqe_prev first (WPtr (Elem elm)));;
  set_cqh_first head (WPtr (Elem elm)).

Definition CIRCLEQ_INSERT_TAIL (head elm : nat) : M unit :=
  set_cqe_next elm (WPtr (Head head));;
  last ← cqh_last head;
  set_cqe_prev elm last;;
  first ← cqh_first head;
  if_head first head (set_cqh_first head (WPtr (Elem elm)))
    (last ← cqh_last head; last ← elem last; set_cqe_next last (WPtr (Elem elm)));;
  set_cqh_last head (WPtr (Elem elm)).

Definition CIRCLEQ_REMOVE (head elm : nat) : M unit :=
  next ← cqe_next elm;
  if_head next head (prev ← cqe_prev elm; set_cqh_last head prev)
    (next ← elem next; prev ← cqe_prev elm; set_cqe_prev next prev);;
  prev ← cqe_prev elm;
  if_head prev head (next ← cqe_next elm; set_cqh_first head next)
    (prev ← elem prev; next ← cqe_next elm; set_cqe_next prev next).

Definition CIRCLEQ_FOREACH {S} (fuel : nat) (head : nat) (body : nat -> S -> M S) (s : S) : M S :=
  var ← cqh_first head; for_each fuel (WPtr (Head head)) cqe_next body var s.

Definition CIRCLEQ_FOREACH_REVERSE {S} (fuel : nat) (head : nat) (body : nat -> S -> M S) (s : S) : M S :=
  var ← cqh_last head; for_each fuel (WPtr (Head head)) cqe_prev body var s.

Definition CIRCLEQ_EMPTY (head : nat) : M bool :=
  w ← cqh_first head; mret (bool_decide (w = WPtr (Head head))).
Definition CIRCLEQ_FIRST (head : nat) : M word := cqh_first head.
Definition CIRCLEQ_LAST (head : nat) : M word := cqh_last head.
Definition CIRCLEQ_NEXT (elm : nat) : M word := cqe_next elm.
Definition CIRCLEQ_PREV (elm : nat) : M word := cqe_prev elm.

Definition CIRCLEQ_LOOP_NEXT (head elm : nat) : M word :=
  next ← cqe_next elm; if_head next head (cqh_first head) (cqe_next elm).
Definition CIRCLEQ_LOOP_PREV (head elm : nat) : M word :=
  prev ← cqe_prev elm; if_head prev head (cqh_last head) (cqe_prev elm).

End Circleq.
