(* ===== verification/QueueFacts.v ===== *)
(** * Linked queues: chains

    What an insertion into a chain and a removal from one do to the words
    that lead forward ([path]) and back ([back]), the evaluation of
    statements, and what the loops over a chain visit. *)

From stdpp Require Import base numbers gmap list.
From Stdlib Require Import Lia.
From S2P Require Import Prelude QueueMem.

(** ** Ends *)

Lemma end_of_cons p x xs : end_of p (x :: xs) = end_of (Elem x) xs.
Proof. unfold end_of. rewrite last_cons. by destruct (last xs). Qed.

Lemma end_of_snoc p xs x : end_of p (xs ++ [x]) = Elem x.
Proof. unfold end_of. by rewrite last_snoc. Qed.

Lemma end_of_app p xs x ys : end_of p (xs ++ x :: ys) = end_of (Elem x) ys.
Proof.
  revert p. induction xs as [|y xs IH]; intros p; cbn [app]; rewrite end_of_cons; [done|]. apply IH.
Qed.

Lemma end_of_in p xs : end_of p xs ∈ locs p xs.
Proof.
  unfold end_of, locs. destruct (last xs) as [x|] eqn:E; [|left].
  right. apply list_elem_of_fmap. exists x. split; [done|]. by apply last_Some_elem_of.
Qed.

Lemma elem_locs n p xs : Elem n ∈ locs p xs <-> p = Elem n \/ n ∈ xs.
Proof.
  unfold locs. rewrite elem_of_cons, list_elem_of_fmap. split.
  - intros [->|(x & [= ->] & ?)]; auto.
  - intros [->|?]; [by left | right; eauto].
Qed.

Lemma locs_app p l1 l2 : locs p (l1 ++ l2) = locs p l1 ++ (Elem <$> l2).
Proof. unfold locs. by rewrite fmap_app. Qed.

Lemma locs_head_nodup h xs : NoDup xs -> NoDup (locs (Head h) xs).
Proof.
  intros Hxs. apply NoDup_cons. split; [|by apply NoDup_fmap_2; [intros ?? [=]|]].
  intros (? & [=] & _)%list_elem_of_fmap.
Qed.

Lemma to_first_app xs ys e : to_first (xs ++ ys) e = to_first xs (to_first ys e).
Proof. by destruct xs. Qed.

(** ** Paths *)

Lemma rest_app ns xs ys e : rest ns (xs ++ ys) e <-> rest ns xs (to_first ys e) /\ rest ns ys e.
Proof.
  induction xs as [|x xs IH]; cbn; [tauto|]. rewrite IH, to_first_app. tauto.
Qed.

Lemma path_app ns p xs ys e : path ns p (xs ++ ys) e <-> path ns p xs (to_first ys e) /\ rest ns ys e.
Proof. unfold path. rewrite rest_app, to_first_app. tauto. Qed.

Lemma rest_ext ns ns' xs e : (forall x, x ∈ xs -> ns' !! Elem x = ns !! Elem x) -> rest ns xs e -> rest ns' xs e.
Proof.
  induction xs as [|x xs IH]; cbn; [done|]. intros H [Hx Hr]. rewrite H by left. split; [done|].
  apply IH; [|done]. intros y Hy. apply H. by right.
Qed.

Lemma path_end ns p xs e : path ns p xs e -> ns !! end_of p xs = Some e.
Proof.
  revert p. induction xs as [|x xs IH]; intros p; [by intros [? _]|].
  intros [_ Hr]. rewrite end_of_cons. apply (IH (Elem x)). exact Hr.
Qed.

(** The last word of a chain changed. *)
Lemma path_change_end ns ns' p xs e e' : NoDup (locs p xs) -> path ns p xs e ->
  (forall q, q ∈ locs p xs -> q <> end_of p xs -> ns' !! q = ns !! q) ->
  ns' !! end_of p xs = Some e' -> path ns' p xs e'.
Proof.
  revert p. induction xs as [|x xs IH]; intros p Hd [Hp Hr] Hf He; [by split|].
  rewrite end_of_cons in *. apply NoDup_cons in Hd as [Hni Hd]. split.
  - rewrite Hf; [done | left |]. intros Heq. apply Hni. rewrite Heq. apply end_of_in.
  - apply (IH (Elem x)); [done | exact Hr | | done]. intros q Hq. apply Hf. by right.
Qed.

Lemma path_insert ns ns' p l1 l2 n e : NoDup (locs p (l1 ++ l2)) -> path ns p (l1 ++ l2) e ->
  ns' !! end_of p l1 = Some (WPtr (Elem n)) -> ns' !! Elem n = Some (to_first l2 e) ->
  (forall q, q ∈ locs p (l1 ++ l2) -> q <> end_of p l1 -> ns' !! q = ns !! q) ->
  path ns' p (l1 ++ n :: l2) e.
Proof.
  intros Hd [Hp Hr]%path_app He Hn Hf. rewrite locs_app in *.
  apply NoDup_app in Hd as (Hd1 & Hd2 & _). apply path_app. split.
  - eapply path_change_end; [done | done | | done].
    intros q Hq. apply Hf. apply elem_of_app. by left.
  - split; [done|]. eapply rest_ext; [|done]. intros x Hx. apply (list_elem_of_fmap_2 Elem) in Hx.
    apply Hf; [apply elem_of_app; by right|]. intros Heq. apply (Hd2 (end_of p l1)); [apply end_of_in|].
    by rewrite <- Heq.
Qed.

Lemma path_remove ns ns' p l1 x l2 e : NoDup (locs p (l1 ++ x :: l2)) -> path ns p (l1 ++ x :: l2) e ->
  ns' !! end_of p l1 = Some (to_first l2 e) ->
  (forall q, q ∈ locs p (l1 ++ l2) -> q <> end_of p l1 -> ns' !! q = ns !! q) ->
  path ns' p (l1 ++ l2) e.
Proof.
  intros Hd [Hp [_ Hr]]%path_app He Hf. rewrite locs_app in *.
  apply NoDup_app in Hd as (Hd1 & Hd2 & _). apply path_app. split.
  - eapply path_change_end; [done | done | | done].
    intros q Hq. apply Hf. apply elem_of_app. by left.
  - eapply rest_ext; [|done]. intros y Hy. apply (list_elem_of_fmap_2 Elem) in Hy.
    apply Hf; [apply elem_of_app; by right|]. intros Heq. apply (Hd2 (end_of p l1)); [apply end_of_in|].
    rewrite <- Heq. by right.
Qed.

(** ** Back *)

Lemma back_app ps b p xs ys : back ps b p (xs ++ ys) <-> back ps b p xs /\ back ps b (end_of p xs) ys.
Proof.
  revert p. induction xs as [|x xs IH]; intros p; cbn [app back]; [tauto|].
  rewrite IH, end_of_cons. tauto.
Qed.

Lemma back_ext ps ps' b p xs :
  (forall x, x ∈ xs -> ps' !! Elem x = ps !! Elem x) -> back ps b p xs -> back ps' b p xs.
Proof.
  revert p. induction xs as [|x xs IH]; intros p; cbn; [done|]. intros H [Hx Hr].
  rewrite H by left. split; [done|]. apply IH; [|done]. intros y Hy. apply H. by right.
Qed.

(** The word that leads back from the first of [xs]. *)
Definition first_back (ps : gmap loc word) (xs : list nat) (w : word) : Prop :=
  match xs with [] => True | x :: _ => ps !! Elem x = Some w end.

Lemma back_insert ps ps' b p l1 l2 n : back ps b p (l1 ++ l2) ->
  ps' !! Elem n = Some (b (end_of p l1)) -> first_back ps' l2 (b (Elem n)) ->
  (forall x, x ∈ l1 ++ tail l2 -> ps' !! Elem x = ps !! Elem x) ->
  back ps' b p (l1 ++ n :: l2).
Proof.
  intros [H1 H2]%back_app Hn Hf Hs. apply back_app. split; [|split; [done|]].
  - eapply back_ext; [|done]. intros. apply Hs, elem_of_app. by left.
  - destruct l2 as [|y l2]; [done|]. destruct H2 as [_ H2]. split; [done|].
    eapply back_ext; [|done]. intros. apply Hs, elem_of_app. by right.
Qed.

Lemma back_remove ps ps' b p l1 x l2 : back ps b p (l1 ++ x :: l2) ->
  first_back ps' l2 (b (end_of p l1)) ->
  (forall x, x ∈ l1 ++ tail l2 -> ps' !! Elem x = ps !! Elem x) ->
  back ps' b p (l1 ++ l2).
Proof.
  intros [H1 [_ H2]]%back_app Hf Hs. apply back_app. split.
  - eapply back_ext; [|done]. intros. apply Hs, elem_of_app. by left.
  - destruct l2 as [|y l2]; [done|]. destruct H2 as [_ H2]. split; [done|].
    eapply back_ext; [|done]. intros. apply Hs, elem_of_app. by right.
Qed.

(** ** Evaluation *)

Lemma M_bind_at {A B} (c : M A) (k : A -> M B) m a m' : c m = Ok (a, m') -> mbind k c m = k a m'.
Proof. intros H. unfold mbind at 1, M_bind. by rewrite H. Qed.

Lemma M_ret_at {A} (a : A) m : mret (M := M) a m = Ok (a, m).
Proof. reflexivity. Qed.

Lemma rd_next_at p m w : nexts m !! p = Some w -> w <> WUninit -> rd_next p m = Ok (w, m).
Proof. intros H Hw. unfold rd_next. rewrite H. by destruct w. Qed.

Lemma rd_prev_at p m w : prevs m !! p = Some w -> w <> WUninit -> rd_prev p m = Ok (w, m).
Proof. intros H Hw. unfold rd_prev. rewrite H. by destruct w. Qed.

Lemma wr_next_at p m w0 w : nexts m !! p = Some w0 -> wr_next p w m = Ok (tt, Store (<[p := w]> (nexts m)) (prevs m)).
Proof. intros H. unfold wr_next. by rewrite H. Qed.

Lemma wr_prev_at p m w0 w : prevs m !! p = Some w0 -> wr_prev p w m = Ok (tt, Store (nexts m) (<[p := w]> (prevs m))).
Proof. intros H. unfold wr_prev. by rewrite H. Qed.

Lemma wr_at_slot q w m : wr_at (WSlot q) w m = wr_next q w m.
Proof. reflexivity. Qed.

Lemma rd_at_slot q m : rd_at (WSlot q) m = rd_next q m.
Proof. reflexivity. Qed.

Lemma to_first_init xs e : e <> WUninit -> to_first xs e <> WUninit.
Proof. by destruct xs. Qed.

Lemma M_bind_run {A B} (c : M A) (k : A -> M B) m a m' r :
  c m = Ok (a, m') -> k a m' = r -> mbind k c m = r.
Proof. intros H <-. by apply M_bind_at. Qed.

Lemma run_at (c : M unit) m m1 m' : c m = Ok (tt, m1) -> m1 = m' -> run c m m'.
Proof. by intros H <-. Qed.

(** Evaluate a statement; the words it reads are hypotheses. *)
Ltac q_look := cbn [nexts prevs];
  repeat first [rewrite lookup_insert_eq | rewrite lookup_insert_ne by congruence]; eassumption || reflexivity.
Ltac q_init := first [done | congruence | apply to_first_init; done].
Ltac q_eval :=
  lazymatch goal with
  | |- mbind _ _ _ = _ => eapply M_bind_run; [q_eval | cbv beta; q_eval]
  | |- (if decide _ then _ else _) _ = _ =>
      first [rewrite decide_True by (done || congruence) | rewrite decide_False by (done || congruence)]; q_eval
  | |- mret _ _ = _ => apply M_ret_at
  | |- rd_next _ _ = _ => apply rd_next_at; [q_look | q_init]
  | |- rd_prev _ _ = _ => apply rd_prev_at; [q_look | q_init]
  | |- wr_next _ _ _ = _ => eapply wr_next_at; q_look
  | |- wr_prev _ _ _ = _ => eapply wr_prev_at; q_look
  | |- wr_at _ _ _ = _ => rewrite wr_at_slot; q_eval
  | |- rd_at _ _ = _ => rewrite rd_at_slot; q_eval
  | |- elem _ _ = _ => apply M_ret_at
  | |- slot _ _ = _ => apply M_ret_at
  end.
Ltac q_run := eapply run_at; [q_eval | cbn [nexts prevs]].

(** A store that is the same up to the order of writes. *)
Ltac q_same := f_equal; first [reflexivity | by rewrite insert_insert_ne by congruence].

(** ** Loops *)

(** A loop whose body leaves the links alone visits the chain in order and
    ends. *)
Lemma for_each_visits {S : Type} fuel stop step (f : S -> nat -> S) xs m :
  (forall x, stop <> WPtr (Elem x)) -> (length xs < fuel)%nat ->
  (forall l1 x l2, xs = l1 ++ x :: l2 -> step x m = Ok (to_first l2 stop, m)) ->
  forall s, for_each fuel stop step (fun x s => mret (f s x)) (to_first xs stop) s m = Ok (fold_left f xs s, m).
Proof.
  intros Hs. revert fuel. induction xs as [|x xs IH]; intros [|fuel] Hf Hstep s; cbn in Hf; try lia; cbn [for_each].
  - by rewrite decide_True.
  - cbn [to_first]. rewrite decide_False by (intros Heq; by eapply Hs).
    eapply M_bind_run; [apply M_ret_at|]. eapply M_bind_run; [apply M_ret_at|].
    eapply M_bind_run; [by apply (Hstep [] x xs)|]. apply IH; [lia|].
    intros l1 y l2 ->. by apply (Hstep (x :: l1)).
Qed.
