(* ===== verification/QueueLinks.v ===== *)
(** * Linked queues: doubly linked

    LIST, TAILQ and CIRCLEQ keep a chain whose elements lead back as well.
    They differ in how a structure refers to its predecessor, in the word
    that ends the chain and in whether the head knows the end: [linked] has
    these as parameters.  Every insertion macro is [insert_at] at some place
    of the chain and every removal is [remove_at]. *)

From stdpp Require Import base numbers gmap list.
From Stdlib Require Import Lia.
From S2P Require Import Prelude QueueMem Queues QueueFacts.

Section linked.
Context (b : loc -> word) (e : word) (tl : bool) (h : nat).

Definition linked (m : store) (xs : list nat) : Prop :=
  NoDup xs /\ path (nexts m) (Head h) xs e /\ back (prevs m) b (Head h) xs /\
  (tl = true -> prevs m !! Head h = Some (b (end_of (Head h) xs))).

(** The structure whose second word leads back to the end of what precedes
    [xs]: the first of [xs], or the head. *)
Definition set_back (xs : list nat) (w : word) (ps : gmap loc word) : gmap loc word :=
  match xs with
  | [] => if tl then <[Head h := w]> ps else ps
  | y :: _ => <[Elem y := w]> ps
  end.

Definition insert_at (l1 : list nat) (n : nat) (l2 : list nat) (m : store) : store :=
  Store (<[end_of (Head h) l1 := WPtr (Elem n)]> (<[Elem n := to_first l2 e]> (nexts m)))
        (<[Elem n := b (end_of (Head h) l1)]> (set_back l2 (b (Elem n)) (prevs m))).

Definition remove_at (l1 l2 : list nat) (m : store) : store :=
  Store (<[end_of (Head h) l1 := to_first l2 e]> (nexts m))
        (set_back l2 (b (end_of (Head h) l1)) (prevs m)).

Lemma set_back_ne xs w ps q : q <> Head h -> (forall y, head xs = Some y -> q <> Elem y) ->
  set_back xs w ps !! q = ps !! q.
Proof.
  intros Hq Hx. unfold set_back. destruct xs as [|y xs]; [destruct tl; [|done]|]; rewrite lookup_insert_ne; auto.
  intros Heq. by apply (Hx y).
Qed.

Lemma set_back_first xs w ps : first_back (set_back xs w ps) xs w.
Proof. destruct xs; [done|]. apply lookup_insert_eq. Qed.

Lemma end_of_fresh xs n : n ∉ xs -> Elem n <> end_of (Head h) xs.
Proof.
  intros Hn Heq. pose proof (end_of_in (Head h) xs) as Hin. rewrite <- Heq in Hin.
  by apply elem_locs in Hin as [[=]|].
Qed.

Lemma not_first (l1 l2 : list nat) x y : NoDup (l1 ++ l2) -> x ∈ l1 ++ tail l2 -> head l2 = Some y -> x <> y.
Proof.
  intros Hd Hx Hy ->. destruct l2 as [|z l2]; [done|]. cbn in Hy. injection Hy as ->.
  apply NoDup_app in Hd as (_ & Hd & Hd2). apply elem_of_app in Hx as [Hx|Hx].
  - apply (Hd y Hx). left.
  - by apply NoDup_cons in Hd2 as [? _].
Qed.

Lemma insert_at_linked l1 n l2 m : linked m (l1 ++ l2) -> n ∉ l1 ++ l2 ->
  linked (insert_at l1 n l2 m) (l1 ++ n :: l2).
Proof.
  intros (Hd & Hp & Hb & Ht) Hn. pose proof (proj1 (not_elem_of_app _ _ _) Hn) as [Hn1 Hn2].
  pose proof (end_of_fresh l1 n Hn1) as Hne. split; [|split; [|split]].
  - rewrite <- Permutation_middle. by apply NoDup_cons.
  - eapply path_insert; [by apply locs_head_nodup | done | | |]; cbn [insert_at nexts].
    + apply lookup_insert_eq.
    + rewrite lookup_insert_ne by done. apply lookup_insert_eq.
    + intros q Hq Hqe. rewrite !lookup_insert_ne; [done | | done].
      intros <-. by apply elem_locs in Hq as [[=]|].
  - eapply back_insert; [done | apply lookup_insert_eq | |]; cbn [insert_at prevs].
    + destruct l2 as [|y l2]; [done|]. cbn. rewrite lookup_insert_ne; [apply lookup_insert_eq|].
      intros [= ->]. apply Hn2. left.
    + intros x Hx. rewrite lookup_insert_ne; [apply set_back_ne; [done|]|].
      * intros y Hy [= ->]. by apply (not_first l1 l2 y y).
      * intros [= ->]. apply Hn. apply elem_of_app in Hx as [?|?]; apply elem_of_app; [by left|right].
        destruct l2; [done | by right].
  - intros Htl. cbn [insert_at prevs]. rewrite lookup_insert_ne by done. rewrite end_of_app.
    destruct l2 as [|y l2]; cbn [set_back].
    + rewrite Htl. apply lookup_insert_eq.
    + by rewrite lookup_insert_ne, Ht, end_of_app, end_of_cons by done.
Qed.

Lemma remove_at_linked l1 x l2 m : linked m (l1 ++ x :: l2) -> linked (remove_at l1 l2 m) (l1 ++ l2).
Proof.
  intros (Hd & Hp & Hb & Ht). assert (Hd' : NoDup (l1 ++ l2)).
  { rewrite <- Permutation_middle in Hd. by apply NoDup_cons in Hd as [_ ?]. }
  split; [done|split; [|split]].
  - eapply path_remove; [by apply locs_head_nodup | done | apply lookup_insert_eq |].
    intros q _ Hq. by apply lookup_insert_ne.
  - eapply back_remove; [done | apply set_back_first |]. intros y Hy. apply set_back_ne; [done|].
    intros z Hz [= ->]. by apply (not_first l1 l2 z z).
  - intros Htl. cbn [remove_at prevs]. destruct l2 as [|y l2]; cbn [set_back].
    + rewrite Htl, app_nil_r. apply lookup_insert_eq.
    + by rewrite lookup_insert_ne, Ht, !end_of_app, end_of_cons by done.
Qed.

(** Nothing outside the chain is changed. *)
Lemma not_in_locs q p xs : q ∉ locs p xs -> q <> p /\ forall x, x ∈ xs -> q <> Elem x.
Proof.
  unfold locs. intros Hq. apply not_elem_of_cons in Hq as [? Hq]. split; [done|].
  intros x Hx ->. apply Hq. by apply list_elem_of_fmap_2.
Qed.

Lemma not_end_of q p xs ys : q ∉ locs p (xs ++ ys) -> q <> end_of p xs.
Proof.
  rewrite locs_app. intros Hq ->. apply Hq, elem_of_app. left. apply end_of_in.
Qed.

Lemma set_back_outside xs w ps q : q ∉ locs (Head h) xs -> set_back xs w ps !! q = ps !! q.
Proof.
  intros [Hh Hx]%not_in_locs. apply set_back_ne; [done|]. intros y Hy. apply Hx.
  destruct xs as [|z xs]; [done|]. cbn in Hy. injection Hy as ->. left.
Qed.

Lemma insert_at_changes l1 n l2 m : changes_only (locs (Head h) (l1 ++ n :: l2)) m (insert_at l1 n l2 m).
Proof.
  intros q Hq. pose proof (not_end_of _ _ _ _ Hq). pose proof (not_in_locs _ _ _ Hq) as [Hh Hx].
  assert (q <> Elem n) by (apply Hx, elem_of_app; right; left). cbn [insert_at nexts prevs].
  rewrite !lookup_insert_ne by done. split; [done|]. apply set_back_outside.
  intros Hin. apply Hq. unfold locs in *. rewrite fmap_app. cbn. set_solver.
Qed.

Lemma remove_at_changes l1 l2 m : changes_only (locs (Head h) (l1 ++ l2)) m (remove_at l1 l2 m).
Proof.
  intros q Hq. pose proof (not_end_of _ _ _ _ Hq). cbn [remove_at nexts prevs].
  rewrite lookup_insert_ne by done. split; [done|]. apply set_back_outside.
  intros Hin. apply Hq. unfold locs in *. rewrite fmap_app. set_solver.
Qed.

(** The words of a chain. *)
Lemma linked_next l1 l2 m : linked m (l1 ++ l2) -> nexts m !! end_of (Head h) l1 = Some (to_first l2 e).
Proof. intros (_ & [Hp _]%path_app & _). by apply path_end in Hp. Qed.

Lemma linked_end xs m : linked m xs -> nexts m !! end_of (Head h) xs = Some e.
Proof. intros (_ & Hp & _). by apply path_end in Hp. Qed.

Lemma linked_elem_next l1 x l2 m : linked m (l1 ++ x :: l2) -> nexts m !! Elem x = Some (to_first l2 e).
Proof. by intros (_ & [_ [Hx _]]%path_app & _). Qed.

Lemma linked_prev l1 x l2 m : linked m (l1 ++ x :: l2) -> prevs m !! Elem x = Some (b (end_of (Head h) l1)).
Proof. by intros (_ & _ & [_ [Hx _]]%back_app & _). Qed.

Lemma linked_prev_next l1 x y l2 m : linked m (l1 ++ x :: y :: l2) -> prevs m !! Elem y = Some (b (Elem x)).
Proof.
  intros Hq. rewrite <- (end_of_snoc (Head h) l1 x). apply (linked_prev _ _ l2). by rewrite <- app_assoc.
Qed.

Lemma linked_ne l1 x y l2 m : linked m (l1 ++ x :: y :: l2) -> x <> y.
Proof.
  intros [Hd _] ->. apply NoDup_app in Hd as (_ & _ & Hd). apply NoDup_cons in Hd as [Hd _]. apply Hd. left.
Qed.

Lemma linked_last xs m : tl = true -> linked m xs -> prevs m !! Head h = Some (b (end_of (Head h) xs)).
Proof. intros Htl (_ & _ & _ & Ht). by apply Ht. Qed.

(** A removal puts every word back but those of the element. *)
Lemma set_back_same xs m l1 : linked m (l1 ++ xs) ->
  set_back xs (b (end_of (Head h) l1)) (prevs m) = prevs m.
Proof.
  intros Hq. destruct xs as [|y xs]; cbn [set_back].
  - destruct tl eqn:Htl; [|done]. apply insert_id. rewrite app_nil_r in Hq. by apply linked_last.
  - apply insert_id. by eapply linked_prev.
Qed.

Lemma set_back_twice xs w w' n v ps : n ∉ xs ->
  set_back xs w (<[Elem n := v]> (set_back xs w' ps)) = <[Elem n := v]> (set_back xs w ps).
Proof.
  intros Hn. destruct xs as [|y xs]; cbn [set_back]; [destruct tl; [|done]|].
  - by rewrite insert_insert_ne, insert_insert_eq by done.
  - apply not_elem_of_cons in Hn as [Hn _]. by rewrite insert_insert_ne, insert_insert_eq by congruence.
Qed.

Lemma remove_insert_at l1 n l2 m : linked m (l1 ++ l2) -> n ∉ l1 ++ l2 ->
  remove_at l1 l2 (insert_at l1 n l2 m) =
    Store (<[Elem n := to_first l2 e]> (nexts m)) (<[Elem n := b (end_of (Head h) l1)]> (prevs m)).
Proof.
  intros Hq Hn. apply not_elem_of_app in Hn as [Hn1 Hn2]. pose proof (end_of_fresh l1 n Hn1).
  unfold remove_at, insert_at. cbn [nexts prevs]. rewrite set_back_twice, (set_back_same l2 m l1) by done.
  f_equal. rewrite insert_insert_eq, insert_insert_ne by done. f_equal. apply insert_id. by apply linked_next.
Qed.
End linked.

(** ** Tail queues *)

Section tailq.
Import Tailq.
Context (h : nat).

Definition tailq : store -> list nat -> Prop := linked WSlot WNull true h.
Abbreviation insert_at := (insert_at WSlot WNull true h).
Abbreviation remove_at := (remove_at WSlot WNull true h).

Ltac open_macro :=
  unfold TAILQ_INSERT_HEAD, TAILQ_INSERT_TAIL, TAILQ_INSERT_AFTER, TAILQ_INSERT_BEFORE, TAILQ_REMOVE,
    tqh_first, tqh_last, set_tqh_first, set_tqh_last, tqe_next, tqe_prev, set_tqe_next, set_tqe_prev, if_null.

Ltac same_store := unfold QueueLinks.insert_at, QueueLinks.remove_at; q_same.

(** The words an insertion between [l1] and [l2] reads. *)
Lemma tailq_words l1 l2 m : tailq m (l1 ++ l2) ->
  nexts m !! end_of (Head h) l1 = Some (to_first l2 WNull) /\
  prevs m !! Head h = Some (WSlot (end_of (Head h) (l1 ++ l2))).
Proof. intros Hq. split; [by eapply linked_next | by eapply linked_last]. Qed.

Lemma tailq_insert_head xs n m : tailq m xs -> n ∉ xs -> allocated m n ->
  run (TAILQ_INSERT_HEAD h n) m (insert_at [] n xs m).
Proof.
  intros Hq Hn [[w1 H1] [w2 H2]]. destruct (tailq_words [] xs m Hq) as [Hf Hl]. cbn [end_of last] in Hf.
  open_macro. destruct xs as [|y xs]; [q_run; same_store|].
  apply not_elem_of_cons in Hn as [Hny Hn]. pose proof (linked_prev _ _ _ _ [] _ _ _ Hq) as Hy.
  cbn [to_first] in Hf. q_run. same_store.
Qed.

Lemma tailq_insert_tail xs n m : tailq m xs -> n ∉ xs -> allocated m n ->
  run (TAILQ_INSERT_TAIL h n) m (insert_at xs n [] m).
Proof.
  intros Hq Hn [[w1 H1] [w2 H2]]. pose proof (end_of_fresh h xs n Hn) as Hne.
  destruct (tailq_words xs [] m) as [Hf Hl]; [by rewrite app_nil_r|]. rewrite app_nil_r in Hl.
  open_macro. q_run. same_store.
Qed.

Lemma tailq_insert_after l1 l l2 n m : tailq m (l1 ++ l :: l2) -> n ∉ l1 ++ l :: l2 -> allocated m n ->
  run (TAILQ_INSERT_AFTER h l n) m (insert_at (l1 ++ [l]) n l2 m).
Proof.
  intros Hq Hn [[w1 H1] [w2 H2]]. apply not_elem_of_app in Hn as [_ [Hnl Hn]%not_elem_of_cons].
  pose proof (linked_elem_next _ _ _ _ _ _ _ _ Hq) as Hf.
  pose proof (linked_last _ _ _ _ _ _ eq_refl Hq) as Hl.
  unfold QueueLinks.insert_at. rewrite end_of_snoc. open_macro. destruct l2 as [|y l2]; [q_run; same_store|].
  apply not_elem_of_cons in Hn as [Hny Hn].
  pose proof (linked_prev_next _ _ _ _ _ _ _ _ _ Hq) as Hy.
  cbn [to_first] in Hf. q_run. same_store.
Qed.

Lemma tailq_insert_before l1 l l2 n m : tailq m (l1 ++ l :: l2) -> n ∉ l1 ++ l :: l2 -> allocated m n ->
  run (TAILQ_INSERT_BEFORE l n) m (insert_at l1 n (l :: l2) m).
Proof.
  intros Hq Hn [[w1 H1] [w2 H2]]. apply not_elem_of_app in Hn as [Hn1 [Hnl Hn]%not_elem_of_cons].
  pose proof (end_of_fresh h l1 n Hn1) as Hne. destruct (tailq_words l1 (l :: l2) m Hq) as [Hf Hl].
  pose proof (linked_prev _ _ _ _ _ _ _ _ Hq) as Hp. open_macro. q_run. same_store.
Qed.

Lemma tailq_remove l1 x l2 m : tailq m (l1 ++ x :: l2) ->
  run (TAILQ_REMOVE h x) m (remove_at l1 l2 m).
Proof.
  intros Hq. pose proof (linked_elem_next _ _ _ _ _ _ _ _ Hq) as Hx.
  destruct (tailq_words l1 (x :: l2) m Hq) as [Hf Hl]. pose proof (linked_prev _ _ _ _ _ _ _ _ Hq) as Hp.
  open_macro. destruct l2 as [|y l2]; [q_run; same_store|].
  pose proof (linked_prev_next _ _ _ _ _ _ _ _ _ Hq) as Hy. pose proof (linked_ne _ _ _ _ _ _ _ _ _ Hq).
  cbn [to_first] in Hx. q_run. same_store.
Qed.

(** The reverse steps go through the words of the neighbour. *)
Lemma tailq_last xs m : tailq m xs -> TAILQ_LAST h m = Ok (to_first (rev xs) WNull, m).
Proof.
  intros Hq. pose proof (linked_last _ _ _ _ _ _ eq_refl Hq) as Hl.
  unfold TAILQ_LAST, as_head_last, tqh_last. destruct xs as [|x xs _] using rev_ind.
  - pose proof (linked_next _ _ _ _ [] [] _ Hq) as Hf. cbn [end_of last to_first] in *. q_eval.
  - rewrite rev_app_distr, end_of_snoc in *. pose proof (linked_prev _ _ _ _ _ _ _ _ Hq) as Hp.
    pose proof (linked_next _ _ _ _ _ _ _ Hq) as Hf. cbn [to_first rev app] in *. q_eval.
Qed.

Lemma tailq_prev l1 x l2 m : tailq m (l1 ++ x :: l2) -> TAILQ_PREV x m = Ok (to_first (rev l1) WNull, m).
Proof.
  intros Hq. pose proof (linked_prev _ _ _ _ _ _ _ _ Hq) as Hp. unfold TAILQ_PREV, as_head_last, tqe_prev.
  destruct l1 as [|y l1 _] using rev_ind.
  - pose proof (linked_last _ _ _ _ _ _ eq_refl Hq) as Hl. cbn [end_of last rev to_first app] in *.
    pose proof (linked_end _ _ _ _ _ _ Hq) as Hf. q_eval.
  - rewrite rev_app_distr, end_of_snoc, <- app_assoc in *. pose proof (linked_prev _ _ _ _ _ _ _ _ Hq) as Hy.
    pose proof (linked_next _ _ _ _ _ _ _ Hq) as Hf. cbn [to_first rev app] in *. q_eval.
Qed.

Lemma tailq_foreach {S : Type} fuel (f : S -> nat -> S) xs s m : tailq m xs -> (length xs < fuel)%nat ->
  TAILQ_FOREACH fuel h (fun x s => mret (f s x)) s m = Ok (fold_left f xs s, m).
Proof.
  intros Hq Hf. unfold TAILQ_FOREACH, tqh_first, tqe_next.
  pose proof (linked_next _ _ _ _ [] _ _ Hq) as Hfst. cbn [end_of last] in Hfst.
  eapply M_bind_run; [q_eval|]. apply for_each_visits; [done|done|].
  intros l1 x l2 ->. pose proof (linked_elem_next _ _ _ _ _ _ _ _ Hq). q_eval.
Qed.

Lemma tailq_foreach_reverse {S : Type} fuel (f : S -> nat -> S) xs s m : tailq m xs -> (length xs < fuel)%nat ->
  TAILQ_FOREACH_REVERSE fuel h (fun x s => mret (f s x)) s m = Ok (fold_left f (rev xs) s, m).
Proof.
  intros Hq Hf. unfold TAILQ_FOREACH_REVERSE. eapply M_bind_run; [by apply tailq_last|].
  apply for_each_visits; [done|by rewrite length_rev|]. intros l1 x l2 Hx.
  rewrite (tailq_prev (rev l2) x (rev l1)); [by rewrite rev_involutive|].
  apply (f_equal (@rev nat)) in Hx. rewrite rev_involutive, rev_app_distr in Hx. cbn [rev] in Hx.
  rewrite <- app_assoc in Hx. rewrite Hx in Hq. exact Hq.
Qed.

Lemma tailq_init m : is_Some (nexts m !! Head h) -> is_Some (prevs m !! Head h) ->
  exists m', run (TAILQ_INIT h) m m' /\ tailq m' [] /\ changes_only [Head h] m m'.
Proof.
  intros [w1 H1] [w2 H2]. eexists. split; [unfold TAILQ_INIT, set_tqh_first, set_tqh_last, run; q_eval|].
  split.
  - split; [constructor|]. repeat split; cbn; by rewrite ?lookup_insert_eq.
  - intros q Hq. cbn. rewrite !lookup_insert_ne by set_solver. done.
Qed.
End tailq.

(** ** Lists *)

Section llist.
Import Lists.
Context (h : nat).

Definition llist : store -> list nat -> Prop := linked WSlot WNull false h.
Abbreviation insert_at := (insert_at WSlot WNull false h).
Abbreviation remove_at := (remove_at WSlot WNull false h).

Ltac open_macro :=
  unfold LIST_INSERT_HEAD, LIST_INSERT_AFTER, LIST_INSERT_BEFORE, LIST_REMOVE, lh_first, set_lh_first,
    le_next, le_prev, set_le_next, set_le_prev, if_null.
Ltac same_store := unfold QueueLinks.insert_at, QueueLinks.remove_at; q_same.

Lemma llist_insert_head xs n m : llist m xs -> n ∉ xs -> allocated m n ->
  run (LIST_INSERT_HEAD h n) m (insert_at [] n xs m).
Proof.
  intros Hq Hn [[w1 H1] [w2 H2]]. pose proof (linked_next _ _ _ _ [] _ _ Hq) as Hf. cbn [end_of last] in Hf.
  open_macro. destruct xs as [|y xs]; [q_run; same_store|].
  apply not_elem_of_cons in Hn as [Hny Hn]. pose proof (linked_prev _ _ _ _ [] _ _ _ Hq) as Hy.
  cbn [to_first] in Hf. q_run. same_store.
Qed.

Lemma llist_insert_after l1 l l2 n m : llist m (l1 ++ l :: l2) -> n ∉ l1 ++ l :: l2 -> allocated m n ->
  run (LIST_INSERT_AFTER l n) m (insert_at (l1 ++ [l]) n l2 m).
Proof.
  intros Hq Hn [[w1 H1] [w2 H2]]. apply not_elem_of_app in Hn as [_ [Hnl Hn]%not_elem_of_cons].
  pose proof (linked_elem_next _ _ _ _ _ _ _ _ Hq) as Hf.
  unfold QueueLinks.insert_at. rewrite end_of_snoc. open_macro. destruct l2 as [|y l2]; [q_run; same_store|].
  apply not_elem_of_cons in Hn as [Hny Hn]. pose proof (linked_prev_next _ _ _ _ _ _ _ _ _ Hq) as Hy.
  cbn [to_first] in Hf. q_run. same_store.
Qed.

Lemma llist_insert_before l1 l l2 n m : llist m (l1 ++ l :: l2) -> n ∉ l1 ++ l :: l2 -> allocated m n ->
  run (LIST_INSERT_BEFORE l n) m (insert_at l1 n (l :: l2) m).
Proof.
  intros Hq Hn [[w1 H1] [w2 H2]]. apply not_elem_of_app in Hn as [Hn1 [Hnl Hn]%not_elem_of_cons].
  pose proof (end_of_fresh h l1 n Hn1) as Hne. pose proof (linked_next _ _ _ _ _ _ _ Hq) as Hf.
  pose proof (linked_prev _ _ _ _ _ _ _ _ Hq) as Hp. open_macro. q_run. same_store.
Qed.

Lemma llist_remove l1 x l2 m : llist m (l1 ++ x :: l2) -> run (LIST_REMOVE x) m (remove_at l1 l2 m).
Proof.
  intros Hq. pose proof (linked_elem_next _ _ _ _ _ _ _ _ Hq) as Hx.
  pose proof (linked_next _ _ _ _ _ _ _ Hq) as Hf. pose proof (linked_prev _ _ _ _ _ _ _ _ Hq) as Hp.
  open_macro. destruct l2 as [|y l2]; [q_run; same_store|].
  pose proof (linked_prev_next _ _ _ _ _ _ _ _ _ Hq) as Hy. pose proof (linked_ne _ _ _ _ _ _ _ _ _ Hq).
  cbn [to_first] in Hx. q_run. same_store.
Qed.

Lemma llist_foreach {S : Type} fuel (f : S -> nat -> S) xs s m : llist m xs -> (length xs < fuel)%nat ->
  LIST_FOREACH fuel h (fun x s => mret (f s x)) s m = Ok (fold_left f xs s, m).
Proof.
  intros Hq Hf. unfold LIST_FOREACH, lh_first, le_next.
  pose proof (linked_next _ _ _ _ [] _ _ Hq) as Hfst. cbn [end_of last] in Hfst.
  eapply M_bind_run; [q_eval|]. apply for_each_visits; [done|done|].
  intros l1 x l2 ->. pose proof (linked_elem_next _ _ _ _ _ _ _ _ Hq). q_eval.
Qed.

Lemma llist_init m : is_Some (nexts m !! Head h) ->
  exists m', run (LIST_INIT h) m m' /\ llist m' [] /\ changes_only [Head h] m m'.
Proof.
  intros [w1 H1]. eexists. split; [unfold LIST_INIT, set_lh_first, run; q_eval|]. split.
  - split; [constructor|]. repeat split; cbn; [by rewrite lookup_insert_eq | done].
  - intros q Hq. cbn. rewrite !lookup_insert_ne by set_solver. done.
Qed.
End llist.

(** ** Circular queues *)

Section circleq.
Import Circleq.
Context (h : nat).

Definition circleq : store -> list nat -> Prop := linked WPtr (WPtr (Head h)) true h.
Abbreviation insert_at := (insert_at WPtr (WPtr (Head h)) true h).
Abbreviation remove_at := (remove_at WPtr (WPtr (Head h)) true h).

Ltac open_macro :=
  unfold CIRCLEQ_INSERT_HEAD, CIRCLEQ_INSERT_TAIL, CIRCLEQ_INSERT_AFTER, CIRCLEQ_INSERT_BEFORE, CIRCLEQ_REMOVE,
    cqh_first, cqh_last, set_cqh_first, set_cqh_last, cqe_next, cqe_prev, set_cqe_next, set_cqe_prev, if_head.
Ltac same_store := unfold QueueLinks.insert_at, QueueLinks.remove_at; q_same.

Lemma circleq_insert_head xs n m : circleq m xs -> n ∉ xs -> allocated m n ->
  run (CIRCLEQ_INSERT_HEAD h n) m (insert_at [] n xs m).
Proof.
  intros Hq Hn [[w1 H1] [w2 H2]]. pose proof (linked_next _ _ _ _ [] _ _ Hq) as Hf. cbn [end_of last] in Hf.
  pose proof (linked_last _ _ _ _ _ _ eq_refl Hq) as Hl.
  open_macro. destruct xs as [|y xs]; [q_run; same_store|].
  apply not_elem_of_cons in Hn as [Hny Hn]. pose proof (linked_prev _ _ _ _ [] _ _ _ Hq) as Hy.
  assert (end_of (Head h) (y :: xs) <> Head h) by (unfold end_of; rewrite last_cons; by destruct (last xs)).
  cbn [to_first] in Hf. q_run. same_store.
Qed.

Lemma circleq_insert_tail xs n m : circleq m xs -> n ∉ xs -> allocated m n ->
  run (CIRCLEQ_INSERT_TAIL h n) m (insert_at xs n [] m).
Proof.
  intros Hq Hn [[w1 H1] [w2 H2]]. pose proof (linked_next _ _ _ _ [] _ _ Hq) as Hf. cbn [end_of last] in Hf.
  pose proof (linked_last _ _ _ _ _ _ eq_refl Hq) as Hl.
  pose proof (linked_end _ _ _ _ _ _ Hq) as He.
  open_macro. destruct xs as [|y xs _] using rev_ind; [q_run; same_store|].
  apply not_elem_of_app in Hn as [Hn Hny%not_elem_of_cons]. rewrite end_of_snoc in *.
  assert (exists z, to_first (xs ++ [y]) (WPtr (Head h)) = WPtr (Elem z)) as [z Hz] by (destruct xs; eauto).
  rewrite Hz in Hf. destruct Hny as [Hny _].
  q_run. unfold QueueLinks.insert_at. rewrite end_of_snoc. q_same.
Qed.

Lemma circleq_insert_after l1 l l2 n m : circleq m (l1 ++ l :: l2) -> n ∉ l1 ++ l :: l2 -> allocated m n ->
  run (CIRCLEQ_INSERT_AFTER h l n) m (insert_at (l1 ++ [l]) n l2 m).
Proof.
  intros Hq Hn [[w1 H1] [w2 H2]]. apply not_elem_of_app in Hn as [_ [Hnl Hn]%not_elem_of_cons].
  pose proof (linked_elem_next _ _ _ _ _ _ _ _ Hq) as Hf.
  pose proof (linked_last _ _ _ _ _ _ eq_refl Hq) as Hl.
  unfold QueueLinks.insert_at. rewrite end_of_snoc. open_macro. destruct l2 as [|y l2]; [q_run; same_store|].
  apply not_elem_of_cons in Hn as [Hny Hn]. pose proof (linked_prev_next _ _ _ _ _ _ _ _ _ Hq) as Hy.
  cbn [to_first] in Hf. q_run. same_store.
Qed.

Lemma circleq_insert_before l1 l l2 n m : circleq m (l1 ++ l :: l2) -> n ∉ l1 ++ l :: l2 -> allocated m n ->
  run (CIRCLEQ_INSERT_BEFORE h l n) m (insert_at l1 n (l :: l2) m).
Proof.
  intros Hq Hn [[w1 H1] [w2 H2]]. apply not_elem_of_app in Hn as [Hn1 [Hnl Hn]%not_elem_of_cons].
  pose proof (linked_next _ _ _ _ _ _ _ Hq) as Hf. pose proof (linked_prev _ _ _ _ _ _ _ _ Hq) as Hp.
  unfold QueueLinks.insert_at. open_macro. destruct l1 as [|y l1 _] using rev_ind.
  - cbn [end_of last] in *. q_run. q_same.
  - rewrite end_of_snoc in *. apply not_elem_of_app in Hn1 as [_ [Hny _]%not_elem_of_cons]. q_run. q_same.
Qed.

Lemma circleq_remove l1 x l2 m : circleq m (l1 ++ x :: l2) -> run (CIRCLEQ_REMOVE h x) m (remove_at l1 l2 m).
Proof.
  intros Hq. pose proof (linked_elem_next _ _ _ _ _ _ _ _ Hq) as Hx.
  pose proof (linked_next _ _ _ _ _ _ _ Hq) as Hf. pose proof (linked_prev _ _ _ _ _ _ _ _ Hq) as Hp.
  pose proof (linked_last _ _ _ _ _ _ eq_refl Hq) as Hl.
  unfold QueueLinks.remove_at. open_macro. destruct l2 as [|y l2].
  - destruct l1 as [|z l1 _] using rev_ind; [cbn [end_of last to_first] in * | rewrite !end_of_snoc in *];
      cbn [to_first set_back] in *; q_run; q_same.
  - pose proof (linked_prev_next _ _ _ _ _ _ _ _ _ Hq) as Hy. pose proof (linked_ne _ _ _ _ _ _ _ _ _ Hq).
    destruct l1 as [|z l1 _] using rev_ind; [cbn [end_of last to_first] in * | rewrite !end_of_snoc in *];
      cbn [to_first set_back] in *; q_run; q_same.
Qed.

Lemma circleq_foreach {S : Type} fuel (f : S -> nat -> S) xs s m : circleq m xs -> (length xs < fuel)%nat ->
  CIRCLEQ_FOREACH fuel h (fun x s => mret (f s x)) s m = Ok (fold_left f xs s, m).
Proof.
  intros Hq Hf. unfold CIRCLEQ_FOREACH, cqh_first, cqe_next.
  pose proof (linked_next _ _ _ _ [] _ _ Hq) as Hfst. cbn [end_of last] in Hfst.
  eapply M_bind_run; [q_eval|]. apply for_each_visits; [done|done|].
  intros l1 x l2 ->. pose proof (linked_elem_next _ _ _ _ _ _ _ _ Hq). q_eval.
Qed.

(** The end of a chain as the first of its reverse. *)
Lemma end_of_rev xs : WPtr (end_of (Head h) xs) = to_first (rev xs) (WPtr (Head h)).
Proof. destruct xs as [|x xs _] using rev_ind; [done|]. by rewrite end_of_snoc, rev_app_distr. Qed.

Lemma circleq_foreach_reverse {S : Type} fuel (f : S -> nat -> S) xs s m : circleq m xs -> (length xs < fuel)%nat ->
  CIRCLEQ_FOREACH_REVERSE fuel h (fun x s => mret (f s x)) s m = Ok (fold_left f (rev xs) s, m).
Proof.
  intros Hq Hf. unfold CIRCLEQ_FOREACH_REVERSE, cqh_last, cqe_prev.
  pose proof (linked_last _ _ _ _ _ _ eq_refl Hq) as Hl. rewrite end_of_rev in Hl.
  eapply M_bind_run; [q_eval|]. apply for_each_visits; [done|by rewrite length_rev|]. intros l1 x l2 Hx.
  apply (f_equal (@rev nat)) in Hx. rewrite rev_involutive, rev_app_distr in Hx. cbn [rev] in Hx.
  rewrite <- app_assoc in Hx. rewrite Hx in Hq. pose proof (linked_prev _ _ _ _ _ _ _ _ Hq) as Hp.
  rewrite end_of_rev, rev_involutive in Hp. q_eval.
Qed.

(** The neighbours on the circle: the head is skipped. *)
Lemma circleq_loop_next l1 x l2 m : circleq m (l1 ++ x :: l2) ->
  CIRCLEQ_LOOP_NEXT h x m = Ok (to_first (l2 ++ l1 ++ [x]) WNull, m).
Proof.
  intros Hq. pose proof (linked_elem_next _ _ _ _ _ _ _ _ Hq) as Hx.
  pose proof (linked_next _ _ _ _ [] _ _ Hq) as Hf. cbn [end_of last] in Hf.
  unfold CIRCLEQ_LOOP_NEXT. open_macro. destruct l2 as [|y l2]; cbn [to_first app] in *; [|q_eval].
  assert (to_first (l1 ++ [x]) (WPtr (Head h)) = to_first (l1 ++ [x]) WNull) as E by (by destruct l1).
  rewrite E in Hf. assert (to_first (l1 ++ [x]) WNull <> WUninit) by (by destruct l1). q_eval.
Qed.

Lemma circleq_loop_prev l1 x l2 m : circleq m (l1 ++ x :: l2) ->
  CIRCLEQ_LOOP_PREV h x m = Ok (to_first (rev l1 ++ rev (x :: l2)) WNull, m).
Proof.
  intros Hq. pose proof (linked_prev _ _ _ _ _ _ _ _ Hq) as Hp. rewrite end_of_rev in Hp.
  pose proof (linked_last _ _ _ _ _ _ eq_refl Hq) as Hl. rewrite end_of_rev in Hl.
  unfold CIRCLEQ_LOOP_PREV. open_macro.
  destruct l1 as [|y l1 _] using rev_ind; [|rewrite rev_app_distr in *; cbn [rev to_first app] in *; q_eval].
  cbn [rev to_first app] in *.
  assert (to_first (rev l2 ++ [x]) (WPtr (Head h)) = to_first (rev l2 ++ [x]) WNull) as E by (by destruct (rev l2)).
  rewrite E in Hl. assert (to_first (rev l2 ++ [x]) WNull <> WUninit) by (by destruct (rev l2)). q_eval.
Qed.

Lemma circleq_init m : is_Some (nexts m !! Head h) -> is_Some (prevs m !! Head h) ->
  exists m', run (CIRCLEQ_INIT h) m m' /\ circleq m' [] /\ changes_only [Head h] m m'.
Proof.
  intros [w1 H1] [w2 H2]. eexists. split; [unfold CIRCLEQ_INIT, set_cqh_first, set_cqh_last, run; q_eval|].
  split.
  - split; [constructor|]. repeat split; cbn; by rewrite ?lookup_insert_eq.
  - intros q Hq. cbn. rewrite !lookup_insert_ne by set_solver. done.
Qed.
End circleq.
