(* ===== verification/QueueTails.v ===== *)
(** * Linked queues: singly linked tail queues and concatenation

    STAILQ and SIMPLEQ keep a chain without the words that lead back, and
    the address of its last word in the head.  [stailq] represents them;
    every insertion is [stq_insert_at] and every removal [stq_remove_at].
    The concatenation of two queues, of STAILQ and of TAILQ, is here too. *)

From stdpp Require Import base numbers gmap list.
From Stdlib Require Import Lia.
From S2P Require Import Prelude QueueMem Queues QueueFacts QueueLinks.

Section stailq.
Import Stailq.
Context (h : nat).

Definition stailq (m : store) (xs : list nat) : Prop :=
  NoDup xs /\ path (nexts m) (Head h) xs WNull /\ prevs m !! Head h = Some (WSlot (end_of (Head h) xs)).

(** The last word is set when nothing follows. *)
Definition set_end (xs : list nat) (p : loc) (ps : gmap loc word) : gmap loc word :=
  match xs with [] => <[Head h := WSlot p]> ps | _ => ps end.

Definition stq_insert_at (l1 : list nat) (n : nat) (l2 : list nat) (m : store) : store :=
  Store (<[end_of (Head h) l1 := WPtr (Elem n)]> (<[Elem n := to_first l2 WNull]> (nexts m)))
        (set_end l2 (Elem n) (prevs m)).

Definition stq_remove_at (l1 l2 : list nat) (m : store) : store :=
  Store (<[end_of (Head h) l1 := to_first l2 WNull]> (nexts m)) (set_end l2 (end_of (Head h) l1) (prevs m)).

Lemma stq_insert_at_stailq l1 n l2 m : stailq m (l1 ++ l2) -> n ∉ l1 ++ l2 ->
  stailq (stq_insert_at l1 n l2 m) (l1 ++ n :: l2).
Proof.
  intros (Hd & Hp & Ht) Hn. pose proof (proj1 (not_elem_of_app _ _ _) Hn) as [Hn1 Hn2].
  pose proof (end_of_fresh h l1 n Hn1) as Hne. split; [|split].
  - rewrite <- Permutation_middle. by apply NoDup_cons.
  - eapply path_insert; [by apply locs_head_nodup | done | | |]; cbn [stq_insert_at nexts].
    + apply lookup_insert_eq.
    + rewrite lookup_insert_ne by done. apply lookup_insert_eq.
    + intros q Hq Hqe. rewrite !lookup_insert_ne; [done | | done].
      intros <-. by apply elem_locs in Hq as [[=]|].
  - cbn [stq_insert_at prevs]. rewrite end_of_app. destruct l2 as [|y l2]; cbn [set_end].
    + apply lookup_insert_eq.
    + by rewrite Ht, end_of_app, end_of_cons.
Qed.

Lemma stq_remove_at_stailq l1 x l2 m : stailq m (l1 ++ x :: l2) -> stailq (stq_remove_at l1 l2 m) (l1 ++ l2).
Proof.
  intros (Hd & Hp & Ht). split; [|split].
  - rewrite <- Permutation_middle in Hd. by apply NoDup_cons in Hd as [_ ?].
  - eapply path_remove; [by apply locs_head_nodup | done | apply lookup_insert_eq |].
    intros q _ Hq. by apply lookup_insert_ne.
  - cbn [stq_remove_at prevs]. destruct l2 as [|y l2]; cbn [set_end].
    + rewrite app_nil_r. apply lookup_insert_eq.
    + by rewrite Ht, !end_of_app, end_of_cons.
Qed.

(** The words of the chain. *)
Lemma stailq_next l1 l2 m : stailq m (l1 ++ l2) -> nexts m !! end_of (Head h) l1 = Some (to_first l2 WNull).
Proof. intros (_ & [Hp _]%path_app & _). by apply path_end in Hp. Qed.

Lemma stailq_elem_next l1 x l2 m : stailq m (l1 ++ x :: l2) -> nexts m !! Elem x = Some (to_first l2 WNull).
Proof. by intros (_ & [_ [Hx _]]%path_app & _). Qed.

Lemma stailq_last xs m : stailq m xs -> prevs m !! Head h = Some (WSlot (end_of (Head h) xs)).
Proof. by intros (_ & _ & Ht). Qed.

Ltac open_macro :=
  unfold STAILQ_INSERT_HEAD, STAILQ_INSERT_TAIL, STAILQ_INSERT_AFTER, STAILQ_REMOVE_HEAD,
    stqh_first, stqh_last, set_stqh_first, set_stqh_last, stqe_next, set_stqe_next, if_null.

Lemma stailq_insert_head xs n m : stailq m xs -> is_Some (nexts m !! Elem n) ->
  run (STAILQ_INSERT_HEAD h n) m (stq_insert_at [] n xs m).
Proof.
  intros Hq [w1 H1]. pose proof (stailq_next [] _ _ Hq) as Hf. cbn [end_of last] in Hf.
  pose proof (stailq_last _ _ Hq) as Hl. open_macro. destruct xs as [|y xs]; cbn [to_first] in Hf; q_run; reflexivity.
Qed.

Lemma stailq_insert_tail xs n m : stailq m xs -> n ∉ xs -> is_Some (nexts m !! Elem n) ->
  run (STAILQ_INSERT_TAIL h n) m (stq_insert_at xs n [] m).
Proof.
  intros Hq Hn [w1 H1]. pose proof (end_of_fresh h xs n Hn) as Hne. pose proof (stailq_last _ _ Hq) as Hl.
  pose proof (stailq_next xs [] m) as Hf. rewrite app_nil_r in Hf. specialize (Hf Hq).
  open_macro. q_run. reflexivity.
Qed.

Lemma stailq_insert_after l1 l l2 n m : stailq m (l1 ++ l :: l2) -> n <> l -> is_Some (nexts m !! Elem n) ->
  run (STAILQ_INSERT_AFTER h l n) m (stq_insert_at (l1 ++ [l]) n l2 m).
Proof.
  intros Hq Hn [w1 H1]. pose proof (stailq_elem_next _ _ _ _ Hq) as Hf. pose proof (stailq_last _ _ Hq) as Hl.
  unfold stq_insert_at. rewrite end_of_snoc. open_macro.
  destruct l2 as [|y l2]; cbn [to_first] in Hf; q_run; reflexivity.
Qed.

Lemma stailq_remove_head x xs m : stailq m (x :: xs) -> run (STAILQ_REMOVE_HEAD h) m (stq_remove_at [] xs m).
Proof.
  intros Hq. pose proof (stailq_next [] _ _ Hq) as Hf. cbn [end_of last to_first] in Hf.
  pose proof (stailq_elem_next [] _ _ _ Hq) as Hx. pose proof (stailq_last _ _ Hq) as Hl.
  open_macro. destruct xs as [|y xs]; cbn [to_first] in Hx; q_run; reflexivity.
Qed.

(** The walk ends before the element it looks for. *)
Lemma stailq_find_ok fuel cs : forall c x l2 m, rest (nexts m) (c :: cs ++ x :: l2) WNull -> x ∉ c :: cs ->
  (length cs < fuel)%nat -> exists d, stailq_find fuel c x m = Ok (d, m) /\ Elem d = end_of (Elem c) cs.
Proof.
  revert fuel. induction cs as [|c' cs IH]; intros [|fuel] c x l2 m [Hc Hr] Hx Hf; cbn in Hf; try lia;
    cbn [stailq_find app to_first] in *.
  - exists c. split; [|done]. unfold stqe_next. q_eval.
  - apply not_elem_of_cons in Hx as [_ Hx]. destruct (IH fuel c' x l2 m) as (d & Hd & He); [done|done|lia|].
    exists d. rewrite end_of_cons. split; [|done]. unfold stqe_next.
    eapply M_bind_run; [q_eval|]. cbv beta. rewrite decide_False.
    + eapply M_bind_run; [q_eval | done].
    + intros [= ->]. apply Hx. left.
Qed.

Lemma stailq_remove fuel l1 x l2 m : stailq m (l1 ++ x :: l2) -> (length l1 <= fuel)%nat ->
  run (STAILQ_REMOVE fuel h x) m (stq_remove_at l1 l2 m).
Proof.
  intros Hq Hf. pose proof (stailq_next [] _ _ Hq) as Hfst. cbn [end_of last to_first] in Hfst.
  unfold STAILQ_REMOVE, run, stqh_first. eapply M_bind_run; [q_eval|]. cbv beta.
  destruct l1 as [|c l1]; cbn [app to_first] in *.
  { rewrite decide_True by done. by eapply stailq_remove_head. }
  pose proof Hq as (Hd & [_ Hr] & _). assert (Hx : x ∉ c :: l1).
  { intros Hin. apply (NoDup_app (c :: l1)) in Hd as (_ & Hd & _). apply (Hd x Hin). left. }
  rewrite decide_False by (intros [= ->]; apply Hx; left).
  destruct (stailq_find_ok fuel l1 c x l2 m Hr Hx Hf) as (d & Hfind & He).
  pose proof (stailq_next (c :: l1) _ _ Hq) as Hn. rewrite end_of_cons, <- He in Hn. cbn [to_first] in Hn.
  pose proof (stailq_elem_next (c :: l1) _ _ _ Hq) as Hxn. pose proof (stailq_last _ _ Hq) as Hl.
  eapply M_bind_run; [apply M_ret_at|]. eapply M_bind_run; [exact Hfind|]. cbv beta.
  unfold stq_remove_at. rewrite end_of_cons, <- He. unfold stqe_next, set_stqe_next, set_stqh_last, if_null.
  destruct l2 as [|y l2]; cbn [to_first set_end] in *; (etransitivity; [q_eval | reflexivity]).
Qed.

Lemma stailq_foreach {S : Type} fuel (f : S -> nat -> S) xs s m : stailq m xs -> (length xs < fuel)%nat ->
  STAILQ_FOREACH fuel h (fun x s => mret (f s x)) s m = Ok (fold_left f xs s, m).
Proof.
  intros Hq Hf. unfold STAILQ_FOREACH, stqh_first, stqe_next.
  pose proof (stailq_next [] _ _ Hq) as Hfst. cbn [end_of last] in Hfst.
  eapply M_bind_run; [q_eval|]. apply for_each_visits; [done|done|].
  intros l1 x l2 ->. pose proof (stailq_elem_next _ _ _ _ Hq). q_eval.
Qed.

Lemma stailq_init m : is_Some (nexts m !! Head h) -> is_Some (prevs m !! Head h) ->
  exists m', run (STAILQ_INIT h) m m' /\ stailq m' [] /\ changes_only [Head h] m m'.
Proof.
  intros [w1 H1] [w2 H2]. eexists. split; [unfold STAILQ_INIT, set_stqh_first, set_stqh_last, run; q_eval|].
  split.
  - split; [constructor|]. repeat split; cbn; by rewrite ?lookup_insert_eq.
  - intros q Hq. cbn. rewrite !lookup_insert_ne by set_solver. done.
Qed.

(** A removal puts every word back but the one of the element. *)
Lemma set_end_same l2 m l1 : stailq m (l1 ++ l2) -> set_end l2 (end_of (Head h) l1) (prevs m) = prevs m.
Proof.
  intros Hq. destruct l2 as [|y l2]; [|done]. cbn [set_end]. apply insert_id. rewrite app_nil_r in Hq.
  by apply stailq_last.
Qed.

Lemma stq_remove_insert_at l1 n l2 m : stailq m (l1 ++ l2) -> n ∉ l1 ++ l2 ->
  stq_remove_at l1 l2 (stq_insert_at l1 n l2 m) = Store (<[Elem n := to_first l2 WNull]> (nexts m)) (prevs m).
Proof.
  intros Hq Hn. apply not_elem_of_app in Hn as [Hn1 Hn2]. pose proof (end_of_fresh h l1 n Hn1).
  unfold stq_remove_at, stq_insert_at. cbn [nexts prevs]. f_equal.
  - rewrite insert_insert_eq, insert_insert_ne by done. f_equal. apply insert_id. by apply stailq_next.
  - rewrite <- (set_end_same l2 m l1 Hq) at 2. destruct l2; [|done]. cbn. apply insert_insert_eq.
Qed.

Lemma set_end_outside xs p ps q : q <> Head h -> set_end xs p ps !! q = ps !! q.
Proof. intros. destruct xs; [by apply lookup_insert_ne | done]. Qed.

Lemma stq_insert_at_changes l1 n l2 m : changes_only (locs (Head h) (l1 ++ n :: l2)) m (stq_insert_at l1 n l2 m).
Proof.
  intros q Hq. pose proof (not_end_of _ _ _ _ Hq). pose proof (not_in_locs _ _ _ Hq) as [Hh Hx].
  assert (q <> Elem n) by (apply Hx, elem_of_app; right; left). cbn [stq_insert_at nexts prevs].
  rewrite !lookup_insert_ne by done. split; [done|]. by apply set_end_outside.
Qed.

Lemma stq_remove_at_changes l1 l2 m : changes_only (locs (Head h) (l1 ++ l2)) m (stq_remove_at l1 l2 m).
Proof.
  intros q Hq. pose proof (not_end_of _ _ _ _ Hq). pose proof (not_in_locs _ _ _ Hq) as [Hh _].
  cbn [stq_remove_at nexts prevs]. rewrite !lookup_insert_ne by done. split; [done|]. by apply set_end_outside.
Qed.
End stailq.

(** ** Concatenation *)

Section concat.
Context (h1 h2 : nat) (xs : list nat) (y : nat) (ys : list nat).
Hypothesis (Hh : h1 <> h2) (Hd : NoDup (xs ++ y :: ys)).

Lemma end_not_head2 : Head h2 <> end_of (Head h1) xs.
Proof. unfold end_of. destruct (last xs); congruence. Qed.

Lemma second_not_end z : z ∈ y :: ys -> Elem z <> end_of (Head h1) xs.
Proof. intros Hz. apply end_of_fresh. intros Hx. apply NoDup_app in Hd as (_ & Hd' & _). by apply (Hd' z). Qed.

Lemma path_concat ns e : path ns (Head h1) xs WNull -> rest ns (y :: ys) e ->
  path (<[Head h2 := WNull]> (<[end_of (Head h1) xs := WPtr (Elem y)]> ns)) (Head h1) (xs ++ y :: ys) e.
Proof.
  intros Hx Hy. pose proof end_not_head2. apply path_app. split.
  - eapply path_change_end; [apply locs_head_nodup; by apply NoDup_app in Hd as [? _] | done | |].
    + intros q Hq Hqe. rewrite !lookup_insert_ne; [done | done |]. intros <-.
      unfold locs in Hq. apply elem_of_cons in Hq as [[=]|(? & [=] & _)%list_elem_of_fmap]. congruence.
    + rewrite lookup_insert_ne by done. apply lookup_insert_eq.
  - eapply rest_ext; [|done]. intros z Hz. rewrite !lookup_insert_ne; [done | | done].
    apply not_eq_sym. by apply second_not_end.
Qed.

Import Stailq.

Lemma stailq_concat_cons m : stailq h1 m xs -> stailq h2 m (y :: ys) ->
  exists m', run (STAILQ_CONCAT h1 h2) m m' /\ stailq h1 m' (xs ++ y :: ys) /\ stailq h2 m' [].
Proof.
  intros Hx Hy. pose proof (stailq_next h2 [] _ _ Hy) as Hf. cbn [end_of last to_first] in Hf.
  pose proof (stailq_last _ _ _ Hx) as Hl1. pose proof (stailq_last _ _ _ Hy) as Hl2.
  destruct Hx as (Hdx & Hpx & _). destruct Hy as (Hdy & [_ Hry] & _). pose proof (path_end _ _ _ _ Hpx) as He.
  pose proof end_not_head2. eexists. split.
  { unfold run, STAILQ_CONCAT, STAILQ_EMPTY, STAILQ_INIT, stqh_first, stqh_last, set_stqh_first, set_stqh_last.
    eapply M_bind_run; [q_eval|]. cbv beta. rewrite bool_decide_false by done. cbv iota. q_eval. }
  split; (split; [done || constructor | split; cbn [nexts prevs]]).
  - by apply path_concat.
  - rewrite lookup_insert_ne, lookup_insert_eq, end_of_app, end_of_cons by congruence. done.
  - split; [apply lookup_insert_eq | done].
  - apply lookup_insert_eq.
Qed.

Import Tailq.

Lemma tailq_concat_cons m : tailq h1 m xs -> tailq h2 m (y :: ys) ->
  exists m', run (TAILQ_CONCAT h1 h2) m m' /\ tailq h1 m' (xs ++ y :: ys) /\ tailq h2 m' [].
Proof.
  intros Hx Hy. pose proof (linked_next _ _ _ h2 [] _ _ Hy) as Hf. cbn [end_of last to_first] in Hf.
  pose proof (linked_last _ _ _ _ _ _ eq_refl Hx) as Hl1. pose proof (linked_last _ _ _ _ _ _ eq_refl Hy) as Hl2.
  pose proof (linked_prev _ _ _ _ [] _ _ _ Hy) as Hpy. pose proof (linked_end _ _ _ _ _ _ Hx) as He.
  destruct Hx as (Hdx & Hpx & Hbx & _). destruct Hy as (Hdy & [_ Hry] & [_ Hby] & _).
  pose proof end_not_head2. eexists. split.
  { unfold run, TAILQ_CONCAT, TAILQ_EMPTY, TAILQ_INIT, tqh_first, tqh_last, set_tqh_first, set_tqh_last, set_tqe_prev.
    eapply M_bind_run; [q_eval|]. cbv beta. rewrite bool_decide_false by done. cbv iota. q_eval. }
  split; (split; [done || constructor | split; [|split]]); cbn [nexts prevs].
  - by apply path_concat.
  - apply back_app. split; [|split].
    + eapply back_ext; [|done]. intros z Hz. rewrite !lookup_insert_ne; [done | | done..].
      intros [= ->]. apply NoDup_app in Hd as (_ & Hd' & _). apply (Hd' z Hz). left.
    + rewrite !lookup_insert_ne by congruence. apply lookup_insert_eq.
    + eapply back_ext; [|done]. intros z Hz. rewrite !lookup_insert_ne; [done | | done..].
      intros [= ->]. by apply NoDup_cons in Hdy as [? _].
  - intros _. rewrite lookup_insert_ne, lookup_insert_eq, end_of_app, end_of_cons by congruence. done.
  - split; [apply lookup_insert_eq | done].
  - done.
  - intros _. apply lookup_insert_eq.
Qed.
End concat.

Lemma stailq_concat h1 h2 xs ys m : h1 <> h2 -> NoDup (xs ++ ys) -> stailq h1 m xs -> stailq h2 m ys ->
  exists m', run (Stailq.STAILQ_CONCAT h1 h2) m m' /\ stailq h1 m' (xs ++ ys) /\ stailq h2 m' [].
Proof.
  intros Hh Hd Hx Hy. destruct ys as [|y ys]; [|by apply stailq_concat_cons].
  exists m. rewrite app_nil_r. split; [|done]. pose proof (stailq_next h2 [] [] m Hy) as Hf.
  unfold run, Stailq.STAILQ_CONCAT, Stailq.STAILQ_EMPTY, Stailq.stqh_first. cbn [end_of last to_first] in Hf.
  eapply M_bind_run; [q_eval|]. done.
Qed.

Lemma tailq_concat h1 h2 xs ys m : h1 <> h2 -> NoDup (xs ++ ys) -> tailq h1 m xs -> tailq h2 m ys ->
  exists m', run (Tailq.TAILQ_CONCAT h1 h2) m m' /\ tailq h1 m' (xs ++ ys) /\ tailq h2 m' [].
Proof.
  intros Hh Hd Hx Hy. destruct ys as [|y ys]; [|by apply tailq_concat_cons].
  exists m. rewrite app_nil_r. split; [|done]. pose proof (linked_next _ _ _ h2 [] [] m Hy) as Hf.
  unfold run, Tailq.TAILQ_CONCAT, Tailq.TAILQ_EMPTY, Tailq.tqh_first. cbn [end_of last to_first] in Hf.
  eapply M_bind_run; [q_eval|]. done.
Qed.
