(* ===== verification/QueueSpec.v ===== *)
(** * Linked queues: the contract

    What the five families promise alike: a queue holds a list of elements,
    an edit of the list is a macro of the family (a family need not have a
    macro for every edit), and the loop of the family visits the list.
    [LinkedQueue] is this contract; [trace_refines] is proved against it:
    any sequence of edits leaves the queue that the edits of the list give. *)

From stdpp Require Import base numbers gmap list.
From Stdlib Require Import Lia.
From S2P Require Import Prelude QueueMem QueueFacts.

(** ** Edits of a list *)

Inductive edit_op : Set :=
| InsertHead (n : nat)
| InsertTail (n : nat)
| InsertAfter (l n : nat)
| InsertBefore (l n : nat)
| Remove (x : nat).

(** The element an edit adds. *)
Definition added (o : edit_op) : list nat :=
  match o with InsertHead n | InsertTail n | InsertAfter _ n | InsertBefore _ n => [n] | Remove _ => [] end.

(** What precedes and what follows [x]. *)
Fixpoint split_at (x : nat) (xs : list nat) : option (list nat * list nat) :=
  match xs with
  | [] => None
  | y :: r => if decide (y = x) then Some ([], r) else '(l1, l2) ← split_at x r; Some (y :: l1, l2)
  end.

Definition edit (o : edit_op) (xs : list nat) : option (list nat) :=
  if bool_decide (Forall (fun n => n ∉ xs) (added o)) then
    match o with
    | InsertHead n => Some (n :: xs)
    | InsertTail n => Some (xs ++ [n])
    | InsertAfter l n => '(l1, l2) ← split_at l xs; Some (l1 ++ l :: n :: l2)
    | InsertBefore l n => '(l1, l2) ← split_at l xs; Some (l1 ++ n :: l :: l2)
    | Remove x => '(l1, l2) ← split_at x xs; Some (l1 ++ l2)
    end
  else None.

Fixpoint edits (os : list edit_op) (xs : list nat) : option (list nat) :=
  match os with [] => Some xs | o :: os => ys ← edit o xs; edits os ys end.

Lemma split_at_some x xs l1 l2 : split_at x xs = Some (l1, l2) -> xs = l1 ++ x :: l2.
Proof.
  revert l1. induction xs as [|y xs IH]; intros l1; cbn; [done|].
  case_decide; [by intros [= <- <-]; subst|].
  destruct (split_at x xs) as [[k1 k2]|]; [|done]. intros [= <- <-]. cbn. f_equal. by apply IH.
Qed.

(** The five forms of an edit that is possible. *)
Lemma edit_cases o xs ys (P : Prop) : edit o xs = Some ys ->
  (forall n, o = InsertHead n -> n ∉ xs -> ys = n :: xs -> P) ->
  (forall n, o = InsertTail n -> n ∉ xs -> ys = xs ++ [n] -> P) ->
  (forall l1 l l2 n, o = InsertAfter l n -> xs = l1 ++ l :: l2 -> n ∉ xs -> ys = (l1 ++ [l]) ++ n :: l2 -> P) ->
  (forall l1 l l2 n, o = InsertBefore l n -> xs = l1 ++ l :: l2 -> n ∉ xs -> ys = l1 ++ n :: l :: l2 -> P) ->
  (forall l1 x l2, o = Remove x -> xs = l1 ++ x :: l2 -> ys = l1 ++ l2 -> P) -> P.
Proof.
  unfold edit. case_bool_decide as Hn; [|done].
  destruct o as [n|n|l n|l n|x]; cbn [added] in Hn; rewrite ?Forall_singleton in Hn;
    intros H H1 H2 H3 H4 H5; [injection H as <-; by eapply H1 | injection H as <-; by eapply H2 | ..];
    (destruct (split_at _ xs) as [[l1 l2]|] eqn:E; [|done]); apply split_at_some in E; cbn in H; injection H as <-.
  - eapply H3; [done..|]. by rewrite <- app_assoc.
  - by eapply H4.
  - by eapply H5.
Qed.

Lemma edit_length o xs ys : edit o xs = Some ys -> (length ys <= S (length xs))%nat.
Proof.
  intros H. eapply edit_cases; [exact H|..]; intros; subst; rewrite ?length_app; cbn; rewrite ?length_app; cbn; lia.
Qed.

(** ** The contract *)

Class LinkedQueue : Type := {
  rep : nat -> store -> list nat -> Prop;
  start : nat -> M unit;
  macro : nat -> nat -> edit_op -> option (M unit);
  elements : nat -> nat -> M (list nat);
  rep_start h m : is_Some (nexts m !! Head h) -> is_Some (prevs m !! Head h) ->
    exists m', run (start h) m m' /\ rep h m' [] /\ changes_only [Head h] m m';
  rep_edit fuel h m xs ys o c :
    rep h m xs -> macro fuel h o = Some c -> edit o xs = Some ys -> (length xs <= fuel)%nat ->
    Forall (allocated m) (added o) ->
    exists m', run c m m' /\ rep h m' ys /\ (forall n, allocated m n -> allocated m' n) /\
      changes_only (locs (Head h) (added o ++ xs)) m m';
  rep_undo fuel h m xs ys o n c c' :
    rep h m xs -> macro fuel h o = Some c -> macro fuel h (Remove n) = Some c' -> edit o xs = Some ys ->
    added o = [n] -> (length xs <= fuel)%nat -> allocated m n ->
    exists m', run (c ;; c') m m' /\ rep h m' xs /\ changes_only [Elem n] m m';
  rep_elements fuel h m xs : rep h m xs -> (length xs < fuel)%nat -> elements fuel h m = Ok (xs, m) }.

Section client.
Context `{Q : LinkedQueue}.

(** The macros of a sequence of edits, one after the other. *)
Fixpoint perform (fuel h : nat) (os : list edit_op) : option (M unit) :=
  match os with
  | [] => Some (mret tt)
  | o :: os => c ← macro fuel h o; k ← perform fuel h os; Some (c ;; k)
  end.

Lemma trace_refines fuel h os : forall m xs ys c,
  rep h m xs -> perform fuel h os = Some c -> edits os xs = Some ys -> (length xs + length os < fuel)%nat ->
  Forall (allocated m) (os ≫= added) ->
  exists m', run c m m' /\ rep h m' ys /\ elements fuel h m' = Ok (ys, m') /\
    changes_only (locs (Head h) ((os ≫= added) ++ xs)) m m'.
Proof.
  induction os as [|o os IH]; intros m xs ys c Hr Hc Hy Hf Ha; cbn [perform edits length] in *.
  - injection Hc as <-. injection Hy as <-. exists m. split; [done|]. split; [done|].
    split; [|by intros q Hq]. apply rep_elements; [done | lia].
  - destruct (macro fuel h o) as [c1|] eqn:Ec; [|done]. cbn in Hc.
    destruct (perform fuel h os) as [k|] eqn:Ek; [|done]. cbn in Hc. injection Hc as <-.
    destruct (edit o xs) as [zs|] eqn:Ez; [|done]. cbn in Hy. cbn in Ha. apply Forall_app in Ha as [Ha1 Ha2].
    destruct (rep_edit fuel h m xs zs o c1) as (m1 & Hrun & Hr1 & Hal & Hch); [done..|lia|done|].
    pose proof (edit_length _ _ _ Ez) as Hlen.
    destruct (IH m1 zs ys k) as (m2 & Hrun2 & Hr2 & Hel & Hch2); [done..|lia|by eapply Forall_impl|].
    exists m2. split; [|split; [done|split; [done|]]].
    + unfold run in *. eapply M_bind_run; [exact Hrun | exact Hrun2].
    + intros q Hq. assert (Hq1 : q ∉ locs (Head h) (added o ++ xs)).
      { intros Hin. apply Hq. unfold locs in *. cbn. rewrite <- app_assoc, !fmap_app in *. set_solver. }
      assert (Hq2 : q ∉ locs (Head h) ((os ≫= added) ++ zs)).
      { intros Hin. apply Hq. assert (Hz : forall z, z ∈ zs -> z ∈ added o ++ xs).
        { eapply edit_cases; [exact Ez|..]; intros; subst; cbn; set_solver. }
        unfold locs in *. cbn. apply elem_of_cons in Hin as [->|Hin]; [left|right].
        apply list_elem_of_fmap in Hin as (z & -> & Hz'). apply list_elem_of_fmap_2.
        apply elem_of_app in Hz' as [?|Hz']; [|apply Hz in Hz']; set_solver. }
      destruct (Hch q Hq1) as [E1 E2]. destruct (Hch2 q Hq2) as [E3 E4]. split; congruence.
Qed.
End client.
