(* ===== verification/QueueProps.v ===== *)
(** * Linked queues: the theorems

    The five families of sys/queue.h discharge the contract of [QueueSpec];
    the theorems say what sequences of macros do to a queue, that a removal
    undoes an insertion, in which order the loops go, and what a
    concatenation leaves. *)

From stdpp Require Import base numbers gmap list.
From Stdlib Require Import Lia.
From S2P Require Import Prelude QueueMem Queues QueueFacts QueueLinks QueueTails QueueSpec.
Import Lists Stailq Simpleq Tailq Circleq.

(** ** What an edit leaves *)

Definition done_edit (R : store -> list nat -> Prop) (h : nat) (c : M unit) (m : store) (ns xs ys : list nat) : Prop :=
  exists m', run c m m' /\ R m' ys /\ (forall n, allocated m n -> allocated m' n) /\
    changes_only (locs (Head h) (ns ++ xs)) m m'.

Lemma changes_only_mono ps qs m m' : (forall q, q ∈ ps -> q ∈ qs) -> changes_only ps m m' -> changes_only qs m m'.
Proof. intros Hs Hc q Hq. apply Hc. intros Hin. by apply Hq, Hs. Qed.

Lemma locs_sub p xs ys : (forall x, x ∈ xs -> x ∈ ys) -> forall q, q ∈ locs p xs -> q ∈ locs p ys.
Proof.
  intros Hs q Hq. unfold locs in *. apply elem_of_cons in Hq as [->|Hq]; [left|right].
  apply list_elem_of_fmap in Hq as (x & -> & Hx). apply list_elem_of_fmap_2. by apply Hs.
Qed.

Lemma some_insert (ns : gmap loc word) p w q : is_Some (ns !! q) -> is_Some (<[p := w]> ns !! q).
Proof. intros. apply lookup_insert_is_Some'. by right. Qed.

(** An insertion that is taken back. *)
Definition undone (R : store -> list nat -> Prop) (c : M unit) (m : store) (n : nat) (xs : list nat) : Prop :=
  exists m', run c m m' /\ R m' xs /\ changes_only [Elem n] m m'.

Lemma run_seq c c' m m1 m2 : run c m m1 -> run c' m1 m2 -> run (c ;; c') m m2.
Proof. unfold run. intros H1 H2. by eapply M_bind_run. Qed.

Section linked_edits.
Context (b : loc -> word) (e : word) (tl : bool) (h : nat).

Lemma some_set_back xs w ps q : is_Some (ps !! q) -> is_Some (set_back tl h xs w ps !! q).
Proof. intros. destruct xs; cbn; [destruct tl; [|done]|]; by apply some_insert. Qed.

Lemma linked_insert_done c m l1 n l2 xs : linked b e tl h m xs -> xs = l1 ++ l2 -> n ∉ xs ->
  run c m (insert_at b e tl h l1 n l2 m) -> done_edit (linked b e tl h) h c m [n] xs (l1 ++ n :: l2).
Proof.
  intros Hl -> Hn Hr. exists (insert_at b e tl h l1 n l2 m). split; [done|]. split; [by apply insert_at_linked|].
  split.
  - intros k [H1 H2]. split; cbn; repeat apply some_insert; [done | by apply some_set_back].
  - eapply changes_only_mono; [|apply insert_at_changes]. apply locs_sub. set_solver.
Qed.

Lemma linked_remove_done c m l1 x l2 xs : linked b e tl h m xs -> xs = l1 ++ x :: l2 ->
  run c m (remove_at b e tl h l1 l2 m) -> done_edit (linked b e tl h) h c m [] xs (l1 ++ l2).
Proof.
  intros Hl -> Hr. exists (remove_at b e tl h l1 l2 m). split; [done|].
  split; [by eapply remove_at_linked|]. split.
  - intros k [H1 H2]. split; cbn; [by apply some_insert | by apply some_set_back].
  - eapply changes_only_mono; [|apply remove_at_changes]. apply locs_sub. cbn. set_solver.
Qed.

Lemma linked_undone c c' m l1 n l2 xs : linked b e tl h m xs -> xs = l1 ++ l2 -> n ∉ xs ->
  run c m (insert_at b e tl h l1 n l2 m) ->
  (forall m1, linked b e tl h m1 (l1 ++ n :: l2) -> run c' m1 (remove_at b e tl h l1 l2 m1)) ->
  undone (linked b e tl h) (c ;; c') m n xs.
Proof.
  intros Hl -> Hn Hr Hr'. pose proof (insert_at_linked _ _ _ _ _ _ _ _ Hl Hn) as Hl'.
  exists (remove_at b e tl h l1 l2 (insert_at b e tl h l1 n l2 m)).
  split; [by eapply run_seq; [|apply Hr']|]. split; [by eapply remove_at_linked|].
  rewrite remove_insert_at by done. intros q Hq. cbn. by rewrite !lookup_insert_ne by set_solver.
Qed.
End linked_edits.

Section stailq_edits.
Context (h : nat).

Lemma some_set_end xs p ps q : is_Some (ps !! q) -> is_Some (set_end h xs p ps !! q).
Proof. intros. destruct xs; [by apply some_insert | done]. Qed.

Lemma stailq_insert_done c m l1 n l2 xs : stailq h m xs -> xs = l1 ++ l2 -> n ∉ xs ->
  run c m (stq_insert_at h l1 n l2 m) -> done_edit (stailq h) h c m [n] xs (l1 ++ n :: l2).
Proof.
  intros Hl -> Hn Hr. exists (stq_insert_at h l1 n l2 m). split; [done|]. split; [by apply stq_insert_at_stailq|].
  split.
  - intros k [H1 H2]. split; cbn; [by repeat apply some_insert | by apply some_set_end].
  - eapply changes_only_mono; [|apply stq_insert_at_changes]. apply locs_sub. set_solver.
Qed.

Lemma stailq_remove_done c m l1 x l2 xs : stailq h m xs -> xs = l1 ++ x :: l2 ->
  run c m (stq_remove_at h l1 l2 m) -> done_edit (stailq h) h c m [] xs (l1 ++ l2).
Proof.
  intros Hl -> Hr. exists (stq_remove_at h l1 l2 m). split; [done|].
  split; [by eapply stq_remove_at_stailq|]. split.
  - intros k [H1 H2]. split; cbn; [by apply some_insert | by apply some_set_end].
  - eapply changes_only_mono; [|apply stq_remove_at_changes]. apply locs_sub. cbn. set_solver.
Qed.

Lemma stailq_undone c c' m l1 n l2 xs : stailq h m xs -> xs = l1 ++ l2 -> n ∉ xs ->
  run c m (stq_insert_at h l1 n l2 m) ->
  (forall m1, stailq h m1 (l1 ++ n :: l2) -> run c' m1 (stq_remove_at h l1 l2 m1)) ->
  undone (stailq h) (c ;; c') m n xs.
Proof.
  intros Hl -> Hn Hr Hr'. pose proof (stq_insert_at_stailq _ _ _ _ _ Hl Hn) as Hl'.
  exists (stq_remove_at h l1 l2 (stq_insert_at h l1 n l2 m)).
  split; [by eapply run_seq; [|apply Hr']|]. split; [by eapply stq_remove_at_stailq|].
  rewrite stq_remove_insert_at by done. intros q Hq. cbn. by rewrite !lookup_insert_ne by set_solver.
Qed.
End stailq_edits.

(** ** The macros of each family *)

Definition collect (x : nat) (s : list nat) : M (list nat) := mret (s ++ [x]).

Definition list_macro (fuel h : nat) (o : edit_op) : option (M unit) :=
  match o with
  | InsertHead n => Some (LIST_INSERT_HEAD h n)
  | InsertTail n => None
  | InsertAfter l n => Some (LIST_INSERT_AFTER l n)
  | InsertBefore l n => Some (LIST_INSERT_BEFORE l n)
  | Remove x => Some (LIST_REMOVE x)
  end.

Definition stailq_macro (fuel h : nat) (o : edit_op) : option (M unit) :=
  match o with
  | InsertHead n => Some (STAILQ_INSERT_HEAD h n)
  | InsertTail n => Some (STAILQ_INSERT_TAIL h n)
  | InsertAfter l n => Some (STAILQ_INSERT_AFTER h l n)
  | InsertBefore l n => None
  | Remove x => Some (STAILQ_REMOVE fuel h x)
  end.

Definition simpleq_macro (fuel h : nat) (o : edit_op) : option (M unit) :=
  match o with
  | InsertHead n => Some (SIMPLEQ_INSERT_HEAD h n)
  | InsertTail n => Some (SIMPLEQ_INSERT_TAIL h n)
  | InsertAfter l n => Some (SIMPLEQ_INSERT_AFTER h l n)
  | InsertBefore l n => None
  | Remove x => Some (SIMPLEQ_REMOVE fuel h x)
  end.

Definition tailq_macro (fuel h : nat) (o : edit_op) : option (M unit) :=
  match o with
  | InsertHead n => Some (TAILQ_INSERT_HEAD h n)
  | InsertTail n => Some (TAILQ_INSERT_TAIL h n)
  | InsertAfter l n => Some (TAILQ_INSERT_AFTER h l n)
  | InsertBefore l n => Some (TAILQ_INSERT_BEFORE l n)
  | Remove x => Some (TAILQ_REMOVE h x)
  end.

Definition circleq_macro (fuel h : nat) (o : edit_op) : option (M unit) :=
  match o with
  | InsertHead n => Some (CIRCLEQ_INSERT_HEAD h n)
  | InsertTail n => Some (CIRCLEQ_INSERT_TAIL h n)
  | InsertAfter l n => Some (CIRCLEQ_INSERT_AFTER h l n)
  | InsertBefore l n => Some (CIRCLEQ_INSERT_BEFORE h l n)
  | Remove x => Some (CIRCLEQ_REMOVE h x)
  end.

Lemma collect_all (xs : list nat) : forall s, fold_left (fun s x => s ++ [x]) xs s = s ++ xs.
Proof.
  induction xs as [|x xs IH]; intros s; cbn; [by rewrite app_nil_r|]. rewrite IH. by rewrite <- app_assoc.
Qed.

(** The forms of one edit of a family. *)
Ltac edit_forms :=
  let Hr := fresh "Hr" in let Hc := fresh "Hc" in let He := fresh "He" in let Hf := fresh "Hf" in
  let Ha := fresh "Ha" in let Hn := fresh "Hn" in let Hx := fresh "Hx" in
  intros Hr Hc He Hf Ha; eapply edit_cases; [exact He|..];
  [ intros n -> Hn -> | intros n -> Hn -> | intros l1 l l2 n -> Hx Hn -> | intros l1 l l2 n -> Hx Hn ->
  | intros l1 x l2 -> Hx -> ];
  cbn in Hc; try discriminate Hc; injection Hc as <-; cbn [added] in *; rewrite ?Forall_singleton in Ha.

Lemma snoc_split (l1 : list nat) l l2 : l1 ++ l :: l2 = (l1 ++ [l]) ++ l2.
Proof. by rewrite <- app_assoc. Qed.

Lemma tailq_edit fuel h m xs ys o c :
  tailq h m xs -> tailq_macro fuel h o = Some c -> edit o xs = Some ys -> (length xs <= fuel)%nat ->
  Forall (allocated m) (added o) -> done_edit (tailq h) h c m (added o) xs ys.
Proof.
  edit_forms.
  - apply (linked_insert_done _ _ _ _ _ _ []); [done..|]. by apply tailq_insert_head.
  - eapply (linked_insert_done _ _ _ _ _ _ xs n []); [done | by rewrite app_nil_r | done |]. by apply tailq_insert_tail.
  - eapply linked_insert_done; [done | by rewrite Hx, snoc_split | done |]. subst. by apply tailq_insert_after.
  - eapply linked_insert_done; [done..|]. subst. by apply tailq_insert_before.
  - eapply linked_remove_done; [done..|]. subst. by eapply tailq_remove.
Qed.

Lemma llist_edit fuel h m xs ys o c :
  llist h m xs -> list_macro fuel h o = Some c -> edit o xs = Some ys -> (length xs <= fuel)%nat ->
  Forall (allocated m) (added o) -> done_edit (llist h) h c m (added o) xs ys.
Proof.
  edit_forms.
  - apply (linked_insert_done _ _ _ _ _ _ []); [done..|]. by apply llist_insert_head.
  - eapply linked_insert_done; [done | by rewrite Hx, snoc_split | done |]. subst. by apply llist_insert_after.
  - eapply linked_insert_done; [done..|]. subst. by apply llist_insert_before.
  - eapply linked_remove_done; [done..|]. subst. by eapply llist_remove.
Qed.

Lemma circleq_edit fuel h m xs ys o c :
  circleq h m xs -> circleq_macro fuel h o = Some c -> edit o xs = Some ys -> (length xs <= fuel)%nat ->
  Forall (allocated m) (added o) -> done_edit (circleq h) h c m (added o) xs ys.
Proof.
  edit_forms.
  - apply (linked_insert_done _ _ _ _ _ _ []); [done..|]. by apply circleq_insert_head.
  - eapply (linked_insert_done _ _ _ _ _ _ xs n []); [done | by rewrite app_nil_r | done |]. by apply circleq_insert_tail.
  - eapply linked_insert_done; [done | by rewrite Hx, snoc_split | done |]. subst. by apply circleq_insert_after.
  - eapply linked_insert_done; [done..|]. subst. by apply circleq_insert_before.
  - eapply linked_remove_done; [done..|]. subst. by eapply circleq_remove.
Qed.

Lemma stailq_edit fuel h m xs ys o c :
  stailq h m xs -> stailq_macro fuel h o = Some c -> edit o xs = Some ys -> (length xs <= fuel)%nat ->
  Forall (allocated m) (added o) -> done_edit (stailq h) h c m (added o) xs ys.
Proof.
  edit_forms.
  - apply (stailq_insert_done _ _ _ []); [done..|]. by apply stailq_insert_head, Ha.
  - eapply (stailq_insert_done _ _ _ xs n []); [done | by rewrite app_nil_r | done |].
    by apply stailq_insert_tail, Ha.
  - eapply stailq_insert_done; [done | by rewrite Hx, snoc_split | done |]. subst.
    apply stailq_insert_after; [done | set_solver | apply Ha].
  - eapply stailq_remove_done; [done..|]. subst. apply stailq_remove; [done|].
    rewrite length_app in Hf. cbn in Hf. lia.
Qed.

(** The forms of one insertion of a family. *)
Ltac undo_forms :=
  let Hr := fresh "Hr" in let Hc := fresh "Hc" in let Hc' := fresh "Hc'" in let He := fresh "He" in
  let Hadd := fresh "Hadd" in let Hf := fresh "Hf" in let Ha := fresh "Ha" in let Hn := fresh "Hn" in
  let Hx := fresh "Hx" in
  intros Hr Hc Hc' He Hadd Hf Ha; eapply edit_cases; [exact He|..];
  [ intros k -> Hn _ | intros k -> Hn _ | intros l1 l l2 k -> Hx Hn _ | intros l1 l l2 k -> Hx Hn _
  | intros l1 x l2 -> Hx _ ];
  try discriminate Hadd; injection Hadd as ->; cbn in Hc, Hc'; try discriminate Hc;
  injection Hc as <-; injection Hc' as <-.

Lemma tailq_undo fuel h m xs ys o n c c' :
  tailq h m xs -> tailq_macro fuel h o = Some c -> tailq_macro fuel h (Remove n) = Some c' ->
  edit o xs = Some ys -> added o = [n] -> (length xs <= fuel)%nat -> allocated m n ->
  undone (tailq h) (c ;; c') m n xs.
Proof.
  undo_forms.
  - eapply (linked_undone _ _ _ _ _ _ _ []); [done..| |by intros; eapply tailq_remove]. by apply tailq_insert_head.
  - eapply (linked_undone _ _ _ _ _ _ _ xs n []); [done | by rewrite app_nil_r | done | |
      by intros; eapply tailq_remove]. by apply tailq_insert_tail.
  - eapply linked_undone; [done | by rewrite Hx, snoc_split | done | | by intros; eapply tailq_remove].
    subst. by apply tailq_insert_after.
  - eapply linked_undone; [done..| |by intros; eapply tailq_remove]. subst. by apply tailq_insert_before.
Qed.

Lemma llist_undo fuel h m xs ys o n c c' :
  llist h m xs -> list_macro fuel h o = Some c -> list_macro fuel h (Remove n) = Some c' ->
  edit o xs = Some ys -> added o = [n] -> (length xs <= fuel)%nat -> allocated m n ->
  undone (llist h) (c ;; c') m n xs.
Proof.
  undo_forms.
  - eapply (linked_undone _ _ _ _ _ _ _ []); [done..| |by intros; eapply llist_remove]. by apply llist_insert_head.
  - eapply linked_undone; [done | by rewrite Hx, snoc_split | done | | by intros; eapply llist_remove].
    subst. by apply llist_insert_after.
  - eapply linked_undone; [done..| |by intros; eapply llist_remove]. subst. by apply llist_insert_before.
Qed.

Lemma circleq_undo fuel h m xs ys o n c c' :
  circleq h m xs -> circleq_macro fuel h o = Some c -> circleq_macro fuel h (Remove n) = Some c' ->
  edit o xs = Some ys -> added o = [n] -> (length xs <= fuel)%nat -> allocated m n ->
  undone (circleq h) (c ;; c') m n xs.
Proof.
  undo_forms.
  - eapply (linked_undone _ _ _ _ _ _ _ []); [done..| |by intros; eapply circleq_remove].
    by apply circleq_insert_head.
  - eapply (linked_undone _ _ _ _ _ _ _ xs n []); [done | by rewrite app_nil_r | done | |
      by intros; eapply circleq_remove]. by apply circleq_insert_tail.
  - eapply linked_undone; [done | by rewrite Hx, snoc_split | done | | by intros; eapply circleq_remove].
    subst. by apply circleq_insert_after.
  - eapply linked_undone; [done..| |by intros; eapply circleq_remove]. subst. by apply circleq_insert_before.
Qed.

Lemma stailq_undo fuel h m xs ys o n c c' :
  stailq h m xs -> stailq_macro fuel h o = Some c -> stailq_macro fuel h (Remove n) = Some c' ->
  edit o xs = Some ys -> added o = [n] -> (length xs <= fuel)%nat -> allocated m n ->
  undone (stailq h) (c ;; c') m n xs.
Proof.
  undo_forms.
  - eapply (stailq_undone _ _ _ _ []); [done..| |by intros; apply stailq_remove; [|cbn; lia]].
    by apply stailq_insert_head, Ha.
  - eapply (stailq_undone _ _ _ _ xs n []); [done | by rewrite app_nil_r | done | |
      by intros; apply stailq_remove]. by apply stailq_insert_tail, Ha.
  - assert (length (l1 ++ [l]) <= fuel)%nat by (rewrite Hx, length_app in Hf; rewrite length_app; cbn in *; lia).
    eapply stailq_undone; [done | by rewrite Hx, snoc_split | done | | by intros; apply stailq_remove].
    subst. apply stailq_insert_after; [done | set_solver | apply Ha].
Qed.

(** SIMPLEQ is STAILQ under other names. *)
Lemma simpleq_macro_eq : simpleq_macro = stailq_macro.
Proof. reflexivity. Qed.

(** The loops give the list. *)
Lemma llist_elements fuel h m xs : llist h m xs -> (length xs < fuel)%nat ->
  LIST_FOREACH fuel h collect [] m = Ok (xs, m).
Proof. intros. unfold collect. by rewrite (llist_foreach _ _ _ xs), collect_all. Qed.

Lemma stailq_elements fuel h m xs : stailq h m xs -> (length xs < fuel)%nat ->
  STAILQ_FOREACH fuel h collect [] m = Ok (xs, m).
Proof. intros. unfold collect. by rewrite (stailq_foreach _ _ _ xs), collect_all. Qed.

Lemma tailq_elements fuel h m xs : tailq h m xs -> (length xs < fuel)%nat ->
  TAILQ_FOREACH fuel h collect [] m = Ok (xs, m).
Proof. intros. unfold collect. by rewrite (tailq_foreach _ _ _ xs), collect_all. Qed.

Lemma circleq_elements fuel h m xs : circleq h m xs -> (length xs < fuel)%nat ->
  CIRCLEQ_FOREACH fuel h collect [] m = Ok (xs, m).
Proof. intros. unfold collect. by rewrite (circleq_foreach _ _ _ xs), collect_all. Qed.

(** ** The instances of the contract *)

#[export] Instance list_queue : LinkedQueue := {|
  rep := llist; start := LIST_INIT; macro := list_macro;
  elements fuel h := LIST_FOREACH fuel h collect [];
  rep_start h m H _ := llist_init h m H; rep_edit := llist_edit; rep_undo := llist_undo;
  rep_elements := llist_elements |}.

#[export] Instance stailq_queue : LinkedQueue := {|
  rep := stailq; start := STAILQ_INIT; macro := stailq_macro;
  elements fuel h := STAILQ_FOREACH fuel h collect [];
  rep_start := stailq_init; rep_edit := stailq_edit; rep_undo := stailq_undo;
  rep_elements := stailq_elements |}.

#[export] Instance simpleq_queue : LinkedQueue := {|
  rep := stailq; start := SIMPLEQ_INIT; macro := simpleq_macro;
  elements fuel h := SIMPLEQ_FOREACH fuel h collect [];
  rep_start := stailq_init; rep_edit := stailq_edit; rep_undo := stailq_undo;
  rep_elements := stailq_elements |}.

#[export] Instance tailq_queue : LinkedQueue := {|
  rep := tailq; start := TAILQ_INIT; macro := tailq_macro;
  elements fuel h := TAILQ_FOREACH fuel h collect [];
  rep_start := tailq_init; rep_edit := tailq_edit; rep_undo := tailq_undo;
  rep_elements := tailq_elements |}.

#[export] Instance circleq_queue : LinkedQueue := {|
  rep := circleq; start := CIRCLEQ_INIT; macro := circleq_macro;
  elements fuel h := CIRCLEQ_FOREACH fuel h collect [];
  rep_start := circleq_init; rep_edit := circleq_edit; rep_undo := circleq_undo;
  rep_elements := circleq_elements |}.

Inductive family : Set := LIST | STAILQ | SIMPLEQ | TAILQ | CIRCLEQ.

Definition queue_of (k : family) : LinkedQueue :=
  match k with
  | LIST => list_queue
  | STAILQ => stailq_queue
  | SIMPLEQ => simpleq_queue
  | TAILQ => tailq_queue
  | CIRCLEQ => circleq_queue
  end.

(** A head that is defined with the initialiser of its family is an empty
    queue. *)
Definition defined_with (m : store) (h : nat) (ws : word * word) : Prop :=
  nexts m !! Head h = Some ws.1 /\ prevs m !! Head h = Some ws.2.

Lemma initialised_heads h m :
  (nexts m !! Head h = Some LIST_HEAD_INITIALIZER -> llist h m []) /\
  (defined_with m h (STAILQ_HEAD_INITIALIZER h) -> stailq h m []) /\
  (defined_with m h (SIMPLEQ_HEAD_INITIALIZER h) -> stailq h m []) /\
  (defined_with m h (TAILQ_HEAD_INITIALIZER h) -> tailq h m []) /\
  (defined_with m h (CIRCLEQ_HEAD_INITIALIZER h) -> circleq h m []).
Proof.
  split; [intros H1 | split; [|split; [|split]]; intros [H1 H2]];
    (split; [apply NoDup_nil_2 | by repeat split]).
Qed.

(** ** Theorems *)

(** A head and some elements that the caller has allocated, their words not
    yet written. *)
Definition fresh_store (hs ns : list nat) : store :=
  let words := list_to_map ((fun p => (p, WUninit)) <$> (Head <$> hs) ++ (Elem <$> ns)) in Store words words.

(** C24: for each of the five families, initialising a head and performing
    any sequence of insertions and removals that is possible on a list
    (every added element is new, every position is in the list) ends without
    a fault, the loop of the family then visits exactly the list that the
    edits give, and no structure but the head and the added elements is
    changed. *)
Theorem queue_trace (k : family) fuel h os m c ys :
  is_Some (nexts m !! Head h) -> is_Some (prevs m !! Head h) ->
  perform (Q := queue_of k) fuel h os = Some c -> edits os [] = Some ys ->
  (length os < fuel)%nat -> Forall (allocated m) (os ≫= added) ->
  exists m', run (start (LinkedQueue := queue_of k) h;; c) m m' /\
    elements (LinkedQueue := queue_of k) fuel h m' = Ok (ys, m') /\
    changes_only (locs (Head h) (os ≫= added)) m m'.
Proof.
  intros Hh1 Hh2 Hc Hy Hf Ha.
  destruct (rep_start (LinkedQueue := queue_of k) h m Hh1 Hh2) as (m1 & Hr1 & Hrep & Hch).
  destruct (trace_refines (Q := queue_of k) fuel h os m1 [] ys c) as (m2 & Hr2 & _ & Hel & Hch2); [done..| |].
  { eapply Forall_impl; [exact Ha|]. intros n [H1 H2]. destruct (Hch (Elem n)) as [E1 E2]; [set_solver|].
    split; by rewrite ?E1, ?E2. }
  exists m2. split; [unfold run in *; eapply M_bind_run; [exact Hr1 | exact Hr2]|]. split; [done|].
  rewrite app_nil_r in Hch2. intros q Hq. destruct (Hch2 q Hq) as [-> ->]. apply Hch.
  intros Hin. apply Hq. unfold locs. set_solver.
Qed.

Definition some_edits : list edit_op :=
  [InsertHead 2; InsertAfter 2 5; InsertHead 1; Remove 2; InsertAfter 5 6; Remove 6; InsertAfter 1 2].

Definition some_program : M unit := default (mret tt) (perform (Q := queue_of CIRCLEQ) 10 0 some_edits).

Lemma queue_trace_witness : exists m',
  run (start (LinkedQueue := queue_of CIRCLEQ) 0;; some_program) (fresh_store [0] [1; 2; 5; 6]) m' /\
  elements (LinkedQueue := queue_of CIRCLEQ) 10 0 m' = Ok ([1; 2; 5], m').
Proof.
  destruct (queue_trace CIRCLEQ 10 0 some_edits (fresh_store [0] [1; 2; 5; 6]) some_program [1; 2; 5])
    as (m' & Hr & Hel & _); [by eexists | by eexists | reflexivity | reflexivity | cbn; lia | |].
  - repeat apply Forall_cons_2; try apply Forall_nil_2; split; by eexists.
  - exists m'. split; [exact Hr | exact Hel].
Defined.

(** For each of the five families, an insertion anywhere in a queue
    followed by the removal of the inserted element puts every word of the
    head and of the other elements back; only the words of the removed
    element are left changed. *)
Theorem queue_undo (k : family) fuel h m xs ys o n c c' :
  rep (LinkedQueue := queue_of k) h m xs ->
  macro (LinkedQueue := queue_of k) fuel h o = Some c ->
  macro (LinkedQueue := queue_of k) fuel h (Remove n) = Some c' ->
  edit o xs = Some ys -> added o = [n] -> (length xs <= fuel)%nat -> allocated m n ->
  exists m', run (c;; c') m m' /\ rep (LinkedQueue := queue_of k) h m' xs /\ changes_only [Elem n] m m'.
Proof. apply rep_undo. Qed.

(** The queues that lead back, TAILQ and CIRCLEQ, are visited in one
    order by the forward loop and in the opposite order by the reverse
    loop, whatever the body computes, and the loops leave the queue alone;
    TAILQ reaches its last and previous elements through the words of the
    neighbour, read as those of a head. *)
Theorem queue_reverse {S : Type} fuel h (f : S -> nat -> S) s xs m : (length xs < fuel)%nat ->
  (tailq h m xs ->
     TAILQ_FOREACH fuel h (fun x s => mret (f s x)) s m = Ok (fold_left f xs s, m) /\
     TAILQ_FOREACH_REVERSE fuel h (fun x s => mret (f s x)) s m = Ok (fold_left f (rev xs) s, m) /\
     TAILQ_LAST h m = Ok (to_first (rev xs) WNull, m) /\
     forall l1 x l2, xs = l1 ++ x :: l2 -> TAILQ_PREV x m = Ok (to_first (rev l1) WNull, m)) /\
  (circleq h m xs ->
     CIRCLEQ_FOREACH fuel h (fun x s => mret (f s x)) s m = Ok (fold_left f xs s, m) /\
     CIRCLEQ_FOREACH_REVERSE fuel h (fun x s => mret (f s x)) s m = Ok (fold_left f (rev xs) s, m)).
Proof.
  intros Hf. split; intros Hq.
  - split; [by apply tailq_foreach|]. split; [by apply tailq_foreach_reverse|]. split; [by apply tailq_last|].
    intros l1 x l2 ->. by eapply tailq_prev.
  - split; [by apply circleq_foreach | by apply circleq_foreach_reverse].
Qed.

(** A tail queue of three elements. *)
Definition three : store :=
  match (TAILQ_INIT 0;; TAILQ_INSERT_TAIL 0 2;; TAILQ_INSERT_HEAD 0 1;; TAILQ_INSERT_TAIL 0 3)
          (fresh_store [0; 9] [1; 2; 3; 4]) with
  | Ok (_, m) => m
  | Fault _ => fresh_store [] []
  end.

Lemma three_tailq : tailq 0 three [1; 2; 3].
Proof.
  split; [|by repeat split].
  repeat (apply NoDup_cons; split; [set_solver|]). apply NoDup_nil_2.
Qed.

Lemma queue_reverse_witness :
  TAILQ_FOREACH_REVERSE 4 0 (fun x s => mret (s ++ [x])) [] three = Ok ([3; 2; 1], three).
Proof.
  destruct (queue_reverse 4 0 (fun s x => s ++ [x]) [] [1; 2; 3] three) as [H _]; [cbn; lia|].
  destruct (H three_tailq) as (_ & Hr & _). exact Hr.
Defined.

Lemma queue_undo_witness : exists m',
  run (TAILQ_INSERT_AFTER 0 2 4;; TAILQ_REMOVE 0 4) three m' /\ tailq 0 m' [1; 2; 3] /\
  changes_only [Elem 4] three m'.
Proof.
  apply (queue_undo TAILQ 10 0 three [1; 2; 3] [1; 2; 4; 3] (InsertAfter 2 4) 4);
    [apply three_tailq | reflexivity.. | cbn; lia |]. split; by eexists.
Defined.

(** STAILQ_CONCAT and TAILQ_CONCAT append the second queue to the first
    and leave the second one empty, also when one of them is empty. *)
Theorem queue_concat h1 h2 xs ys m : h1 <> h2 -> NoDup (xs ++ ys) ->
  (stailq h1 m xs -> stailq h2 m ys ->
     exists m', run (STAILQ_CONCAT h1 h2) m m' /\ stailq h1 m' (xs ++ ys) /\ stailq h2 m' []) /\
  (tailq h1 m xs -> tailq h2 m ys ->
     exists m', run (TAILQ_CONCAT h1 h2) m m' /\ tailq h1 m' (xs ++ ys) /\ tailq h2 m' []).
Proof. intros Hh Hd. split; [by apply stailq_concat | by apply tailq_concat]. Qed.

(** A second queue of one element beside the first. *)
Definition two_queues : store :=
  match (TAILQ_INIT 9;; TAILQ_INSERT_TAIL 9 4) three with Ok (_, m) => m | Fault _ => three end.

Lemma queue_concat_witness :
  exists m', run (TAILQ_CONCAT 0 9) two_queues m' /\ tailq 0 m' [1; 2; 3; 4] /\ tailq 9 m' [].
Proof.
  apply (queue_concat 0 9 [1; 2; 3] [4] two_queues).
  - done.
  - repeat (apply NoDup_cons; split; [set_solver|]). apply NoDup_nil_2.
  - split; [|by repeat split]. repeat (apply NoDup_cons; split; [set_solver|]). apply NoDup_nil_2.
  - split; [|by repeat split]. repeat (apply NoDup_cons; split; [set_solver|]). apply NoDup_nil_2.
Defined.

(** On a circular queue CIRCLEQ_LOOP_NEXT leads from each element to the
    one after it and from the last one to the first, and CIRCLEQ_LOOP_PREV
    the other way round: the head is never returned. *)
Theorem circleq_loop h l1 x l2 m : circleq h m (l1 ++ x :: l2) ->
  CIRCLEQ_LOOP_NEXT h x m = Ok (to_first (l2 ++ l1 ++ [x]) WNull, m) /\
  CIRCLEQ_LOOP_PREV h x m = Ok (to_first (rev l1 ++ rev (x :: l2)) WNull, m).
Proof. intros Hq. split; [by apply circleq_loop_next | by apply circleq_loop_prev]. Qed.

Definition circle : store :=
  match (CIRCLEQ_INIT 0;; CIRCLEQ_INSERT_TAIL 0 7;; CIRCLEQ_INSERT_TAIL 0 8) (fresh_store [0] [7; 8]) with
  | Ok (_, m) => m
  | Fault _ => fresh_store [] []
  end.

Lemma circleq_loop_witness :
  CIRCLEQ_LOOP_NEXT 0 8 circle = Ok (WPtr (Elem 7), circle) /\
  CIRCLEQ_LOOP_PREV 0 8 circle = Ok (WPtr (Elem 7), circle).
Proof.
  apply (circleq_loop 0 [7] 8 [] circle).
  split; [|by repeat split]. repeat (apply NoDup_cons; split; [set_solver|]). apply NoDup_nil_2.
Defined.
