(* ===== verification/ByteOrder.v ===== *)
(** * Byte order (linux/swab.h, linux/byteorder, bits/byteswap.h)

    The functions that reverse the bytes of 16-, 32- and 64-bit values, the
    conversions between the byte order of the machine and the little- and
    big-endian formats for both kinds of machine, and the ones of the C
    library for network byte order.  [le_bytes] is the reference: the bytes
    of a value, the least significant first. *)

From stdpp Require Import base numbers strings gmap list.
From Stdlib Require Import Btauto.
From S2P Require Import Prelude CMem CString.

#[local] Open Scope Z_scope.

(** ** Bytes *)

Definition chr (z : Z) : char := Ascii.ascii_of_N (Z.to_N (u8 z)).
Definition ord (c : char) : Z := Z.of_N (Ascii.N_of_ascii c).

(** The [n] low bytes of a value, the least significant first. *)
Fixpoint le_bytes (n : nat) (x : Z) : list char :=
  match n with
  | O => []
  | S n' => chr x :: le_bytes n' (x / 256)
  end.

Fixpoint le_value (l : list char) : Z :=
  match l with
  | [] => 0
  | c :: r => ord c + 256 * le_value r
  end.

(** ** Reversing bytes (linux/swab.h) *)

Definition ___constant_swab16 (x : Z) : Z :=
  u16 (Z.lor (Z.shiftl (Z.land (u16 x) 0x00ff) 8) (Z.shiftr (Z.land (u16 x) 0xff00) 8)).

Definition ___constant_swab32 (x : Z) : Z :=
  u32 (Z.lor (Z.lor (Z.lor
    (u32 (Z.shiftl (Z.land (u32 x) 0x000000ff) 24))
    (u32 (Z.shiftl (Z.land (u32 x) 0x0000ff00) 8)))
    (Z.shiftr (Z.land (u32 x) 0x00ff0000) 8))
    (Z.shiftr (Z.land (u32 x) 0xff000000) 24)).

Definition ___constant_swab64 (x : Z) : Z :=
  u64 (Z.lor (Z.lor (Z.lor (Z.lor (Z.lor (Z.lor (Z.lor
    (u64 (Z.shiftl (Z.land (u64 x) 0x00000000000000ff) 56))
    (u64 (Z.shiftl (Z.land (u64 x) 0x000000000000ff00) 40)))
    (u64 (Z.shiftl (Z.land (u64 x) 0x0000000000ff0000) 24)))
    (u64 (Z.shiftl (Z.land (u64 x) 0x00000000ff000000) 8)))
    (Z.shiftr (Z.land (u64 x) 0x000000ff00000000) 8))
    (Z.shiftr (Z.land (u64 x) 0x0000ff0000000000) 24))
    (Z.shiftr (Z.land (u64 x) 0x00ff000000000000) 40))
    (Z.shiftr (Z.land (u64 x) 0xff00000000000000) 56)).

Definition ___constant_swahw32 (x : Z) : Z :=
  u32 (Z.lor (u32 (Z.shiftl (Z.land (u32 x) 0x0000ffff) 16)) (Z.shiftr (Z.land (u32 x) 0xffff0000) 16)).

Definition ___constant_swahb32 (x : Z) : Z :=
  u32 (Z.lor (u32 (Z.shiftl (Z.land (u32 x) 0x00ff00ff) 8)) (Z.shiftr (Z.land (u32 x) 0xff00ff00) 8)).

(** asm/swab.h of the target defines no [__arch_] function; with
    __SWAB_64_THRU_32__ the 64-bit one goes through the 32-bit one. *)
Definition __fswab16 (val : Z) : Z := ___constant_swab16 (u16 val).
Definition __fswab32 (val : Z) : Z := ___constant_swab32 (u32 val).
Definition __fswab64 (swab_64_thru_32 : bool) (val : Z) : Z :=
  if swab_64_thru_32 then
    let h := u32 (Z.shiftr (u64 val) 32) in
    let l := u32 (Z.land (u64 val) (Z.shiftl 1 32 - 1)) in
    Z.lor (u64 (Z.shiftl (__fswab32 l) 32)) (__fswab32 h)
  else ___constant_swab64 (u64 val).
Definition __fswahw32 (val : Z) : Z := ___constant_swahw32 (u32 val).
Definition __fswahb32 (val : Z) : Z := ___constant_swahb32 (u32 val).

(** [constant]: what __builtin_constant_p() answers. *)
Section Swab.
Context (constant swab_64_thru_32 : bool).

Definition __swab16 (x : Z) : Z := if constant then ___constant_swab16 x else __fswab16 x.
Definition __swab32 (x : Z) : Z := if constant then ___constant_swab32 x else __fswab32 x.
Definition __swab64 (x : Z) : Z := if constant then ___constant_swab64 x else __fswab64 swab_64_thru_32 x.
Definition __swahw32 (x : Z) : Z := if constant then ___constant_swahw32 x else __fswahw32 x.
Definition __swahb32 (x : Z) : Z := if constant then ___constant_swahb32 x else __fswahb32 x.
End Swab.

(** ** bits/byteswap.h: with an old compiler the functions are the macros *)

Definition __bswap_constant_16 (x : Z) : Z :=
  u16 (Z.lor (Z.land (Z.shiftr x 8) 0xff) (Z.shiftl (Z.land x 0xff) 8)).

Definition __bswap_constant_32 (x : Z) : Z :=
  Z.lor (Z.lor (Z.lor
    (Z.shiftr (Z.land x 0xff000000) 24)
    (Z.shiftr (Z.land x 0x00ff0000) 8))
    (u32 (Z.shiftl (Z.land x 0x0000ff00) 8)))
    (u32 (Z.shiftl (Z.land x 0x000000ff) 24)).

Definition __bswap_constant_64 (x : Z) : Z :=
  Z.lor (Z.lor (Z.lor (Z.lor (Z.lor (Z.lor (Z.lor
    (Z.shiftr (Z.land x 0xff00000000000000) 56)
    (Z.shiftr (Z.land x 0x00ff000000000000) 40))
    (Z.shiftr (Z.land x 0x0000ff0000000000) 24))
    (Z.shiftr (Z.land x 0x000000ff00000000) 8))
    (u64 (Z.shiftl (Z.land x 0x00000000ff000000) 8)))
    (u64 (Z.shiftl (Z.land x 0x0000000000ff0000) 24)))
    (u64 (Z.shiftl (Z.land x 0x000000000000ff00) 40)))
    (u64 (Z.shiftl (Z.land x 0x00000000000000ff) 56)).

Definition __bswap_16 (x : Z) : Z := __bswap_constant_16 (u16 x).
Definition __bswap_32 (x : Z) : Z := __bswap_constant_32 (u32 x).
Definition __bswap_64 (x : Z) : Z := __bswap_constant_64 (u64 x).

(** ** Values in memory *)

(** The byte order of the machine. *)
Inductive host : Set := Little | Big.

(** The bytes a machine stores for a value of [n] bytes. *)
Definition image (e : host) (n : nat) (x : Z) : list char :=
  match e with Little => le_bytes n x | Big => rev (le_bytes n x) end.

Definition load_uint (e : host) (h : heap) (p : ptr) (n : nat) : res Z :=
  l ← load_bytes h p (Z.of_nat n);
  Ok (le_value match e with Little => l | Big => rev l end).

Definition store_uint (e : host) (h : heap) (p : ptr) (n : nat) (x : Z) : res heap :=
  store_bytes h p (image e n x).

(** The functions of linux/swab.h on a value in memory, and in place; the
    value is not a constant. *)
Section SwabMem.
Context (e : host) (thru : bool) (h : heap) (p : ptr).

Definition __swab16p : res Z := x ← load_uint e h p 2; Ok (__swab16 false x).
Definition __swab32p : res Z := x ← load_uint e h p 4; Ok (__swab32 false x).
Definition __swab64p : res Z := x ← load_uint e h p 8; Ok (__swab64 false thru x).
Definition __swahw32p : res Z := x ← load_uint e h p 4; Ok (__swahw32 false x).
Definition __swahb32p : res Z := x ← load_uint e h p 4; Ok (__swahb32 false x).

Definition __swab16s : res heap := x ← __swab16p; store_uint e h p 2 x.
Definition __swab32s : res heap := x ← __swab32p; store_uint e h p 4 x.
Definition __swab64s : res heap := x ← __swab64p; store_uint e h p 8 x.
Definition __swahw32s : res heap := x ← __swahw32p; store_uint e h p 4 x.
Definition __swahb32s : res heap := x ← __swahb32p; store_uint e h p 4 x.
End SwabMem.

(** Network byte order (netinet/in.h): the identity where the machine has it
    already. *)
Section Network.
Context (e : host).

Definition __uint16_identity (x : Z) : Z := u16 x.
Definition __uint32_identity (x : Z) : Z := u32 x.
Definition __uint64_identity (x : Z) : Z := u64 x.

Definition ntohl (x : Z) : Z := match e with Big => __uint32_identity x | Little => __bswap_32 x end.
Definition ntohs (x : Z) : Z := match e with Big => __uint16_identity x | Little => __bswap_16 x end.
Definition htonl (x : Z) : Z := match e with Big => __uint32_identity x | Little => __bswap_32 x end.
Definition htons (x : Z) : Z := match e with Big => __uint16_identity x | Little => __bswap_16 x end.
End Network.

(** ** Facts *)

Lemma ord_range c : 0 <= ord c < 256.
Proof. unfold ord. pose proof (Ascii.N_ascii_bounded c). lia. Qed.

Lemma ord_chr z : ord (chr z) = z mod 256.
Proof.
  unfold ord, chr, u8. change (2 ^ 8) with 256. pose proof (Z.mod_pos_bound z 256 ltac:(lia)).
  rewrite Ascii.N_ascii_embedding by lia. lia.
Qed.

Lemma chr_ord c : chr (ord c) = c.
Proof.
  unfold chr, ord. pose proof (Ascii.N_ascii_bounded c). rewrite u8_small by lia.
  rewrite N2Z.id. apply Ascii.ascii_N_embedding.
Qed.

Lemma length_le_bytes n x : length (le_bytes n x) = n.
Proof. revert x. induction n as [|n IH]; intros x; [done|]. cbn. by rewrite IH. Qed.

Lemma le_value_range l : 0 <= le_value l < 256 ^ zlen l.
Proof.
  induction l as [|c l IH]; [done|]. rewrite zlen_cons. cbn [le_value]. pose proof (ord_range c).
  rewrite Z.pow_add_r by (pose proof (zlen_nonneg l); lia). lia.
Qed.

Lemma le_value_bytes n x : 0 <= x < 256 ^ Z.of_nat n -> le_value (le_bytes n x) = x.
Proof.
  revert x. induction n as [|n IH]; intros x Hx; [change (256 ^ Z.of_nat 0) with 1 in Hx; cbn; lia|].
  cbn [le_bytes le_value]. rewrite Nat2Z.inj_succ, Z.pow_succ_r in Hx by lia. rewrite IH, ord_chr.
  - pose proof (Z.div_mod x 256). lia.
  - split; [apply Z.div_pos; lia|]. apply Z.div_lt_upper_bound; lia.
Qed.

Lemma le_bytes_value l : le_bytes (length l) (le_value l) = l.
Proof.
  induction l as [|c l IH]; [done|]. cbn [length le_bytes le_value]. pose proof (ord_range c). f_equal.
  - rewrite <- (chr_ord c) at 2. unfold chr, u8. do 2 f_equal. change (2 ^ 8) with 256.
    rewrite (Z.mul_comm 256), Z.mod_add by lia. by rewrite Z.mod_small.
  - rewrite (Z.mul_comm 256), Z.div_add, Z.div_small by lia. exact IH.
Qed.

(** A contiguous field of a value. *)
Lemma land_field x w s : 0 <= w -> 0 <= s -> Z.land x (Z.shiftl (Z.ones w) s) = (x / 2 ^ s) mod 2 ^ w * 2 ^ s.
Proof.
  intros Hw Hs. rewrite <- Z.land_ones, <- Z.shiftr_div_pow2, <- Z.shiftl_mul_pow2 by lia.
  apply Z.bits_inj'. intros n Hn. rewrite Z.land_spec. destruct (Z.lt_ge_cases n s).
  - by rewrite !Z.shiftl_spec_low, andb_false_r.
  - rewrite !Z.shiftl_spec, Z.land_spec, Z.shiftr_spec by lia. do 2 f_equal. lia.
Qed.

(** A field that is moved up or down. *)
Lemma field_up x w s k : 0 <= w -> 0 <= s -> 0 <= k ->
  Z.shiftl (Z.land x (Z.shiftl (Z.ones w) s)) k = (x / 2 ^ s) mod 2 ^ w * 2 ^ (s + k).
Proof. intros. rewrite land_field, Z.shiftl_mul_pow2, Z.pow_add_r by lia. lia. Qed.

Lemma field_down x w s k : 0 <= w -> 0 <= k <= s ->
  Z.shiftr (Z.land x (Z.shiftl (Z.ones w) s)) k = (x / 2 ^ s) mod 2 ^ w * 2 ^ (s - k).
Proof.
  intros. rewrite land_field, Z.shiftr_div_pow2 by lia. replace (2 ^ s) with (2 ^ (s - k) * 2 ^ k) at 2.
  - rewrite Z.mul_assoc, Z.div_mul; [done|]. apply Z.pow_nonzero; lia.
  - rewrite <- Z.pow_add_r by lia. f_equal. lia.
Qed.

(** Parts joined from the highest down. *)
Lemma lor_down a b w k j : j = k + w -> 0 <= k -> 0 <= w -> 0 <= b < 2 ^ w ->
  Z.lor (a * 2 ^ j) (b * 2 ^ k) = (a * 2 ^ w + b) * 2 ^ k.
Proof.
  intros -> Hk Hw Hb. rewrite Z.pow_add_r, (Z.mul_comm (2 ^ k)), Z.mul_assoc by lia.
  rewrite <- !Z.shiftl_mul_pow2, <- Z.shiftl_lor by lia. f_equal.
  rewrite Z.shiftl_mul_pow2 by lia. by apply lor_disjoint.
Qed.

(** Byte [i] of a value. *)
Definition byte (x i : Z) : Z := (x / 2 ^ (8 * i)) mod 2 ^ 8.

Lemma byte_range x i : 0 <= byte x i < 2 ^ 8.
Proof. apply Z.mod_pos_bound. lia. Qed.

(** The reversed bytes of a value, as numbers. *)
Lemma rev_value_16 x : le_value (rev (le_bytes 2 x)) = byte x 0 * 2 ^ 8 + byte x 1.
Proof.
  cbn [le_bytes rev app le_value]. rewrite !ord_chr. unfold byte. rewrite Z.div_1_r.
  change (2 ^ (8 * 1)) with 256. change (2 ^ 8) with 256. lia.
Qed.

Lemma rev_value_32 x : le_value (rev (le_bytes 4 x)) =
  ((byte x 0 * 2 ^ 8 + byte x 1) * 2 ^ 8 + byte x 2) * 2 ^ 8 + byte x 3.
Proof.
  cbn [le_bytes rev app le_value]. rewrite !ord_chr, !Z.div_div by lia. unfold byte. rewrite Z.div_1_r.
  change (2 ^ (8 * 1)) with 256. change (2 ^ (8 * 2)) with (256 * 256). change (2 ^ (8 * 3)) with (256 * (256 * 256)).
  change (2 ^ 8) with 256. lia.
Qed.

Lemma rev_value_64 x : le_value (rev (le_bytes 8 x)) =
  ((((((byte x 0 * 2 ^ 8 + byte x 1) * 2 ^ 8 + byte x 2) * 2 ^ 8 + byte x 3) * 2 ^ 8 + byte x 4) * 2 ^ 8 + byte x 5)
   * 2 ^ 8 + byte x 6) * 2 ^ 8 + byte x 7.
Proof.
  cbn [le_bytes rev app le_value]. rewrite !ord_chr, !Z.div_div by lia. unfold byte. rewrite Z.div_1_r.
  change (2 ^ (8 * 1)) with 256. change (2 ^ (8 * 2)) with (256 * 256). change (2 ^ (8 * 3)) with (256 * (256 * 256)).
  change (2 ^ (8 * 4)) with (256 * (256 * (256 * 256))). change (2 ^ (8 * 5)) with (256 * (256 * (256 * (256 * 256)))).
  change (2 ^ (8 * 6)) with (256 * (256 * (256 * (256 * (256 * 256))))).
  change (2 ^ (8 * 7)) with (256 * (256 * (256 * (256 * (256 * (256 * 256)))))).
  change (2 ^ 8) with 256. lia.
Qed.

(** The bytes of a value with a cast. *)
Lemma byte_mod x i w : 0 <= i -> 8 * i + 8 <= w -> byte (x mod 2 ^ w) i = byte x i.
Proof.
  intros Hi Hw. unfold byte. apply Z.bits_inj'. intros n Hn.
  rewrite <- !Z.shiftr_div_pow2, <- !Z.land_ones by lia. rewrite !Z.land_spec, !Z.shiftr_spec by lia.
  destruct (Z.lt_ge_cases n 8) as [H8|H8].
  - rewrite Z.land_spec, (Z.ones_spec_low w), andb_true_r by lia. done.
  - by rewrite !(Z.ones_spec_high 8), !andb_false_r by lia.
Qed.

(** A byte moved to its place; the masks of the source in the form of
    [field_up] and [field_down]. *)
Lemma byte_up x i k : 0 <= i -> 0 <= k -> Z.shiftl (Z.land x (Z.shiftl (Z.ones 8) (8 * i))) k = byte x i * 2 ^ (8 * i + k).
Proof. intros. by rewrite field_up by lia. Qed.

Lemma byte_down x i k : 0 <= k <= 8 * i ->
  Z.shiftr (Z.land x (Z.shiftl (Z.ones 8) (8 * i))) k = byte x i * 2 ^ (8 * i - k).
Proof. intros. by rewrite field_down by lia. Qed.

Lemma byte_scaled x i k : 0 <= k -> 0 <= byte x i * 2 ^ k < 2 ^ (8 + k).
Proof.
  intros Hk. pose proof (byte_range x i). pose proof (Z.pow_pos_nonneg 2 k ltac:(lia) Hk).
  rewrite Z.pow_add_r by lia. nia.
Qed.

Lemma mod_small_byte x i k w : 0 <= k -> 8 + k <= w -> (byte x i * 2 ^ k) mod 2 ^ w = byte x i * 2 ^ k.
Proof.
  intros Hk Hw. pose proof (byte_scaled x i k Hk) as Hb. apply Z.mod_small.
  assert (2 ^ (8 + k) <= 2 ^ w) by (apply Z.pow_le_mono_r; lia). lia.
Qed.

Lemma constant_swab16_rev x : ___constant_swab16 x = le_value (rev (le_bytes 2 x)).
Proof.
  unfold ___constant_swab16. rewrite rev_value_16.
  change 0x00ff with (Z.shiftl (Z.ones 8) (8 * 0)). change 0xff00 with (Z.shiftl (Z.ones 8) (8 * 1)).
  rewrite byte_up, byte_down by lia. unfold u16. rewrite !byte_mod by lia.
  rewrite (lor_down _ _ 8) by (lia || apply byte_range). rewrite Z.mul_1_r.
  apply Z.mod_small. pose proof (byte_range x 0). pose proof (byte_range x 1). lia.
Qed.

Lemma constant_swab32_rev x : ___constant_swab32 x = le_value (rev (le_bytes 4 x)).
Proof.
  unfold ___constant_swab32. rewrite rev_value_32.
  change 0x000000ff with (Z.shiftl (Z.ones 8) (8 * 0)). change 0x0000ff00 with (Z.shiftl (Z.ones 8) (8 * 1)).
  change 0x00ff0000 with (Z.shiftl (Z.ones 8) (8 * 2)). change 0xff000000 with (Z.shiftl (Z.ones 8) (8 * 3)).
  rewrite !byte_up, !byte_down by lia. unfold u32. rewrite !byte_mod, !mod_small_byte by lia.
  rewrite !(lor_down _ _ 8) by (lia || apply byte_range). rewrite Z.mul_1_r.
  apply Z.mod_small. pose proof (byte_range x 0). pose proof (byte_range x 1). pose proof (byte_range x 2).
  pose proof (byte_range x 3). lia.
Qed.

Lemma constant_swab64_rev x : ___constant_swab64 x = le_value (rev (le_bytes 8 x)).
Proof.
  unfold ___constant_swab64. rewrite rev_value_64.
  change 0x00000000000000ff with (Z.shiftl (Z.ones 8) (8 * 0)). change 0x000000000000ff00 with (Z.shiftl (Z.ones 8) (8 * 1)).
  change 0x0000000000ff0000 with (Z.shiftl (Z.ones 8) (8 * 2)). change 0x00000000ff000000 with (Z.shiftl (Z.ones 8) (8 * 3)).
  change 0x000000ff00000000 with (Z.shiftl (Z.ones 8) (8 * 4)). change 0x0000ff0000000000 with (Z.shiftl (Z.ones 8) (8 * 5)).
  change 0x00ff000000000000 with (Z.shiftl (Z.ones 8) (8 * 6)). change 0xff00000000000000 with (Z.shiftl (Z.ones 8) (8 * 7)).
  rewrite !byte_up, !byte_down by lia. unfold u64. rewrite !byte_mod, !mod_small_byte by lia.
  rewrite !(lor_down _ _ 8) by (lia || apply byte_range). rewrite Z.mul_1_r.
  apply Z.mod_small. pose proof (byte_range x 0). pose proof (byte_range x 1). pose proof (byte_range x 2).
  pose proof (byte_range x 3). pose proof (byte_range x 4). pose proof (byte_range x 5). pose proof (byte_range x 6).
  pose proof (byte_range x 7). lia.
Qed.

(** A cast before the reversal changes nothing. *)
Lemma chr_mod x w : 8 <= w -> chr (x mod 2 ^ w) = chr x.
Proof. intros Hw. unfold chr, u8. do 2 f_equal. rewrite <- !Z.land_ones by lia. apply Z.bits_inj'. intros n Hn.
  rewrite !Z.land_spec. destruct (Z.lt_ge_cases n 8).
  - rewrite (Z.ones_spec_low w), andb_true_r by lia. done.
  - by rewrite !(Z.ones_spec_high 8), !andb_false_r by lia.
Qed.

Lemma le_bytes_mod n : forall x w, 8 * Z.of_nat n <= w -> le_bytes n (x mod 2 ^ w) = le_bytes n x.
Proof.
  induction n as [|n IH]; intros x w Hw; [done|]. cbn [le_bytes]. f_equal; [apply chr_mod; lia|].
  destruct n as [|n]; [done|].
  replace (x mod 2 ^ w / 256) with ((x / 256) mod 2 ^ (w - 8)); [apply IH; lia|].
  change 256 with (2 ^ 8). rewrite <- !Z.land_ones, <- !Z.shiftr_div_pow2 by lia. apply Z.bits_inj'. intros k Hk.
  rewrite Z.land_spec, !Z.shiftr_spec, Z.land_spec by lia. f_equal.
  destruct (Z.lt_ge_cases k (w - 8)); [by rewrite !Z.ones_spec_low by lia | by rewrite !Z.ones_spec_high by lia].
Qed.

Lemma lor_rev4 a b c d : Z.lor (Z.lor (Z.lor a b) c) d = Z.lor (Z.lor (Z.lor d c) b) a.
Proof. apply Z.bits_inj'. intros n Hn. rewrite !Z.lor_spec. btauto. Qed.

Lemma lor_rev8 a b c d e f g h :
  Z.lor (Z.lor (Z.lor (Z.lor (Z.lor (Z.lor (Z.lor a b) c) d) e) f) g) h
  = Z.lor (Z.lor (Z.lor (Z.lor (Z.lor (Z.lor (Z.lor h g) f) e) d) c) b) a.
Proof. apply Z.bits_inj'. intros n Hn. rewrite !Z.lor_spec. btauto. Qed.

Lemma bswap_16_rev x : __bswap_16 x = le_value (rev (le_bytes 2 x)).
Proof.
  rewrite <- constant_swab16_rev. unfold __bswap_16, __bswap_constant_16, ___constant_swab16. f_equal.
  rewrite Z.lor_comm. do 2 f_equal. change 0xff00 with (Z.shiftl 0xff 8). rewrite Z.shiftr_land.
  by rewrite Z.shiftr_shiftl_l.
Qed.

Lemma bswap_32_rev x : __bswap_32 x = le_value (rev (le_bytes 4 x)).
Proof.
  rewrite <- constant_swab32_rev. unfold __bswap_32, __bswap_constant_32, ___constant_swab32. rewrite lor_rev4.
  change 0x000000ff with (Z.shiftl (Z.ones 8) (8 * 0)). change 0x0000ff00 with (Z.shiftl (Z.ones 8) (8 * 1)).
  change 0x00ff0000 with (Z.shiftl (Z.ones 8) (8 * 2)). change 0xff000000 with (Z.shiftl (Z.ones 8) (8 * 3)).
  rewrite !byte_up, !byte_down by lia. unfold u32. rewrite !byte_mod, !mod_small_byte by lia.
  rewrite !(lor_down _ _ 8) by (lia || apply byte_range). symmetry. apply Z.mod_small.
  pose proof (byte_range x 0). pose proof (byte_range x 1). pose proof (byte_range x 2). pose proof (byte_range x 3). lia.
Qed.

Lemma bswap_64_rev x : __bswap_64 x = le_value (rev (le_bytes 8 x)).
Proof.
  rewrite <- constant_swab64_rev. unfold __bswap_64, __bswap_constant_64, ___constant_swab64. rewrite lor_rev8.
  change 0x00000000000000ff with (Z.shiftl (Z.ones 8) (8 * 0)). change 0x000000000000ff00 with (Z.shiftl (Z.ones 8) (8 * 1)).
  change 0x0000000000ff0000 with (Z.shiftl (Z.ones 8) (8 * 2)). change 0x00000000ff000000 with (Z.shiftl (Z.ones 8) (8 * 3)).
  change 0x000000ff00000000 with (Z.shiftl (Z.ones 8) (8 * 4)). change 0x0000ff0000000000 with (Z.shiftl (Z.ones 8) (8 * 5)).
  change 0x00ff000000000000 with (Z.shiftl (Z.ones 8) (8 * 6)). change 0xff00000000000000 with (Z.shiftl (Z.ones 8) (8 * 7)).
  rewrite !byte_up, !byte_down by lia. unfold u64. rewrite !byte_mod, !mod_small_byte by lia.
  rewrite !(lor_down _ _ 8) by (lia || apply byte_range). symmetry. apply Z.mod_small.
  pose proof (byte_range x 0). pose proof (byte_range x 1). pose proof (byte_range x 2).
  pose proof (byte_range x 3). pose proof (byte_range x 4). pose proof (byte_range x 5). pose proof (byte_range x 6).
  pose proof (byte_range x 7). lia.
Qed.

Lemma le_value_app l1 l2 : le_value (l1 ++ l2) = le_value l1 + 256 ^ zlen l1 * le_value l2.
Proof.
  induction l1 as [|c l1 IH]; [change (256 ^ zlen []) with 1; cbn [app le_value]; lia|]. cbn [app le_value]. rewrite IH, zlen_cons.
  rewrite Z.pow_add_r by (pose proof (zlen_nonneg l1); lia). lia.
Qed.

Lemma le_bytes_app n : forall m x, le_bytes (n + m) x = le_bytes n x ++ le_bytes m (x / 256 ^ Z.of_nat n).
Proof.
  induction n as [|n IH]; intros m x; [by rewrite Z.div_1_r|]. cbn [Nat.add le_bytes app]. f_equal.
  rewrite IH, Z.div_div by (lia || (apply Z.pow_pos_nonneg; lia)). by rewrite Nat2Z.inj_succ, Z.pow_succ_r by lia.
Qed.

Lemma fswab32_rev x : __fswab32 x = le_value (rev (le_bytes 4 x)).
Proof. unfold __fswab32. rewrite constant_swab32_rev. unfold u32. by rewrite le_bytes_mod. Qed.

Lemma fswab64_rev thru x : __fswab64 thru x = le_value (rev (le_bytes 8 x)).
Proof.
  destruct thru; unfold __fswab64.
  - rewrite !fswab32_rev. change (Z.shiftl 1 32 - 1) with (Z.ones 32). unfold u32, u64.
    rewrite Z.shiftr_div_pow2, Z.land_ones, !le_bytes_mod by lia.
    rewrite <- (le_bytes_mod 8 x 64) by lia. set (y := x mod 2 ^ 64). change (le_bytes 8 y) with (le_bytes (4 + 4) y). rewrite le_bytes_app.
    rewrite rev_app_distr, le_value_app. change (256 ^ Z.of_nat 4) with (2 ^ 32).
    assert (E : zlen (rev (le_bytes 4 (y / 2 ^ 32))) = 4) by done. rewrite E. change (256 ^ 4) with (2 ^ 32).
    pose proof (le_value_range (rev (le_bytes 4 (y / 2 ^ 32)))) as H1. pose proof (le_value_range (rev (le_bytes 4 y))) as H2.
    rewrite E in H1. change (zlen (rev (le_bytes 4 y))) with 4 in H2. change (256 ^ 4) with (2 ^ 32) in *.
    assert (Hy : le_bytes 4 y = le_bytes 4 x) by (apply le_bytes_mod; lia). rewrite Hy in *.
    rewrite Z.shiftl_mul_pow2, Z.mod_small, lor_disjoint by lia. lia.
  - rewrite constant_swab64_rev. unfold u64. by rewrite le_bytes_mod.
Qed.

(** Every version of every function reverses the bytes. *)
Lemma swab_rev c thru x :
  __swab16 c x = le_value (rev (le_bytes 2 x)) /\ __swab32 c x = le_value (rev (le_bytes 4 x)) /\
  __swab64 c thru x = le_value (rev (le_bytes 8 x)).
Proof.
  unfold __swab16, __swab32, __swab64, __fswab16. destruct c.
  - split; [apply constant_swab16_rev|]. split; [apply constant_swab32_rev | apply constant_swab64_rev].
  - split; [|split; [apply fswab32_rev | apply fswab64_rev]].
    rewrite constant_swab16_rev. unfold u16. by rewrite le_bytes_mod.
Qed.

Lemma le_bytes_rev n x : le_bytes n (le_value (rev (le_bytes n x))) = rev (le_bytes n x).
Proof.
  assert (length (rev (le_bytes n x)) = n) as Hl by (by rewrite length_rev, length_le_bytes).
  rewrite <- Hl at 1. apply le_bytes_value.
Qed.

Lemma le_value_low n x : le_value (le_bytes n x) = x mod 256 ^ Z.of_nat n.
Proof.
  assert (Hp : 0 < 256 ^ Z.of_nat n) by (apply Z.pow_pos_nonneg; lia).
  assert (E : 256 ^ Z.of_nat n = 2 ^ (8 * Z.of_nat n)) by (rewrite Z.pow_mul_r by lia; done).
  rewrite <- (le_bytes_mod n x (8 * Z.of_nat n)), <- E by lia. apply le_value_bytes. by apply Z.mod_pos_bound.
Qed.

Lemma swahw32_halves c x : __swahw32 c x = le_value (le_bytes 2 (x / 2 ^ 16) ++ le_bytes 2 x).
Proof.
  assert (E : forall y, ___constant_swahw32 y = le_value (le_bytes 2 (y / 2 ^ 16) ++ le_bytes 2 y)).
  { clear x. intros x. rewrite le_value_app, !le_value_low. unfold ___constant_swahw32.
    change 0x0000ffff with (Z.shiftl (Z.ones 16) 0). change 0xffff0000 with (Z.shiftl (Z.ones 16) 16).
    rewrite field_up, field_down, Z.div_1_r, Z.mul_1_r by lia. unfold u32.
    assert (Hx : (x mod 2 ^ 32) mod 2 ^ 16 = x mod 2 ^ 16).
    { rewrite <- (Z.mod_mod_divide x (2 ^ 32) (2 ^ 16)); [done|]. by exists (2 ^ 16). }
    assert (Hh : (x mod 2 ^ 32 / 2 ^ 16) mod 2 ^ 16 = (x / 2 ^ 16) mod 2 ^ 16).
    { change (2 ^ 32) with (2 ^ 16 * 2 ^ 16). rewrite Z.rem_mul_r, (Z.mul_comm (2 ^ 16)), Z.div_add by lia.
      rewrite (Z.div_small (x mod 2 ^ 16)) by (apply Z.mod_pos_bound; lia). by rewrite Z.add_0_l, Z.mod_mod by lia. }
    rewrite Hx, Hh. change (zlen (le_bytes 2 (x / 2 ^ 16))) with 2. change (256 ^ 2) with (2 ^ 16).
    change (256 ^ Z.of_nat 2) with (2 ^ 16). change (0 + 16) with 16.
    pose proof (Z.mod_pos_bound x (2 ^ 16) ltac:(lia)). pose proof (Z.mod_pos_bound (x / 2 ^ 16) (2 ^ 16) ltac:(lia)).
    rewrite (Z.mod_small (x mod 2 ^ 16 * 2 ^ 16)), lor_disjoint by lia. rewrite Z.mod_small by lia. lia. }
  destruct c; [apply E|]. rewrite <- E. unfold __swahw32, __fswahw32, ___constant_swahw32, u32.
  by rewrite Z.mod_mod by lia.
Qed.

Lemma lor_pick4 a b c d : Z.lor (Z.lor a b) (Z.lor c d) = Z.lor (Z.lor (Z.lor b d) a) c.
Proof. apply Z.bits_inj'. intros n Hn. rewrite !Z.lor_spec. btauto. Qed.

Lemma swahb32_pairs c x : __swahb32 c x = le_value (rev (le_bytes 2 x) ++ rev (le_bytes 2 (x / 2 ^ 16))).
Proof.
  assert (E : forall y, ___constant_swahb32 y = le_value (rev (le_bytes 2 y) ++ rev (le_bytes 2 (y / 2 ^ 16)))).
  { clear x. intros x. rewrite le_value_app, !rev_value_16. change (256 ^ zlen (rev (le_bytes 2 x))) with (2 ^ 16).
    unfold ___constant_swahb32.
    change 0x00ff00ff with (Z.lor (Z.shiftl (Z.ones 8) (8 * 0)) (Z.shiftl (Z.ones 8) (8 * 2))).
    change 0xff00ff00 with (Z.lor (Z.shiftl (Z.ones 8) (8 * 1)) (Z.shiftl (Z.ones 8) (8 * 3))).
    rewrite !Z.land_lor_distr_r, Z.shiftl_lor, Z.shiftr_lor, !byte_up, !byte_down by lia. unfold u32.
    rewrite !byte_mod by lia. change (8 * 0 + 8) with 8. change (8 * 2 + 8) with 24.
    change (8 * 1 - 8) with 0. change (8 * 3 - 8) with 16.
    assert (E2 : byte (x / 2 ^ 16) 0 = byte x 2) by (unfold byte; by rewrite Z.div_1_r).
    assert (E3 : byte (x / 2 ^ 16) 1 = byte x 3) by (unfold byte; by rewrite Z.div_div by lia).
    rewrite E2, E3. pose proof (byte_range x 0). pose proof (byte_range x 1). pose proof (byte_range x 2). pose proof (byte_range x 3).
    rewrite (Z.mod_small (Z.lor (byte x 0 * 2 ^ 8) _)); cycle 1.
    { rewrite Z.lor_comm. rewrite (lor_down _ _ 16 8) by lia. lia. }
    rewrite lor_pick4, (lor_down _ _ 8 16), (lor_down _ _ 8 8), (lor_down _ _ 8 0) by lia.
    rewrite Z.mul_1_r, Z.mod_small by lia. lia. }
  destruct c; [apply E|]. rewrite <- E. unfold __swahb32, __fswahb32, ___constant_swahb32, u32.
  by rewrite Z.mod_mod by lia.
Qed.

(** ** Rounding to a power of two *)

Lemma land_not_mask x k : 0 <= k -> Z.land x (Z.lnot (2 ^ k - 1)) = x / 2 ^ k * 2 ^ k.
Proof.
  intros Hk. replace (2 ^ k - 1) with (Z.ones k) by (rewrite Z.ones_equiv; lia).
  rewrite <- Z.ldiff_land, Z.ldiff_ones_r by lia. by rewrite Z.shiftl_mul_pow2, Z.shiftr_div_pow2 by lia.
Qed.

(** The next multiple of [m]. *)
Definition next_multiple (x m : Z) : Z := (x + m - 1) / m * m.

Lemma next_multiple_bounds x m : 0 < m -> x <= next_multiple x m < x + m.
Proof. intros Hm. unfold next_multiple. pose proof (Z.div_mod (x + m - 1) m). pose proof (Z.mod_pos_bound (x + m - 1) m). lia. Qed.

Lemma next_multiple_mod x m : 0 < m -> next_multiple x m mod m = 0.
Proof. intros. unfold next_multiple. apply Z.mod_mul. lia. Qed.
