(* ===== verification/BigEndian.v ===== *)
(** * Conversions of a big-endian machine (linux/byteorder/big_endian.h)

    The macros and functions of the header, by name.  A cast is a reduction
    to the width of its type; [thru] is __SWAB_64_THRU_32__, [c] what
    __builtin_constant_p() answers.  A conversion that does nothing in place
    leaves the memory alone. *)

From stdpp Require Import base numbers strings gmap list.
From S2P Require Import Prelude CMem ByteOrder.

#[local] Open Scope Z_scope.

Section Conversions.
Context (c thru : bool).

Definition __constant_htonl (x : Z) : Z := u32 (u32 x).
Definition __constant_ntohl (x : Z) : Z := u32 (u32 x).
Definition __constant_htons (x : Z) : Z := u16 (u16 x).
Definition __constant_ntohs (x : Z) : Z := u16 (u16 x).
Definition __constant_cpu_to_le64 (x : Z) : Z := u64 (___constant_swab64 x).
Definition __constant_le64_to_cpu (x : Z) : Z := ___constant_swab64 (u64 (u64 x)).
Definition __constant_cpu_to_le32 (x : Z) : Z := u32 (___constant_swab32 x).
Definition __constant_le32_to_cpu (x : Z) : Z := ___constant_swab32 (u32 (u32 x)).
Definition __constant_cpu_to_le16 (x : Z) : Z := u16 (___constant_swab16 x).
Definition __constant_le16_to_cpu (x : Z) : Z := ___constant_swab16 (u16 (u16 x)).
Definition __constant_cpu_to_be64 (x : Z) : Z := u64 (u64 x).
Definition __constant_be64_to_cpu (x : Z) : Z := u64 (u64 x).
Definition __constant_cpu_to_be32 (x : Z) : Z := u32 (u32 x).
Definition __constant_be32_to_cpu (x : Z) : Z := u32 (u32 x).
Definition __constant_cpu_to_be16 (x : Z) : Z := u16 (u16 x).
Definition __constant_be16_to_cpu (x : Z) : Z := u16 (u16 x).
Definition __cpu_to_le64 (x : Z) : Z := u64 (__swab64 c thru x).
Definition __le64_to_cpu (x : Z) : Z := __swab64 c thru (u64 (u64 x)).
Definition __cpu_to_le32 (x : Z) : Z := u32 (__swab32 c x).
Definition __le32_to_cpu (x : Z) : Z := __swab32 c (u32 (u32 x)).
Definition __cpu_to_le16 (x : Z) : Z := u16 (__swab16 c x).
Definition __le16_to_cpu (x : Z) : Z := __swab16 c (u16 (u16 x)).
Definition __cpu_to_be64 (x : Z) : Z := u64 (u64 x).
Definition __be64_to_cpu (x : Z) : Z := u64 (u64 x).
Definition __cpu_to_be32 (x : Z) : Z := u32 (u32 x).
Definition __be32_to_cpu (x : Z) : Z := u32 (u32 x).
Definition __cpu_to_be16 (x : Z) : Z := u16 (u16 x).
Definition __be16_to_cpu (x : Z) : Z := u16 (u16 x).

(** A value in memory. *)
Context (h : heap) (p : ptr).

Definition __cpu_to_le64p : res Z := x ← __swab64p Big thru h p; Ok (u64 x).
Definition __le64_to_cpup : res Z := __swab64p Big thru h p.
Definition __cpu_to_le32p : res Z := x ← __swab32p Big h p; Ok (u32 x).
Definition __le32_to_cpup : res Z := __swab32p Big h p.
Definition __cpu_to_le16p : res Z := x ← __swab16p Big h p; Ok (u16 x).
Definition __le16_to_cpup : res Z := __swab16p Big h p.
Definition __cpu_to_be64p : res Z := x ← load_uint Big h p 8; Ok (u64 x).
Definition __be64_to_cpup : res Z := x ← load_uint Big h p 8; Ok (u64 x).
Definition __cpu_to_be32p : res Z := x ← load_uint Big h p 4; Ok (u32 x).
Definition __be32_to_cpup : res Z := x ← load_uint Big h p 4; Ok (u32 x).
Definition __cpu_to_be16p : res Z := x ← load_uint Big h p 2; Ok (u16 x).
Definition __be16_to_cpup : res Z := x ← load_uint Big h p 2; Ok (u16 x).

(** ... and in place. *)
Definition __cpu_to_le64s : res heap := __swab64s Big thru h p.
Definition __le64_to_cpus : res heap := __swab64s Big thru h p.
Definition __cpu_to_le32s : res heap := __swab32s Big h p.
Definition __le32_to_cpus : res heap := __swab32s Big h p.
Definition __cpu_to_le16s : res heap := __swab16s Big h p.
Definition __le16_to_cpus : res heap := __swab16s Big h p.
Definition __cpu_to_be64s : res heap := Ok h.
Definition __be64_to_cpus : res heap := Ok h.
Definition __cpu_to_be32s : res heap := Ok h.
Definition __be32_to_cpus : res heap := Ok h.
Definition __cpu_to_be16s : res heap := Ok h.
Definition __be16_to_cpus : res heap := Ok h.
End Conversions.
