(* ===== verification/Endian.v ===== *)
(** * Exchange between machines of different byte order

    [Conversions] is the interface that both headers of linux/byteorder
    implement: conversions to and from a format, for constants and values, for
    a value in memory and in place.  [ConversionSpec] says what they promise;
    the theorems are proved from it for any two machines. *)

From stdpp Require Import base numbers strings gmap list.
From S2P Require Import Prelude CMem CString ByteOrder LittleEndian BigEndian.

#[local] Open Scope Z_scope.

Inductive width : Set := W16 | W32 | W64.

Definition wbytes (w : width) : nat := match w with W16 => 2 | W32 => 4 | W64 => 8 end.
Definition wcast (w : width) : Z -> Z := match w with W16 => u16 | W32 => u32 | W64 => u64 end.

(** The value a machine of order [e] reads from the bytes [l].  A format is
    named by the machine whose stores have it. *)
Definition value (e : host) (l : list char) : Z := le_value match e with Little => l | Big => rev l end.

Class Conversions (e : host) : Type := {
  conv_to : host -> width -> Z -> Z;
  conv_from : host -> width -> Z -> Z;
  conv_to_const : host -> width -> Z -> Z;
  conv_from_const : host -> width -> Z -> Z;
  conv_load_to : host -> width -> heap -> ptr -> res Z;
  conv_load_from : host -> width -> heap -> ptr -> res Z;
  conv_in_place_to : host -> width -> heap -> ptr -> res heap;
  conv_in_place_from : host -> width -> heap -> ptr -> res heap
}.

Class ConversionSpec (e : host) `{Conversions e} : Prop := {
  conv_to_image f w x : image e (wbytes w) (conv_to f w x) = image f (wbytes w) x;
  conv_from_value f w l : length l = wbytes w -> conv_from f w (value e l) = value f l;
  conv_const f w x : conv_to_const f w x = conv_to f w x /\ conv_from_const f w x = conv_from f w x;
  conv_load f w h p : conv_load_to f w h p = (x ← load_uint e h p (wbytes w); Ok (conv_to f w x)) /\
    conv_load_from f w h p = (x ← load_uint e h p (wbytes w); Ok (conv_from f w x));
  conv_in_place f w h b o l : load_bytes h (PAddr b o) (Z.of_nat (wbytes w)) = Ok l ->
    conv_in_place_to f w h (PAddr b o) = store_uint e h (PAddr b o) (wbytes w) (conv_to f w (value e l)) /\
    conv_in_place_from f w h (PAddr b o) = store_uint e h (PAddr b o) (wbytes w) (conv_from f w (value e l))
}.

(** ** The two headers *)

#[global] Instance little_conversions (c thru : bool) : Conversions Little := {|
  conv_to f w := match f, w with
    | Little, W16 => LittleEndian.__cpu_to_le16 | Little, W32 => LittleEndian.__cpu_to_le32
    | Little, W64 => LittleEndian.__cpu_to_le64 | Big, W16 => LittleEndian.__cpu_to_be16 c
    | Big, W32 => LittleEndian.__cpu_to_be32 c | Big, W64 => LittleEndian.__cpu_to_be64 c thru end;
  conv_from f w := match f, w with
    | Little, W16 => LittleEndian.__le16_to_cpu | Little, W32 => LittleEndian.__le32_to_cpu
    | Little, W64 => LittleEndian.__le64_to_cpu | Big, W16 => LittleEndian.__be16_to_cpu c
    | Big, W32 => LittleEndian.__be32_to_cpu c | Big, W64 => LittleEndian.__be64_to_cpu c thru end;
  conv_to_const f w := match f, w with
    | Little, W16 => LittleEndian.__constant_cpu_to_le16 | Little, W32 => LittleEndian.__constant_cpu_to_le32
    | Little, W64 => LittleEndian.__constant_cpu_to_le64 | Big, W16 => LittleEndian.__constant_cpu_to_be16
    | Big, W32 => LittleEndian.__constant_cpu_to_be32 | Big, W64 => LittleEndian.__constant_cpu_to_be64 end;
  conv_from_const f w := match f, w with
    | Little, W16 => LittleEndian.__constant_le16_to_cpu | Little, W32 => LittleEndian.__constant_le32_to_cpu
    | Little, W64 => LittleEndian.__constant_le64_to_cpu | Big, W16 => LittleEndian.__constant_be16_to_cpu
    | Big, W32 => LittleEndian.__constant_be32_to_cpu | Big, W64 => LittleEndian.__constant_be64_to_cpu end;
  conv_load_to f w := match f, w with
    | Little, W16 => LittleEndian.__cpu_to_le16p | Little, W32 => LittleEndian.__cpu_to_le32p
    | Little, W64 => LittleEndian.__cpu_to_le64p | Big, W16 => LittleEndian.__cpu_to_be16p
    | Big, W32 => LittleEndian.__cpu_to_be32p | Big, W64 => LittleEndian.__cpu_to_be64p thru end;
  conv_load_from f w := match f, w with
    | Little, W16 => LittleEndian.__le16_to_cpup | Little, W32 => LittleEndian.__le32_to_cpup
    | Little, W64 => LittleEndian.__le64_to_cpup | Big, W16 => LittleEndian.__be16_to_cpup
    | Big, W32 => LittleEndian.__be32_to_cpup | Big, W64 => LittleEndian.__be64_to_cpup thru end;
  conv_in_place_to f w h p := match f, w with
    | Little, W16 => LittleEndian.__cpu_to_le16s h | Little, W32 => LittleEndian.__cpu_to_le32s h
    | Little, W64 => LittleEndian.__cpu_to_le64s h | Big, W16 => LittleEndian.__cpu_to_be16s h p
    | Big, W32 => LittleEndian.__cpu_to_be32s h p | Big, W64 => LittleEndian.__cpu_to_be64s thru h p end;
  conv_in_place_from f w h p := match f, w with
    | Little, W16 => LittleEndian.__le16_to_cpus h | Little, W32 => LittleEndian.__le32_to_cpus h
    | Little, W64 => LittleEndian.__le64_to_cpus h | Big, W16 => LittleEndian.__be16_to_cpus h p
    | Big, W32 => LittleEndian.__be32_to_cpus h p | Big, W64 => LittleEndian.__be64_to_cpus thru h p end
|}.

#[global] Instance big_conversions (c thru : bool) : Conversions Big := {|
  conv_to f w := match f, w with
    | Little, W16 => BigEndian.__cpu_to_le16 c | Little, W32 => BigEndian.__cpu_to_le32 c
    | Little, W64 => BigEndian.__cpu_to_le64 c thru | Big, W16 => BigEndian.__cpu_to_be16
    | Big, W32 => BigEndian.__cpu_to_be32 | Big, W64 => BigEndian.__cpu_to_be64 end;
  conv_from f w := match f, w with
    | Little, W16 => BigEndian.__le16_to_cpu c | Little, W32 => BigEndian.__le32_to_cpu c
    | Little, W64 => BigEndian.__le64_to_cpu c thru | Big, W16 => BigEndian.__be16_to_cpu
    | Big, W32 => BigEndian.__be32_to_cpu | Big, W64 => BigEndian.__be64_to_cpu end;
  conv_to_const f w := match f, w with
    | Little, W16 => BigEndian.__constant_cpu_to_le16 | Little, W32 => BigEndian.__constant_cpu_to_le32
    | Little, W64 => BigEndian.__constant_cpu_to_le64 | Big, W16 => BigEndian.__constant_cpu_to_be16
    | Big, W32 => BigEndian.__constant_cpu_to_be32 | Big, W64 => BigEndian.__constant_cpu_to_be64 end;
  conv_from_const f w := match f, w with
    | Little, W16 => BigEndian.__constant_le16_to_cpu | Little, W32 => BigEndian.__constant_le32_to_cpu
    | Little, W64 => BigEndian.__constant_le64_to_cpu | Big, W16 => BigEndian.__constant_be16_to_cpu
    | Big, W32 => BigEndian.__constant_be32_to_cpu | Big, W64 => BigEndian.__constant_be64_to_cpu end;
  conv_load_to f w := match f, w with
    | Little, W16 => BigEndian.__cpu_to_le16p | Little, W32 => BigEndian.__cpu_to_le32p
    | Little, W64 => BigEndian.__cpu_to_le64p thru | Big, W16 => BigEndian.__cpu_to_be16p
    | Big, W32 => BigEndian.__cpu_to_be32p | Big, W64 => BigEndian.__cpu_to_be64p end;
  conv_load_from f w := match f, w with
    | Little, W16 => BigEndian.__le16_to_cpup | Little, W32 => BigEndian.__le32_to_cpup
    | Little, W64 => BigEndian.__le64_to_cpup thru | Big, W16 => BigEndian.__be16_to_cpup
    | Big, W32 => BigEndian.__be32_to_cpup | Big, W64 => BigEndian.__be64_to_cpup end;
  conv_in_place_to f w h p := match f, w with
    | Little, W16 => BigEndian.__cpu_to_le16s h p | Little, W32 => BigEndian.__cpu_to_le32s h p
    | Little, W64 => BigEndian.__cpu_to_le64s thru h p | Big, W16 => BigEndian.__cpu_to_be16s h
    | Big, W32 => BigEndian.__cpu_to_be32s h | Big, W64 => BigEndian.__cpu_to_be64s h end;
  conv_in_place_from f w h p := match f, w with
    | Little, W16 => BigEndian.__le16_to_cpus h p | Little, W32 => BigEndian.__le32_to_cpus h p
    | Little, W64 => BigEndian.__le64_to_cpus thru h p | Big, W16 => BigEndian.__be16_to_cpus h
    | Big, W32 => BigEndian.__be32_to_cpus h | Big, W64 => BigEndian.__be64_to_cpus h end
|}.

(** ** The conversions as one function *)

Definition turn (e f : host) (w : width) (x : Z) : Z :=
  match e, f with
  | Little, Little | Big, Big => wcast w x
  | _, _ => le_value (rev (le_bytes (wbytes w) x))
  end.

Lemma wcast_mod w x : wcast w x = x mod 2 ^ (8 * Z.of_nat (wbytes w)).
Proof. by destruct w. Qed.

Lemma wcast_twice w x : wcast w (wcast w x) = wcast w x.
Proof. rewrite !wcast_mod. apply Z.mod_mod. apply Z.pow_nonzero; lia. Qed.

Lemma le_bytes_cast w x : le_bytes (wbytes w) (wcast w x) = le_bytes (wbytes w) x.
Proof. rewrite wcast_mod. by apply le_bytes_mod. Qed.

Lemma wcast_small w x : 0 <= x < 256 ^ Z.of_nat (wbytes w) -> wcast w x = x.
Proof. intros Hx. rewrite wcast_mod. apply Z.mod_small. by destruct w. Qed.

Lemma wcast_rev w x : wcast w (le_value (rev (le_bytes (wbytes w) x))) = le_value (rev (le_bytes (wbytes w) x)).
Proof.
  apply wcast_small. pose proof (le_value_range (rev (le_bytes (wbytes w) x))) as Hr.
  unfold zlen in Hr. by rewrite length_rev, length_le_bytes in Hr.
Qed.

Lemma turn_cast e f w x : turn e f w (wcast w x) = turn e f w x.
Proof. destruct e, f; cbn [turn]; rewrite ?wcast_twice, ?le_bytes_cast; done. Qed.

Lemma cast_turn e f w x : wcast w (turn e f w x) = turn e f w x.
Proof. destruct e, f; cbn [turn]; rewrite ?wcast_twice, ?wcast_rev; done. Qed.

(** The reversal of each width. *)
Definition swab (c thru : bool) (w : width) (x : Z) : Z :=
  match w with W16 => __swab16 c x | W32 => __swab32 c x | W64 => __swab64 c thru x end.

Lemma swab_turn c thru e f w x : e <> f -> swab c thru w x = turn e f w x.
Proof. intros Hne. destruct (swab_rev c thru x) as (H1 & H2 & H3). destruct e, f, w; done. Qed.

Section Values.
Context (c thru : bool) (f : host) (w : width) (x : Z).

Lemma little_value : @conv_to Little (little_conversions c thru) f w x = turn Little f w x /\
  @conv_from Little (little_conversions c thru) f w x = turn Little f w x.
Proof.
  destruct f.
  - assert (E : wcast w (wcast w x) = turn Little Little w x) by apply wcast_twice. by destruct w.
  - assert (E1 : wcast w (swab c thru w x) = turn Little Big w x).
    { rewrite (swab_turn c thru Little Big) by done. apply cast_turn. }
    assert (E2 : swab c thru w (wcast w (wcast w x)) = turn Little Big w x).
    { rewrite (swab_turn c thru Little Big) by done. by rewrite !turn_cast. }
    by destruct w.
Qed.

Lemma big_value : @conv_to Big (big_conversions c thru) f w x = turn Big f w x /\
  @conv_from Big (big_conversions c thru) f w x = turn Big f w x.
Proof.
  destruct f.
  - assert (E1 : wcast w (swab c thru w x) = turn Big Little w x).
    { rewrite (swab_turn c thru Big Little) by done. apply cast_turn. }
    assert (E2 : swab c thru w (wcast w (wcast w x)) = turn Big Little w x).
    { rewrite (swab_turn c thru Big Little) by done. by rewrite !turn_cast. }
    by destruct w.
  - assert (E : wcast w (wcast w x) = turn Big Big w x) by apply wcast_twice. by destruct w.
Qed.
End Values.

(** The macros for constants are the others with a constant. *)
Lemma little_const c thru f w x :
  @conv_to_const Little (little_conversions c thru) f w x = @conv_to Little (little_conversions true thru) f w x /\
  @conv_from_const Little (little_conversions c thru) f w x = @conv_from Little (little_conversions true thru) f w x.
Proof. by destruct f, w. Qed.

Lemma big_const c thru f w x :
  @conv_to_const Big (big_conversions c thru) f w x = @conv_to Big (big_conversions true thru) f w x /\
  @conv_from_const Big (big_conversions c thru) f w x = @conv_from Big (big_conversions true thru) f w x.
Proof. by destruct f, w. Qed.

Lemma turn_image e f w x : image e (wbytes w) (turn e f w x) = image f (wbytes w) x.
Proof.
  destruct e, f; cbn [turn image]; rewrite ?le_bytes_cast, ?le_bytes_rev; [done|done| |done].
  apply rev_involutive.
Qed.

Lemma value_bytes e w l : length l = wbytes w -> image e (wbytes w) (value e l) = l.
Proof.
  intros Hl. destruct e; cbn [image value]; rewrite <- Hl.
  - apply le_bytes_value.
  - rewrite <- (length_rev l), le_bytes_value. apply rev_involutive.
Qed.

Lemma value_image e n x : value e (image e n x) = le_value (le_bytes n x).
Proof. destruct e; cbn; [done|]. by rewrite rev_involutive. Qed.

Lemma turn_value e f w l : length l = wbytes w -> turn e f w (value e l) = value f l.
Proof.
  intros Hl. pose proof (le_value_range l) as Hr. pose proof (le_value_range (rev l)) as Hr'.
  unfold zlen in Hr, Hr'. rewrite length_rev in Hr'. rewrite Hl in Hr, Hr'.
  assert (E : forall k, length k = wbytes w -> le_bytes (wbytes w) (le_value k) = k)
    by (intros k <-; apply le_bytes_value).
  destruct e, f; cbn [turn value]; [by apply wcast_small | by rewrite E | | by apply wcast_small].
  unfold value. rewrite E by (by rewrite length_rev). by rewrite rev_involutive.
Qed.

(** ** Memory *)

Lemma load_uint_value e h p n : load_uint e h p n = (l ← load_bytes h p (Z.of_nat n); Ok (value e l)).
Proof. done. Qed.

Lemma load_length h b o n l : load_bytes h (PAddr b o) (Z.of_nat (wbytes n)) = Ok l -> length l = wbytes n.
Proof. intros Hl. destruct (load_bytes_inv _ _ _ _ _ Hl) as (_ & _ & _ & _ & ->); destruct n; cbn; lia. Qed.

(** A conversion that does nothing in place: the machine has the format. *)
Lemma store_native e w h b o l : load_bytes h (PAddr b o) (Z.of_nat (wbytes w)) = Ok l ->
  store_uint e h (PAddr b o) (wbytes w) (turn e e w (value e l)) = Ok h.
Proof.
  intros Hl. unfold store_uint. rewrite turn_image, value_bytes by (by eapply load_length). by eapply store_same.
Qed.

(** ** The headers keep the promise *)

Lemma bind_ext {A B} (m : res A) (k k' : A -> res B) : (forall a, k a = k' a) -> mbind k m = mbind k' m.
Proof. intros Hk. destruct m; [apply Hk | done]. Qed.

Lemma bind_map {A B C} (m : res A) (f : A -> B) (k : B -> res C) :
  (y ← (x ← m; Ok (f x)); k y) = (x ← m; k (f x)).
Proof. by destruct m. Qed.

(** A value of the other format is reversed when it is read, or in place. *)
Section Foreign.
Context (thru : bool) (e f : host) (Hne : e <> f) (w : width) (h : heap).

Lemma foreign_load p : (x ← load_uint e h p (wbytes w); Ok (swab false thru w x))
  = (x ← load_uint e h p (wbytes w); Ok (turn e f w x)).
Proof. apply bind_ext. intros x. by rewrite (swab_turn false thru e f). Qed.

Lemma foreign_load_cast p : (x ← (x ← load_uint e h p (wbytes w); Ok (swab false thru w x)); Ok (wcast w x))
  = (x ← load_uint e h p (wbytes w); Ok (turn e f w x)).
Proof. rewrite foreign_load, bind_map. apply bind_ext. intros x. by rewrite cast_turn. Qed.

Lemma foreign_store b o l : load_bytes h (PAddr b o) (Z.of_nat (wbytes w)) = Ok l ->
  (x ← (x ← load_uint e h (PAddr b o) (wbytes w); Ok (swab false thru w x)); store_uint e h (PAddr b o) (wbytes w) x)
  = store_uint e h (PAddr b o) (wbytes w) (turn e f w (value e l)).
Proof. intros Hl. rewrite bind_map, load_uint_value, Hl, !bind_ok. by rewrite (swab_turn false thru e f). Qed.
End Foreign.

#[global] Instance little_spec c thru : @ConversionSpec Little (little_conversions c thru).
Proof.
  split; intros f w.
  - intros x. rewrite (proj1 (little_value c thru f w x)). apply turn_image.
  - intros l Hl. rewrite (proj2 (little_value c thru f w (value Little l))). by apply turn_value.
  - intros x. destruct (little_const c thru f w x) as [-> ->], (little_value c thru f w x) as [-> ->].
    apply little_value.
  - intros h p. rewrite (bind_ext _ _ _ (fun x => f_equal Ok (proj1 (little_value c thru f w x)))).
    rewrite (bind_ext _ _ _ (fun x => f_equal Ok (proj2 (little_value c thru f w x)))). destruct f; [by destruct w|].
    rewrite <- (foreign_load_cast thru Little Big ltac:(done) w h p) at 1.
    rewrite <- (foreign_load thru Little Big ltac:(done) w h p). by destruct w.
  - intros h b o l Hl. rewrite (proj1 (little_value c thru f w _)), (proj2 (little_value c thru f w _)). destruct f.
    + rewrite store_native by done. by destruct w.
    + rewrite <- (foreign_store thru Little Big ltac:(done) w h b o l Hl). by destruct w.
Qed.

#[global] Instance big_spec c thru : @ConversionSpec Big (big_conversions c thru).
Proof.
  split; intros f w.
  - intros x. rewrite (proj1 (big_value c thru f w x)). apply turn_image.
  - intros l Hl. rewrite (proj2 (big_value c thru f w (value Big l))). by apply turn_value.
  - intros x. destruct (big_const c thru f w x) as [-> ->], (big_value c thru f w x) as [-> ->].
    apply big_value.
  - intros h p. rewrite (bind_ext _ _ _ (fun x => f_equal Ok (proj1 (big_value c thru f w x)))).
    rewrite (bind_ext _ _ _ (fun x => f_equal Ok (proj2 (big_value c thru f w x)))). destruct f; [|by destruct w].
    rewrite <- (foreign_load_cast thru Big Little ltac:(done) w h p) at 1.
    rewrite <- (foreign_load thru Big Little ltac:(done) w h p). by destruct w.
  - intros h b o l Hl. rewrite (proj1 (big_value c thru f w _)), (proj2 (big_value c thru f w _)). destruct f.
    + rewrite <- (foreign_store thru Big Little ltac:(done) w h b o l Hl). by destruct w.
    + rewrite store_native by done. by destruct w.
Qed.

(** ** Any two machines *)

Lemma length_image e n x : length (image e n x) = n.
Proof. destruct e; cbn; by rewrite ?length_rev, length_le_bytes. Qed.

Lemma zlen_image e n x : zlen (image e n x) = Z.of_nat n.
Proof. unfold zlen. by rewrite length_image. Qed.

Lemma store_uint_inserts e h b blk o n x : h !! b = Some blk -> (o + n <= length blk)%nat ->
  store_uint e h (PAddr b o) n x = Ok (<[b := list_inserts o (Some <$> image e n x) blk]> h).
Proof. intros Hb Hl. apply store_bytes_ok; [done|]. by rewrite length_image. Qed.

Section Exchange.
Context {e1 e2 : host} `{Hs1 : ConversionSpec e1} `{Hs2 : ConversionSpec e2}.

(** What one machine stores in a format the other one reads. *)
Lemma read_image f w x h b o : 0 <= x < 256 ^ Z.of_nat (wbytes w) ->
  load_bytes h (PAddr b o) (Z.of_nat (wbytes w)) = Ok (image f (wbytes w) x) ->
  @conv_load_from e2 _ f w h (PAddr b o) = Ok x.
Proof.
  intros Hx Hl. rewrite (proj2 (conv_load f w h (PAddr b o))), load_uint_value, Hl, !bind_ok.
  rewrite conv_from_value by (by eapply load_length). by rewrite value_image, le_value_bytes.
Qed.

Lemma exchange f w x h b o h' : 0 <= x < 256 ^ Z.of_nat (wbytes w) ->
  store_uint e1 h (PAddr b o) (wbytes w) (@conv_to e1 _ f w x) = Ok h' ->
  @conv_load_from e2 _ f w h' (PAddr b o) = Ok x.
Proof.
  intros Hx Hs. apply read_image; [done|]. unfold store_uint in Hs. rewrite conv_to_image in Hs.
  apply load_store in Hs. by rewrite zlen_image in Hs.
Qed.

(** Storing and converting in place leaves what storing the converted value
    leaves. *)
Lemma in_place_ok f w x h b blk o h1 : 0 <= x < 256 ^ Z.of_nat (wbytes w) ->
  h !! b = Some blk -> (o + wbytes w <= length blk)%nat ->
  store_uint e1 h (PAddr b o) (wbytes w) (@conv_to e1 _ f w x) = Ok h1 ->
  @conv_in_place_to e1 _ f w (<[b := list_inserts o (Some <$> image e1 (wbytes w) x) blk]> h) (PAddr b o) = Ok h1.
Proof.
  intros Hx Hb Hl Hs. pose proof (store_uint_inserts e1 h b blk o (wbytes w) x Hb Hl) as Hst.
  unfold store_uint in Hst. apply load_store in Hst. rewrite zlen_image in Hst.
  rewrite (proj1 (conv_in_place f w _ b o _ Hst)), value_image, le_value_bytes by done.
  rewrite (store_uint_inserts e1 h b blk) in Hs by done. injection Hs as <-.
  rewrite (store_uint_inserts e1 _ b _ o _ _ (lookup_insert_eq _ _ _)) by (by rewrite length_inserts).
  rewrite insert_insert_eq, inserts_again; [done|]. by rewrite !length_image.
Qed.
End Exchange.

(** The conversions a machine uses. *)
Definition machine (e : host) (c thru : bool) : Conversions e :=
  match e with Little => little_conversions c thru | Big => big_conversions c thru end.

#[global] Instance machine_spec e c thru : @ConversionSpec e (machine e c thru).
Proof. destruct e; apply _. Qed.

(** The functions of the C library give the bytes of the big-endian format. *)
Lemma htons_image e x : image e 2 (htons e x) = rev (le_bytes 2 x).
Proof.
  destruct e; cbn [htons image].
  - by rewrite bswap_16_rev, le_bytes_rev.
  - unfold __uint16_identity, u16. by rewrite le_bytes_mod.
Qed.

Lemma htonl_image e x : image e 4 (htonl e x) = rev (le_bytes 4 x).
Proof.
  destruct e; cbn [htonl image].
  - by rewrite bswap_32_rev, le_bytes_rev.
  - unfold __uint32_identity, u32. by rewrite le_bytes_mod.
Qed.

Lemma ntohs_value e (l : list char) : length l = 2%nat -> ntohs e (value e l) = le_value (rev l).
Proof.
  intros Hl. destruct e; cbn [ntohs value].
  - rewrite bswap_16_rev. by rewrite <- Hl, le_bytes_value.
  - unfold value, __uint16_identity, u16. pose proof (le_value_range (rev l)) as Hr. unfold zlen in Hr.
    rewrite length_rev, Hl in Hr. by apply Z.mod_small.
Qed.

(** The halves of a 32-bit value. *)
Lemma half_bytes l1 l2 : length l1 = 2%nat -> length l2 = 2%nat ->
  le_bytes 2 (le_value (l1 ++ l2)) = l1 /\ le_bytes 2 (le_value (l1 ++ l2) / 2 ^ 16) = l2.
Proof.
  intros H1 H2. pose proof (le_bytes_value (l1 ++ l2)) as E. rewrite length_app, H1, H2, le_bytes_app in E.
  apply app_inj_1 in E; [exact E|]. by rewrite length_le_bytes.
Qed.

(** ** Theorems *)

(** C25: every version of the reversal functions (for constants, the inline
    function, the 64-bit one through the 32-bit one, those of the C library)
    gives the bytes in reverse order; __swahw32 and __swahb32, which exchange
    the halves and the bytes of each half, one after the other are __swab32. *)
Theorem swab_reference (c thru : bool) x :
  le_bytes 2 (__swab16 c x) = rev (le_bytes 2 x) /\ le_bytes 4 (__swab32 c x) = rev (le_bytes 4 x) /\
  le_bytes 8 (__swab64 c thru x) = rev (le_bytes 8 x) /\
  __bswap_16 x = __swab16 c x /\ __bswap_32 x = __swab32 c x /\ __bswap_64 x = __swab64 c thru x /\
  __swahw32 c (__swahb32 c x) = __swab32 c x /\ __swahb32 c (__swahw32 c x) = __swab32 c x.
Proof.
  destruct (swab_rev c thru x) as (E16 & E32 & E64). rewrite E16, E32, E64, !le_bytes_rev.
  rewrite bswap_16_rev, bswap_32_rev, bswap_64_rev. do 6 (split; [done|]).
  rewrite !swahw32_halves, !swahb32_pairs. change 4%nat with (2 + 2)%nat. rewrite le_bytes_app.
  change (256 ^ Z.of_nat 2) with (2 ^ 16). rewrite rev_app_distr.
  split; (edestruct half_bytes as [-> ->]; [..|done]); by rewrite ?length_rev, length_le_bytes.
Qed.

(** C26: a value that one machine converts to a format and stores, directly or
    in place, is what any machine reads with the conversion from that format:
    for both formats, all widths and all four pairs of machines.  Where the
    memory is there, every step succeeds. *)
Theorem endian_exchange (e1 e2 f : host) (c1 t1 c2 t2 : bool) w x h b blk o :
  0 <= x < 256 ^ Z.of_nat (wbytes w) -> h !! b = Some blk -> (o + wbytes w <= length blk)%nat ->
  exists h1, store_uint e1 h (PAddr b o) (wbytes w) (@conv_to e1 (machine e1 c1 t1) f w x) = Ok h1 /\
    @conv_load_from e2 (machine e2 c2 t2) f w h1 (PAddr b o) = Ok x /\
    exists h0, store_uint e1 h (PAddr b o) (wbytes w) x = Ok h0 /\
      @conv_in_place_to e1 (machine e1 c1 t1) f w h0 (PAddr b o) = Ok h1.
Proof.
  pose proof (machine_spec e1 c1 t1) as H1. pose proof (machine_spec e2 c2 t2) as H2. intros Hx Hb Hl.
  eexists. split; [by apply store_uint_inserts|]. split; [by eapply (exchange (Hs1 := H1)), store_uint_inserts|].
  exists (<[b := list_inserts o (Some <$> image e1 (wbytes w) x) blk]> h).
  split; [by apply store_uint_inserts|]. by apply (in_place_ok (Hs1 := H1)), store_uint_inserts.
Qed.

(** A big-endian machine writes 0x12345678 in its own format; a little-endian
    one reads it. *)
Lemma endian_exchange_witness : exists h1,
  store_uint Big {[ 1%nat := replicate 4 None ]} (PAddr 1 0) 4 0x12345678 = Ok h1 /\
  @conv_load_from Little (machine Little false true) Big W32 h1 (PAddr 1 0) = Ok 0x12345678 /\
  @conv_load_from Little (machine Little false true) Little W32 h1 (PAddr 1 0) = Ok 0x78563412.
Proof.
  destruct (endian_exchange Big Little Big false false false true W32 0x12345678
    {[ 1%nat := replicate 4 None ]} 1 (replicate 4 None) 0) as (h1 & Hs & Hl & _).
  - cbn. lia.
  - reflexivity.
  - cbn. lia.
  - exists h1. split; [exact Hs|]. split; [exact Hl|]. vm_compute in Hs. injection Hs as <-. vm_compute. reflexivity.
Defined.
