(* ===== verification/Tlv.v ===== *)
(** * TIPC configuration messages (linux/tipc_config.h)

    Type-length-value fields in a buffer: the macros for sizes, the functions
    that set, check and read a field, the list descriptor that walks over a
    sequence of fields, and the header of a configuration message.  Fields
    are in network byte order; [e] is the byte order of the machine.  A read
    or write outside a buffer is a fault. *)

From stdpp Require Import base numbers strings gmap list.
From S2P Require Import Prelude CMem CString ByteOrder Endian.

#[local] Open Scope Z_scope.

(** ** Sizes *)

Definition sizeof_tlv_desc : Z := 4.

Definition TLV_ALIGNTO : Z := 4.
Definition TLV_ALIGN (datalen : Z) : Z := Z.land (datalen + (TLV_ALIGNTO - 1)) (Z.lnot (TLV_ALIGNTO - 1)).
Definition TLV_LENGTH (datalen : Z) : Z := u64 (sizeof_tlv_desc + datalen).
Definition TLV_SPACE (datalen : Z) : Z := u64 (TLV_ALIGN (TLV_LENGTH datalen)).
Definition TLV_DATA (tlv : ptr) : ptr := ptr_add tlv (TLV_LENGTH 0).

(** memcpy(): the source is read before the destination is written. *)
Definition memcpy (h : heap) (dst src : ptr) (n : Z) : res heap :=
  data ← load_bytes h src n; store_bytes h dst data.

Section Tlv.
Context (e : host).

(** The fields of struct tlv_desc: two bytes each. *)
Definition tlv_len (h : heap) (tlv : ptr) : res Z := load_uint e h tlv 2.
Definition tlv_type (h : heap) (tlv : ptr) : res Z := load_uint e h (ptr_add tlv 2) 2.
Definition set_tlv_len (h : heap) (tlv : ptr) (x : Z) : res heap := store_uint e h tlv 2 x.
Definition set_tlv_type (h : heap) (tlv : ptr) (x : Z) : res heap := store_uint e h (ptr_add tlv 2) 2 x.

(** ** One field; [space] and [exp_type] are 16 bits wide *)

Definition TLV_OK (h : heap) (tlv : ptr) (space : Z) : res bool :=
  if TLV_SPACE 0 <=? space then
    len ← tlv_len h tlv; Ok (ntohs e len <=? space)
  else Ok false.

Definition TLV_CHECK (h : heap) (tlv : ptr) (space exp_type : Z) : res bool :=
  ok ← TLV_OK h tlv space;
  if (ok : bool) then t ← tlv_type h tlv; Ok (ntohs e t =? exp_type) else Ok false.

Definition TLV_GET_LEN (h : heap) (tlv : ptr) : res Z := len ← tlv_len h tlv; Ok (ntohs e len).
Definition TLV_SET_LEN (h : heap) (tlv : ptr) (len : Z) : res heap := set_tlv_len h tlv (htons e len).
Definition TLV_CHECK_TYPE (h : heap) (tlv : ptr) (type : Z) : res bool :=
  t ← tlv_type h tlv; Ok (ntohs e t =? type).
Definition TLV_SET_TYPE (h : heap) (tlv : ptr) (type : Z) : res heap := set_tlv_type h tlv (htons e type).

(** [tlv_len] is an int; htons() takes its low 16 bits. *)
Definition TLV_SET (h : heap) (tlv : ptr) (type : Z) (data : ptr) (len : Z) : res (Z * heap) :=
  let tlv_len := s32 (TLV_LENGTH len) in
  h ← set_tlv_type h tlv (htons e type);
  h ← set_tlv_len h tlv (htons e tlv_len);
  h ← (if negb (len =? 0) && negb (is_null data) then memcpy h (TLV_DATA tlv) data tlv_len else Ok h);
  Ok (s32 (TLV_SPACE len), h).

(** ** A list of fields *)

Record tlv_list_desc : Type := TlvList {
  tlv_ptr : ptr;
  tlv_space : Z                   (* __u32 *)
}.

Definition TLV_LIST_INIT (data : ptr) (space : Z) : tlv_list_desc := TlvList data space.
Definition TLV_LIST_EMPTY (list : tlv_list_desc) : bool := tlv_space list =? 0.
(** The space is narrowed to 16 bits. *)
Definition TLV_LIST_CHECK (h : heap) (list : tlv_list_desc) (exp_type : Z) : res bool :=
  TLV_CHECK h (tlv_ptr list) (u16 (tlv_space list)) exp_type.
Definition TLV_LIST_DATA (list : tlv_list_desc) : ptr := TLV_DATA (tlv_ptr list).
Definition TLV_LIST_STEP (h : heap) (list : tlv_list_desc) : res tlv_list_desc :=
  len ← tlv_len h (tlv_ptr list);
  let space := u16 (TLV_ALIGN (ntohs e len)) in
  Ok (TlvList (ptr_add (tlv_ptr list) space) (u32 (tlv_space list - space))).

(** ** Message header: struct tipc_cfg_msg_hdr *)

Definition sizeof_tipc_cfg_msg_hdr : Z := 16.

Definition TCM_ALIGN (datalen : Z) : Z := Z.land (datalen + 3) (Z.lnot 3).
Definition TCM_LENGTH (datalen : Z) : Z := u64 (sizeof_tipc_cfg_msg_hdr + datalen).
Definition TCM_SPACE (datalen : Z) : Z := u64 (TCM_ALIGN (TCM_LENGTH datalen)).
Definition TCM_DATA (tcm_hdr : ptr) : ptr := ptr_add tcm_hdr (TCM_LENGTH 0).

Definition TCM_SET (h : heap) (msg : ptr) (cmd flags : Z) (data : ptr) (data_len : Z) : res (Z * heap) :=
  let msg_len := s32 (TCM_LENGTH data_len) in
  h ← store_uint e h msg 4 (htonl e msg_len);
  h ← store_uint e h (ptr_add msg 4) 2 (htons e cmd);
  h ← store_uint e h (ptr_add msg 6) 2 (htons e flags);
  h ← (if negb (data_len =? 0) && negb (is_null data) then memcpy h (TCM_DATA msg) data data_len else Ok h);
  Ok (s32 (TCM_SPACE data_len), h).
End Tlv.

(** ** Addresses (linux/tipc.h): zone, cluster and node of 8, 12 and 12 bits *)

Definition TIPC_NODE_BITS : Z := 12.
Definition TIPC_CLUSTER_BITS : Z := 12.
Definition TIPC_ZONE_BITS : Z := 8.
Definition TIPC_NODE_OFFSET : Z := 0.
Definition TIPC_CLUSTER_OFFSET : Z := TIPC_NODE_BITS.
Definition TIPC_ZONE_OFFSET : Z := TIPC_CLUSTER_OFFSET + TIPC_CLUSTER_BITS.
Definition TIPC_NODE_SIZE : Z := Z.shiftl 1 TIPC_NODE_BITS - 1.
Definition TIPC_CLUSTER_SIZE : Z := Z.shiftl 1 TIPC_CLUSTER_BITS - 1.
Definition TIPC_ZONE_SIZE : Z := Z.shiftl 1 TIPC_ZONE_BITS - 1.
Definition TIPC_NODE_MASK : Z := Z.shiftl TIPC_NODE_SIZE TIPC_NODE_OFFSET.
Definition TIPC_CLUSTER_MASK : Z := Z.shiftl TIPC_CLUSTER_SIZE TIPC_CLUSTER_OFFSET.
Definition TIPC_ZONE_MASK : Z := Z.shiftl TIPC_ZONE_SIZE TIPC_ZONE_OFFSET.

Definition tipc_addr (zone cluster node : Z) : Z :=
  Z.lor (Z.lor (u32 (Z.shiftl zone TIPC_ZONE_OFFSET)) (u32 (Z.shiftl cluster TIPC_CLUSTER_OFFSET))) node.
Definition tipc_zone (addr : Z) : Z := Z.shiftr addr TIPC_ZONE_OFFSET.
Definition tipc_cluster (addr : Z) : Z := Z.shiftr (Z.land addr TIPC_CLUSTER_MASK) TIPC_CLUSTER_OFFSET.
Definition tipc_node (addr : Z) : Z := Z.land addr TIPC_NODE_MASK.
