(* ===== verification/TlvFacts.v ===== *)
(** * Facts about TIPC configuration messages *)

From stdpp Require Import base numbers strings gmap list.
From S2P Require Import Prelude CMem CString ByteOrder Endian Tlv.

#[local] Open Scope Z_scope.

(** ** Sizes *)

Lemma align4 n : Z.land (n + 3) (Z.lnot 3) = (n + 3) / 4 * 4.
Proof. by apply (land_not_mask _ 2). Qed.

Lemma TLV_ALIGN_spec n : TLV_ALIGN n = (n + 3) / 4 * 4.
Proof. apply align4. Qed.

(** A multiple of four, at most three bytes above. *)
Lemma TLV_ALIGN_bounds n : n <= TLV_ALIGN n < n + 4.
Proof. rewrite TLV_ALIGN_spec. pose proof (Z.div_mod (n + 3) 4). pose proof (Z.mod_pos_bound (n + 3) 4). lia. Qed.

Lemma TLV_LENGTH_small n : 0 <= n < 2 ^ 31 -> TLV_LENGTH n = 4 + n.
Proof. intros. unfold TLV_LENGTH, sizeof_tlv_desc. apply u64_small. lia. Qed.

Lemma TLV_SPACE_small n : 0 <= n < 2 ^ 31 -> TLV_SPACE n = TLV_ALIGN (4 + n).
Proof.
  intros. unfold TLV_SPACE. rewrite TLV_LENGTH_small by lia. pose proof (TLV_ALIGN_bounds (4 + n)). apply u64_small. lia.
Qed.

(** ** Fields in memory *)

(** A 16-bit value in network byte order. *)
Definition be16 (x : Z) : list char := rev (le_bytes 2 x).

Lemma length_be16 x : length (be16 x) = 2%nat.
Proof. unfold be16. by rewrite length_rev, length_le_bytes. Qed.

(** The bytes of a field. *)
Definition tlv_bytes (type : Z) (data : list char) : list char := be16 (4 + zlen data) ++ be16 type ++ data.

Lemma length_tlv_bytes type data : length (tlv_bytes type data) = (4 + length data)%nat.
Proof. unfold tlv_bytes. rewrite !length_app, !length_be16. lia. Qed.

Lemma bytes_at_app blk o l1 l2 : bytes_at blk o (l1 ++ l2) <-> bytes_at blk o l1 /\ bytes_at blk (o + length l1) l2.
Proof.
  unfold bytes_at. rewrite length_app, fmap_app, <- take_take_drop, drop_drop. split; [|by intros [-> ->]].
  intros Heq. apply app_inj_1 in Heq; [done|]. apply (f_equal length) in Heq.
  rewrite !length_app, !length_take, !length_drop, !length_fmap in Heq. rewrite length_take, length_drop, length_fmap. lia.
Qed.

(** A value that is read back from its bytes. *)
Lemma ntohs_load e h b blk o x : h !! b = Some blk -> (o <= length blk)%nat -> bytes_at blk o (be16 x) ->
  exists v, load_uint e h (PAddr b o) 2 = Ok v /\ ntohs e v = x mod 2 ^ 16.
Proof.
  intros Hb Ho Hat. rewrite load_uint_value. change (Z.of_nat 2) with (zlen (be16 x)).
  rewrite (load_bytes_at h b blk o (be16 x) Hb Ho Hat), bind_ok. eexists. split; [done|].
  rewrite ntohs_value by apply length_be16. unfold be16. rewrite rev_involutive. apply le_value_low.
Qed.

Lemma bytes_at_offset blk o l1 l2 : bytes_at blk o (l1 ++ l2) -> bytes_at blk (o + length l1) l2.
Proof. intros H. by apply bytes_at_app in H as [_ H]. Qed.

Lemma bytes_at_prefix blk o l1 l2 : bytes_at blk o (l1 ++ l2) -> bytes_at blk o l1.
Proof. intros H. by apply bytes_at_app in H as [H _]. Qed.

(** A field that is in the buffer, and what its functions answer. *)
Section Field.
Context (e : host) (h : heap) (b : nat) (blk : block) (o : nat) (type : Z) (data : list char).
Context (Hb : h !! b = Some blk) (Hat : bytes_at blk o (tlv_bytes type data)).
Context (Htype : 0 <= type < 2 ^ 16) (Hlen : 4 + zlen data < 2 ^ 16).

Lemma field_inside : (o + 4 + length data <= length blk)%nat.
Proof. pose proof (bytes_at_length _ _ _ Hat) as Hl. rewrite length_tlv_bytes in Hl. lia. Qed.

Lemma field_len : exists v, tlv_len e h (PAddr b o) = Ok v /\ ntohs e v = 4 + zlen data.
Proof.
  pose proof field_inside. unfold tlv_bytes in Hat. apply bytes_at_prefix in Hat as Hl.
  destruct (ntohs_load e h b blk o _ Hb ltac:(lia) Hl) as (v & Hv & Hn). exists v. split; [done|].
  rewrite Hn. apply Z.mod_small. pose proof (zlen_nonneg data). lia.
Qed.

Lemma field_type : exists v, tlv_type e h (PAddr b o) = Ok v /\ ntohs e v = type.
Proof.
  pose proof field_inside. unfold tlv_bytes in Hat. apply bytes_at_offset, bytes_at_prefix in Hat as Hl.
  rewrite length_be16 in Hl. destruct (ntohs_load e h b blk (o + 2) _ Hb ltac:(lia) Hl) as (v & Hv & Hn).
  exists v. split; [exact Hv|]. rewrite Hn. by apply Z.mod_small.
Qed.

Lemma field_data : load_bytes h (TLV_DATA (PAddr b o)) (zlen data) = Ok data.
Proof.
  pose proof field_inside. unfold tlv_bytes in Hat. rewrite app_assoc in Hat. apply bytes_at_offset in Hat as Hd.
  rewrite length_app, !length_be16 in Hd. unfold TLV_DATA. rewrite TLV_LENGTH_small by lia.
  change (ptr_add (PAddr b o) (4 + 0)) with (PAddr b (o + 4)). apply (load_bytes_at h b blk); [done|lia|done].
Qed.

Lemma field_check space exp_type : 0 <= space < 2 ^ 16 -> 4 + zlen data <= space ->
  TLV_CHECK e h (PAddr b o) space exp_type = Ok (type =? exp_type).
Proof.
  intros Hs1 Hs2. pose proof (zlen_nonneg data). unfold TLV_CHECK, TLV_OK.
  rewrite TLV_SPACE_small by lia. rewrite (proj2 (Z.leb_le _ _)) by (change (TLV_ALIGN (4 + 0)) with 4; lia).
  destruct field_len as (v & -> & Hv), field_type as (t & Ht & Htv). rewrite !bind_ok, Hv.
  rewrite (proj2 (Z.leb_le _ _)) by lia. rewrite Ht, bind_ok. by rewrite Htv.
Qed.

Lemma field_step space : 4 + zlen data <= 65532 ->
  TLV_LIST_STEP e h (TlvList (PAddr b o) space)
  = Ok (TlvList (PAddr b (o + Z.to_nat (TLV_ALIGN (4 + zlen data)))) (u32 (space - TLV_ALIGN (4 + zlen data)))).
Proof.
  intros Hs. unfold TLV_LIST_STEP. cbn [tlv_ptr tlv_space]. destruct field_len as (v & -> & Hv).
  rewrite bind_ok, Hv. pose proof (zlen_nonneg data).
  assert (u16 (TLV_ALIGN (4 + zlen data)) = TLV_ALIGN (4 + zlen data)) as ->; [|done].
  apply u16_small. rewrite TLV_ALIGN_spec. pose proof (Z.div_pos (4 + zlen data + 3) 4 ltac:(lia) ltac:(lia)).
  assert ((4 + zlen data + 3) / 4 < 16384); [|lia]. apply Z.div_lt_upper_bound; lia.
Qed.
End Field.

(** ** Setting a field *)

(** The header of a field in the buffer. *)
Definition put_header (type len : Z) (o : nat) (blk : block) : block :=
  list_inserts o (Some <$> be16 len) (list_inserts (o + 2) (Some <$> be16 type) blk).

Lemma length_put_header type len o blk : length (put_header type len o blk) = length blk.
Proof. unfold put_header. by rewrite !length_inserts. Qed.

Lemma put_header_at type len o blk : (o + 4 <= length blk)%nat ->
  bytes_at (put_header type len o blk) o (be16 len ++ be16 type).
Proof.
  intros Hl. apply bytes_at_app. rewrite length_be16. split.
  - apply bytes_at_inserts. rewrite length_be16, length_inserts. lia.
  - apply bytes_at_other; rewrite ?length_be16, ?length_inserts; [|lia..].
    apply bytes_at_inserts. rewrite length_be16. lia.
Qed.

Lemma put_header_before type len o blk i : (i < o)%nat -> put_header type len o blk !! i = blk !! i.
Proof. intros Hi. unfold put_header. by rewrite !list_lookup_inserts_lt by lia. Qed.

Lemma set_header_ok e h b blk o type len : h !! b = Some blk -> (o + 4 <= length blk)%nat ->
  (h ← set_tlv_type e h (PAddr b o) (htons e type); set_tlv_len e h (PAddr b o) (htons e len))
  = Ok (<[b := put_header type len o blk]> h).
Proof.
  intros Hb Hl. unfold set_tlv_type, set_tlv_len, store_uint.
  change (ptr_add (PAddr b o) 2) with (PAddr b (o + 2)). rewrite !htons_image.
  rewrite (store_bytes_ok h b blk (o + 2) _ Hb), bind_ok by (rewrite length_rev, length_le_bytes; lia).
  rewrite (store_bytes_ok _ b _ o _ (lookup_insert_eq _ _ _)) by (rewrite length_inserts, length_rev, length_le_bytes; lia).
  by rewrite insert_insert_eq.
Qed.

(** memcpy() between two blocks. *)
Lemma memcpy_ok h b blk o sb sblk so l : h !! b = Some blk -> h !! sb = Some sblk -> (so <= length sblk)%nat ->
  bytes_at sblk so l -> (o + length l <= length blk)%nat ->
  memcpy h (PAddr b o) (PAddr sb so) (zlen l) = Ok (<[b := list_inserts o (Some <$> l) blk]> h).
Proof.
  intros Hb Hsb Hso Hat Hl. unfold memcpy. rewrite (load_bytes_at h sb sblk so l Hsb Hso Hat), bind_ok.
  by apply store_bytes_ok.
Qed.

(** Where the data of a field come from: the bytes, and four more behind
    them, in a block of their own. *)
Definition source (h : heap) (b : nat) (p : ptr) (data : list char) : Prop :=
  data = [] \/ exists sb so sblk extra, p = PAddr sb so /\ sb <> b /\ h !! sb = Some sblk /\ (so <= length sblk)%nat /\
    length extra = 4%nat /\ bytes_at sblk so (data ++ extra).

Lemma source_insert h b p data blk : source h b p data -> source (<[b := blk]> h) b p data.
Proof.
  intros [?|(sb & so & sblk & extra & -> & Hne & Hsb & H)]; [by left|]. right. exists sb, so, sblk, extra.
  by rewrite lookup_insert_ne.
Qed.

Lemma s32_length len : 0 <= len < 2 ^ 16 -> s32 (TLV_LENGTH len) = 4 + len /\ s32 (TLV_SPACE len) = TLV_ALIGN (4 + len).
Proof.
  intros Hl. rewrite TLV_LENGTH_small, TLV_SPACE_small by lia. pose proof (TLV_ALIGN_bounds (4 + len)).
  split; apply s32_small; lia.
Qed.

Lemma tlv_set_ok e h b blk o type p data : h !! b = Some blk -> source h b p data -> 4 + zlen data < 2 ^ 16 ->
  (o + 8 + length data <= length blk)%nat ->
  exists blk', TLV_SET e h (PAddr b o) type p (zlen data) = Ok (TLV_ALIGN (4 + zlen data), <[b := blk']> h) /\
    length blk' = length blk /\ (forall i, (i < o)%nat -> blk' !! i = blk !! i) /\ bytes_at blk' o (tlv_bytes type data).
Proof.
  intros Hb Hsrc Hlen Hl. pose proof (zlen_nonneg data). destruct (s32_length (zlen data) ltac:(lia)) as [E1 E2].
  unfold TLV_SET. cbv zeta. rewrite E1, E2.
  assert (Hh := set_header_ok e h b blk o type (4 + zlen data) Hb ltac:(lia)).
  destruct (set_tlv_type e h (PAddr b o) (htons e type)) as [h1|]; [|done]. rewrite bind_ok in Hh. rewrite bind_ok, Hh, bind_ok.
  pose proof (put_header_at type (4 + zlen data) o blk ltac:(lia)) as Hput.
  set (blk1 := put_header type (4 + zlen data) o blk) in *. assert (Hl1 : length blk1 = length blk) by apply length_put_header.
  destruct (Z.eqb_spec (zlen data) 0) as [Hz|Hz].
  - cbn [negb andb]. rewrite bind_ok. assert (data = []) as -> by (destruct data; [done|unfold zlen in *; cbn in *; lia]).
    exists blk1. split; [done|]. split; [done|]. split; [intros; by apply put_header_before|].
    unfold tlv_bytes. by rewrite app_nil_r.
  - destruct Hsrc as [->|(sb & so & sblk & extra & -> & Hne & Hsb & Hso & Hx & Hat)]; [done|].
    rewrite is_null_addr. cbn [negb andb].
    unfold TLV_DATA. rewrite TLV_LENGTH_small by lia. change (ptr_add (PAddr b o) (4 + 0)) with (PAddr b (o + 4)).
    assert (E : 4 + zlen data = zlen (data ++ extra)) by (rewrite zlen_app; unfold zlen; lia).
    assert (Hm : memcpy (<[b := blk1]> h) (PAddr b (o + 4)) (PAddr sb so) (zlen (data ++ extra))
      = Ok (<[b := list_inserts (o + 4) (Some <$> data ++ extra) blk1]> (<[b := blk1]> h))).
    { apply (memcpy_ok _ b blk1 (o + 4) sb sblk so); rewrite ?lookup_insert_eq, ?lookup_insert_ne by done; try done.
      rewrite length_app. lia. }
    rewrite <- E in Hm. rewrite Hm, bind_ok, insert_insert_eq.
    eexists. split; [reflexivity|]. rewrite length_inserts. split; [done|]. split.
    + intros i Hi. rewrite list_lookup_inserts_lt by lia. by apply put_header_before.
    + unfold tlv_bytes. rewrite app_assoc. apply bytes_at_app. rewrite length_app, !length_be16. split.
      * apply bytes_at_other; [done| |]; rewrite ?length_app, ?length_be16; lia.
      * eapply bytes_at_prefix. apply bytes_at_inserts. rewrite length_app. lia.
Qed.

(** ** Lists of fields *)

(** One call of TLV_SET after the other, each behind the one before: the
    space used in all. *)
Fixpoint set_all (e : host) (h : heap) (p : ptr) (items : list (Z * ptr * Z)) : res (Z * heap) :=
  match items with
  | [] => Ok (0, h)
  | (type, data, len) :: rest =>
      '(n, h) ← TLV_SET e h p type data len;
      '(m, h) ← set_all e h (ptr_add p n) rest;
      Ok (n + m, h)
  end.

(** A reader: type and data of each field, by the functions of the list
    descriptor; [None] for a list that is not well formed. *)
Fixpoint read_all (fuel : nat) (e : host) (h : heap) (list : tlv_list_desc) : res (option (Datatypes.list (Z * Datatypes.list char))) :=
  match fuel with
  | O => Fault OutOfFuel
  | S fuel' =>
      if TLV_LIST_EMPTY list then Ok (Some []) else
      ok ← TLV_OK e h (tlv_ptr list) (u16 (tlv_space list));
      if (ok : bool) then
        type ← tlv_type e h (tlv_ptr list);
        ok ← TLV_LIST_CHECK e h list (ntohs e type);
        if (ok : bool) then
          len ← TLV_GET_LEN e h (tlv_ptr list);
          data ← load_bytes h (TLV_LIST_DATA list) (len - TLV_LENGTH 0);
          list ← TLV_LIST_STEP e h list;
          rest ← read_all fuel' e h list;
          Ok (rest ← rest; Some ((ntohs e type, data) :: rest))
        else Ok None
      else Ok None
  end.

(** The space that fields take. *)
Definition field_space (x : Z * list char) : Z := TLV_ALIGN (4 + zlen x.2).
Definition total_space (xs : list (Z * list char)) : Z := foldr (fun x n => field_space x + n) 0 xs.

(** The fields [xs] are in the block from [o] on. *)
Fixpoint laid (blk : block) (o : nat) (xs : list (Z * list char)) : Prop :=
  match xs with
  | [] => True
  | x :: rest => bytes_at blk o (tlv_bytes x.1 x.2) /\ laid blk (o + Z.to_nat (field_space x)) rest
  end.

Definition field_ok (x : Z * list char) : Prop := 0 <= x.1 < 2 ^ 16 /\ 4 + zlen x.2 <= 65532.

Lemma field_space_bounds x : 4 + zlen x.2 <= field_space x < 8 + zlen x.2.
Proof. unfold field_space. pose proof (TLV_ALIGN_bounds (4 + zlen x.2)). lia. Qed.

Lemma total_space_nonneg xs : 0 <= total_space xs.
Proof.
  induction xs as [|x xs IH]; [done|]. pose proof (field_space_bounds x). pose proof (zlen_nonneg x.2).
  unfold total_space in *. cbn [foldr]. lia.
Qed.

Lemma bytes_at_agree blk blk' o l : bytes_at blk o l -> (forall i, (i < o + length l)%nat -> blk' !! i = blk !! i) ->
  bytes_at blk' o l.
Proof.
  unfold bytes_at. intros <- Heq. apply list_eq. intros i. destruct (decide (i < length l)%nat).
  - rewrite !lookup_take_lt, !lookup_drop by lia. apply Heq. lia.
  - by rewrite !lookup_take_ge by lia.
Qed.

Lemma set_all_ok e b xs : forall h blk o ps, h !! b = Some blk -> Forall2 (source h b) ps xs.*2 -> Forall field_ok xs ->
  Z.of_nat o + total_space xs + 4 <= Z.of_nat (length blk) ->
  exists blk', set_all e h (PAddr b o) (zip_with (fun x p => (x.1, p, zlen x.2)) xs ps) = Ok (total_space xs, <[b := blk']> h) /\
    length blk' = length blk /\ (forall i, (i < o)%nat -> blk' !! i = blk !! i) /\ laid blk' o xs.
Proof.
  induction xs as [|[type data] xs IH]; intros h blk o ps Hb Hsrc Hok Hl.
  { inversion Hsrc; subst. cbn. exists blk. split; [|done]. by rewrite insert_id. }
  cbn in Hsrc. inversion Hsrc as [|p ? ps' ? Hp Hps]; subst. apply Forall_cons in Hok as [[Ht Hd] Hok].
  cbn in Ht, Hd. cbn [total_space foldr] in Hl. fold (total_space xs) in Hl.
  pose proof (field_space_bounds (type, data)) as Hsp. pose proof (total_space_nonneg xs). pose proof (zlen_nonneg data).
  cbn [snd] in Hsp. unfold zlen in Hsp, Hd.
  destruct (tlv_set_ok e h b blk o type p data Hb Hp ltac:(unfold zlen; lia) ltac:(lia)) as (blk1 & Hset & Hl1 & Hout1 & Hat1).
  cbn [zip_with set_all fst snd]. rewrite Hset, bind_ok.
  change (TLV_ALIGN (4 + zlen data)) with (field_space (type, data)).
  destruct (IH (<[b := blk1]> h) blk1 (o + Z.to_nat (field_space (type, data)))%nat ps') as (blk2 & Hs2 & Hl2 & Hout2 & Hlaid).
  - apply lookup_insert_eq.
  - eapply Forall2_impl; [exact Hps|]. intros q d. apply source_insert.
  - done.
  - lia.
  - change (ptr_add (PAddr b o) (field_space (type, data))) with (PAddr b (o + Z.to_nat (field_space (type, data)))).
    rewrite Hs2, bind_ok, insert_insert_eq. exists blk2. split; [done|]. split; [congruence|]. split.
    + intros i Hi. rewrite Hout2 by lia. by apply Hout1.
    + split; [|done]. eapply bytes_at_agree; [exact Hat1|]. intros i Hi. rewrite length_tlv_bytes in Hi.
      cbn [snd] in Hi. apply Hout2. lia.
Qed.

Lemma read_all_ok e h b blk xs : h !! b = Some blk -> Forall field_ok xs -> forall fuel o, (length xs < fuel)%nat ->
  laid blk o xs -> total_space xs < 2 ^ 16 -> read_all fuel e h (TlvList (PAddr b o) (total_space xs)) = Ok (Some xs).
Proof.
  intros Hb. induction xs as [|[type data] xs IH]; intros Hok fuel o Hf Hlaid Htot.
  { destruct fuel; [lia|]. done. }
  destruct fuel as [|fuel]; [cbn in Hf; lia|]. apply Forall_cons in Hok as [[Ht Hd] Hok]. cbn in Ht, Hd.
  destruct Hlaid as [Hat Hlaid]. cbn [fst snd] in Hat. cbn [total_space foldr] in *. fold (total_space xs) in *.
  pose proof (field_space_bounds (type, data)) as Hsp. pose proof (total_space_nonneg xs). pose proof (zlen_nonneg data).
  cbn [snd] in Hsp. set (sp := field_space (type, data) + total_space xs) in *. cbn [read_all].
  unfold TLV_LIST_EMPTY. cbn [tlv_space tlv_ptr]. rewrite (proj2 (Z.eqb_neq sp 0)) by lia.
  assert (Hu : u16 sp = sp) by (apply u16_small; lia).
  destruct (field_len e h b blk o type data Hb Hat ltac:(lia)) as (v & Hv & Hvl).
  destruct (field_type e h b blk o type data Hb Hat Ht) as (t & Hty & Htv).
  unfold TLV_OK at 1. rewrite Hu, TLV_SPACE_small by lia. rewrite (proj2 (Z.leb_le _ _)) by (change (TLV_ALIGN (4 + 0)) with 4; lia).
  rewrite Hv, !bind_ok, Hvl. rewrite (proj2 (Z.leb_le _ _)) by lia. rewrite Hty, !bind_ok, Htv.
  unfold TLV_LIST_CHECK. cbn [tlv_ptr tlv_space]. rewrite Hu.
  rewrite (field_check e h b blk o type data Hb Hat Ht ltac:(lia) sp type) by lia. rewrite Z.eqb_refl, bind_ok.
  unfold TLV_GET_LEN. rewrite Hv, !bind_ok, Hvl. unfold TLV_LIST_DATA. cbn [tlv_ptr].
  rewrite TLV_LENGTH_small by lia. replace (4 + zlen data - (4 + 0)) with (zlen data) by lia.
  rewrite (field_data h b blk o type data Hb Hat), bind_ok.
  rewrite (field_step e h b blk o type data Hb Hat ltac:(lia) sp ltac:(lia)), bind_ok.
  change (TLV_ALIGN (4 + zlen data)) with (field_space (type, data)).
  replace (u32 (sp - field_space (type, data))) with (total_space xs) by (unfold sp; rewrite u32_small by lia; lia).
  rewrite IH by (done || (cbn in Hf; lia)). by rewrite bind_ok.
Qed.
