(* ===== verification/TlvProps.v ===== *)
(** * Properties of TIPC configuration messages

    A list of fields that is written is read back; a message header has its
    layout; and where TLV_SET and TLV_LIST_STEP go wrong. *)

From stdpp Require Import base numbers strings gmap list.
From S2P Require Import Prelude CMem CString ByteOrder Endian Tlv TlvFacts.

#[local] Open Scope Z_scope.

(** Two fields with data in blocks 2 and 3, for a buffer in block 1. *)
Definition demo_fields : list (Z * list char) := [(0x16, lit "eth0"); (0x11, lit "hello")].
Definition demo_heap : heap :=
  {[ 1%nat := replicate 40 None; 2%nat := Some <$> lit "eth0abcd"; 3%nat := Some <$> lit "helloabcdef" ]}.
Definition demo_sources : list ptr := [PAddr 2 0; PAddr 3 0].

Lemma demo_sources_ok : Forall2 (source demo_heap 1) demo_sources demo_fields.*2.
Proof.
  constructor; [right | constructor; [right|constructor]].
  - exists 2%nat, 0%nat, (Some <$> lit "eth0abcd"), (lit "abcd"). repeat split; try done. cbn. lia.
  - exists 3%nat, 0%nat, (Some <$> lit "helloabcdef"), (lit "abcd"). repeat split; try done. cbn. lia.
Qed.

(** ** Theorems *)

(** C27: fields that are set one behind the other in a buffer are read back in
    order, with their types and data, on a machine of any byte order; the
    space they take is what TLV_SPACE says.  This needs what TLV_SET copies
    too much: four readable bytes behind the data of each field and four
    bytes in the buffer behind the last field ([tlv_set_overruns] is what
    happens without them); and less than 2^16 bytes of fields in all. *)
Theorem tlv_list_roundtrip (e1 e2 : host) h b blk o xs ps fuel :
  h !! b = Some blk -> Forall2 (source h b) ps xs.*2 -> Forall field_ok xs ->
  total_space xs < 2 ^ 16 -> Z.of_nat o + total_space xs + 4 <= Z.of_nat (length blk) -> (length xs < fuel)%nat ->
  exists h', set_all e1 h (PAddr b o) (zip_with (fun x p => (x.1, p, zlen x.2)) xs ps) = Ok (total_space xs, h') /\
    read_all fuel e2 h' (TLV_LIST_INIT (PAddr b o) (total_space xs)) = Ok (Some xs).
Proof.
  intros Hb Hsrc Hok Htot Hl Hf.
  destruct (set_all_ok e1 b xs h blk o ps Hb Hsrc Hok Hl) as (blk' & Hs & _ & _ & Hlaid).
  eexists. split; [exact Hs|]. eapply read_all_ok; [apply lookup_insert_eq|done..].
Qed.

Lemma tlv_list_roundtrip_witness : exists h',
  set_all Little demo_heap (PAddr 1 0) (zip_with (fun x p => (x.1, p, zlen x.2)) demo_fields demo_sources) = Ok (20, h') /\
  read_all 3 Big h' (TLV_LIST_INIT (PAddr 1 0) 20) = Ok (Some demo_fields).
Proof.
  apply (tlv_list_roundtrip Little Big demo_heap 1 (replicate 40 None) 0 demo_fields demo_sources 3).
  - vm_compute. reflexivity.
  - apply demo_sources_ok.
  - repeat apply Forall_cons_2; [split; [cbn [fst]; lia | vm_compute; discriminate] .. | apply Forall_nil_2].
  - vm_compute. reflexivity.
  - vm_compute. discriminate.
  - cbn. lia.
Defined.

(** TLV_SET copies the length of the whole field instead of the length of
    the data: it reads four bytes behind the data, and writes behind the
    TLV_SPACE(len) bytes it reports.  So a source that holds only the data,
    or a buffer of TLV_SPACE(len) bytes, is overrun. *)
Theorem tlv_set_overruns e h b blk o type sb so sblk data :
  h !! b = Some blk -> h !! sb = Some sblk -> sb <> b -> (so <= length sblk)%nat ->
  bytes_at sblk so data -> data <> [] -> 4 + zlen data < 2 ^ 16 -> (o + 4 <= length blk)%nat ->
  (length sblk = (so + length data)%nat ->
   TLV_SET e h (PAddr b o) type (PAddr sb so) (zlen data) = Fault OutOfBounds) /\
  (Z.of_nat (length blk) = Z.of_nat o + TLV_SPACE (zlen data) -> forall extra, length extra = 4%nat ->
   bytes_at sblk so (data ++ extra) ->
   TLV_SET e h (PAddr b o) type (PAddr sb so) (zlen data) = Fault OutOfBounds).
Proof.
  intros Hb Hsb Hne Hso Hat Hd Hlen Hl. pose proof (zlen_nonneg data).
  assert (0 < zlen data) by (destruct data; [done|unfold zlen; cbn; lia]).
  destruct (s32_length (zlen data) ltac:(lia)) as [E1 E2].
  assert (Hh := set_header_ok e h b blk o type (4 + zlen data) Hb Hl).
  set (blk1 := put_header type (4 + zlen data) o blk) in *.
  assert (Hset : TLV_SET e h (PAddr b o) type (PAddr sb so) (zlen data)
    = (h ← memcpy (<[b := blk1]> h) (PAddr b (o + 4)) (PAddr sb so) (4 + zlen data); Ok (TLV_ALIGN (4 + zlen data), h))).
  { unfold TLV_SET. cbv zeta. rewrite E1, E2.
    destruct (set_tlv_type e h (PAddr b o) (htons e type)) as [h1|]; [|done].
    rewrite bind_ok in Hh. rewrite bind_ok, Hh, bind_ok, (proj2 (Z.eqb_neq _ _)), is_null_addr by lia. cbn [negb andb].
    unfold TLV_DATA. by rewrite TLV_LENGTH_small by lia. }
  rewrite Hset. unfold memcpy. split.
  - intros Hend. assert (load_bytes (<[b := blk1]> h) (PAddr sb so) (4 + zlen data) = Fault OutOfBounds) as ->; [|done].
    unfold load_bytes. rewrite (proj2 (Z.leb_gt _ _)) by lia.
    rewrite (bytes_from_ok _ sb sblk so) by (done || by rewrite lookup_insert_ne). rewrite bind_ok.
    rewrite (proj2 (Z.leb_gt _ _)); [done|]. unfold zlen. rewrite length_drop. lia.
  - intros Hend extra Hx Hat'. assert (E : 4 + zlen data = zlen (data ++ extra)) by (rewrite zlen_app; unfold zlen; lia).
    rewrite E at 1. rewrite (load_bytes_at _ sb sblk so _) by (done || by rewrite lookup_insert_ne). rewrite bind_ok.
    rewrite TLV_SPACE_small in Hend by lia. pose proof (TLV_ALIGN_bounds (4 + zlen data)).
    unfold store_bytes. destruct (data ++ extra) as [|c l] eqn:Hde; [by destruct data|]. rewrite <- Hde.
    rewrite lookup_insert_eq. cbn [lift_opt]. rewrite bind_ok, decide_False; [done|].
    unfold blk1. rewrite length_put_header, length_app. unfold zlen in *. lia.
Qed.

Lemma tlv_set_overruns_witness :
  TLV_SET Little {[ 1%nat := replicate 8 None; 2%nat := Some <$> lit "eth0" ]} (PAddr 1 0) 0x16 (PAddr 2 0) 4
  = Fault OutOfBounds.
Proof.
  apply (tlv_set_overruns Little {[ 1%nat := replicate 8 None; 2%nat := Some <$> lit "eth0" ]} 1 (replicate 8 None) 0 0x16
    2 0 (Some <$> lit "eth0") (lit "eth0")).
  - vm_compute. reflexivity.
  - vm_compute. reflexivity.
  - discriminate.
  - cbn. lia.
  - vm_compute. reflexivity.
  - discriminate.
  - vm_compute. reflexivity.
  - cbn. lia.
  - reflexivity.
Defined.

(** A field whose length is 0 or above 65532 passes the check (which asks
    for no minimum) and makes TLV_LIST_STEP advance by 0: the list is the same
    again, and a reader of it goes on forever. *)
Theorem tlv_list_stuck e h b blk o space len type :
  h !! b = Some blk -> bytes_at blk o (be16 len ++ be16 type) -> len = 0 \/ 65532 < len < 2 ^ 16 ->
  len <= space < 2 ^ 16 -> 4 <= space -> 0 <= type < 2 ^ 16 ->
  TLV_LIST_CHECK e h (TlvList (PAddr b o) space) type = Ok true /\
  TLV_LIST_STEP e h (TlvList (PAddr b o) space) = Ok (TlvList (PAddr b o) space) /\
  (len = 0 -> forall fuel, read_all fuel e h (TlvList (PAddr b o) space) = Fault OutOfFuel).
Proof.
  intros Hb Hat Hlen Hsp Hsp4 Ht. pose proof (bytes_at_length _ _ _ Hat) as Hl. rewrite length_app, !length_be16 in Hl.
  destruct (ntohs_load e h b blk o len Hb ltac:(lia) (bytes_at_prefix _ _ _ _ Hat)) as (v & Hv & Hvn).
  pose proof (bytes_at_offset _ _ _ _ Hat) as Hat2. rewrite length_be16 in Hat2.
  destruct (ntohs_load e h b blk (o + 2) type Hb ltac:(lia) Hat2) as (t & Ht' & Htn).
  rewrite Z.mod_small in Hvn, Htn by lia.
  assert (Hok : TLV_OK e h (PAddr b o) (u16 space) = Ok true).
  { unfold TLV_OK, tlv_len. rewrite TLV_SPACE_small, u16_small by lia.
    rewrite (proj2 (Z.leb_le _ _)) by (change (TLV_ALIGN (4 + 0)) with 4; lia). rewrite Hv, bind_ok, Hvn.
    by rewrite (proj2 (Z.leb_le _ _)) by lia. }
  assert (Hty : tlv_type e h (PAddr b o) = Ok t) by exact Ht'.
  assert (Hchk : TLV_LIST_CHECK e h (TlvList (PAddr b o) space) type = Ok true).
  { unfold TLV_LIST_CHECK, TLV_CHECK. cbn [tlv_ptr tlv_space]. rewrite Hok, bind_ok, Hty, bind_ok, Htn.
    by rewrite Z.eqb_refl. }
  assert (Hstep : TLV_LIST_STEP e h (TlvList (PAddr b o) space) = Ok (TlvList (PAddr b o) space)).
  { unfold TLV_LIST_STEP, tlv_len. cbn [tlv_ptr tlv_space]. rewrite Hv, bind_ok, Hvn.
    assert (u16 (TLV_ALIGN len) = 0) as ->.
    { rewrite TLV_ALIGN_spec. destruct Hlen as [->|Hlen]; [done|].
      assert ((len + 3) / 4 = 16384) as -> by (symmetry; apply (Z.div_unique _ _ _ (len + 3 - 65536)); lia). done. }
    rewrite Z.sub_0_r, u32_small by lia. cbn. by rewrite Nat.add_0_r. }
  split; [done|]. split; [done|]. intros Hz fuel. rewrite Hz in Hvn. clear Hz. induction fuel as [|fuel IH]; [done|]. cbn [read_all].
  unfold TLV_LIST_EMPTY. cbn [tlv_space tlv_ptr]. rewrite (proj2 (Z.eqb_neq space 0)) by lia.
  rewrite Hok, bind_ok, Hty, bind_ok, Htn, Hchk, bind_ok. unfold TLV_GET_LEN, tlv_len. rewrite Hv, !bind_ok, Hvn.
  rewrite TLV_LENGTH_small by lia. assert (forall p, load_bytes h p (0 - (4 + 0)) = Ok []) as -> by done.
  by rewrite bind_ok, Hstep, bind_ok, IH.
Qed.

Lemma tlv_list_stuck_witness :
  TLV_LIST_STEP Little {[ 1%nat := Some <$> [chr 0; chr 0; chr 0; chr 22] ]} (TlvList (PAddr 1 0) 4)
  = Ok (TlvList (PAddr 1 0) 4).
Proof.
  apply (tlv_list_stuck Little {[ 1%nat := Some <$> [chr 0; chr 0; chr 0; chr 22] ]} 1
    (Some <$> [chr 0; chr 0; chr 0; chr 22]) 0 4 0 22).
  - vm_compute. reflexivity.
  - vm_compute. reflexivity.
  - left. reflexivity.
  - lia.
  - lia.
  - lia.
Defined.

(** ** Message headers *)

Definition be32 (x : Z) : list char := rev (le_bytes 4 x).

Lemma length_be32 x : length (be32 x) = 4%nat.
Proof. unfold be32. by rewrite length_rev, length_le_bytes. Qed.

(** The buffer after the header and the data were stored. *)
Definition put_message (cmd flags : Z) (data : list char) (o : nat) (blk : block) : block :=
  list_inserts (o + 16) (Some <$> data)
    (list_inserts (o + 6) (Some <$> be16 flags) (list_inserts (o + 4) (Some <$> be16 cmd)
       (list_inserts o (Some <$> be32 (16 + zlen data)) blk))).

Lemma tcm_header_ok e h b blk o cmd flags len : h !! b = Some blk -> (o + 16 <= length blk)%nat ->
  (h ← store_uint e h (PAddr b o) 4 (htonl e len);
   h ← store_uint e h (ptr_add (PAddr b o) 4) 2 (htons e cmd);
   store_uint e h (ptr_add (PAddr b o) 6) 2 (htons e flags))
  = Ok (<[b := list_inserts (o + 6) (Some <$> be16 flags) (list_inserts (o + 4) (Some <$> be16 cmd)
       (list_inserts o (Some <$> be32 len) blk))]> h).
Proof.
  intros Hb Hl. unfold store_uint. rewrite htonl_image, !htons_image.
  rewrite (store_bytes_ok h b blk o _ Hb), bind_ok by (rewrite length_rev, length_le_bytes; lia).
  change (ptr_add (PAddr b o) 4) with (PAddr b (o + 4)). change (ptr_add (PAddr b o) 6) with (PAddr b (o + 6)).
  rewrite (store_bytes_ok _ b _ (o + 4) _ (lookup_insert_eq _ _ _)), bind_ok
    by (rewrite length_inserts, length_rev, length_le_bytes; lia).
  rewrite (store_bytes_ok _ b _ (o + 6) _ (lookup_insert_eq _ _ _))
    by (rewrite !length_inserts, length_rev, length_le_bytes; lia).
  by rewrite !insert_insert_eq.
Qed.

(** TCM_SET puts the length of the whole message, the command and the
    flags in network byte order at the start and the data behind the header,
    writes nothing else, and returns the length rounded up to a multiple of
    four. *)
Theorem tcm_set_layout e h b blk o cmd flags sb so sblk data :
  h !! b = Some blk -> h !! sb = Some sblk -> sb <> b -> (so <= length sblk)%nat -> bytes_at sblk so data ->
  zlen data < 2 ^ 16 -> (o + 16 + length data <= length blk)%nat ->
  exists blk', TCM_SET e h (PAddr b o) cmd flags (PAddr sb so) (zlen data)
      = Ok ((16 + zlen data + 3) / 4 * 4, <[b := blk']> h) /\
    bytes_at blk' o (be32 (16 + zlen data) ++ be16 cmd ++ be16 flags) /\ bytes_at blk' (o + 16) data /\
    (forall i, (i < o \/ o + 8 <= i < o + 16 \/ o + 16 + length data <= i)%nat -> blk' !! i = blk !! i).
Proof.
  intros Hb Hsb Hne Hso Hat Hlen Hl. pose proof (zlen_nonneg data). exists (put_message cmd flags data o blk).
  assert (E1 : s32 (TCM_LENGTH (zlen data)) = 16 + zlen data).
  { unfold TCM_LENGTH, sizeof_tipc_cfg_msg_hdr. rewrite u64_small, s32_small by lia. done. }
  assert (E2 : s32 (TCM_SPACE (zlen data)) = (16 + zlen data + 3) / 4 * 4).
  { unfold TCM_SPACE, TCM_ALIGN, TCM_LENGTH, sizeof_tipc_cfg_msg_hdr. rewrite (u64_small (16 + zlen data)), align4 by lia.
    pose proof (Z.div_mod (16 + zlen data + 3) 4). pose proof (Z.mod_pos_bound (16 + zlen data + 3) 4).
    rewrite u64_small, s32_small by lia. done. }
  split; [|split; [|split]].
  - unfold TCM_SET. cbv zeta. rewrite E1, E2. pose proof (tcm_header_ok e h b blk o cmd flags (16 + zlen data) Hb ltac:(lia)) as Hh.
    destruct (store_uint e h (PAddr b o) 4 _) as [h1|]; [|done]. rewrite bind_ok in Hh. rewrite bind_ok.
    destruct (store_uint e h1 _ 2 _) as [h2|]; [|done]. rewrite bind_ok in Hh. rewrite bind_ok, Hh, bind_ok, is_null_addr.
    unfold put_message. set (blk1 := list_inserts (o + 6) _ _). assert (Hl1 : length blk1 = length blk) by (unfold blk1; by rewrite !length_inserts).
    destruct (Z.eqb_spec (zlen data) 0) as [Hz|Hz]; cbn [negb andb].
    + assert (data = []) as -> by (destruct data; [done|unfold zlen in *; cbn in *; lia]). done.
    + unfold TCM_DATA, TCM_LENGTH, sizeof_tipc_cfg_msg_hdr. rewrite u64_small by lia.
      change (ptr_add (PAddr b o) (16 + 0)) with (PAddr b (o + 16)).
      rewrite (memcpy_ok _ b blk1 (o + 16) sb sblk so data); rewrite ?lookup_insert_eq, ?lookup_insert_ne by done; try done; [|lia].
      by rewrite bind_ok, insert_insert_eq.
  - unfold put_message. rewrite !bytes_at_app, length_be32, length_be16.
    replace (o + 4 + 2)%nat with (o + 6)%nat by lia.
    split; [|split]; repeat (apply bytes_at_other; [| rewrite ?length_be16, ?length_be32; lia
      | rewrite ?length_inserts, ?length_be16, ?length_be32; lia]);
      apply bytes_at_inserts; rewrite ?length_inserts, ?length_be16, ?length_be32; lia.
  - unfold put_message. apply bytes_at_inserts. rewrite !length_inserts. lia.
  - intros i Hi. unfold put_message.
    assert (Hskip : forall k (l : list char) bl, (i < k \/ k + length l <= i)%nat -> list_inserts k (Some <$> l) bl !! i = bl !! i).
    { intros k l bl [?|?]; [by apply list_lookup_inserts_lt|]. apply list_lookup_inserts_ge. by rewrite length_fmap. }
    rewrite !Hskip; rewrite ?length_be16, ?length_be32; (done || lia).
Qed.

Lemma tcm_set_layout_witness :
  exists blk', TCM_SET Little demo_heap (PAddr 1 0) 0x4001 1 (PAddr 2 0) 4 = Ok (20, <[1%nat := blk']> demo_heap) /\
    bytes_at blk' 0 (be32 20 ++ be16 0x4001 ++ be16 1).
Proof.
  destruct (tcm_set_layout Little demo_heap 1 (replicate 40 None) 0 0x4001 1 2 0 (Some <$> lit "eth0abcd") (lit "eth0"))
    as (blk' & H1 & H2 & _).
  - vm_compute. reflexivity.
  - vm_compute. reflexivity.
  - discriminate.
  - cbn. lia.
  - vm_compute. reflexivity.
  - vm_compute. reflexivity.
  - cbn. lia.
  - exists blk'. split; [exact H1 | exact H2].
Defined.

(** The parts of an address are read back, and determine it. *)
Theorem tipc_addr_roundtrip zone cluster node : 0 <= zone < 2 ^ 8 -> 0 <= cluster < 2 ^ 12 -> 0 <= node < 2 ^ 12 ->
  let a := tipc_addr zone cluster node in
  0 <= a < 2 ^ 32 /\ tipc_zone a = zone /\ tipc_cluster a = cluster /\ tipc_node a = node.
Proof.
  intros Hz Hc Hn a. assert (Ha : a = zone * 2 ^ 24 + cluster * 2 ^ 12 + node).
  { unfold a, tipc_addr. change TIPC_ZONE_OFFSET with 24. change TIPC_CLUSTER_OFFSET with 12.
    rewrite !Z.shiftl_mul_pow2, !u32_small by lia. rewrite (lor_down _ _ 12 12) by lia.
    rewrite lor_disjoint by lia. lia. }
  unfold tipc_zone, tipc_cluster, tipc_node. change TIPC_ZONE_OFFSET with 24.
  change TIPC_CLUSTER_MASK with (Z.shiftl (Z.ones 12) 12). change TIPC_CLUSTER_OFFSET with 12.
  change TIPC_NODE_MASK with (Z.ones 12). rewrite field_down, Z.land_ones, Z.shiftr_div_pow2 by lia. rewrite Ha.
  split; [lia|]. split; [symmetry; apply (Z.div_unique _ _ _ (cluster * 2 ^ 12 + node)); lia|]. split.
  - rewrite Z.mul_1_r. replace (zone * 2 ^ 24 + cluster * 2 ^ 12 + node) with (node + (zone * 2 ^ 12 + cluster) * 2 ^ 12) by lia.
    rewrite Z.div_add, Z.div_small, Z.add_0_l by lia. rewrite Z.add_comm, Z.mod_add by lia. by apply Z.mod_small.
  - replace (zone * 2 ^ 24 + cluster * 2 ^ 12 + node) with (node + (zone * 2 ^ 12 + cluster) * 2 ^ 12) by lia.
    rewrite Z.mod_add by lia. by apply Z.mod_small.
Qed.
