(* ===== verification/Netlink.v ===== *)
(** * Messages in a buffer: netlink, route attributes, ancillary data

    The macros of linux/netlink.h for messages, those of linux/rtnetlink.h
    for attributes and next hops, and the macros and the inline function of
    bits/socket.h for ancillary data.  Each walks over records that begin
    with their length in the byte order [e] of the machine, and end at a
    multiple of the alignment.  The masks of the first two families are
    unsigned ints, so a sum wraps at 32 bits. *)

From stdpp Require Import base numbers strings gmap list.
From S2P Require Import Prelude CMem CString ByteOrder Endian.

#[local] Open Scope Z_scope.

Section Netlink.
Context (e : host).

(** ** Netlink messages *)

Definition sizeof_nlmsghdr : Z := 16.
Definition nlmsg_len (h : heap) (nlh : ptr) : res Z := load_uint e h nlh 4.
Definition nlmsg_type (h : heap) (nlh : ptr) : res Z := load_uint e h (ptr_add nlh 4) 2.
Definition nlmsg_flags (h : heap) (nlh : ptr) : res Z := load_uint e h (ptr_add nlh 6) 2.
Definition nlmsg_seq (h : heap) (nlh : ptr) : res Z := load_uint e h (ptr_add nlh 8) 4.
Definition nlmsg_pid (h : heap) (nlh : ptr) : res Z := load_uint e h (ptr_add nlh 12) 4.

Definition NLMSG_ALIGNTO : Z := 4.
Definition NLMSG_ALIGN (len : Z) : Z := Z.land (len + NLMSG_ALIGNTO - 1) (u32 (Z.lnot (NLMSG_ALIGNTO - 1))).
Definition NLMSG_HDRLEN : Z := s32 (NLMSG_ALIGN sizeof_nlmsghdr).
(** [len] is an unsigned int. *)
Definition NLMSG_LENGTH (len : Z) : Z := u32 (len + NLMSG_HDRLEN).
Definition NLMSG_SPACE (len : Z) : Z := NLMSG_ALIGN (NLMSG_LENGTH len).
Definition NLMSG_DATA (nlh : ptr) : ptr := ptr_add nlh (NLMSG_LENGTH 0).
Definition NLMSG_PAYLOAD (h : heap) (nlh : ptr) (len : Z) : res Z := l ← nlmsg_len h nlh; Ok (u32 (l - NLMSG_SPACE len)).

(** [len] is an int; the last comparison is one of unsigned ints. *)
Definition NLMSG_OK (h : heap) (nlh : ptr) (len : Z) : res bool :=
  if sizeof_nlmsghdr <=? len then
    l ← nlmsg_len h nlh; Ok ((sizeof_nlmsghdr <=? l) && (l <=? u32 len))
  else Ok false.

(** The next message, and what is left of len. *)
Definition NLMSG_NEXT (h : heap) (nlh : ptr) (len : Z) : res (ptr * Z) :=
  l ← nlmsg_len h nlh; Ok (ptr_add nlh (NLMSG_ALIGN l), s32 (len - NLMSG_ALIGN l)).

(** ** Attributes *)

Definition sizeof_rtattr : Z := 4.
Definition rta_len (h : heap) (rta : ptr) : res Z := load_uint e h rta 2.
Definition rta_type (h : heap) (rta : ptr) : res Z := load_uint e h (ptr_add rta 2) 2.

Definition RTA_ALIGNTO : Z := 4.
Definition RTA_ALIGN (len : Z) : Z := Z.land (len + RTA_ALIGNTO - 1) (u32 (Z.lnot (RTA_ALIGNTO - 1))).
Definition RTA_LENGTH (len : Z) : Z := u64 (RTA_ALIGN sizeof_rtattr + len).
Definition RTA_SPACE (len : Z) : Z := RTA_ALIGN (RTA_LENGTH len).
Definition RTA_DATA (rta : ptr) : ptr := ptr_add rta (RTA_LENGTH 0).
Definition RTA_PAYLOAD (h : heap) (rta : ptr) : res Z := l ← rta_len h rta; Ok (u64 (s32 l - RTA_LENGTH 0)).

Definition RTA_OK (h : heap) (rta : ptr) (len : Z) : res bool :=
  if sizeof_rtattr <=? len then
    l ← rta_len h rta; Ok ((sizeof_rtattr <=? l) && (l <=? len))
  else Ok false.

Definition RTA_NEXT (h : heap) (rta : ptr) (attrlen : Z) : res (ptr * Z) :=
  l ← rta_len h rta; Ok (ptr_add rta (RTA_ALIGN l), s32 (attrlen - RTA_ALIGN l)).

(** ** Next hops: the length is read before it is known to be there *)

Definition sizeof_rtnexthop : Z := 8.
Definition rtnh_len (h : heap) (rtnh : ptr) : res Z := load_uint e h rtnh 2.

Definition RTNH_ALIGNTO : Z := 4.
Definition RTNH_ALIGN (len : Z) : Z := Z.land (len + RTNH_ALIGNTO - 1) (Z.lnot (RTNH_ALIGNTO - 1)).
Definition RTNH_LENGTH (len : Z) : Z := u64 (RTNH_ALIGN sizeof_rtnexthop + len).
Definition RTNH_SPACE (len : Z) : Z := RTNH_ALIGN (RTNH_LENGTH len).
Definition RTNH_DATA (rtnh : ptr) : ptr := ptr_add rtnh (RTNH_LENGTH 0).
Definition RTNH_OK (h : heap) (rtnh : ptr) (len : Z) : res bool :=
  l ← rtnh_len h rtnh; Ok ((sizeof_rtnexthop <=? l) && (l <=? len)).
Definition RTNH_NEXT (h : heap) (rtnh : ptr) : res ptr := l ← rtnh_len h rtnh; Ok (ptr_add rtnh (RTNH_ALIGN l)).

(** ** Ancillary data *)

(** The members of struct msghdr for it. *)
Record msghdr : Type := Msghdr { msg_control : ptr; msg_controllen : Z }.

Definition sizeof_cmsghdr : Z := 16.
Definition cmsg_len (h : heap) (cmsg : ptr) : res Z := load_uint e h cmsg 8.

Definition CMSG_DATA (cmsg : ptr) : ptr := ptr_add cmsg sizeof_cmsghdr.
Definition CMSG_ALIGN (len : Z) : Z := Z.land (u64 (len + 8 - 1)) (u64 (Z.lnot (8 - 1))).
Definition CMSG_SPACE (len : Z) : Z := u64 (CMSG_ALIGN len + CMSG_ALIGN sizeof_cmsghdr).
Definition CMSG_LEN (len : Z) : Z := u64 (CMSG_ALIGN sizeof_cmsghdr + len).
Definition __CMSG_PADDING (len : Z) : Z := Z.land (8 - Z.land len (8 - 1)) (8 - 1).

Definition CMSG_FIRSTHDR (mhdr : msghdr) : ptr :=
  if sizeof_cmsghdr <=? msg_controllen mhdr then msg_control mhdr else PNull.

(** p - q, for pointers into one block. *)
Definition ptr_diff (p q : ptr) : res Z :=
  match p, q with
  | PAddr b o, PAddr b' o' => if decide (b = b') then Ok (Z.of_nat o - Z.of_nat o') else Fault OutOfBounds
  | _, _ => Fault OutOfBounds
  end.

Definition __cmsg_nxthdr (h : heap) (mhdr : msghdr) (cmsg : ptr) : res ptr :=
  len ← cmsg_len h cmsg;
  let size_needed := u64 (sizeof_cmsghdr + __CMSG_PADDING len) in
  if len <? sizeof_cmsghdr then Ok PNull else
  d ← ptr_diff (ptr_add (msg_control mhdr) (msg_controllen mhdr)) cmsg;
  if (u64 d <? size_needed) || (u64 (d - size_needed) <? len) then Ok PNull
  else Ok (ptr_add cmsg (CMSG_ALIGN len)).

Definition CMSG_NXTHDR (h : heap) (mhdr : msghdr) (cmsg : ptr) : res ptr := __cmsg_nxthdr h mhdr cmsg.
End Netlink.
