(* ===== verification/NetlinkProps.v ===== *)
(** * Properties of messages in a buffer

    [Records]: what a client uses to walk over records; [RecordsSpec]: what
    the macros promise.  Netlink messages and route attributes are instances;
    a client's walk is proved safe and complete against the promise. *)

From stdpp Require Import base numbers strings gmap list.
From S2P Require Import Prelude CMem CString ByteOrder Endian TlvFacts Netlink.

#[local] Open Scope Z_scope.

(** ** The interface *)

Class Records : Type := {
  rec_hdr : Z;                                       (* sizeof the header *)
  rec_width : nat;                                   (* bytes of its length field *)
  rec_len : heap -> ptr -> res Z;
  rec_ok : heap -> ptr -> Z -> res bool;
  rec_next : heap -> ptr -> Z -> res (ptr * Z);
  rec_data : ptr -> ptr;
  rec_payload : heap -> ptr -> res Z;
  rec_length : Z -> Z;
  rec_space : Z -> Z
}.

(** The next multiple of four. *)
Definition up4 (n : Z) : Z := (n + 3) / 4 * 4.

Class RecordsSpec (e : host) (R : Records) : Prop := {
  rec_sizes : 0 < Z.of_nat rec_width <= rec_hdr;
  rec_len_field h p : rec_len h p = load_uint e h p rec_width;
  rec_ok_test h p len : - 2 ^ 31 <= len < 2 ^ 31 ->
    rec_ok h p len = if rec_hdr <=? len then l ← rec_len h p; Ok ((rec_hdr <=? l) && (l <=? len)) else Ok false;
  rec_next_step h p len l : 0 <= l <= len -> len < 2 ^ 31 - 4 -> rec_len h p = Ok l ->
    rec_next h p len = Ok (ptr_add p (up4 l), len - up4 l);
  rec_data_at p : rec_data p = ptr_add p rec_hdr;
  rec_payload_size h p l : rec_hdr <= l < 2 ^ 31 -> rec_len h p = Ok l -> rec_payload h p = Ok (l - rec_hdr);
  rec_length_sum n : 0 <= n < 2 ^ 31 - 64 -> rec_length n = rec_hdr + n;
  rec_space_up n : 0 <= n < 2 ^ 31 - 64 -> rec_space n = up4 (rec_hdr + n)
}.

(** [for (r = buffer; OK (r, len); r = NEXT (r, len))], reading the payloads. *)
Fixpoint walk `{Records} (fuel : nat) (h : heap) (r : ptr) (len : Z) : res (list (list char)) :=
  match fuel with
  | O => Fault OutOfFuel
  | S fuel =>
      ok ← rec_ok h r len;
      if (ok : bool) then
        n ← rec_payload h r;
        d ← load_bytes h (rec_data r) n;
        '(r, len) ← rec_next h r len;
        ds ← walk fuel h r len;
        Ok (d :: ds)
      else Ok []
  end.

(** Records as a sender lays them out: the length, the other fields of the
    header, the payload, and bytes up to the alignment. *)
Record frame : Type := Frame { f_fields : list char; f_payload : list char; f_padding : list char }.

Definition frame_bytes `{Records} (e : host) (f : frame) : list char :=
  image e rec_width (rec_length (zlen (f_payload f))) ++ f_fields f ++ f_payload f ++ f_padding f.

Definition frame_ok `{Records} (f : frame) : Prop :=
  zlen (f_fields f) = rec_hdr - Z.of_nat rec_width /\
  zlen (f_padding f) = rec_space (zlen (f_payload f)) - rec_length (zlen (f_payload f)) /\
  rec_length (zlen (f_payload f)) < 256 ^ Z.of_nat rec_width.

(** ** The instances *)

Section instances.
Context (e : host).

Definition netlink_messages : Records := {|
  rec_hdr := sizeof_nlmsghdr; rec_width := 4; rec_len := nlmsg_len e; rec_ok := NLMSG_OK e; rec_next := NLMSG_NEXT e;
  rec_data := NLMSG_DATA; rec_payload h p := NLMSG_PAYLOAD e h p 0; rec_length := NLMSG_LENGTH; rec_space := NLMSG_SPACE |}.

Definition route_attributes : Records := {|
  rec_hdr := sizeof_rtattr; rec_width := 2; rec_len := rta_len e; rec_ok := RTA_OK e; rec_next := RTA_NEXT e;
  rec_data := RTA_DATA; rec_payload := RTA_PAYLOAD e; rec_length := RTA_LENGTH; rec_space := RTA_SPACE |}.
End instances.

Lemma mask32 x : 0 <= x < 2 ^ 32 -> Z.land x (u32 (Z.lnot 3)) = x / 4 * 4.
Proof.
  intros Hx. unfold u32. rewrite <- Z.land_ones by lia. rewrite Z.land_assoc.
  change 3 with (2 ^ 2 - 1) at 1. rewrite land_not_mask by lia. rewrite Z.land_ones by lia. change (2 ^ 2) with 4.
  apply Z.mod_small. pose proof (Z.div_mod x 4). pose proof (Z.mod_pos_bound x 4). lia.
Qed.

Lemma up4_bounds n : n <= up4 n < n + 4.
Proof. unfold up4. pose proof (Z.div_mod (n + 3) 4). pose proof (Z.mod_pos_bound (n + 3) 4). lia. Qed.

Lemma NLMSG_ALIGN_up n : 0 <= n < 2 ^ 32 - 4 -> NLMSG_ALIGN n = up4 n.
Proof. intros. unfold NLMSG_ALIGN, NLMSG_ALIGNTO. change (4 - 1) with 3. rewrite mask32 by lia. unfold up4. by replace (n + 4 - 1) with (n + 3) by lia. Qed.

Lemma RTA_ALIGN_up n : 0 <= n < 2 ^ 32 - 4 -> RTA_ALIGN n = up4 n.
Proof. apply NLMSG_ALIGN_up. Qed.

#[export] Instance netlink_spec e : RecordsSpec e (netlink_messages e).
Proof.
  split; cbn [rec_hdr rec_width rec_len rec_ok rec_next rec_data rec_payload rec_length rec_space netlink_messages].
  - done.
  - done.
  - intros h p len Hlen. unfold NLMSG_OK. destruct (Z.leb_spec sizeof_nlmsghdr len) as [H|H]; [|done].
    unfold sizeof_nlmsghdr in H. by rewrite u32_small by lia.
  - intros h p len l Hl Hlen E. unfold NLMSG_NEXT. pose proof (up4_bounds l). rewrite E, bind_ok, NLMSG_ALIGN_up by lia.
    by rewrite s32_small by lia.
  - done.
  - intros h p l Hl E. unfold NLMSG_PAYLOAD. rewrite E, bind_ok. change (NLMSG_SPACE 0) with 16. unfold sizeof_nlmsghdr in *.
    by rewrite u32_small by lia.
  - intros n Hn. unfold NLMSG_LENGTH. change NLMSG_HDRLEN with 16. unfold sizeof_nlmsghdr. rewrite u32_small by lia. lia.
  - intros n Hn. unfold NLMSG_SPACE, NLMSG_LENGTH. change NLMSG_HDRLEN with 16. unfold sizeof_nlmsghdr.
    rewrite u32_small, NLMSG_ALIGN_up by lia. by rewrite Z.add_comm.
Qed.

#[export] Instance attribute_spec e : RecordsSpec e (route_attributes e).
Proof.
  split; cbn [rec_hdr rec_width rec_len rec_ok rec_next rec_data rec_payload rec_length rec_space route_attributes].
  - done.
  - done.
  - done.
  - intros h p len l Hl Hlen E. unfold RTA_NEXT. pose proof (up4_bounds l). rewrite E, bind_ok, RTA_ALIGN_up by lia.
    by rewrite s32_small by lia.
  - done.
  - intros h p l Hl E. unfold RTA_PAYLOAD. rewrite E, bind_ok. change (RTA_LENGTH 0) with 4. unfold sizeof_rtattr in *.
    rewrite s32_small, u64_small by lia. done.
  - intros n Hn. unfold RTA_LENGTH. change (RTA_ALIGN sizeof_rtattr) with 4. unfold sizeof_rtattr. by rewrite u64_small by lia.
  - intros n Hn. unfold RTA_SPACE, RTA_LENGTH. change (RTA_ALIGN sizeof_rtattr) with 4. unfold sizeof_rtattr.
    by rewrite u64_small, RTA_ALIGN_up by lia.
Qed.

(** ** Reading a received buffer *)

(** The block [b] holds the bytes [l]. *)
Lemma received_bytes h b (l : list char) o n : h !! b = Some (Some <$> l) -> (o + n <= length l)%nat ->
  load_bytes h (PAddr b o) (Z.of_nat n) = Ok (take n (drop o l)).
Proof.
  intros Hb Hn. assert (Hlen : length (take n (drop o l)) = n) by (rewrite length_take, length_drop; lia).
  replace (Z.of_nat n) with (zlen (take n (drop o l))) by (unfold zlen; lia).
  apply (load_bytes_at h b (Some <$> l)); [done | rewrite length_fmap; lia |].
  unfold bytes_at. by rewrite Hlen, <- fmap_drop, <- fmap_take.
Qed.

Lemma received_uint e h b (l : list char) o n : h !! b = Some (Some <$> l) -> (o + n <= length l)%nat ->
  exists v, load_uint e h (PAddr b o) n = Ok v /\ 0 <= v.
Proof.
  intros Hb Hn. rewrite load_uint_value, (received_bytes h b l o n Hb Hn), bind_ok. eexists. split; [done|].
  unfold value. destruct e; apply le_value_range.
Qed.

(** The bytes [x] at offset [o] of a buffer. *)
Lemma frame_load h b pre (x : list char) post : h !! b = Some (Some <$> (pre ++ x ++ post)) ->
  load_bytes h (PAddr b (length pre)) (zlen x) = Ok x.
Proof.
  intros Hb. unfold zlen. rewrite (received_bytes h b _ (length pre) (length x) Hb) by (rewrite !length_app; lia).
  by rewrite drop_app_length, take_app_length.
Qed.

(** ** Walking *)

Section walks.
Context {e : host} {R : Records} {S : RecordsSpec e R}.

(** One round on a record that is OK. *)
Lemma walk_step fuel h b o len l d ds : 0 <= l <= len -> len < 2 ^ 31 - 4 -> rec_hdr <= l ->
  rec_len h (PAddr b o) = Ok l -> load_bytes h (PAddr b (o + Z.to_nat rec_hdr)) (l - rec_hdr) = Ok d ->
  walk fuel h (PAddr b (o + Z.to_nat (up4 l))) (len - up4 l) = Ok ds ->
  walk (Datatypes.S fuel) h (PAddr b o) len = Ok (d :: ds).
Proof.
  intros Hl Hlen Hhdr E Hd Hds. cbn [walk]. rewrite (rec_ok_test h _ len) by lia. rewrite E, (proj2 (Z.leb_le _ _)) by lia.
  rewrite !bind_ok, (proj2 (Z.leb_le _ _)), (proj2 (Z.leb_le _ _)) by lia. cbn [andb].
  rewrite (rec_payload_size h _ l) by (done || lia). rewrite bind_ok, rec_data_at. cbn [ptr_add]. rewrite Hd, bind_ok.
  rewrite (rec_next_step h _ len l) by (done || lia). rewrite bind_ok. cbn [ptr_add]. by rewrite Hds.
Qed.

Lemma walk_end fuel h r len : - 2 ^ 31 <= len < rec_hdr -> len < 2 ^ 31 -> walk (Datatypes.S fuel) h r len = Ok [].
Proof. intros H1 H2. cbn [walk]. rewrite rec_ok_test by lia. by rewrite (proj2 (Z.leb_gt _ _)) by lia. Qed.

Lemma walk_safe_from h b (l : list char) : h !! b = Some (Some <$> l) -> forall fuel o len,
  - 4 < len < 2 ^ 31 - 4 -> Z.of_nat o + len <= zlen l -> len < Z.of_nat fuel ->
  exists ds, walk (Datatypes.S fuel) h (PAddr b o) len = Ok ds /\
    (ds = [] \/ foldr (fun d n => rec_hdr + zlen d + n) 0 ds <= len).
Proof.
  intros Hb. pose proof rec_sizes as Hsz. induction fuel as [|fuel IH]; intros o len Hlen Hin Hfuel.
  { exists []. split; [|by left]. apply walk_end; lia. }
  destruct (Z.lt_ge_cases len rec_hdr) as [Hshort|Hlong]; [exists []; split; [apply walk_end; lia | by left]|].
  unfold zlen in Hin. destruct (received_uint e h b l o rec_width Hb) as (v & Ev & Hv); [lia|].
  rewrite <- rec_len_field in Ev. destruct (decide (rec_hdr <= v <= len)) as [Hok|Hbad].
  - pose proof (up4_bounds v) as Hup.
    destruct (IH (o + Z.to_nat (up4 v))%nat (len - up4 v)) as (ds & Eds & Hds); [lia | unfold zlen; lia | lia |].
    pose proof (received_bytes h b l (o + Z.to_nat rec_hdr) (Z.to_nat (v - rec_hdr)) Hb ltac:(lia)) as Hd.
    rewrite Z2Nat.id in Hd by lia. eexists. split; [eapply walk_step; [| | | exact Ev | exact Hd | exact Eds]; lia|].
    right. cbn [foldr]. unfold zlen at 1. rewrite length_take, length_drop, Nat.min_l by lia. destruct Hds as [->|Hds]; cbn [foldr]; lia.
  - exists []. split; [|by left]. cbn [walk]. rewrite rec_ok_test, Ev by lia. rewrite (proj2 (Z.leb_le _ _)), bind_ok, bind_ok by lia.
    replace ((rec_hdr <=? v) && (v <=? len)) with false; [done|]. symmetry. apply andb_false_iff.
    destruct (Z.leb_spec rec_hdr v), (Z.leb_spec v len); auto; lia.
Qed.

(** The length of a frame. *)
Lemma frame_length f : frame_ok f -> zlen (f_payload f) < 2 ^ 31 - 64 ->
  zlen (frame_bytes e f) = up4 (rec_hdr + zlen (f_payload f)).
Proof.
  intros (Hf & Hp & _) Hn. pose proof (zlen_nonneg (f_payload f)). unfold frame_bytes. rewrite !zlen_app, zlen_image, Hf, Hp.
  rewrite rec_space_up, rec_length_sum by lia. lia.
Qed.

Lemma walk_frames h b post fs : forall pre fuel, h !! b = Some (Some <$> (pre ++ concat (frame_bytes e <$> fs) ++ post)) ->
  Forall frame_ok fs -> zlen (concat (frame_bytes e <$> fs)) < 2 ^ 31 - 64 -> (length fs < fuel)%nat ->
  walk fuel h (PAddr b (length pre)) (zlen (concat (frame_bytes e <$> fs))) = Ok (f_payload <$> fs).
Proof.
  pose proof rec_sizes as Hsz.
  induction fs as [|f fs IH]; intros pre [|fuel] Hb Hok Hlen Hfuel; try (cbn in Hfuel; lia).
  { apply walk_end; change (zlen (concat (frame_bytes e <$> []))) with 0; lia. }
  apply Forall_cons in Hok as [Hf Hok]. cbn [fmap list_fmap concat] in *. set (rest := concat (frame_bytes e <$> fs)) in *.
  rewrite zlen_app in *. pose proof (zlen_nonneg rest). pose proof (zlen_nonneg (f_payload f)) as Hpay.
  pose proof Hf as (Hfields & Hpad & Hmax).
  assert (Hn : zlen (f_payload f) < 2 ^ 31 - 64).
  { unfold frame_bytes in Hlen. rewrite !zlen_app, zlen_image, Hfields in Hlen. pose proof (zlen_nonneg (f_padding f)). lia. }
  pose proof (frame_length f Hf Hn) as Hfl. pose proof (up4_bounds (rec_hdr + zlen (f_payload f))).
  rewrite rec_length_sum in Hmax by lia. unfold frame_bytes in Hb. rewrite rec_length_sum in Hb by lia. rewrite <- !app_assoc in Hb.
  apply (walk_step _ _ _ _ _ (rec_hdr + zlen (f_payload f))); [lia | lia | lia | | |].
  - rewrite rec_len_field, load_uint_value. rewrite <- (zlen_image e rec_width (rec_hdr + zlen (f_payload f))).
    rewrite (frame_load h b pre _ _ Hb), bind_ok. f_equal. rewrite value_image. apply le_value_bytes. lia.
  - rewrite !app_assoc in Hb. rewrite <- !app_assoc in Hb.
    pose proof (frame_load h b (pre ++ image e rec_width (rec_hdr + zlen (f_payload f)) ++ f_fields f) (f_payload f)
                  (f_padding f ++ rest ++ post)) as Hload.
    rewrite <- !app_assoc in Hload. specialize (Hload Hb).
    replace (length (pre ++ image e rec_width (rec_hdr + zlen (f_payload f)) ++ f_fields f)) with (length pre + Z.to_nat rec_hdr)%nat in Hload.
    + replace (rec_hdr + zlen (f_payload f) - rec_hdr) with (zlen (f_payload f)) by lia. done.
    + rewrite !length_app, length_image. unfold zlen in Hfields. lia.
  - rewrite Hfl. replace (up4 (rec_hdr + zlen (f_payload f)) + zlen rest - up4 (rec_hdr + zlen (f_payload f))) with (zlen rest) by lia.
    pose proof (IH (pre ++ frame_bytes e f) fuel) as IH'. rewrite length_app in IH'.
    replace (length (frame_bytes e f)) with (Z.to_nat (up4 (rec_hdr + zlen (f_payload f)))) in IH' by (unfold zlen in *; lia).
    apply IH'; [|done| fold rest; lia | cbn in Hfuel; lia].
    unfold frame_bytes. rewrite rec_length_sum by lia. by rewrite <- !app_assoc.
Qed.
End walks.

(** ** Ancillary data *)

(** [for (c = CMSG_FIRSTHDR (m); c != NULL; c = CMSG_NXTHDR (m, c))]; [use] is
    what the client does with a header and its length. *)
Fixpoint cmsg_walk {A} (e : host) (use : ptr -> Z -> res A) (fuel : nat) (h : heap) (mhdr : msghdr) (c : ptr) : res (list A) :=
  match fuel with
  | O => Fault OutOfFuel
  | S fuel =>
      if is_null c then Ok [] else
      len ← cmsg_len e h c;
      x ← use c len;
      c ← CMSG_NXTHDR e h mhdr c;
      xs ← cmsg_walk e use fuel h mhdr c;
      Ok (x :: xs)
  end.

(** The payload of a header that is as long as it says. *)
Definition cmsg_payload (h : heap) (c : ptr) (len : Z) : res (list char) := load_bytes h (CMSG_DATA c) (len - CMSG_LEN 0).

Definition cmsg_bytes (e : host) (f : frame) : list char :=
  image e 8 (CMSG_LEN (zlen (f_payload f))) ++ f_fields f ++ f_payload f ++ f_padding f.

Definition cmsg_frame_ok (f : frame) : Prop :=
  zlen (f_fields f) = 8 /\ zlen (f_padding f) = CMSG_SPACE (zlen (f_payload f)) - CMSG_LEN (zlen (f_payload f)).

Definition up8 (n : Z) : Z := (n + 7) / 8 * 8.

Lemma up8_bounds n : n <= up8 n < n + 8.
Proof. unfold up8. pose proof (Z.div_mod (n + 7) 8). pose proof (Z.mod_pos_bound (n + 7) 8). lia. Qed.

Lemma up8_add n : up8 (16 + n) = 16 + up8 n.
Proof. unfold up8. replace (16 + n + 7) with (n + 7 + 2 * 8) by lia. rewrite Z.div_add by lia. lia. Qed.

Lemma CMSG_ALIGN_up n : 0 <= n < 2 ^ 63 -> CMSG_ALIGN n = up8 n.
Proof.
  intros Hn. unfold CMSG_ALIGN. change (8 - 1) with 7. replace (n + 8 - 1) with (n + 7) by lia. unfold u64.
  rewrite <- !Z.land_ones by lia. rewrite Z.land_assoc, <- (Z.land_assoc (n + 7)), (Z.land_comm (Z.ones 64)), Z.land_assoc.
  change 7 with (2 ^ 3 - 1) at 2. rewrite land_not_mask by lia. change (2 ^ 3) with 8. fold (up8 n). pose proof (up8_bounds n).
  rewrite !Z.land_ones, Zmod_mod, Z.mod_small by lia. done.
Qed.

Lemma padding_up n : 0 <= n -> n + __CMSG_PADDING n = up8 n /\ 0 <= __CMSG_PADDING n < 8.
Proof.
  intros Hn. unfold __CMSG_PADDING. change (8 - 1) with (Z.ones 3). rewrite !Z.land_ones by lia. change (2 ^ 3) with 8.
  unfold up8. pose proof (Z.div_mod n 8). pose proof (Z.mod_pos_bound n 8).
  destruct (decide (n mod 8 = 0)) as [E|E].
  - rewrite E. change ((8 - 0) mod 8) with 0. replace (n + 7) with (7 + n / 8 * 8) by lia. rewrite Z.div_add by lia.
    change (7 / 8) with 0. lia.
  - rewrite (Z.mod_small (8 - n mod 8)) by lia. replace (n + 7) with (n mod 8 + 7 + n / 8 * 8) by lia. rewrite Z.div_add by lia.
    replace ((n mod 8 + 7) / 8) with 1; [lia|]. apply Z.div_unique with (n mod 8 - 1); lia.
Qed.

Section cmsg.
Context (e : host) (h : heap) (b o : nat) (clen : Z).
Let mhdr := Msghdr (PAddr b o) clen.

(** The function, for a header in the buffer. *)
Lemma cmsg_nxthdr_spec k len : 0 <= k <= clen -> clen < 2 ^ 62 -> cmsg_len e h (PAddr b (o + Z.to_nat k)) = Ok len -> 0 <= len ->
  CMSG_NXTHDR e h mhdr (PAddr b (o + Z.to_nat k)) =
    Ok (if (16 <=? len) && (k + up8 len + 16 <=? clen) then PAddr b (o + Z.to_nat (k + up8 len)) else PNull).
Proof.
  intros Hk Hc E Hlen. destruct (padding_up len Hlen) as [Hp Hp8]. unfold CMSG_NXTHDR, __cmsg_nxthdr. rewrite E, bind_ok.
  unfold sizeof_cmsghdr. rewrite (u64_small (16 + _)) by lia.
  destruct (Z.leb_spec 16 len) as [H16|H16]; cbn [andb].
  2:{ by rewrite (proj2 (Z.ltb_lt _ _)) by lia. }
  rewrite (proj2 (Z.ltb_ge _ _)) by lia. cbn [mhdr msg_control msg_controllen ptr_add ptr_diff]. rewrite decide_True, bind_ok by done.
  replace (Z.of_nat (o + Z.to_nat clen) - Z.of_nat (o + Z.to_nat k)) with (clen - k) by lia. rewrite (u64_small (clen - k)) by lia.
  pose proof (up8_bounds len). destruct (Z.leb_spec (k + up8 len + 16) clen) as [Hin|Hout].
  - rewrite (u64_small (clen - k - _)) by lia. rewrite !(proj2 (Z.ltb_ge _ _)) by lia. cbn [orb].
    rewrite CMSG_ALIGN_up by lia. f_equal. f_equal. lia.
  - destruct (Z.ltb_spec (clen - k) (16 + __CMSG_PADDING len)); [done|]. cbn [orb]. rewrite (u64_small (clen - k - _)) by lia.
    by rewrite (proj2 (Z.ltb_lt _ _)) by lia.
Qed.

Lemma cmsg_first : 0 <= clen ->
  CMSG_FIRSTHDR mhdr = if 16 <=? clen then PAddr b (o + Z.to_nat 0) else PNull.
Proof. intros. unfold CMSG_FIRSTHDR, sizeof_cmsghdr, mhdr. cbn. destruct (_ <=? _); [|done]. by rewrite Nat.add_0_r. Qed.

Lemma cmsg_walk_safe_from (l : list char) : h !! b = Some (Some <$> l) -> Z.of_nat o + clen <= zlen l -> clen < 2 ^ 62 ->
  forall fuel k, 0 <= k -> k + 16 <= clen -> clen - k < Z.of_nat fuel ->
  exists cs, cmsg_walk e (fun c _ => Ok c) fuel h mhdr (PAddr b (o + Z.to_nat k)) = Ok cs /\
    Forall (fun c => exists k, c = PAddr b (o + Z.to_nat k) /\ 0 <= k /\ k + 16 <= clen) cs.
Proof.
  intros Hb Hin Hc. induction fuel as [|fuel IH]; intros k Hk H16 Hf; [lia|]. unfold zlen in Hin.
  destruct (received_uint e h b l (o + Z.to_nat k) 8 Hb ltac:(lia)) as (len & E & Hlen). cbn [cmsg_walk is_null].
  fold (cmsg_len e h (PAddr b (o + Z.to_nat k))) in E. rewrite E, !bind_ok, (cmsg_nxthdr_spec k len) by (done || lia). rewrite bind_ok.
  destruct (Z.leb_spec 16 len) as [Hl|Hl], (Z.leb_spec (k + up8 len + 16) clen) as [Hn|Hn]; cbn [andb];
    try (destruct fuel as [|fuel]; [lia|]; eexists; split; [done|]; repeat constructor; by exists k).
  pose proof (up8_bounds len). destruct (IH (k + up8 len)) as (cs & -> & Hcs); [lia..|]. rewrite bind_ok.
  eexists. split; [done|]. constructor; [by exists k | done].
Qed.

Lemma cmsg_frame_length f : cmsg_frame_ok f -> zlen (f_payload f) < 2 ^ 62 -> zlen (cmsg_bytes e f) = up8 (16 + zlen (f_payload f)) /\
  CMSG_LEN (zlen (f_payload f)) = 16 + zlen (f_payload f).
Proof.
  intros (Hf & Hp) Hn. pose proof (zlen_nonneg (f_payload f)). pose proof (up8_bounds (zlen (f_payload f))).
  assert (E : CMSG_LEN (zlen (f_payload f)) = 16 + zlen (f_payload f)).
  { unfold CMSG_LEN. change (CMSG_ALIGN sizeof_cmsghdr) with 16. by rewrite u64_small by lia. }
  split; [|done]. unfold cmsg_bytes. rewrite !zlen_app, zlen_image, Hf, Hp, E. unfold CMSG_SPACE.
  change (CMSG_ALIGN sizeof_cmsghdr) with 16. rewrite CMSG_ALIGN_up, u64_small, up8_add by lia. lia.
Qed.

(** There is a header in ancillary data that is not empty. *)
Lemma cmsg_frames_long fs : fs <> [] -> Forall cmsg_frame_ok fs -> 16 <= zlen (concat (cmsg_bytes e <$> fs)).
Proof.
  intros Hne Hok. destruct fs as [|f fs]; [done|]. apply Forall_cons in Hok as [(Hf & _) _]. cbn [fmap list_fmap concat].
  unfold cmsg_bytes at 1. rewrite !zlen_app, zlen_image, Hf. pose proof (zlen_nonneg (f_payload f)).
  pose proof (zlen_nonneg (f_padding f)). pose proof (zlen_nonneg (concat (cmsg_bytes e <$> fs))). lia.
Qed.

Lemma cmsg_walk_frames post fs : forall mid fuel pre,
  h !! b = Some (Some <$> (pre ++ mid ++ concat (cmsg_bytes e <$> fs) ++ post)) -> length pre = o ->
  fs <> [] -> Forall cmsg_frame_ok fs -> clen = zlen mid + zlen (concat (cmsg_bytes e <$> fs)) -> clen < 2 ^ 62 -> (length fs < fuel)%nat ->
  cmsg_walk e (cmsg_payload h) fuel h mhdr (PAddr b (o + Z.to_nat (zlen mid))) = Ok (f_payload <$> fs).
Proof.
  induction fs as [|f fs IH]; intros mid [|fuel] pre Hb Ho Hne Hok Hc Hmax Hfuel; try done; [cbn in Hfuel; lia|].
  apply Forall_cons in Hok as [Hf Hok]. cbn [fmap list_fmap concat] in *. set (rest := concat (cmsg_bytes e <$> fs)) in *.
  rewrite zlen_app in Hc. pose proof (zlen_nonneg rest). pose proof (zlen_nonneg mid). pose proof (zlen_nonneg (f_payload f)) as Hpay.
  pose proof Hf as (Hfields & Hpad).
  assert (Hn : zlen (f_payload f) < 2 ^ 62).
  { unfold cmsg_bytes in Hc. rewrite !zlen_app, zlen_image, Hfields in Hc. pose proof (zlen_nonneg (f_padding f)). lia. }
  destruct (cmsg_frame_length f Hf Hn) as [Hfl HL]. pose proof (up8_bounds (16 + zlen (f_payload f))).
  assert (Hpos : (o + Z.to_nat (zlen mid) = length (pre ++ mid))%nat) by (rewrite length_app; unfold zlen; lia).
  assert (Hb2 : h !! b = Some (Some <$> ((pre ++ mid) ++ image e 8 (16 + zlen (f_payload f)) ++ (f_fields f ++ f_payload f ++ f_padding f) ++ rest ++ post))).
  { rewrite Hb. unfold cmsg_bytes. rewrite HL. by rewrite <- !app_assoc. }
  assert (Elen : cmsg_len e h (PAddr b (o + Z.to_nat (zlen mid))) = Ok (16 + zlen (f_payload f))).
  { unfold cmsg_len. rewrite load_uint_value. rewrite <- (zlen_image e 8 (16 + zlen (f_payload f))). rewrite Hpos.
    rewrite (frame_load h b (pre ++ mid) _ _ Hb2), bind_ok. f_equal. rewrite value_image. apply le_value_bytes. lia. }
  assert (Edata : cmsg_payload h (PAddr b (o + Z.to_nat (zlen mid))) (16 + zlen (f_payload f)) = Ok (f_payload f)).
  { unfold cmsg_payload. change (CMSG_LEN 0) with 16. replace (16 + zlen (f_payload f) - 16) with (zlen (f_payload f)) by lia.
    cbn [CMSG_DATA ptr_add]. replace (o + Z.to_nat (zlen mid) + Z.to_nat sizeof_cmsghdr)%nat
      with (length ((pre ++ mid) ++ image e 8 (16 + zlen (f_payload f)) ++ f_fields f)).
    - apply (frame_load h b _ (f_payload f) (f_padding f ++ rest ++ post)). rewrite Hb2. by rewrite <- !app_assoc.
    - rewrite length_app, <- Hpos, length_app, length_image. unfold zlen, sizeof_cmsghdr in *. lia. }
  cbn [cmsg_walk is_null]. rewrite Elen, !bind_ok, Edata, !bind_ok, (cmsg_nxthdr_spec _ (16 + zlen (f_payload f))) by (done || lia).
  rewrite bind_ok, (proj2 (Z.leb_le 16 _)) by lia. cbn [andb].
  destruct fs as [|g fs].
  - change (zlen rest) with 0 in *. rewrite (proj2 (Z.leb_gt _ _)) by lia. destruct fuel; [cbn in Hfuel; lia|]. done.
  - assert (Hr16 : 16 <= zlen rest) by (by apply cmsg_frames_long).
    rewrite (proj2 (Z.leb_le _ _)) by lia. rewrite <- Hfl, <- zlen_app.
    rewrite (IH (mid ++ cmsg_bytes e f) fuel pre); [done | | done | done | done | rewrite zlen_app; fold rest; lia | done | cbn in *; lia].
    rewrite Hb. by rewrite <- !app_assoc.
Qed.
End cmsg.

(** ** Theorems *)

Inductive family : Set := Messages | Attributes.

Definition records (e : host) (f : family) : Records :=
  match f with Messages => netlink_messages e | Attributes => route_attributes e end.

#[export] Instance records_spec e f : RecordsSpec e (records e f).
Proof. destruct f; apply _. Qed.

(** C28: whatever bytes a buffer holds, the loop with NLMSG_OK and NLMSG_NEXT,
    and the one with RTA_OK and RTA_NEXT, ends and reads nothing outside the
    buffer: the records it visits, with their headers, are no more than the
    buffer has. *)
Theorem netlink_walk_safe e fam h b (l : list char) : h !! b = Some (Some <$> l) -> zlen l < 2 ^ 31 - 4 ->
  exists ds, @walk (records e fam) (S (S (length l))) h (PAddr b 0) (zlen l) = Ok ds /\
    foldr (fun d n => @rec_hdr (records e fam) + zlen d + n) 0 ds <= zlen l.
Proof.
  intros Hb Hl. pose proof (zlen_nonneg l).
  destruct (@walk_safe_from e (records e fam) _ h b l Hb (S (length l)) 0 (zlen l)) as (ds & E & Hds); [lia | lia | unfold zlen; lia |].
  exists ds. split; [exact E|]. destruct Hds as [->|Hds]; [done | exact Hds].
Qed.

(** A buffer whose second message claims more bytes than there are. *)
Definition bad_buffer : list char := image Little 4 17 ++ replicate 13 NUL ++ [newline; newline; newline] ++ image Little 4 4096 ++ replicate 14 NUL.

Lemma netlink_walk_safe_witness : exists ds,
  @walk (records Little Messages) (S (S (length bad_buffer))) {[ 7%nat := Some <$> bad_buffer ]} (PAddr 7 0) (zlen bad_buffer) = Ok ds /\
  ds = [[NUL]].
Proof.
  destruct (netlink_walk_safe Little Messages {[ 7%nat := Some <$> bad_buffer ]} 7 bad_buffer) as (ds & E & _).
  - apply lookup_singleton_eq.
  - vm_compute. reflexivity.
  - exists ds. split; [exact E|]. vm_compute in E. injection E as <-. reflexivity.
Defined.

(** C29: messages and attributes that a machine laid out with the LENGTH and
    SPACE macros (any other header fields, any padding) are found by the loop
    with OK and NEXT, in order and with their payloads. *)
Theorem netlink_roundtrip e fam h b post (fs : list frame) :
  h !! b = Some (Some <$> (concat (@frame_bytes (records e fam) e <$> fs) ++ post)) ->
  Forall (@frame_ok (records e fam)) fs -> zlen (concat (@frame_bytes (records e fam) e <$> fs)) < 2 ^ 31 - 64 ->
  @walk (records e fam) (S (length fs)) h (PAddr b 0) (zlen (concat (@frame_bytes (records e fam) e <$> fs))) = Ok (f_payload <$> fs).
Proof. intros Hb Hok Hlen. by apply (@walk_frames e (records e fam) _ h b post fs [] (S (length fs))); [| | |lia]. Qed.

Definition demo_frames : list frame :=
  [Frame (replicate 2 newline) (lit "abcde") (replicate 3 NUL); Frame (replicate 2 NUL) [] []; Frame (replicate 2 NUL) (lit "wxyz") []].
Definition demo_buffer : list char := concat (@frame_bytes (records Big Attributes) Big <$> demo_frames).

Lemma netlink_roundtrip_witness :
  @walk (records Big Attributes) 4 {[ 7%nat := Some <$> (demo_buffer ++ [newline]) ]} (PAddr 7 0) (zlen demo_buffer)
  = Ok [lit "abcde"; []; lit "wxyz"].
Proof.
  apply (netlink_roundtrip Big Attributes {[ 7%nat := Some <$> (demo_buffer ++ [newline]) ]} 7 [newline] demo_frames).
  - apply lookup_singleton_eq.
  - repeat constructor; vm_compute; reflexivity.
  - vm_compute. reflexivity.
Defined.

(** Whatever bytes the control buffer holds, CMSG_FIRSTHDR and CMSG_NXTHDR
    give headers that are in it, one behind the other, and come to an end. *)
Theorem cmsg_walk_safe e h b o clen (l : list char) : h !! b = Some (Some <$> l) -> 0 <= clen -> Z.of_nat o + clen <= zlen l -> clen < 2 ^ 62 ->
  let mhdr := Msghdr (PAddr b o) clen in
  exists cs, cmsg_walk e (fun c _ => Ok c) (S (Z.to_nat clen)) h mhdr (CMSG_FIRSTHDR mhdr) = Ok cs /\
    Forall (fun c => exists k, c = PAddr b (o + Z.to_nat k) /\ 0 <= k /\ k + 16 <= clen) cs.
Proof.
  intros Hb H0 Hin Hc mhdr. unfold mhdr. rewrite cmsg_first by done. destruct (Z.leb_spec 16 clen); [|by exists []].
  apply (cmsg_walk_safe_from e h b o clen l Hb Hin Hc); lia.
Qed.

(** Ancillary data that was laid out with CMSG_LEN and CMSG_SPACE is found
    again, in order and with its payloads. *)
Theorem cmsg_roundtrip e h b pre post (fs : list frame) :
  h !! b = Some (Some <$> (pre ++ concat (cmsg_bytes e <$> fs) ++ post)) -> fs <> [] -> Forall cmsg_frame_ok fs ->
  zlen (concat (cmsg_bytes e <$> fs)) < 2 ^ 62 ->
  let mhdr := Msghdr (PAddr b (length pre)) (zlen (concat (cmsg_bytes e <$> fs))) in
  cmsg_walk e (cmsg_payload h) (S (length fs)) h mhdr (CMSG_FIRSTHDR mhdr) = Ok (f_payload <$> fs).
Proof.
  intros Hb Hne Hok Hmax mhdr. unfold mhdr. rewrite cmsg_first by apply zlen_nonneg.
  pose proof (cmsg_frames_long e fs Hne Hok) as H16.
  rewrite (proj2 (Z.leb_le _ _)) by done.
  apply (cmsg_walk_frames e h b (length pre) _ post fs [] (S (length fs)) pre); try done; lia.
Qed.

(** RTNH_OK reads the length of a next hop before it knows that there is one:
    at the end of a buffer the test itself leaves the buffer. *)
Theorem rtnh_ok_overreads e h b (l : list char) : h !! b = Some (Some <$> l) ->
  RTNH_OK e h (PAddr b (length l)) 0 = Fault OutOfBounds.
Proof.
  intros Hb. unfold RTNH_OK, rtnh_len, load_uint, load_bytes, bytes_from. cbn [Z.leb]. rewrite Hb. cbn [lift_opt].
  rewrite bind_ok. rewrite decide_True by (by rewrite length_fmap). cbn [mbind res_bind].
  rewrite drop_ge by (by rewrite length_fmap). done.
Qed.
