(* ===== verification/Bsearch.v ===== *)
(** * Binary search (bits/stdlib-bsearch.h)

    The inline version of bsearch() over an array of [nmemb] elements of
    [size] bytes at the address [base].  The comparison with the key is the
    caller's function; it may fault, so that the theorem also says which
    elements are looked at. *)

From stdpp Require Import base numbers list.
From S2P Require Import Prelude.

#[local] Open Scope Z_scope.

Section Bsearch.
(** The caller's comparison of the key with the element at an address. *)
Context (compar : Z -> res Z) (base size : Z).

(** The loop; size_t arithmetic wraps.  [None] is NULL. *)
Fixpoint bsearch_loop (fuel : nat) (l u : Z) : res (option Z) :=
  match fuel with
  | O => Fault OutOfFuel
  | S fuel' =>
      if l <? u then
        let idx := u64 (l + u) / 2 in
        let p := base + u64 (idx * size) in
        comparison ← compar p;
        if comparison <? 0 then bsearch_loop fuel' l idx
        else if comparison >? 0 then bsearch_loop fuel' (u64 (idx + 1)) u
        else Ok (Some p)
      else Ok None
  end.

Definition bsearch (fuel : nat) (nmemb : Z) : res (option Z) := bsearch_loop fuel 0 nmemb.

(** The array is in order with respect to the key: elements before [a] are
    smaller, those from [b] on are greater, those between are equal. *)
Definition ordered (n a b : Z) : Prop :=
  0 <= a <= b /\ b <= n /\
  forall i, 0 <= i < n -> exists c, compar (base + i * size) = Ok c /\
    (i < a -> 0 < c) /\ (a <= i < b -> c = 0) /\ (b <= i -> c < 0).

(** What the search may answer: an equal element, or NULL when there is none. *)
Definition found (a b : Z) (r : option Z) : Prop :=
  match r with
  | Some p => exists i, a <= i < b /\ p = base + i * size
  | None => a = b
  end.

Lemma loop_correct n a b k : ordered n a b -> 0 <= size -> n <= 2 ^ 63 -> n * size < 2 ^ 64 ->
  forall fuel l u, (k < fuel)%nat -> u - l < 2 ^ Z.of_nat k -> 0 <= l -> l <= u <= n -> l <= a -> b <= u ->
  exists r, bsearch_loop fuel l u = Ok r /\ found a b r.
Proof.
  intros (Hab & Hbn & Hcmp) Hsz Hn Hns. induction k as [|k IH]; intros fuel l u Hf Hlen Hl Hu Hla Hbu;
    (destruct fuel as [|fuel]; [lia|]); cbn [bsearch_loop].
  { change (2 ^ Z.of_nat 0) with 1 in Hlen. rewrite (proj2 (Z.ltb_ge _ _)) by lia. exists None. split; [done|]. cbn. lia. }
  destruct (Z.ltb_spec l u) as [Hlu|Hlu]; [|exists None; split; [done|cbn; lia]].
  cbv zeta. rewrite (u64_small (l + u)) by lia. set (m := (l + u) / 2).
  assert (Hm : 2 * m <= l + u < 2 * m + 2) by (unfold m; pose proof (Z.div_mod (l + u) 2); pose proof (Z.mod_pos_bound (l + u) 2); lia).
  rewrite Nat2Z.inj_succ, Z.pow_succ_r in Hlen by lia. rewrite (u64_small (m * size)) by nia.
  destruct (Hcmp m ltac:(lia)) as (c & -> & Hlt & Heq & Hgt). rewrite bind_ok.
  destruct (Z.ltb_spec c 0) as [Hc|Hc].
  - apply IH; lia.
  - rewrite Z.gtb_ltb. destruct (Z.ltb_spec 0 c) as [Hc'|Hc'].
    + rewrite u64_small by lia. apply IH; lia.
    + eexists. split; [done|]. exists m. split; [lia|done].
Qed.
End Bsearch.

(** An array of three numbers. *)
Definition demo_array (key p : Z) : res Z :=
  match [10; 20; 30] !! Z.to_nat ((p - 4096) / 8) with
  | Some x => if decide (4096 <= p) then Ok (key - x) else Fault OutOfBounds
  | None => Fault OutOfBounds
  end.

(** C34: on an array that is in order, bsearch() returns an element that
    compares equal to the key, or NULL exactly when there is none; it compares
    only elements of the array, and its loop ends within 65 rounds. *)
Theorem bsearch_correct compar base size n a b : ordered compar base size n a b ->
  0 <= size -> n <= 2 ^ 63 -> n * size < 2 ^ 64 ->
  exists r, bsearch compar base size 65 n = Ok r /\ found base size a b r.
Proof.
  intros Ho Hsz Hn Hns. destruct (Ho) as (? & ? & _).
  eapply (loop_correct compar base size n a b 64 Ho Hsz Hn Hns); lia.
Qed.

Lemma bsearch_correct_witness :
  (exists r, bsearch (demo_array 20) 4096 8 65 3 = Ok r /\ found 4096 8 1 2 r) /\
  bsearch (demo_array 25) 4096 8 65 3 = Ok None.
Proof.
  split; [|vm_compute; reflexivity]. apply bsearch_correct.
  - split; [lia|]. split; [lia|]. intros i Hi. assert (i = 0 \/ i = 1 \/ i = 2) as [->|[->| ->]] by lia.
    + exists 10. split; [vm_compute; reflexivity | lia].
    + exists 0. split; [vm_compute; reflexivity | lia].
    + exists (-10). split; [vm_compute; reflexivity | lia].
  - lia.
  - lia.
  - lia.
Defined.
