(* ===== verification/Vring.v ===== *)
(** * Virtio rings (linux/virtio_ring.h)

    The layout of a ring in memory, as vring_init() computes it and
    vring_size() predicts it, and the decision whether the other side wants
    to be notified.  Addresses are 64-bit numbers. *)

From stdpp Require Import base numbers list.
From S2P Require Import Prelude ByteOrder.

#[local] Open Scope Z_scope.

(** Sizes of the structures of the header. *)
Definition sizeof_vring_desc : Z := 16.        (* addr, len, flags, next *)
Definition sizeof_vring_used_elem : Z := 8.    (* id, len *)
Definition sizeof_virtio16 : Z := 2.
Definition vring_ring_offset : Z := 4.         (* flags and idx before ring[] *)

Record vring : Type := Vring {
  num : Z;          (* unsigned int *)
  desc : Z;
  avail : Z;
  used : Z
}.

(** Addresses of avail->ring[i] and used->ring[i]. *)
Definition avail_ring (vr : vring) (i : Z) : Z := avail vr + vring_ring_offset + sizeof_virtio16 * i.
Definition used_ring (vr : vring) (i : Z) : Z := used vr + vring_ring_offset + sizeof_vring_used_elem * i.

(** The event indices behind the rings. *)
Definition vring_used_event (vr : vring) : Z := avail_ring vr (num vr).
Definition vring_avail_event (vr : vring) : Z := used_ring vr (num vr).

Definition vring_init (n p align : Z) : vring :=
  let avail := p + u64 (n * sizeof_vring_desc) in
  let ring_end := avail + vring_ring_offset + sizeof_virtio16 * n in
  Vring n p avail (Z.land (u64 (ring_end + sizeof_virtio16 + align - 1)) (u64 (Z.lnot (u64 (align - 1))))).

Definition vring_size (n align : Z) : Z :=
  u32 (u64 (Z.land (u64 (sizeof_vring_desc * n + sizeof_virtio16 * u32 (3 + n) + align - 1)) (u64 (Z.lnot (u64 (align - 1))))
            + sizeof_virtio16 * 3 + sizeof_vring_used_elem * n)).

Definition vring_need_event (event_idx new_idx old : Z) : bool :=
  u16 (new_idx - event_idx - 1) <? u16 (new_idx - old).

(** ** Facts *)

(** Rounding up to a power of two. *)
Lemma round_up x k : 0 <= k < 64 -> 0 <= x < 2 ^ 64 ->
  Z.land x (u64 (Z.lnot (u64 (2 ^ k - 1)))) = x / 2 ^ k * 2 ^ k.
Proof.
  intros Hk Hx. assert (0 < 2 ^ k) by (apply Z.pow_pos_nonneg; lia).
  assert (2 ^ k <= 2 ^ 63) by (apply Z.pow_le_mono_r; lia).
  rewrite (u64_small (2 ^ k - 1)) by lia. unfold u64.
  rewrite <- Z.land_ones, Z.land_assoc, (Z.land_comm x), <- Z.land_assoc, Z.land_ones, (Z.mod_small x) by lia.
  rewrite Z.land_comm. apply land_not_mask. lia.
Qed.

Lemma next_multiple_add x m q : 0 < m -> next_multiple (q * m + x) m = q * m + next_multiple x m.
Proof.
  intros Hm. unfold next_multiple. replace (q * m + x + m - 1) with (x + m - 1 + q * m) by lia.
  rewrite Z.div_add by lia. lia.
Qed.

(** ** Theorems *)

(** For a ring at a multiple of its alignment the parts that vring_init()
    lays out follow each other without overlapping: descriptors, the
    available ring with the used event behind it, the used ring, aligned,
    with the available event behind it; and the last one ends exactly
    vring_size() bytes behind the start. *)
Theorem vring_layout n q k : 0 < n < 2 ^ 24 -> 2 <= k < 32 -> 0 <= q -> q * 2 ^ k < 2 ^ 62 ->
  let p := q * 2 ^ k in
  let vr := vring_init n p (2 ^ k) in
  desc vr = p /\ avail vr = desc vr + 16 * n /\ vring_used_event vr = avail vr + 4 + 2 * n /\
  vring_used_event vr + 2 <= used vr /\ used vr mod 2 ^ k = 0 /\
  vring_avail_event vr = used vr + 4 + 8 * n /\ vring_avail_event vr + 2 = p + vring_size n (2 ^ k).
Proof.
  intros Hn Hk Hq Hp p vr. assert (0 < 2 ^ k) by (apply Z.pow_pos_nonneg; lia).
  assert (2 ^ k <= 2 ^ 31) by (apply Z.pow_le_mono_r; lia).
  assert (0 <= p < 2 ^ 62) by (unfold p; nia).
  assert (Havail : avail vr = p + 16 * n).
  { cbn. unfold sizeof_vring_desc. rewrite u64_small by lia. lia. }
  assert (Hused : used vr = next_multiple (p + 18 * n + 6) (2 ^ k)).
  { cbn. unfold sizeof_vring_desc, vring_ring_offset, sizeof_virtio16. rewrite (u64_small (n * 16)) by lia.
    rewrite (u64_small (_ + 2 + _ - 1)) by lia. rewrite round_up by lia.
    unfold next_multiple. do 2 f_equal. lia. }
  assert (Hnm : next_multiple (p + 18 * n + 6) (2 ^ k) = p + next_multiple (18 * n + 6) (2 ^ k)).
  { unfold p. rewrite <- Z.add_assoc. by apply next_multiple_add. }
  pose proof (next_multiple_bounds (18 * n + 6) (2 ^ k) ltac:(lia)) as Hb.
  assert (Hsize : vring_size n (2 ^ k) = next_multiple (18 * n + 6) (2 ^ k) + 6 + 8 * n).
  { unfold vring_size, sizeof_vring_desc, sizeof_virtio16, sizeof_vring_used_elem.
    rewrite (u32_small (3 + n)), (u64_small (16 * n + 2 * (3 + n) + 2 ^ k - 1)), round_up by lia.
    replace (16 * n + 2 * (3 + n) + 2 ^ k - 1) with (18 * n + 6 + 2 ^ k - 1) by lia.
    fold (next_multiple (18 * n + 6) (2 ^ k)). rewrite u64_small, u32_small by lia. lia. }
  split; [done|]. split; [done|]. unfold vring_used_event, vring_avail_event, avail_ring, used_ring.
  change (num vr) with n. unfold vring_ring_offset, sizeof_virtio16, sizeof_vring_used_elem.
  rewrite Hsize, Hused, Hnm, Havail. split; [lia|]. split; [lia|]. split; [|lia].
  rewrite <- Hnm. unfold next_multiple. by apply Z.mod_mul; lia.
Qed.

Lemma vring_layout_witness :
  let vr := vring_init 256 8192 4096 in
  used vr mod 4096 = 0 /\ vring_avail_event vr + 2 = 8192 + vring_size 256 4096.
Proof.
  destruct (vring_layout 256 2 12) as (_ & _ & _ & _ & H1 & _ & H2).
  - lia.
  - lia.
  - lia.
  - vm_compute. reflexivity.
  - split; [exact H1 | exact H2].
Defined.

(** When the index, counted without wrapping, has moved from [old] to
    [new] by less than 2^16, an event is due exactly when one of the indices
    passed is the event index. *)
Theorem vring_need_event_correct event old new : 0 <= event < 2 ^ 16 -> old <= new < old + 2 ^ 16 ->
  vring_need_event event (u16 new) (u16 old) = true <-> exists k, old <= k < new /\ u16 k = event.
Proof.
  intros He Hn. unfold vring_need_event, u16. rewrite Z.ltb_lt.
  assert (E1 : (new mod 2 ^ 16 - old mod 2 ^ 16) mod 2 ^ 16 = new - old).
  { rewrite <- Zminus_mod. apply Z.mod_small. lia. }
  assert (E2 : (new mod 2 ^ 16 - event - 1) mod 2 ^ 16 = (new - 1 - event) mod 2 ^ 16).
  { replace (new mod 2 ^ 16 - event - 1) with (new mod 2 ^ 16 - (event + 1)) by lia.
    rewrite Zminus_mod_idemp_l. f_equal. lia. }
  rewrite E1, E2. set (d := (new - 1 - event) mod 2 ^ 16). assert (Hd : 0 <= d < 2 ^ 16) by (by apply Z.mod_pos_bound).
  assert (Hdq : new - 1 - event = 2 ^ 16 * ((new - 1 - event) / 2 ^ 16) + d) by (by apply Z.div_mod).
  set (q := (new - 1 - event) / 2 ^ 16) in *. split.
  - intros Hlt. exists (new - 1 - d). split; [lia|]. symmetry. apply (Z.mod_unique _ _ q); lia.
  - intros (j & Hj & Hje). pose proof (Z.div_mod j (2 ^ 16) ltac:(lia)) as Hjd. rewrite Hje in Hjd.
    assert (d = new - 1 - j); [|lia]. symmetry. unfold d.
    apply (Z.mod_unique _ _ (j / 2 ^ 16)); lia.
Qed.

Lemma vring_need_event_correct_witness :
  vring_need_event 2 (u16 65540) (u16 65534) = true <-> exists k, 65534 <= k < 65540 /\ u16 k = 2.
Proof.
  apply vring_need_event_correct.
  - lia.
  - lia.
Defined.
