(* ===== verification/DevNumbers.v ===== *)
(** * Device numbers (bits/sysmacros.h)

    major(), minor() and makedev(), the functions gnu_dev_...() behind them: a 64-bit device number holds a 32-bit
    major and a 32-bit minor number in four pieces. *)

From stdpp Require Import base numbers list.
From Stdlib Require Import Btauto.
From S2P Require Import Prelude ByteOrder.

#[local] Open Scope Z_scope.

Definition gnu_dev_major (dev : Z) : Z :=
  let __major := u32 (Z.shiftr (Z.land dev 0x00000000000fff00) 8) in
  u32 (Z.lor __major (Z.shiftr (Z.land dev 0xfffff00000000000) 32)).

Definition gnu_dev_minor (dev : Z) : Z :=
  let __minor := u32 (Z.shiftr (Z.land dev 0x00000000000000ff) 0) in
  u32 (Z.lor __minor (Z.shiftr (Z.land dev 0x00000ffffff00000) 12)).

Definition gnu_dev_makedev (__major __minor : Z) : Z :=
  let dev := u64 (Z.shiftl (Z.land __major 0x00000fff) 8) in
  let dev := Z.lor dev (u64 (Z.shiftl (Z.land __major 0xfffff000) 32)) in
  let dev := Z.lor dev (u64 (Z.shiftl (Z.land __minor 0x000000ff) 0)) in
  Z.lor dev (u64 (Z.shiftl (Z.land __minor 0xffffff00) 12)).

(** ** The pieces as numbers *)

(** Bits [s] to [s + w - 1]. *)
Definition piece (x s w : Z) : Z := (x / 2 ^ s) mod 2 ^ w.

Lemma piece_range x s w : 0 <= w -> 0 <= piece x s w < 2 ^ w.
Proof. intros. apply Z.mod_pos_bound. apply Z.pow_pos_nonneg; lia. Qed.

(** Two pieces next to each other. *)
Lemma piece_join x s w v : 0 <= s -> 0 <= w -> 0 <= v -> piece x s w + piece x (s + w) v * 2 ^ w = piece x s (w + v).
Proof.
  intros. unfold piece. rewrite !Z.pow_add_r, <- Z.div_div by (lia || apply Z.pow_nonzero; lia || apply Z.pow_pos_nonneg; lia).
  rewrite Z.rem_mul_r; [lia | apply Z.pow_nonzero; lia | apply Z.pow_pos_nonneg; lia].
Qed.

Lemma piece_all x w : 0 <= x < 2 ^ w -> piece x 0 w = x.
Proof. intros. unfold piece. rewrite Z.div_1_r. by apply Z.mod_small. Qed.

Lemma major_pieces dev : gnu_dev_major dev = piece dev 8 12 + piece dev 44 20 * 2 ^ 12.
Proof.
  unfold gnu_dev_major. change 0x00000000000fff00 with (Z.shiftl (Z.ones 12) 8).
  change 0xfffff00000000000 with (Z.shiftl (Z.ones 20) 44). rewrite !field_down by lia.
  fold (piece dev 8 12) (piece dev 44 20). change (8 - 8) with 0. change (44 - 32) with 12. rewrite Z.mul_1_r.
  pose proof (piece_range dev 8 12 ltac:(lia)). pose proof (piece_range dev 44 20 ltac:(lia)).
  rewrite (u32_small (piece dev 8 12)), Z.lor_comm, lor_disjoint, u32_small by lia. lia.
Qed.

Lemma minor_pieces dev : gnu_dev_minor dev = piece dev 0 8 + piece dev 20 24 * 2 ^ 8.
Proof.
  unfold gnu_dev_minor. change 0x00000000000000ff with (Z.shiftl (Z.ones 8) 0).
  change 0x00000ffffff00000 with (Z.shiftl (Z.ones 24) 20). rewrite !field_down by lia.
  fold (piece dev 0 8) (piece dev 20 24). change (0 - 0) with 0. change (20 - 12) with 8. rewrite Z.mul_1_r.
  pose proof (piece_range dev 0 8 ltac:(lia)). pose proof (piece_range dev 20 24 ltac:(lia)).
  rewrite (u32_small (piece dev 0 8)), Z.lor_comm, lor_disjoint, u32_small by lia. lia.
Qed.

Lemma lor_order4 a b c d : Z.lor (Z.lor (Z.lor a b) c) d = Z.lor (Z.lor (Z.lor b d) a) c.
Proof. apply Z.bits_inj'. intros n Hn. rewrite !Z.lor_spec. btauto. Qed.

Lemma makedev_pieces m n : gnu_dev_makedev m n =
  piece n 0 8 + piece m 0 12 * 2 ^ 8 + piece n 8 24 * 2 ^ 20 + piece m 12 20 * 2 ^ 44.
Proof.
  unfold gnu_dev_makedev. change 0x00000fff with (Z.shiftl (Z.ones 12) 0). change 0xfffff000 with (Z.shiftl (Z.ones 20) 12).
  change 0x000000ff with (Z.shiftl (Z.ones 8) 0). change 0xffffff00 with (Z.shiftl (Z.ones 24) 8).
  rewrite !field_up by lia. fold (piece m 0 12) (piece m 12 20) (piece n 0 8) (piece n 8 24).
  change (0 + 8) with 8. change (12 + 32) with 44. change (0 + 0) with 0. change (8 + 12) with 20.
  pose proof (piece_range m 0 12 ltac:(lia)). pose proof (piece_range m 12 20 ltac:(lia)).
  pose proof (piece_range n 0 8 ltac:(lia)). pose proof (piece_range n 8 24 ltac:(lia)).
  rewrite !u64_small by lia. rewrite lor_order4.
  rewrite (lor_down _ _ 24 20), (lor_down _ _ 12 8), (lor_down _ _ 8 0) by lia. lia.
Qed.

(** Pieces of a number that is put together of pieces. *)
Lemma piece_high a b s w : 0 <= w -> 0 <= s -> 0 <= a < 2 ^ s -> piece (a + b * 2 ^ s) s w = b mod 2 ^ w.
Proof.
  intros. unfold piece. rewrite Z.div_add by (apply Z.pow_nonzero; lia). by rewrite Z.div_small by lia.
Qed.

Lemma piece_first a b s : 0 <= s -> 0 <= a < 2 ^ s -> piece (a + b * 2 ^ s) 0 s = a.
Proof.
  intros. unfold piece. rewrite Z.div_1_r, Z.mod_add by (apply Z.pow_nonzero; lia). by rewrite Z.mod_small by lia.
Qed.

(** A number of two pieces, the high one below [2 ^ w]. *)
Lemma piece_second a b s w : 0 <= w -> 0 <= s -> 0 <= a < 2 ^ s -> 0 <= b < 2 ^ w -> piece (a + b * 2 ^ s) s w = b.
Proof. intros. rewrite piece_high by lia. by apply Z.mod_small. Qed.

(** A device number is its four pieces. *)
Lemma dev_pieces dev : 0 <= dev < 2 ^ 64 ->
  dev = piece dev 0 8 + piece dev 8 12 * 2 ^ 8 + piece dev 20 24 * 2 ^ 20 + piece dev 44 20 * 2 ^ 44.
Proof.
  intros Hd. pose proof (piece_all dev 64 Hd). pose proof (piece_join dev 0 44 20 ltac:(lia) ltac:(lia) ltac:(lia)).
  pose proof (piece_join dev 0 20 24 ltac:(lia) ltac:(lia) ltac:(lia)).
  pose proof (piece_join dev 0 8 12 ltac:(lia) ltac:(lia) ltac:(lia)). 
  change (44 + 20) with 64 in *. change (0 + 44) with 44 in *. change (20 + 24) with 44 in *.
  change (0 + 20) with 20 in *. change (8 + 12) with 20 in *. change (0 + 8) with 8 in *. lia.
Qed.

Lemma makedev_taken dev : 0 <= dev < 2 ^ 64 -> gnu_dev_makedev (gnu_dev_major dev) (gnu_dev_minor dev) = dev.
Proof.
  intros Hd. rewrite makedev_pieces, major_pieces, minor_pieces.
  pose proof (piece_range dev 8 12 ltac:(lia)). pose proof (piece_range dev 44 20 ltac:(lia)).
  pose proof (piece_range dev 0 8 ltac:(lia)). pose proof (piece_range dev 20 24 ltac:(lia)).
  rewrite !piece_first, !piece_second by lia. symmetry. by apply dev_pieces.
Qed.

Lemma major_made m n : 0 <= m < 2 ^ 32 -> gnu_dev_major (gnu_dev_makedev m n) = m.
Proof.
  intros Hm. rewrite major_pieces, makedev_pieces.
  pose proof (piece_range m 0 12 ltac:(lia)) as Hm0. pose proof (piece_range m 12 20 ltac:(lia)) as Hm1.
  pose proof (piece_range n 0 8 ltac:(lia)) as Hn0. pose proof (piece_range n 8 24 ltac:(lia)) as Hn1.
  rewrite (piece_second (_ + _ + _) _ 44 20) by lia.
  set (mid := piece m 0 12). set (top := piece m 12 20). fold mid in Hm0. fold top in Hm1.
  replace (_ + _ + _ + top * 2 ^ 44)
    with (piece n 0 8 + (mid + (piece n 8 24 + top * 2 ^ 24) * 2 ^ 12) * 2 ^ 8) by lia.
  rewrite piece_high, Z.mod_add, Z.mod_small by lia.
  unfold mid, top. etransitivity; [exact (piece_join m 0 12 20 ltac:(lia) ltac:(lia) ltac:(lia))|]. by apply piece_all.
Qed.

Lemma minor_made m n : 0 <= n < 2 ^ 32 -> gnu_dev_minor (gnu_dev_makedev m n) = n.
Proof.
  intros Hn. rewrite minor_pieces, makedev_pieces.
  pose proof (piece_range m 0 12 ltac:(lia)) as Hm0. pose proof (piece_range m 12 20 ltac:(lia)) as Hm1.
  pose proof (piece_range n 0 8 ltac:(lia)) as Hn0. pose proof (piece_range n 8 24 ltac:(lia)) as Hn1.
  set (low := piece n 0 8). set (top := piece n 8 24). fold low in Hn0. fold top in Hn1.
  replace (_ + _ + _ + piece m 12 20 * 2 ^ 44)
    with (low + (piece m 0 12 + (top + piece m 12 20 * 2 ^ 24) * 2 ^ 12) * 2 ^ 8) by lia.
  rewrite piece_first by lia.
  replace (low + (piece m 0 12 + (top + piece m 12 20 * 2 ^ 24) * 2 ^ 12) * 2 ^ 8)
    with ((low + piece m 0 12 * 2 ^ 8) + (top + piece m 12 20 * 2 ^ 24) * 2 ^ 20) by lia.
  rewrite piece_high, Z.mod_add, Z.mod_small by lia.
  unfold low, top. etransitivity; [exact (piece_join n 0 8 24 ltac:(lia) ltac:(lia) ltac:(lia))|]. by apply piece_all.
Qed.

(** Device numbers are pairs of a major and a minor number: taking a
    number apart and putting it together gives the number, and the other way
    round, for all 64-bit numbers and all 32-bit parts. *)
Theorem makedev_bijection dev m n : 0 <= dev < 2 ^ 64 -> 0 <= m < 2 ^ 32 -> 0 <= n < 2 ^ 32 ->
  gnu_dev_makedev (gnu_dev_major dev) (gnu_dev_minor dev) = dev /\ gnu_dev_major (gnu_dev_makedev m n) = m /\ gnu_dev_minor (gnu_dev_makedev m n) = n /\
  0 <= gnu_dev_major dev < 2 ^ 32 /\ 0 <= gnu_dev_minor dev < 2 ^ 32 /\ 0 <= gnu_dev_makedev m n < 2 ^ 64.
Proof.
  intros Hdev Hm Hn. split; [by apply makedev_taken|]. split; [by apply major_made|]. split; [by apply minor_made|].
  rewrite major_pieces, minor_pieces, makedev_pieces.
  pose proof (piece_range dev 8 12 ltac:(lia)). pose proof (piece_range dev 44 20 ltac:(lia)).
  pose proof (piece_range dev 0 8 ltac:(lia)). pose proof (piece_range dev 20 24 ltac:(lia)).
  pose proof (piece_range m 0 12 ltac:(lia)). pose proof (piece_range m 12 20 ltac:(lia)).
  pose proof (piece_range n 0 8 ltac:(lia)). pose proof (piece_range n 8 24 ltac:(lia)). lia.
Qed.

(** The driver's number 0x1234567890abcdef, and major 250, minor 70000. *)
Lemma makedev_bijection_witness : gnu_dev_makedev (gnu_dev_major 0x1234567890abcdef) (gnu_dev_minor 0x1234567890abcdef) = 0x1234567890abcdef /\
  gnu_dev_major (gnu_dev_makedev 250 70000) = 250 /\ gnu_dev_minor (gnu_dev_makedev 250 70000) = 70000 /\ gnu_dev_makedev 250 70000 = 286325360.
Proof.
  destruct (makedev_bijection 0x1234567890abcdef 250 70000 ltac:(lia) ltac:(lia) ltac:(lia)) as (A & B & C & _).
  split; [exact A|]. split; [exact B|]. split; [exact C|]. vm_compute. reflexivity.
Defined.
