(* ===== verification/BitSets.v ===== *)
(** * Sets of bits (bits/cpu-set.h, sched.h, bits/select.h, sys/select.h)

    CPU sets and descriptor sets: arrays of 64-bit masks.  The macros work on
    sets by address, so that a source and the destination may be the same.
    A CPU set has a size in bytes; a CPU behind it is ignored.  A descriptor
    set has 1024 bits and nothing checks the descriptor. *)

From stdpp Require Import base numbers gmap list.
From S2P Require Import Prelude.

#[local] Open Scope Z_scope.

(** The masks of each set, by its address. *)
Abbreviation sets := (gmap nat (list Z)).

Definition rd (m : sets) (p : nat) (i : Z) : res Z :=
  bits ← lift_opt UseAfterFree (m !! p);
  if 0 <=? i then lift_opt OutOfBounds (bits !! Z.to_nat i) else Fault OutOfBounds.

Definition wr (m : sets) (p : nat) (i v : Z) : res sets :=
  bits ← lift_opt UseAfterFree (m !! p);
  if (0 <=? i) && (i <? Z.of_nat (length bits)) then Ok (<[p := <[Z.to_nat i := v]> bits]> m) else Fault OutOfBounds.

(** ** CPU sets *)

Definition __CPU_SETSIZE : Z := 1024.
Definition sizeof_cpu_mask : Z := 8.
Definition __NCPUBITS : Z := 8 * sizeof_cpu_mask.
Definition sizeof_cpu_set_t : Z := __CPU_SETSIZE / __NCPUBITS * sizeof_cpu_mask.

Definition __CPUELT (cpu : Z) : Z := cpu / __NCPUBITS.
Definition __CPUMASK (cpu : Z) : Z := u64 (Z.shiftl 1 (cpu mod __NCPUBITS)).

(** for (__i = 0; __i < __imax; ++__i) __bits[__i] = 0; [n] rounds are left. *)
Fixpoint zero_loop (n : nat) (i : Z) (m : sets) (p : nat) : res sets :=
  match n with
  | O => Ok m
  | S n => m ← wr m p i 0; zero_loop n (i + 1) m p
  end.

(** The low [k] bytes of a word; the machine is little-endian. *)
Definition low_bytes (k : Z) : Z := Z.ones (8 * k).

(** memset() of [setsize] bytes to 0: whole masks and part of the next. *)
Definition memset_zero (setsize : Z) (m : sets) (p : nat) : res sets :=
  m ← zero_loop (Z.to_nat (setsize / sizeof_cpu_mask)) 0 m p;
  let k := setsize mod sizeof_cpu_mask in
  if k =? 0 then Ok m
  else w ← rd m p (setsize / sizeof_cpu_mask); wr m p (setsize / sizeof_cpu_mask) (Z.ldiff w (low_bytes k)).

(** [builtin]: the compiler has __builtin_memset() and __builtin_memcmp(). *)
Definition __CPU_ZERO_S (builtin : bool) (setsize : Z) (m : sets) (cpusetp : nat) : res sets :=
  if builtin then memset_zero setsize m cpusetp
  else zero_loop (Z.to_nat (setsize / sizeof_cpu_mask)) 0 m cpusetp.

Definition __CPU_SET_S (cpu setsize : Z) (m : sets) (cpusetp : nat) : res (Z * sets) :=
  let __cpu := u64 cpu in
  if __cpu / 8 <? setsize then
    w ← rd m cpusetp (__CPUELT __cpu);
    let v := Z.lor w (__CPUMASK __cpu) in
    m ← wr m cpusetp (__CPUELT __cpu) v;
    Ok (v, m)
  else Ok (0, m).

Definition __CPU_CLR_S (cpu setsize : Z) (m : sets) (cpusetp : nat) : res (Z * sets) :=
  let __cpu := u64 cpu in
  if __cpu / 8 <? setsize then
    w ← rd m cpusetp (__CPUELT __cpu);
    let v := Z.land w (u64 (Z.lnot (__CPUMASK __cpu))) in
    m ← wr m cpusetp (__CPUELT __cpu) v;
    Ok (v, m)
  else Ok (0, m).

Definition __CPU_ISSET_S (cpu setsize : Z) (m : sets) (cpusetp : nat) : res bool :=
  let __cpu := u64 cpu in
  if __cpu / 8 <? setsize then
    w ← rd m cpusetp (__CPUELT __cpu);
    Ok (negb (Z.land w (__CPUMASK __cpu) =? 0))
  else Ok false.

(** The loop of __CPU_EQUAL_S: where it stopped. *)
Fixpoint equal_loop (n : nat) (i : Z) (m : sets) (p1 p2 : nat) : res Z :=
  match n with
  | O => Ok i
  | S n => a ← rd m p1 i; b ← rd m p2 i; if a =? b then equal_loop n (i + 1) m p1 p2 else Ok i
  end.

(** memcmp() of [setsize] bytes gives 0. *)
Definition memcmp_zero (setsize : Z) (m : sets) (p1 p2 : nat) : res bool :=
  let __imax := setsize / sizeof_cpu_mask in
  i ← equal_loop (Z.to_nat __imax) 0 m p1 p2;
  let k := setsize mod sizeof_cpu_mask in
  if i <? __imax then Ok false
  else if k =? 0 then Ok true
  else a ← rd m p1 __imax; b ← rd m p2 __imax; Ok (Z.land a (low_bytes k) =? Z.land b (low_bytes k)).

Definition __CPU_EQUAL_S (builtin : bool) (setsize : Z) (m : sets) (cpusetp1 cpusetp2 : nat) : res bool :=
  if builtin then memcmp_zero setsize m cpusetp1 cpusetp2
  else
    let __imax := setsize / sizeof_cpu_mask in
    i ← equal_loop (Z.to_nat __imax) 0 m cpusetp1 cpusetp2; Ok (i =? __imax).

Fixpoint op_loop (n : nat) (i : Z) (op : Z -> Z -> Z) (m : sets) (dest src1 src2 : nat) : res sets :=
  match n with
  | O => Ok m
  | S n =>
      a ← rd m src1 i; b ← rd m src2 i;
      m ← wr m dest i (op a b);
      op_loop n (i + 1) op m dest src1 src2
  end.

Definition __CPU_OP_S (setsize : Z) (m : sets) (destset srcset1 srcset2 : nat) (op : Z -> Z -> Z) : res sets :=
  op_loop (Z.to_nat (setsize / sizeof_cpu_mask)) 0 op m destset srcset1 srcset2.

Definition __CPU_ALLOC_SIZE (count : Z) : Z := u64 (u64 (count + __NCPUBITS - 1) / __NCPUBITS * sizeof_cpu_mask).

(** sched.h: the same for a cpu_set_t, and the three operations. *)
Definition CPU_SET (cpu : Z) := __CPU_SET_S cpu sizeof_cpu_set_t.
Definition CPU_CLR (cpu : Z) := __CPU_CLR_S cpu sizeof_cpu_set_t.
Definition CPU_ISSET (cpu : Z) := __CPU_ISSET_S cpu sizeof_cpu_set_t.
Definition CPU_ZERO (builtin : bool) := __CPU_ZERO_S builtin sizeof_cpu_set_t.
Definition CPU_EQUAL (builtin : bool) := __CPU_EQUAL_S builtin sizeof_cpu_set_t.
Definition CPU_AND_S (setsize : Z) (m : sets) (d s1 s2 : nat) := __CPU_OP_S setsize m d s1 s2 Z.land.
Definition CPU_OR_S (setsize : Z) (m : sets) (d s1 s2 : nat) := __CPU_OP_S setsize m d s1 s2 Z.lor.
Definition CPU_XOR_S (setsize : Z) (m : sets) (d s1 s2 : nat) := __CPU_OP_S setsize m d s1 s2 Z.lxor.
Definition CPU_AND := CPU_AND_S sizeof_cpu_set_t.
Definition CPU_OR := CPU_OR_S sizeof_cpu_set_t.
Definition CPU_XOR := CPU_XOR_S sizeof_cpu_set_t.

(** ** Descriptor sets: masks of type long *)

Definition __FD_SETSIZE : Z := 1024.
Definition __NFDBITS : Z := 8 * 8.
Definition __FD_ELT (d : Z) : Z := Z.quot d __NFDBITS.

(** A shift by a negative number is undefined. *)
Definition __FD_MASK (d : Z) : res Z :=
  if Z.rem d __NFDBITS <? 0 then Fault BadShift else Ok (s64 (u64 (Z.shiftl 1 (Z.rem d __NFDBITS)))).

Definition __FD_ZERO (m : sets) (s : nat) : res sets := zero_loop (Z.to_nat (__FD_SETSIZE / __NFDBITS)) 0 m s.

Definition __FD_SET (d : Z) (m : sets) (s : nat) : res sets :=
  mask ← __FD_MASK d; w ← rd m s (__FD_ELT d); wr m s (__FD_ELT d) (Z.lor w mask).

Definition __FD_CLR (d : Z) (m : sets) (s : nat) : res sets :=
  mask ← __FD_MASK d; w ← rd m s (__FD_ELT d); wr m s (__FD_ELT d) (Z.land w (Z.lnot mask)).

Definition __FD_ISSET (d : Z) (m : sets) (s : nat) : res bool :=
  mask ← __FD_MASK d; w ← rd m s (__FD_ELT d); Ok (negb (Z.land w mask =? 0)).

(** ** The sets they stand for *)

Definition member (bits : list Z) (i : Z) : bool :=
  (0 <=? i) && Z.testbit (default 0 (bits !! Z.to_nat (i / 64))) (i mod 64).

(** An array of [n] masks, each in the range of its type, that holds [X]. *)
Definition holds (range : Z -> Prop) (n : nat) (bits : list Z) (X : gset Z) : Prop :=
  length bits = n /\ Forall range bits /\ forall i, i ∈ X <-> member bits i = true.

Definition unsigned64 (w : Z) : Prop := 0 <= w < 2 ^ 64.
Definition signed64 (w : Z) : Prop := - 2 ^ 63 <= w < 2 ^ 63.

Definition store_holds (range : Z -> Prop) (n : nat) : sets -> gmap nat (gset Z) -> Prop :=
  map_Forall2 (fun _ => holds range n).
