(* ===== verification/BitSetFacts.v ===== *)
(** * Sets of bits: facts

    What the loops do to the arrays, and what masks do to the members. *)

From stdpp Require Import base numbers gmap list.
From S2P Require Import Prelude BitSets.

#[local] Open Scope Z_scope.

(** ** Arrays *)

Lemma rd_ok m p bits i w : m !! p = Some bits -> 0 <= i -> bits !! Z.to_nat i = Some w -> rd m p i = Ok w.
Proof. intros Hp Hi Hw. unfold rd. rewrite Hp. cbn. rewrite (proj2 (Z.leb_le 0 i)) by lia. by rewrite Hw. Qed.

Lemma wr_ok m p bits i v : m !! p = Some bits -> 0 <= i < Z.of_nat (length bits) ->
  wr m p i v = Ok (<[p := <[Z.to_nat i := v]> bits]> m).
Proof.
  intros Hp Hi. unfold wr. rewrite Hp. cbn.
  by rewrite (proj2 (Z.leb_le 0 i)), (proj2 (Z.ltb_lt i _)) by lia.
Qed.

Lemma rd_outside m p bits i : m !! p = Some bits -> i < 0 \/ Z.of_nat (length bits) <= i -> rd m p i = Fault OutOfBounds.
Proof.
  intros Hp Hi. unfold rd. rewrite Hp. cbn. destruct (Z.leb_spec 0 i); [|done].
  rewrite lookup_ge_None_2 by lia. done.
Qed.

(** An array whose first [i] masks are new. *)
Definition partly (i : nat) (new old : list Z) : list Z := take i new ++ drop i old.

Lemma length_partly i new old : length new = length old -> length (partly i new old) = length old.
Proof. intros. unfold partly. rewrite length_app, length_take, length_drop. lia. Qed.

Lemma partly_next i new old v : length new = length old -> new !! i = Some v ->
  <[i := v]> (partly i new old) = partly (S i) new old.
Proof.
  intros Hl Hv. unfold partly. pose proof (lookup_lt_Some _ _ _ Hv) as Hi.
  rewrite insert_app_r_alt by (rewrite length_take; lia). rewrite length_take, Nat.min_l, Nat.sub_diag by lia.
  rewrite (take_S_r _ _ _ Hv), <- app_assoc. f_equal.
  destruct (lookup_lt_is_Some_2 old i ltac:(lia)) as [w Hw]. by rewrite (drop_S _ _ _ Hw).
Qed.

Lemma partly_lookup i new old : (i < length new)%nat -> partly i new old !! i = old !! i.
Proof.
  intros Hi. unfold partly. rewrite lookup_app_r by (rewrite length_take; lia).
  rewrite length_take, Nat.min_l, Nat.sub_diag, lookup_drop by lia. f_equal. lia.
Qed.

Lemma partly_all new old : length new = length old -> partly (length old) new old = new.
Proof. intros Hl. unfold partly. rewrite take_ge, drop_ge, app_nil_r by lia. done. Qed.

(** The loop that clears. *)
Lemma zero_loop_ok m p bits : m !! p = Some bits -> forall k i, (i + k = length bits)%nat ->
  zero_loop k (Z.of_nat i) (<[p := partly i (replicate (length bits) 0) bits]> m) p
  = Ok (<[p := replicate (length bits) 0]> m).
Proof.
  intros Hp k. induction k as [|k IH]; intros i Hi; cbn [zero_loop].
  - replace i with (length bits) by lia. by rewrite partly_all by apply length_replicate.
  - rewrite (wr_ok _ _ (partly i (replicate (length bits) 0) bits)), bind_ok; [|apply lookup_insert_eq|].
    2: rewrite length_partly by apply length_replicate; lia.
    rewrite insert_insert_eq, Nat2Z.id, partly_next; [|apply length_replicate | apply lookup_replicate_2; lia].
    replace (Z.of_nat i + 1) with (Z.of_nat (S i)) by lia. apply IH. lia.
Qed.

(** The loop of an operation; the destination may be one of the sources. *)
Lemma op_loop_ok op m d s1 s2 bd b1 b2 : m !! d = Some bd -> m !! s1 = Some b1 -> m !! s2 = Some b2 ->
  length b1 = length bd -> length b2 = length bd -> forall k i, (i + k = length bd)%nat ->
  op_loop k (Z.of_nat i) op (<[d := partly i (zip_with op b1 b2) bd]> m) d s1 s2
  = Ok (<[d := zip_with op b1 b2]> m).
Proof.
  intros Hd Hs1 Hs2 L1 L2 k. set (new := zip_with op b1 b2).
  assert (Hn : length new = length bd) by (unfold new; rewrite length_zip_with; lia).
  induction k as [|k IH]; intros i Hi; cbn [op_loop].
  - replace i with (length bd) by lia. by rewrite partly_all.
  - assert (Hrd : forall s b, m !! s = Some b -> length b = length bd -> exists w, b !! i = Some w /\
      rd (<[d := partly i new bd]> m) s (Z.of_nat i) = Ok w).
    { intros s b Hs Hb. destruct (lookup_lt_is_Some_2 b i ltac:(lia)) as [w Hw]. exists w. split; [done|].
      destruct (decide (s = d)) as [->|Hne].
      - rewrite Hd in Hs. injection Hs as <-. eapply rd_ok; [apply lookup_insert_eq|lia|].
        rewrite Nat2Z.id, partly_lookup by lia. done.
      - eapply rd_ok; [rewrite lookup_insert_ne by done; exact Hs|lia|]. by rewrite Nat2Z.id. }
    destruct (Hrd s1 b1 Hs1 L1) as (w1 & H1 & ->). destruct (Hrd s2 b2 Hs2 L2) as (w2 & H2 & ->). rewrite !bind_ok.
    rewrite (wr_ok _ _ (partly i new bd)), bind_ok; [|apply lookup_insert_eq | rewrite length_partly by done; lia].
    rewrite insert_insert_eq, Nat2Z.id, partly_next; [|done | unfold new; by rewrite lookup_zip_with, H1, H2].
    replace (Z.of_nat i + 1) with (Z.of_nat (S i)) by lia. apply IH. lia.
Qed.

(** The loop that compares. *)
Lemma equal_loop_ok m p1 p2 b1 b2 : m !! p1 = Some b1 -> m !! p2 = Some b2 -> length b1 = length b2 ->
  forall k i, (i + k = length b1)%nat -> exists j, equal_loop k (Z.of_nat i) m p1 p2 = Ok (Z.of_nat j) /\
    (j <= length b1)%nat /\ (j = length b1 <-> drop i b1 = drop i b2).
Proof.
  intros H1 H2 Hl k. induction k as [|k IH]; intros i Hi; cbn [equal_loop].
  - exists i. split; [done|]. split; [lia|]. split; [|lia]. intros _. by rewrite !drop_ge by lia.
  - destruct (lookup_lt_is_Some_2 b1 i ltac:(lia)) as [w1 W1]. destruct (lookup_lt_is_Some_2 b2 i ltac:(lia)) as [w2 W2].
    rewrite (rd_ok m p1 b1 _ w1), (rd_ok m p2 b2 _ w2), !bind_ok by (done || lia || by rewrite Nat2Z.id).
    rewrite (drop_S _ _ _ W1), (drop_S _ _ _ W2). destruct (Z.eqb_spec w1 w2) as [->|Hne].
    + replace (Z.of_nat i + 1) with (Z.of_nat (S i)) by lia. destruct (IH (S i) ltac:(lia)) as (j & -> & Hj & Hjj).
      exists j. split; [done|]. split; [done|]. rewrite Hjj. split; congruence.
    + exists i. split; [done|]. split; [lia|]. split; [lia|]. intros [=]. congruence.
Qed.

(** ** Members *)

Lemma member_insert bits c v i : 0 <= c -> (Z.to_nat (c / 64) < length bits)%nat ->
  member (<[Z.to_nat (c / 64) := v]> bits) i
  = if decide (i / 64 = c / 64) then (0 <=? i) && Z.testbit v (i mod 64) else member bits i.
Proof.
  intros Hc Hl. unfold member. destruct (Z.leb_spec 0 i) as [Hi|Hi]; [|by case_decide].
  assert (0 <= c / 64) by (by apply Z.div_pos). assert (0 <= i / 64) by (by apply Z.div_pos).
  case_decide as E; cbn [andb].
  - rewrite E, list_lookup_insert_eq by lia. done.
  - rewrite list_lookup_insert_ne by lia. done.
Qed.

(** Setting and clearing the bit of [c] in its mask. *)
Lemma member_set bits c i w mask : 0 <= c -> bits !! Z.to_nat (c / 64) = Some w ->
  (forall j, 0 <= j < 64 -> Z.testbit mask j = (j =? c mod 64)) ->
  member (<[Z.to_nat (c / 64) := Z.lor w mask]> bits) i = (bool_decide (i = c) || member bits i).
Proof.
  intros Hc Hw Hmask. pose proof (lookup_lt_Some _ _ _ Hw). rewrite member_insert by lia.
  pose proof (Z.mod_pos_bound i 64 ltac:(lia)).
  pose proof (Z.div_mod i 64 ltac:(lia)). pose proof (Z.div_mod c 64 ltac:(lia)). case_decide as E.
  - unfold member. rewrite E, Hw. cbn [default id]. rewrite Z.lor_spec, Hmask by lia.
    destruct (Z.leb_spec 0 i); cbn [andb]; [|rewrite bool_decide_eq_false_2 by lia; done].
    case_bool_decide; destruct (Z.eqb_spec (i mod 64) (c mod 64)); try lia; by destruct (Z.testbit _ _).
  - rewrite bool_decide_eq_false_2 by congruence. done.
Qed.

Lemma member_clear bits c i w mask : 0 <= c -> bits !! Z.to_nat (c / 64) = Some w ->
  (forall j, 0 <= j < 64 -> Z.testbit mask j = negb (j =? c mod 64)) ->
  member (<[Z.to_nat (c / 64) := Z.land w mask]> bits) i = (bool_decide (i <> c) && member bits i).
Proof.
  intros Hc Hw Hmask. pose proof (lookup_lt_Some _ _ _ Hw). rewrite member_insert by lia.
  pose proof (Z.mod_pos_bound i 64 ltac:(lia)).
  pose proof (Z.div_mod i 64 ltac:(lia)). pose proof (Z.div_mod c 64 ltac:(lia)). case_decide as E.
  - unfold member. rewrite E, Hw. cbn [default id]. rewrite Z.land_spec, Hmask by lia.
    destruct (Z.leb_spec 0 i); cbn [andb]; [|by rewrite andb_false_r].
    case_bool_decide; destruct (Z.eqb_spec (i mod 64) (c mod 64)); try lia; by destruct (Z.testbit _ _).
  - rewrite bool_decide_eq_true_2 by congruence. done.
Qed.

Lemma member_outside bits i : i < 0 \/ 64 * Z.of_nat (length bits) <= i -> member bits i = false.
Proof.
  intros Hi. unfold member. destruct (Z.leb_spec 0 i); [|done]. cbn [andb].
  rewrite lookup_ge_None_2; [by rewrite Z.testbit_0_l|]. pose proof (Z.div_le_lower_bound i 64 (Z.of_nat (length bits))). lia.
Qed.

Lemma member_zero n i : member (replicate n 0) i = false.
Proof.
  unfold member. destruct (replicate n 0 !! _) as [w|] eqn:E; cbn [default id].
  - apply lookup_replicate in E as [-> _]. by rewrite Z.testbit_0_l, andb_false_r.
  - by rewrite Z.testbit_0_l, andb_false_r.
Qed.

(** The bit of [c] in its mask. *)
Lemma member_test bits c w mask : 0 <= c -> bits !! Z.to_nat (c / 64) = Some w ->
  (forall j, 0 <= j < 64 -> Z.testbit mask j = (j =? c mod 64)) ->
  (forall j, 64 <= j -> Z.testbit w j && Z.testbit mask j = true -> Z.testbit w 63 && Z.testbit mask 63 = true) ->
  negb (Z.land w mask =? 0) = member bits c.
Proof.
  intros Hc Hw Hmask Hhigh. unfold member. rewrite Hw, (proj2 (Z.leb_le 0 c)) by lia. cbn [default id andb].
  pose proof (Z.mod_pos_bound c 64 ltac:(lia)). destruct (Z.testbit w (c mod 64)) eqn:E.
  - destruct (Z.eqb_spec (Z.land w mask) 0) as [H0|]; [|done]. exfalso.
    apply (f_equal (fun z => Z.testbit z (c mod 64))) in H0.
    rewrite Z.land_spec, E, Hmask, Z.eqb_refl, Z.testbit_0_l in H0 by lia. done.
  - rewrite (proj2 (Z.eqb_eq _ _)); [done|].
    assert (Hlow : forall j, 0 <= j < 64 -> Z.testbit w j && Z.testbit mask j = false).
    { intros j Hj. rewrite Hmask by lia. destruct (Z.eqb_spec j (c mod 64)) as [->|]; [by rewrite E | by rewrite andb_false_r]. }
    apply Z.bits_inj'. intros j Hj. rewrite Z.land_spec, Z.testbit_0_l.
    destruct (Z.lt_ge_cases j 64); [by apply Hlow|]. apply not_true_is_false. intros Ht.
    apply Hhigh in Ht; [|lia]. by rewrite Hlow in Ht by lia.
Qed.

(** Operations on masks act on the members. *)
Lemma member_zip op f b1 b2 i : length b1 = length b2 ->
  (forall x y j, 0 <= j -> Z.testbit (op x y) j = f (Z.testbit x j) (Z.testbit y j)) -> f false false = false ->
  member (zip_with op b1 b2) i = f (member b1 i) (member b2 i).
Proof.
  intros Hl Hop Hf. unfold member. destruct (Z.leb_spec 0 i); cbn [andb]; [|done]. rewrite lookup_zip_with.
  pose proof (Z.mod_pos_bound i 64 ltac:(lia)).
  destruct (b1 !! Z.to_nat (i / 64)) as [x|] eqn:E1.
  - destruct (lookup_lt_is_Some_2 b2 (Z.to_nat (i / 64))) as [y Hy].
    { rewrite <- Hl. by eapply lookup_lt_Some. }
    rewrite Hy. cbn. apply Hop. lia.
  - assert (E2 : b2 !! Z.to_nat (i / 64) = None) by (apply lookup_ge_None; apply lookup_ge_None in E1; lia).
    rewrite E2. cbn. by rewrite Z.testbit_0_l.
Qed.

Lemma above_pow2 w k j : 0 <= w < 2 ^ k -> k <= j -> Z.testbit w j = false.
Proof.
  intros Hw Hj. destruct (Z.eq_dec w 0) as [->|]; [apply Z.testbit_0_l|].
  assert (0 <= k) by (apply Z.nlt_ge; intros ?; rewrite Z.pow_neg_r in Hw; lia).
  apply Z.bits_above_log2; [lia|]. apply Z.log2_lt_pow2; [lia|].
  apply (Z.lt_le_trans _ (2 ^ k)); [lia|]. apply Z.pow_le_mono_r; lia.
Qed.

(** Arrays of masks in range are determined by their members. *)
Lemma member_inj b1 b2 : length b1 = length b2 -> Forall unsigned64 b1 -> Forall unsigned64 b2 ->
  (forall i, member b1 i = member b2 i) -> b1 = b2.
Proof.
  intros Hl R1 R2 Hm. apply list_eq. intros k. destruct (b1 !! k) as [x|] eqn:E1.
  - destruct (lookup_lt_is_Some_2 b2 k) as [y Hy]; [rewrite <- Hl; by eapply lookup_lt_Some|]. rewrite Hy. f_equal.
    apply Z.bits_inj'. intros j Hj. destruct (Z.lt_ge_cases j 64) as [Hlt|Hge].
    + specialize (Hm (64 * Z.of_nat k + j)). unfold member in Hm.
      rewrite (proj2 (Z.leb_le _ _)) in Hm by lia. cbn [andb] in Hm.
      replace ((64 * Z.of_nat k + j) / 64) with (Z.of_nat k) in Hm
        by (rewrite Z.mul_comm, Z.div_add_l, Z.div_small; lia).
      replace ((64 * Z.of_nat k + j) mod 64) with j in Hm
        by (rewrite Z.add_comm, Z.mul_comm, Z.mod_add, Z.mod_small; lia).
      by rewrite Nat2Z.id, E1, Hy in Hm.
    + rewrite Forall_lookup in R1. rewrite Forall_lookup in R2. unfold unsigned64 in *. rewrite (above_pow2 x 64), (above_pow2 y 64); eauto.
  - symmetry. apply lookup_ge_None. apply lookup_ge_None in E1. lia.
Qed.

(** ** Ranges *)

Lemma below_pow2 w k : 0 <= k -> 0 <= w -> (forall j, k <= j -> Z.testbit w j = false) -> w < 2 ^ k.
Proof.
  intros Hk Hw Hb. destruct (Z.lt_ge_cases w (2 ^ k)) as [|Hge]; [done|exfalso].
  assert (0 < w) by (pose proof (Z.pow_pos_nonneg 2 k); lia).
  pose proof (Z.bit_log2 w ltac:(lia)) as Hl. rewrite Hb in Hl; [done|]. by apply Z.log2_le_pow2.
Qed.

(** A bitwise operation that takes false and false to false stays in range. *)
Lemma unsigned64_bits op f x y : unsigned64 x -> unsigned64 y -> f false false = false -> 0 <= op x y ->
  (forall j, 0 <= j -> Z.testbit (op x y) j = f (Z.testbit x j) (Z.testbit y j)) -> unsigned64 (op x y).
Proof.
  intros Hx Hy Hf H0 Hop. split; [done|]. apply below_pow2; [lia|done|]. intros j Hj.
  by rewrite Hop, !(above_pow2 _ 64) by (done || lia).
Qed.

(** A signed word repeats its sign bit. *)
Lemma signed64_iff w : signed64 w <-> forall j, 63 <= j -> Z.testbit w j = Z.testbit w 63.
Proof.
  split.
  - intros [Hl Hu] j Hj. destruct (Z.lt_ge_cases w 0).
    + assert (Hn : forall i, 63 <= i -> Z.testbit w i = true); [|by rewrite !Hn by lia].
      intros i Hi. apply negb_false_iff. rewrite <- Z.lnot_spec by lia.
      apply (above_pow2 _ 63); [unfold Z.lnot|]; lia.
    + by rewrite !(above_pow2 w 63) by lia.
  - intros Hb. destruct (Z.testbit w 63) eqn:E.
    + assert (w < 0) by (apply Z.bits_iff_neg_ex; exists 62; intros; apply Hb; lia).
      assert (Z.lnot w < 2 ^ 63); [|unfold signed64, Z.lnot in *; lia].
      apply below_pow2; [lia|unfold Z.lnot; lia|]. intros j Hj. rewrite Z.lnot_spec, Hb by lia. done.
    + assert (0 <= w) by (apply Z.bits_iff_nonneg_ex; exists 62; intros; apply Hb; lia).
      split; [lia|]. by apply below_pow2.
Qed.

Lemma signed64_lor x y : signed64 x -> signed64 y -> signed64 (Z.lor x y).
Proof. rewrite !signed64_iff. intros Hx Hy j Hj. by rewrite !Z.lor_spec, Hx, Hy. Qed.

Lemma signed64_land_not x y : signed64 x -> signed64 y -> signed64 (Z.land x (Z.lnot y)).
Proof. rewrite !signed64_iff. intros Hx Hy j Hj. by rewrite !Z.land_spec, !Z.lnot_spec, Hx, Hy by lia. Qed.
