(* ===== verification/BitSetProps.v ===== *)
(** * Properties of sets of bits

    Programs of CPU set and descriptor set macros, the programs on finite
    sets they stand for, and that the first refine the second. *)

From stdpp Require Import base numbers gmap list.
From S2P Require Import Prelude BitSets BitSetFacts.

#[local] Open Scope Z_scope.

(** A sequence of operations. *)
Fixpoint each {O : Type} (f : sets -> O -> res sets) (m : sets) (os : list O) : res sets :=
  match os with [] => Ok m | o :: os => m ← f m o; each f m os end.

(** ** CPU sets *)

Inductive cpu_op : Set :=
| Zero (p : nat)
| SetCpu (cpu : Z) (p : nat)
| ClrCpu (cpu : Z) (p : nat)
| And (d s1 s2 : nat)
| Or (d s1 s2 : nat)
| Xor (d s1 s2 : nat).

Definition exec (builtin : bool) (setsize : Z) (m : sets) (o : cpu_op) : res sets :=
  match o with
  | Zero p => __CPU_ZERO_S builtin setsize m p
  | SetCpu cpu p => '(_, m) ← __CPU_SET_S cpu setsize m p; Ok m
  | ClrCpu cpu p => '(_, m) ← __CPU_CLR_S cpu setsize m p; Ok m
  | And d s1 s2 => CPU_AND_S setsize m d s1 s2
  | Or d s1 s2 => CPU_OR_S setsize m d s1 s2
  | Xor d s1 s2 => CPU_XOR_S setsize m d s1 s2
  end.

(** The set variables an operation uses. *)
Definition uses (o : cpu_op) : list nat :=
  match o with Zero p | SetCpu _ p | ClrCpu _ p => [p] | And d s1 s2 | Or d s1 s2 | Xor d s1 s2 => [d; s1; s2] end.

Abbreviation vars := (gmap nat (gset Z)).

Definition val (A : vars) (p : nat) : gset Z := default ∅ (A !! p).

(** The same on finite sets; CPUs from [limit] on are not represented. *)
Definition step (limit : Z) (A : vars) (o : cpu_op) : vars :=
  match o with
  | Zero p => <[p := ∅]> A
  | SetCpu cpu p => if u64 cpu <? limit then <[p := {[u64 cpu]} ∪ val A p]> A else A
  | ClrCpu cpu p => if u64 cpu <? limit then <[p := val A p ∖ {[u64 cpu]}]> A else A
  | And d s1 s2 => <[d := val A s1 ∩ val A s2]> A
  | Or d s1 s2 => <[d := val A s1 ∪ val A s2]> A
  | Xor d s1 s2 => <[d := (val A s1 ∖ val A s2) ∪ (val A s2 ∖ val A s1)]> A
  end.

(** ** Facts *)

Lemma rep_lookup {range k m A p} : store_holds range k m A -> p ∈ dom A ->
  exists bits, m !! p = Some bits /\ holds range k bits (val A p).
Proof.
  intros Hr [X HX]%elem_of_dom. specialize (Hr p). rewrite HX in Hr. inversion Hr as [bits ? Hh Eb|]; subst.
  exists bits. split; [done|]. unfold val. by rewrite HX.
Qed.

Lemma rep_insert range k m A p bits X : store_holds range k m A -> holds range k bits X ->
  store_holds range k (<[p := bits]> m) (<[p := X]> A).
Proof. intros. by apply map_Forall2_insert_2. Qed.

Lemma zero_loop_sets m p bits : m !! p = Some bits ->
  zero_loop (length bits) 0 m p = Ok (<[p := replicate (length bits) 0]> m).
Proof.
  intros Hp. pose proof (zero_loop_ok m p bits Hp (length bits) 0 ltac:(lia)) as Hz.
  unfold partly in Hz. cbn [take drop app] in Hz. by rewrite (insert_id m p bits Hp) in Hz.
Qed.

Lemma holds_zero (range : Z -> Prop) n : range 0 -> holds range n (replicate n 0) ∅.
Proof.
  intros Hr. split; [apply length_replicate|]. split; [by apply Forall_replicate|].
  intros i. by rewrite member_zero, elem_of_empty.
Qed.

Section cpu.
Context (n : nat).
#[local] Abbreviation rep := (store_holds unsigned64 n).

Lemma setsize_words : Z.to_nat (8 * Z.of_nat n / sizeof_cpu_mask) = n.
Proof. unfold sizeof_cpu_mask. rewrite Z.mul_comm, Z.div_mul by lia. apply Nat2Z.id. Qed.

Lemma inside_iff c : (c / 8 <? 8 * Z.of_nat n) = (c <? 64 * Z.of_nat n).
Proof.
  apply eq_true_iff_eq. rewrite !Z.ltb_lt.
  pose proof (Z.div_mod c 8 ltac:(lia)). pose proof (Z.mod_pos_bound c 8 ltac:(lia)). lia.
Qed.

Lemma cpumask_shift c : __CPUMASK c = Z.shiftl 1 (c mod 64).
Proof.
  unfold __CPUMASK. change __NCPUBITS with 64. pose proof (Z.mod_pos_bound c 64 ltac:(lia)).
  rewrite Z.shiftl_1_l. apply u64_small. split; [apply Z.pow_nonneg; lia | apply Z.pow_lt_mono_r; lia].
Qed.

Lemma cpumask_bits c j : 0 <= j -> Z.testbit (__CPUMASK c) j = (j =? c mod 64).
Proof.
  intros Hj. pose proof (Z.mod_pos_bound c 64 ltac:(lia)).
  rewrite cpumask_shift, Z.shiftl_1_l, Z.pow2_bits_eqb by lia. apply Z.eqb_sym.
Qed.

Lemma cpumask_range c : unsigned64 (__CPUMASK c).
Proof. apply Z.mod_pos_bound. lia. Qed.

Lemma not_cpumask_bits c j : 0 <= j < 64 -> Z.testbit (u64 (Z.lnot (__CPUMASK c))) j = negb (j =? c mod 64).
Proof. intros Hj. unfold u64. by rewrite Z.mod_pow2_bits_low, Z.lnot_spec, cpumask_bits by lia. Qed.

(** The mask of a CPU within the size. *)
Lemma mask_there (bits : list Z) c : length bits = n -> 0 <= c < 64 * Z.of_nat n ->
  exists w, bits !! Z.to_nat (c / 64) = Some w /\ 0 <= c / 64 < Z.of_nat (length bits).
Proof.
  intros Hl Hc. assert (0 <= c / 64 < Z.of_nat n) by (split; [apply Z.div_pos; lia | apply Z.div_lt_upper_bound; lia]).
  destruct (lookup_lt_is_Some_2 bits (Z.to_nat (c / 64)) ltac:(lia)) as [w Hw]. exists w. split; [done|lia].
Qed.

Lemma holds_set (bits : list Z) c w X : holds unsigned64 n bits X -> 0 <= c -> bits !! Z.to_nat (c / 64) = Some w ->
  holds unsigned64 n (<[Z.to_nat (c / 64) := Z.lor w (__CPUMASK c)]> bits) ({[c]} ∪ X).
Proof.
  intros (Hl & Hr & Hx) Hc Hw. pose proof (proj1 (Forall_lookup _ _) Hr _ _ Hw) as Hrw. split; [by rewrite length_insert|]. split.
  - apply Forall_insert; [done|]. apply (unsigned64_bits Z.lor orb); [done|apply cpumask_range|done| |intros; apply Z.lor_spec].
    apply Z.lor_nonneg. split; [apply Hrw | apply cpumask_range].
  - intros i. rewrite (member_set bits c i w), elem_of_union, elem_of_singleton, Hx, orb_true_iff, bool_decide_eq_true; [done..|].
    intros j Hj. apply cpumask_bits. lia.
Qed.

Lemma holds_clr bits c w X : holds unsigned64 n bits X -> 0 <= c -> bits !! Z.to_nat (c / 64) = Some w ->
  holds unsigned64 n (<[Z.to_nat (c / 64) := Z.land w (u64 (Z.lnot (__CPUMASK c)))]> bits) (X ∖ {[c]}).
Proof.
  intros (Hl & Hr & Hx) Hc Hw. pose proof (proj1 (Forall_lookup _ _) Hr _ _ Hw) as Hrw. split; [by rewrite length_insert|]. split.
  - apply Forall_insert; [done|]. apply (unsigned64_bits Z.land andb); [done|apply u64_range|done| |intros; apply Z.land_spec].
    apply Z.land_nonneg. left. apply Hrw.
  - intros i. rewrite (member_clear bits c i w), elem_of_difference, elem_of_singleton, Hx, andb_true_iff, bool_decide_eq_true; [naive_solver|done..|].
    intros j Hj. by apply not_cpumask_bits.
Qed.

Lemma holds_zip op f b1 b2 X1 X2 X : holds unsigned64 n b1 X1 -> holds unsigned64 n b2 X2 -> f false false = false ->
  (forall x y j, 0 <= j -> Z.testbit (op x y) j = f (Z.testbit x j) (Z.testbit y j)) ->
  (forall x y, 0 <= x -> 0 <= y -> 0 <= op x y) ->
  (forall i, i ∈ X <-> f (bool_decide (i ∈ X1)) (bool_decide (i ∈ X2)) = true) ->
  holds unsigned64 n (zip_with op b1 b2) X.
Proof.
  intros (L1 & R1 & M1) (L2 & R2 & M2) Hf Hop Hpos HX. split; [rewrite length_zip_with; lia|]. split.
  - apply Forall_lookup. intros k v Hv. apply lookup_zip_with_Some in Hv as (x & y & -> & Hx & Hy).
    rewrite Forall_lookup in R1. rewrite Forall_lookup in R2.
    apply (unsigned64_bits op f); [by eauto..|done| |by auto]. apply Hpos; [apply (R1 k x Hx) | apply (R2 k y Hy)].
  - intros i. rewrite (member_zip op f) by (done || lia). rewrite HX.
    replace (bool_decide (i ∈ X1)) with (member b1 i); [replace (bool_decide (i ∈ X2)) with (member b2 i); [done|]|];
      apply eq_true_iff_eq; rewrite bool_decide_eq_true; symmetry; [apply M2 | apply M1].
Qed.

Lemma zero_ok builtin m p bits : m !! p = Some bits -> length bits = n ->
  __CPU_ZERO_S builtin (8 * Z.of_nat n) m p = Ok (<[p := replicate n 0]> m).
Proof.
  intros Hp Hl. unfold __CPU_ZERO_S, memset_zero. rewrite setsize_words, <- Hl, (zero_loop_sets m p bits) by done.
  destruct builtin; [|done]. rewrite bind_ok. unfold sizeof_cpu_mask.
  by rewrite (Z.mul_comm 8), Z.mod_mul by lia.
Qed.

Lemma op_ok op m A d s1 s2 X : rep m A -> {[d; s1; s2]} ⊆ dom A ->
  (forall b1 b2, holds unsigned64 n b1 (val A s1) -> holds unsigned64 n b2 (val A s2) -> holds unsigned64 n (zip_with op b1 b2) X) ->
  exists m', __CPU_OP_S (8 * Z.of_nat n) m d s1 s2 op = Ok m' /\ rep m' (<[d := X]> A).
Proof.
  intros Hr Hd HX.
  destruct (rep_lookup (p := d) Hr ltac:(set_solver)) as (bd & Ed & Hbd). destruct (rep_lookup (p := s1) Hr ltac:(set_solver)) as (b1 & E1 & H1).
  destruct (rep_lookup (p := s2) Hr ltac:(set_solver)) as (b2 & E2 & H2).
  destruct (Hbd) as (Ld & _). destruct (H1) as (L1 & _). destruct (H2) as (L2 & _).
  pose proof (op_loop_ok op m d s1 s2 bd b1 b2 Ed E1 E2 ltac:(lia) ltac:(lia) n 0 ltac:(lia)) as Hl.
  unfold partly in Hl. cbn [take drop app] in Hl. rewrite (insert_id m d bd Ed) in Hl.
  eexists. split; [unfold __CPU_OP_S; rewrite setsize_words; exact Hl|]. apply rep_insert; auto.
Qed.

Lemma step_ok builtin m A o : rep m A -> Forall (.∈ dom A) (uses o) ->
  exists m', exec builtin (8 * Z.of_nat n) m o = Ok m' /\ rep m' (step (64 * Z.of_nat n) A o).
Proof.
  intros Hr Hu. destruct o as [p|cpu p|cpu p|d s1 s2|d s1 s2|d s1 s2]; cbn [uses exec step] in *.
  - rewrite Forall_singleton in Hu. destruct (rep_lookup Hr Hu) as (bits & Hp & Hh).
    eexists. split; [by apply (zero_ok builtin m p bits), Hh|]. apply rep_insert; [done|]. by apply holds_zero.
  - rewrite Forall_singleton in Hu. destruct (rep_lookup Hr Hu) as (bits & Hp & Hh).
    unfold __CPU_SET_S. rewrite inside_iff. destruct (Z.ltb_spec (u64 cpu) (64 * Z.of_nat n)) as [Hlt|]; [|by exists m].
    pose proof (u64_range cpu). destruct (mask_there bits (u64 cpu) (proj1 Hh) ltac:(lia)) as (w & Hw & Hi).
    unfold __CPUELT. change __NCPUBITS with 64. rewrite (rd_ok m p bits _ w), bind_ok, (wr_ok m p bits) by (done || lia).
    eexists. split; [done|]. apply rep_insert; [done|]. apply holds_set; [done|lia|done].
  - rewrite Forall_singleton in Hu. destruct (rep_lookup Hr Hu) as (bits & Hp & Hh).
    unfold __CPU_CLR_S. rewrite inside_iff. destruct (Z.ltb_spec (u64 cpu) (64 * Z.of_nat n)) as [Hlt|]; [|by exists m].
    pose proof (u64_range cpu). destruct (mask_there bits (u64 cpu) (proj1 Hh) ltac:(lia)) as (w & Hw & Hi).
    unfold __CPUELT. change __NCPUBITS with 64. rewrite (rd_ok m p bits _ w), bind_ok, (wr_ok m p bits) by (done || lia).
    eexists. split; [done|]. apply rep_insert; [done|]. apply holds_clr; [done|lia|done].
  - rewrite !Forall_cons in Hu. apply op_ok; [done|set_solver|]. intros b1 b2 H1 H2. apply (holds_zip Z.land andb b1 b2 _ _ _ H1 H2); [done|..].
    + intros. apply Z.land_spec.
    + intros. apply Z.land_nonneg. auto.
    + intros i. rewrite andb_true_iff, !bool_decide_eq_true. set_solver.
  - rewrite !Forall_cons in Hu. apply op_ok; [done|set_solver|]. intros b1 b2 H1 H2. apply (holds_zip Z.lor orb b1 b2 _ _ _ H1 H2); [done|..].
    + intros. apply Z.lor_spec.
    + intros. by apply Z.lor_nonneg.
    + intros i. rewrite orb_true_iff, !bool_decide_eq_true. set_solver.
  - rewrite !Forall_cons in Hu. apply op_ok; [done|set_solver|]. intros b1 b2 H1 H2. apply (holds_zip Z.lxor xorb b1 b2 _ _ _ H1 H2); [done|..].
    + intros. apply Z.lxor_spec.
    + intros. by apply Z.lxor_nonneg.
    + intros i. do 2 case_bool_decide; set_solver.
Qed.

Lemma step_dom A o : Forall (.∈ dom A) (uses o) -> dom (step (64 * Z.of_nat n) A o) = dom A.
Proof.
  destruct o; cbn [uses step]; rewrite ?Forall_cons; intros; try case_match; rewrite ?dom_insert_L; set_solver.
Qed.

Lemma steps_ok builtin os : forall m A, rep m A -> Forall (fun o => Forall (.∈ dom A) (uses o)) os ->
  exists m', each (exec builtin (8 * Z.of_nat n)) m os = Ok m' /\ rep m' (foldl (step (64 * Z.of_nat n)) A os) /\
    dom (foldl (step (64 * Z.of_nat n)) A os) = dom A.
Proof.
  induction os as [|o os IH]; intros m A Hr Hu; cbn [each foldl]; [by exists m|].
  apply Forall_cons in Hu as [Ho Hu]. destruct (step_ok builtin m A o Hr Ho) as (m1 & -> & Hr1). rewrite bind_ok.
  pose proof (step_dom A o Ho) as Hd. rewrite <- Hd in Hu. destruct (IH m1 _ Hr1 Hu) as (m2 & -> & Hr2 & Hd2).
  exists m2. split; [done|]. split; [done|]. by rewrite Hd2.
Qed.

(** The tests. *)
Lemma isset_ok m A cpu p : rep m A -> p ∈ dom A ->
  __CPU_ISSET_S cpu (8 * Z.of_nat n) m p = Ok (bool_decide (u64 cpu ∈ val A p)).
Proof.
  intros Hr Hp. destruct (rep_lookup Hr Hp) as (bits & Eb & Hh). pose proof (u64_range cpu) as Hc.
  assert (Hm : member bits (u64 cpu) = bool_decide (u64 cpu ∈ val A p)).
  { apply eq_true_iff_eq. rewrite bool_decide_eq_true. symmetry. apply Hh. }
  unfold __CPU_ISSET_S. rewrite inside_iff, <- Hm. destruct (Z.ltb_spec (u64 cpu) (64 * Z.of_nat n)) as [Hlt|Hge].
  - destruct (mask_there bits (u64 cpu) (proj1 Hh) ltac:(lia)) as (w & Hw & Hi). destruct (Hh) as (_ & Hrg & _).
    unfold __CPUELT. change __NCPUBITS with 64. rewrite (rd_ok m p bits _ w), bind_ok by (done || lia).
    f_equal. apply member_test; [lia|done|intros; apply cpumask_bits; lia|].
    intros j Hj. by rewrite (above_pow2 w 64) by (done || by eapply (proj1 (Forall_lookup _ _) Hrg)).
  - by rewrite member_outside by (rewrite (proj1 Hh); lia).
Qed.

Lemma equal_ok builtin m A p1 p2 : rep m A -> p1 ∈ dom A -> p2 ∈ dom A ->
  __CPU_EQUAL_S builtin (8 * Z.of_nat n) m p1 p2 = Ok (bool_decide (val A p1 = val A p2)).
Proof.
  intros Hr H1 H2. destruct (rep_lookup Hr H1) as (b1 & E1 & L1 & R1 & M1). destruct (rep_lookup Hr H2) as (b2 & E2 & L2 & R2 & M2).
  destruct (equal_loop_ok m p1 p2 b1 b2 E1 E2 ltac:(lia) n 0 ltac:(lia)) as (j & Hj & Hjl & Hjj). rewrite !drop_0 in Hjj.
  assert (Heq : b1 = b2 <-> val A p1 = val A p2).
  { split.
    - intros ->. apply set_eq. intros i. by rewrite M1, M2.
    - intros E. apply member_inj; [lia|done..|]. intros i. apply eq_true_iff_eq. by rewrite <- M1, <- M2, E. }
  unfold __CPU_EQUAL_S, memcmp_zero. rewrite setsize_words. change (Z.of_nat 0) with 0 in Hj. rewrite Hj, !bind_ok.
  unfold sizeof_cpu_mask. rewrite (Z.mul_comm 8 (Z.of_nat n)), Z.mod_mul, Z.div_mul by lia. rewrite Z.eqb_refl.
  destruct (decide (j = n)) as [->|Hne].
  - rewrite Z.ltb_irrefl, Z.eqb_refl, bool_decide_eq_true_2 by (apply Heq, Hjj; lia). by destruct builtin.
  - rewrite (proj2 (Z.ltb_lt _ _)), (proj2 (Z.eqb_neq _ _)) by lia.
    rewrite bool_decide_eq_false_2 by (rewrite <- Heq, <- Hjj; lia). by destruct builtin.
Qed.
End cpu.

(** ** Descriptor sets *)

Inductive fd_op : Set :=
| FdZero (p : nat)
| FdSet (d : Z) (p : nat)
| FdClr (d : Z) (p : nat).

Definition fd_exec (m : sets) (o : fd_op) : res sets :=
  match o with FdZero p => __FD_ZERO m p | FdSet d p => __FD_SET d m p | FdClr d p => __FD_CLR d m p end.

Definition fd_var (o : fd_op) : nat := match o with FdZero p | FdSet _ p | FdClr _ p => p end.

(** The descriptor fits in the set. *)
Definition fd_fits (d : Z) : Prop := 0 <= d < 1024.
Definition fd_inside (o : fd_op) : Prop := match o with FdZero _ => True | FdSet d _ | FdClr d _ => fd_fits d end.
(** What a descriptor outside the set does: a negative one is a shift by a
    negative count, unless it is a multiple of 64; all others are an access
    outside the array. *)
Definition fd_fault (d : Z) : fault := if Z.rem d 64 <? 0 then BadShift else OutOfBounds.
Definition fd_number (o : fd_op) : Z := match o with FdZero _ => 0 | FdSet d _ | FdClr d _ => d end.

#[global] Instance fd_fits_dec d : Decision (fd_fits d).
Proof. unfold fd_fits. apply _. Defined.
#[global] Instance fd_inside_dec o : Decision (fd_inside o).
Proof. destruct o; apply _. Defined.

Definition fd_step (A : vars) (o : fd_op) : vars :=
  match o with
  | FdZero p => <[p := ∅]> A
  | FdSet d p => <[p := {[d]} ∪ val A p]> A
  | FdClr d p => <[p := val A p ∖ {[d]}]> A
  end.

#[local] Abbreviation fd_rep := (store_holds signed64 16).

(** The mask of a descriptor has its bit, and repeats the sign bit. *)
Lemma fd_mask_ok d : 0 <= d -> exists mask, __FD_MASK d = Ok mask /\ signed64 mask /\
  (forall j, 0 <= j < 64 -> Z.testbit mask j = (j =? d mod 64)).
Proof.
  intros Hd. unfold __FD_MASK, __NFDBITS. change (8 * 8) with 64. rewrite Z.rem_mod_nonneg by lia.
  pose proof (Z.mod_pos_bound d 64 ltac:(lia)) as Hk. rewrite (proj2 (Z.ltb_ge _ _)), Z.shiftl_1_l by lia.
  set (k := d mod 64) in *. assert (Hp : 0 < 2 ^ k < 2 ^ 64) by (split; [apply Z.pow_pos_nonneg | apply Z.pow_lt_mono_r]; lia).
  rewrite u64_small by lia. eexists. split; [done|]. destruct (decide (k = 63)) as [->|Hne].
  - change (s64 (2 ^ 63)) with (Z.lnot (Z.ones 63)). split; [split; [discriminate|reflexivity]|]. intros j Hj.
    rewrite Z.lnot_spec by lia. destruct (Z.eqb_spec j 63) as [->|]; [done|]. by rewrite Z.ones_spec_low by lia.
  - assert (2 ^ k < 2 ^ 63) by (apply Z.pow_lt_mono_r; lia). rewrite s64_small by lia. split; [unfold signed64; lia|].
    intros j Hj. rewrite Z.pow2_bits_eqb by lia. apply Z.eqb_sym.
Qed.

Lemma fd_outside d m p bits : ~ fd_fits d -> m !! p = Some bits -> length bits = 16%nat ->
  forall k : Z -> Z -> res sets, (mask ← __FD_MASK d; w ← rd m p (__FD_ELT d); k mask w) = Fault (fd_fault d).
Proof.
  intros Hd Hp Hl k. unfold fd_fits in Hd. unfold fd_fault. destruct (decide (0 <= d)) as [H0|H0].
  - rewrite (proj2 (Z.ltb_ge _ _)) by (apply Z.rem_nonneg; lia). destruct (fd_mask_ok d H0) as (mask & -> & _). rewrite bind_ok. unfold __FD_ELT, __NFDBITS. change (8 * 8) with 64.
    rewrite Z.quot_div_nonneg by lia. erewrite rd_outside; [done|done|]. right. rewrite Hl.
    apply Z.div_le_lower_bound; lia.
  - unfold __FD_MASK, __NFDBITS. change (8 * 8) with 64. destruct (Z.ltb_spec (Z.rem d 64) 0) as [|Hr]; [done|].
    rewrite bind_ok. unfold __FD_ELT, __NFDBITS. change (8 * 8) with 64. erewrite rd_outside; [done|done|]. left.
    pose proof (Z.quot_rem d 64 ltac:(lia)). lia.
Qed.

Lemma fd_elt d : 0 <= d -> __FD_ELT d = d / 64.
Proof. intros. apply Z.quot_div_nonneg; lia. Qed.

Lemma fd_step_ok m A o : fd_rep m A -> fd_var o ∈ dom A ->
  if decide (fd_inside o) then exists m', fd_exec m o = Ok m' /\ fd_rep m' (fd_step A o) else fd_exec m o = Fault (fd_fault (fd_number o)).
Proof.
  intros Hr Hv. destruct (rep_lookup Hr Hv) as (bits & Hp & Hh). destruct (Hh) as (Hl & Hrg & Hx).
  destruct o as [p|d p|d p]; cbn [fd_var fd_inside fd_exec fd_step] in *.
  - rewrite decide_True by done. eexists. split.
    + unfold __FD_ZERO. change (Z.to_nat _) with 16%nat. rewrite <- Hl. by apply zero_loop_sets.
    + apply rep_insert; [done|]. rewrite Hl. apply holds_zero. unfold signed64. lia.
  - case_decide as Hd; [|by eapply fd_outside]. unfold fd_fits in Hd.
    destruct (fd_mask_ok d ltac:(lia)) as (mask & Em & Hms & Hmb). unfold __FD_SET. rewrite Em, bind_ok, fd_elt by lia.
    destruct (mask_there 16 bits d Hl ltac:(lia)) as (w & Hw & Hi). rewrite (rd_ok m p bits _ w), bind_ok, (wr_ok m p bits) by (done || lia).
    eexists. split; [done|]. apply rep_insert; [done|]. split; [by rewrite length_insert|]. split.
    + apply Forall_insert; [done|]. apply signed64_lor; [by eapply (proj1 (Forall_lookup _ _) Hrg) | done].
    + intros i. rewrite (member_set bits d i w), elem_of_union, elem_of_singleton, Hx, orb_true_iff, bool_decide_eq_true by (done || lia). done.
  - case_decide as Hd; [|by eapply fd_outside]. unfold fd_fits in Hd.
    destruct (fd_mask_ok d ltac:(lia)) as (mask & Em & Hms & Hmb). unfold __FD_CLR. rewrite Em, bind_ok, fd_elt by lia.
    destruct (mask_there 16 bits d Hl ltac:(lia)) as (w & Hw & Hi). rewrite (rd_ok m p bits _ w), bind_ok, (wr_ok m p bits) by (done || lia).
    eexists. split; [done|]. apply rep_insert; [done|]. split; [by rewrite length_insert|]. split.
    + apply Forall_insert; [done|]. apply signed64_land_not; [by eapply (proj1 (Forall_lookup _ _) Hrg) | done].
    + intros i. rewrite (member_clear bits d i w), elem_of_difference, elem_of_singleton, Hx, andb_true_iff, bool_decide_eq_true; [naive_solver|lia|done|].
      intros j Hj. by rewrite Z.lnot_spec, Hmb by lia.
Qed.

Lemma fd_isset_ok m A d p : fd_rep m A -> p ∈ dom A -> fd_fits d -> __FD_ISSET d m p = Ok (bool_decide (d ∈ val A p)).
Proof.
  intros Hr Hv Hd. destruct (rep_lookup Hr Hv) as (bits & Hp & Hl & Hrg & Hx). unfold fd_fits in Hd.
  destruct (fd_mask_ok d ltac:(lia)) as (mask & Em & Hms & Hmb). unfold __FD_ISSET. rewrite Em, bind_ok, fd_elt by lia.
  destruct (mask_there 16 bits d Hl ltac:(lia)) as (w & Hw & Hi). rewrite (rd_ok m p bits _ w), bind_ok by (done || lia).
  f_equal. rewrite (member_test bits d w) by (done || lia || (intros j Hj; rewrite (proj1 (signed64_iff w)), (proj1 (signed64_iff mask)) by
    (done || lia || by eapply (proj1 (Forall_lookup _ _) Hrg)); done)).
  apply eq_true_iff_eq. rewrite bool_decide_eq_true. symmetry. apply Hx.
Qed.

Lemma fd_steps_ok os : forall m A, fd_rep m A -> Forall (fun o => fd_var o ∈ dom A) os ->
  if decide (Forall fd_inside os) then exists m', each fd_exec m os = Ok m' /\ fd_rep m' (foldl fd_step A os) /\ dom (foldl fd_step A os) = dom A
  else exists pre o post, os = pre ++ o :: post /\ Forall fd_inside pre /\ ~ fd_inside o /\
    each fd_exec m os = Fault (fd_fault (fd_number o)).
Proof.
  induction os as [|o os IH]; intros m A Hr Hv; cbn [each foldl].
  - rewrite decide_True by done. by exists m.
  - apply Forall_cons in Hv as [Ho Hv]. pose proof (fd_step_ok m A o Hr Ho) as Hs.
    destruct (decide (fd_inside o)) as [Hi|Hi].
    + destruct Hs as (m1 & -> & Hr1). rewrite bind_ok.
      assert (Hd : dom (fd_step A o) = dom A) by (destruct o; cbn in *; rewrite dom_insert_L; set_solver).
      rewrite <- Hd in Hv. specialize (IH m1 (fd_step A o) Hr1 Hv).
      destruct (decide (Forall fd_inside os)) as [Hin|Hin].
      * rewrite decide_True by (by constructor). by rewrite <- Hd.
      * rewrite decide_False by (by rewrite Forall_cons; intros [_ ?]).
        destruct IH as (pre & o' & post & -> & Hpre & Ho' & Hf). exists (o :: pre), o', post.
        split; [done|]. split; [by constructor | done].
    + rewrite decide_False by (by rewrite Forall_cons; intros [? _]). exists [], o, os.
      split; [done|]. split; [constructor|]. split; [done|]. by rewrite Hs.
Qed.

(** Two empty sets. *)
Definition demo_sets (n : nat) : sets := {[ 0%nat := replicate n 0; 1%nat := replicate n 0 ]}.
Definition demo_vars : vars := {[ 0%nat := ∅; 1%nat := ∅ ]}.

Lemma demo_rep (range : Z -> Prop) n : range 0 -> store_holds range n (demo_sets n) demo_vars.
Proof.
  intros Hr. apply rep_insert; [|by apply holds_zero]. apply rep_insert; [apply map_Forall2_empty|by apply holds_zero].
Qed.

Lemma demo_dom p : (p < 2)%nat -> p ∈ dom demo_vars.
Proof. intros Hp. apply elem_of_dom. destruct p as [|[|p]]; [by eexists..|lia]. Qed.

(** ** Theorems *)

(** C32: any program of CPU set macros on existing sets of whole masks ends and
    does what the same program on finite sets does, where a CPU number behind the size of
    the sets (a negative one too) is ignored and the destination of an
    operation may be one of its sources; CPU_ISSET and CPU_EQUAL then answer
    for the finite sets, with the loops or with the built-in functions. *)
Theorem cpuset_refines builtin n m A os :
  store_holds unsigned64 n m A -> Forall (fun o => Forall (.∈ dom A) (uses o)) os ->
  exists m', each (exec builtin (8 * Z.of_nat n)) m os = Ok m' /\
    let B := foldl (step (64 * Z.of_nat n)) A os in
    store_holds unsigned64 n m' B /\
    (forall cpu p, p ∈ dom A -> __CPU_ISSET_S cpu (8 * Z.of_nat n) m' p = Ok (bool_decide (u64 cpu ∈ val B p))) /\
    (forall p q, p ∈ dom A -> q ∈ dom A ->
       __CPU_EQUAL_S builtin (8 * Z.of_nat n) m' p q = Ok (bool_decide (val B p = val B q))).
Proof.
  intros Hr Hu. destruct (steps_ok n builtin os m A Hr Hu) as (m' & Hm & Hr' & Hd). exists m'. split; [done|].
  cbn zeta. split; [done|]. rewrite <- Hd. split; [intros; by apply isset_ok | intros; by apply equal_ok].
Qed.

Lemma cpuset_refines_witness : exists m',
  each (exec true 8) (demo_sets 1) [SetCpu 3 0; SetCpu 63 1; Or 0 0 1; SetCpu (-1) 0; ClrCpu 3 1; Xor 1 0 1] = Ok m' /\
  __CPU_ISSET_S 63 8 m' 0 = Ok true /\ __CPU_ISSET_S 63 8 m' 1 = Ok false /\ __CPU_ISSET_S (-1) 8 m' 0 = Ok false /\
  __CPU_EQUAL_S true 8 m' 0 1 = Ok false.
Proof.
  destruct (cpuset_refines true 1 (demo_sets 1) demo_vars
    [SetCpu 3 0; SetCpu 63 1; Or 0 0 1; SetCpu (-1) 0; ClrCpu 3 1; Xor 1 0 1]) as (m' & Hm & _ & Hi & He).
  - apply demo_rep. unfold unsigned64. lia.
  - repeat constructor; apply demo_dom; lia.
  - change (8 * Z.of_nat 1) with 8 in *. exists m'. split; [exact Hm|].
    rewrite !Hi, He by (apply demo_dom; lia). vm_compute. done.
Defined.

(** C33: any program of descriptor set macros ends and does what the same
    program on finite sets does as long as every descriptor is from 0 to
    FD_SETSIZE - 1; the first other descriptor stops it: one of FD_SETSIZE
    or more is an access outside the set, a negative one a shift by a
    negative count, or an access outside the set when it is a multiple of 64. *)
Theorem fdset_refines m A os :
  store_holds signed64 16 m A -> Forall (fun o => fd_var o ∈ dom A) os ->
  (Forall fd_inside os -> exists m', each fd_exec m os = Ok m' /\
    let B := foldl fd_step A os in
    store_holds signed64 16 m' B /\
    (forall d p, p ∈ dom A -> fd_fits d -> __FD_ISSET d m' p = Ok (bool_decide (d ∈ val B p)))) /\
  (~ Forall fd_inside os -> exists pre o post, os = pre ++ o :: post /\ Forall fd_inside pre /\ ~ fd_inside o /\
     each fd_exec m os = Fault (fd_fault (fd_number o))).
Proof.
  intros Hr Hu. pose proof (fd_steps_ok os m A Hr Hu) as Hs. split; intros Hi.
  - rewrite decide_True in Hs by done. destruct Hs as (m' & Hm & Hr' & Hd). exists m'. split; [done|].
    cbn zeta. split; [done|]. rewrite <- Hd. intros. by apply fd_isset_ok.
  - by rewrite decide_False in Hs.
Qed.

Lemma fdset_refines_witness :
  (exists m', each fd_exec (demo_sets 16) [FdSet 63 0; FdSet 1023 0; FdClr 63 0] = Ok m' /\
    __FD_ISSET 1023 m' 0 = Ok true /\ __FD_ISSET 63 m' 0 = Ok false) /\
  exists o, o ∈ [FdSet 63 0; FdSet 1024 0] /\ ~ fd_inside o /\
    each fd_exec (demo_sets 16) [FdSet 63 0; FdSet 1024 0] = Fault (fd_fault (fd_number o)).
Proof.
  assert (Hr : store_holds signed64 16 (demo_sets 16) demo_vars) by (apply demo_rep; unfold signed64; lia).
  split.
  - destruct (fdset_refines (demo_sets 16) demo_vars [FdSet 63 0; FdSet 1023 0; FdClr 63 0] Hr) as [Hok _].
    { repeat constructor; apply demo_dom; lia. }
    destruct Hok as (m' & Hm & _ & Hi); [repeat constructor; cbn; lia|]. exists m'. split; [exact Hm|].
    rewrite !Hi by (apply demo_dom; lia) || (unfold fd_fits; lia). vm_compute. done.
  - destruct (fdset_refines (demo_sets 16) demo_vars [FdSet 63 0; FdSet 1024 0] Hr) as [_ Hbad].
    { repeat constructor; apply demo_dom; lia. }
    destruct Hbad as (pre & o & post & Hos & _ & Ho & Hf); [rewrite !Forall_cons; intros (_ & [_ Hlt] & _); lia|].
    exists o. split; [rewrite Hos; apply elem_of_app; right; left | split; [exact Ho | exact Hf]].
Defined.

(** CPU_ALLOC_SIZE: the fewest masks with room for [count] CPUs. *)
Theorem cpu_alloc_size_enough count : 0 <= count < 2 ^ 62 -> exists n, __CPU_ALLOC_SIZE count = 8 * n /\
  count <= 64 * n < count + 64.
Proof.
  intros Hc. unfold __CPU_ALLOC_SIZE, sizeof_cpu_mask, __NCPUBITS, sizeof_cpu_mask. change (8 * 8) with 64.
  rewrite (u64_small (count + 64 - 1)) by lia. exists ((count + 64 - 1) / 64).
  pose proof (Z.div_mod (count + 64 - 1) 64 ltac:(lia)). pose proof (Z.mod_pos_bound (count + 64 - 1) 64 ltac:(lia)).
  rewrite u64_small by lia. lia.
Qed.
