(* ===== verification/TimeVals.v ===== *)
(** * Time values (sys/time.h)

    The macros on struct timeval and struct timespec.  The structures are
    known by address, so that the result of an operation may be one of its
    operands; a signed addition that overflows has no result. *)

From stdpp Require Import base numbers gmap list.
From S2P Require Import Prelude.

#[local] Open Scope Z_scope.

Record timeval : Type := TimeVal { tv_sec : Z; tv_usec : Z }.
Record timespec : Type := TimeSpec { ts_sec : Z; ts_nsec : Z }.

Abbreviation times := (gmap nat timeval).

(** A value of type long. *)
Definition long (z : Z) : option Z := if decide (- 2 ^ 63 <= z < 2 ^ 63) then Some z else None.

Definition set_sec (m : times) (p : nat) (z : Z) : option times :=
  t ← m !! p; z ← long z; Some (<[p := TimeVal z (tv_usec t)]> m).
Definition set_usec (m : times) (p : nat) (z : Z) : option times :=
  t ← m !! p; z ← long z; Some (<[p := TimeVal (tv_sec t) z]> m).

Definition timerisset (m : times) (tvp : nat) : option bool :=
  t ← m !! tvp; Some (negb (tv_sec t =? 0) || negb (tv_usec t =? 0)).

Definition timerclear (m : times) (tvp : nat) : option times := m ← set_usec m tvp 0; set_sec m tvp 0.

Definition timercmp (m : times) (a b : nat) (CMP : Z -> Z -> bool) : option bool :=
  x ← m !! a; y ← m !! b;
  Some (if tv_sec x =? tv_sec y then CMP (tv_usec x) (tv_usec y) else CMP (tv_sec x) (tv_sec y)).

Definition timeradd (m : times) (a b result : nat) : option times :=
  x ← m !! a; y ← m !! b;
  m ← set_sec m result (tv_sec x + tv_sec y);
  x ← m !! a; y ← m !! b;
  m ← set_usec m result (tv_usec x + tv_usec y);
  r ← m !! result;
  if 1000000 <=? tv_usec r then
    m ← set_sec m result (tv_sec r + 1);
    set_usec m result (tv_usec r - 1000000)
  else Some m.

Definition timersub (m : times) (a b result : nat) : option times :=
  x ← m !! a; y ← m !! b;
  m ← set_sec m result (tv_sec x - tv_sec y);
  x ← m !! a; y ← m !! b;
  m ← set_usec m result (tv_usec x - tv_usec y);
  r ← m !! result;
  if tv_usec r <? 0 then
    m ← set_sec m result (tv_sec r - 1);
    set_usec m result (tv_usec r + 1000000)
  else Some m.

Definition TIMEVAL_TO_TIMESPEC (tv : timeval) : option timespec :=
  ns ← long (tv_usec tv * 1000); Some (TimeSpec (tv_sec tv) ns).
Definition TIMESPEC_TO_TIMEVAL (ts : timespec) : timeval := TimeVal (ts_sec ts) (Z.quot (ts_nsec ts) 1000).

(** ** Facts *)

(** A value as it is kept: less than a second of microseconds. *)
Definition normal (t : timeval) : Prop := - 2 ^ 63 <= tv_sec t < 2 ^ 63 /\ 0 <= tv_usec t < 1000000.
Definition micros (t : timeval) : Z := tv_sec t * 1000000 + tv_usec t.

Lemma normal_inj t u : normal t -> normal u -> micros t = micros u -> t = u.
Proof. destruct t as [s1 u1], u as [s2 u2]. unfold normal, micros. cbn. intros. f_equal; lia. Qed.

Lemma long_ok z : - 2 ^ 63 <= z < 2 ^ 63 -> long z = Some z.
Proof. intros. unfold long. by rewrite decide_True. Qed.

Lemma set_sec_ok m p t z : m !! p = Some t -> - 2 ^ 63 <= z < 2 ^ 63 ->
  set_sec m p z = Some (<[p := TimeVal z (tv_usec t)]> m).
Proof. intros Hp Hz. unfold set_sec. rewrite Hp. cbn. by rewrite long_ok. Qed.

Lemma set_usec_ok m p t z : m !! p = Some t -> - 2 ^ 63 <= z < 2 ^ 63 ->
  set_usec m p z = Some (<[p := TimeVal (tv_sec t) z]> m).
Proof. intros Hp Hz. unfold set_usec. rewrite Hp. cbn. by rewrite long_ok. Qed.

(** Storing the seconds of a result leaves the microseconds of the operands. *)
Lemma usec_kept (m : times) p r x z a : m !! a = Some x -> m !! r = Some p ->
  exists y, <[r := TimeVal z (tv_usec p)]> m !! a = Some y /\ tv_usec y = tv_usec x.
Proof.
  intros Ha Hr. destruct (decide (a = r)) as [->|Hne].
  - rewrite Hr in Ha. injection Ha as ->. rewrite lookup_insert_eq. by eexists.
  - rewrite lookup_insert_ne by done. by exists x.
Qed.

(** What an operation leaves in the result, before it is carried. *)
Lemma two_stores (m : times) (a b r : nat) x y p (f : Z -> Z -> Z) : m !! a = Some x -> m !! b = Some y -> m !! r = Some p ->
  - 2 ^ 63 <= f (tv_sec x) (tv_sec y) < 2 ^ 63 -> - 2 ^ 63 <= f (tv_usec x) (tv_usec y) < 2 ^ 63 ->
  exists m1 x1 y1, set_sec m r (f (tv_sec x) (tv_sec y)) = Some m1 /\ m1 !! a = Some x1 /\ m1 !! b = Some y1 /\
    set_usec m1 r (f (tv_usec x1) (tv_usec y1))
    = Some (<[r := TimeVal (f (tv_sec x) (tv_sec y)) (f (tv_usec x) (tv_usec y))]> m).
Proof.
  intros Ha Hb Hr Hs Hu.
  destruct (usec_kept m p r x (f (tv_sec x) (tv_sec y)) a Ha Hr) as (x1 & Hx1 & Ex).
  destruct (usec_kept m p r y (f (tv_sec x) (tv_sec y)) b Hb Hr) as (y1 & Hy1 & Ey).
  exists (<[r := TimeVal (f (tv_sec x) (tv_sec y)) (tv_usec p)]> m), x1, y1.
  split; [by apply set_sec_ok|]. split; [done|]. split; [done|].
  rewrite Ex, Ey. erewrite set_usec_ok; [|apply lookup_insert_eq|done]. cbn. by rewrite insert_insert_eq.
Qed.

(** The sum or difference of two values, in whichever structure it is put. *)
Definition leaves (m : times) (r : nat) (total : Z) (o : option times) : Prop :=
  exists t, o = Some (<[r := t]> m) /\ normal t /\ micros t = total.

Lemma timeradd_ok m a b r x y p : m !! a = Some x -> m !! b = Some y -> m !! r = Some p -> normal x -> normal y ->
  - 2 ^ 63 <= tv_sec x + tv_sec y < 2 ^ 63 - 1 -> leaves m r (micros x + micros y) (timeradd m a b r).
Proof.
  intros Ha Hb Hr [Hxs Hxu] [Hys Hyu] Hs.
  destruct (two_stores m a b r x y p Z.add Ha Hb Hr ltac:(lia) ltac:(lia)) as (m1 & x1 & y1 & E1 & E2 & E3 & E4).
  unfold timeradd. rewrite Ha, Hb. cbn. rewrite E1. cbn. rewrite E2, E3. cbn. rewrite E4. cbn.
  rewrite lookup_insert_eq. cbn. destruct (Z.leb_spec 1000000 (tv_usec x + tv_usec y)).
  - erewrite set_sec_ok; [|apply lookup_insert_eq|lia]. cbn. erewrite set_usec_ok; [|apply lookup_insert_eq|lia]. cbn.
    rewrite !insert_insert_eq. eexists. split; [done|]. unfold normal, micros. cbn. lia.
  - eexists. split; [done|]. unfold normal, micros. cbn. lia.
Qed.

Lemma timersub_ok m a b r x y p : m !! a = Some x -> m !! b = Some y -> m !! r = Some p -> normal x -> normal y ->
  - 2 ^ 63 < tv_sec x - tv_sec y < 2 ^ 63 -> leaves m r (micros x - micros y) (timersub m a b r).
Proof.
  intros Ha Hb Hr [Hxs Hxu] [Hys Hyu] Hs.
  destruct (two_stores m a b r x y p Z.sub Ha Hb Hr ltac:(lia) ltac:(lia)) as (m1 & x1 & y1 & E1 & E2 & E3 & E4).
  unfold timersub. rewrite Ha, Hb. cbn. rewrite E1. cbn. rewrite E2, E3. cbn. rewrite E4. cbn.
  rewrite lookup_insert_eq. cbn. destruct (Z.ltb_spec (tv_usec x - tv_usec y) 0).
  - erewrite set_sec_ok; [|apply lookup_insert_eq|lia]. cbn. erewrite set_usec_ok; [|apply lookup_insert_eq|lia]. cbn.
    rewrite !insert_insert_eq. eexists. split; [done|]. unfold normal, micros. cbn. lia.
  - eexists. split; [done|]. unfold normal, micros. cbn. lia.
Qed.

(** A comparison that agrees with the order of the microseconds. *)
Lemma timercmp_ok m a b x y CMP : m !! a = Some x -> m !! b = Some y -> normal x -> normal y ->
  (CMP = Z.ltb \/ CMP = Z.leb \/ CMP = Z.gtb \/ CMP = Z.geb \/ CMP = Z.eqb) ->
  timercmp m a b CMP = Some (CMP (micros x) (micros y)).
Proof.
  intros Ha Hb [_ Hxu] [_ Hyu] Hc. unfold timercmp. rewrite Ha, Hb. cbn. f_equal. unfold micros.
  destruct Hc as [->|[->|[->|[->| ->]]]]; destruct (Z.eqb_spec (tv_sec x) (tv_sec y)); apply eq_true_iff_eq;
    rewrite ?Z.gtb_ltb, ?Z.geb_leb, ?Z.ltb_lt, ?Z.leb_le, ?Z.eqb_eq; lia.
Qed.

(** ** Theorems *)

(** On values that are kept below a second of microseconds, timeradd and
    timersub leave the sum and the difference in the result, kept the same
    way, also where the result is one of the operands, as long as the seconds
    do not overflow; subtracting in place what was added gives the value
    back. *)
Theorem timeval_arith m a b r x y p : m !! a = Some x -> m !! b = Some y -> m !! r = Some p -> normal x -> normal y ->
  - 2 ^ 63 <= tv_sec x + tv_sec y < 2 ^ 63 - 1 -> - 2 ^ 63 < tv_sec x - tv_sec y < 2 ^ 63 ->
  leaves m r (micros x + micros y) (timeradd m a b r) /\
  leaves m r (micros x - micros y) (timersub m a b r) /\
  (b <> r -> (m ← timeradd m a b r; timersub m r b r) = Some (<[r := x]> m)).
Proof.
  intros Ha Hb Hr Hx Hy Hs Hd. pose proof (timeradd_ok m a b r x y p Ha Hb Hr Hx Hy Hs) as Hadd.
  split; [done|]. split; [by eapply timersub_ok|]. intros Hne. destruct Hadd as (t & -> & Ht & Et). cbn [mbind option_bind].
  destruct (timersub_ok (<[r := t]> m) r b r t y t) as (u & -> & Hu & Eu); try done.
  - apply lookup_insert_eq.
  - by rewrite lookup_insert_ne.
  - apply lookup_insert_eq.
  - unfold micros in Et. unfold normal in *. lia.
  - rewrite insert_insert_eq. do 2 f_equal. apply normal_inj; [done..|]. lia.
Qed.

Definition demo_times : times := {[ 0%nat := TimeVal 5 700000; 1%nat := TimeVal 2 600000 ]}.

Lemma timeval_arith_witness :
  (m ← timeradd demo_times 0 1 0; timersub m 0 1 0) = Some demo_times /\
  timeradd demo_times 0 1 0 = Some {[ 0%nat := TimeVal 8 300000; 1%nat := TimeVal 2 600000 ]}.
Proof.
  split; [|vm_compute; reflexivity].
  destruct (timeval_arith demo_times 0 1 0 (TimeVal 5 700000) (TimeVal 2 600000) (TimeVal 5 700000))
    as (_ & _ & Hback); [vm_compute; reflexivity .. | unfold normal; cbn; lia | unfold normal; cbn; lia | cbn; lia | cbn; lia |].
  rewrite Hback; [|done]. vm_compute. reflexivity.
Defined.

(** timercmp agrees with the order of the times for every comparison, >= and
    <= included. *)
Theorem timercmp_order m a b x y : m !! a = Some x -> m !! b = Some y -> normal x -> normal y ->
  timercmp m a b Z.ltb = Some (micros x <? micros y) /\ timercmp m a b Z.gtb = Some (micros x >? micros y) /\
  timercmp m a b Z.leb = Some (micros x <=? micros y) /\ timercmp m a b Z.geb = Some (micros x >=? micros y) /\
  timercmp m a b Z.eqb = Some (micros x =? micros y).
Proof. intros. repeat split; eapply timercmp_ok; eauto. Qed.

(** Going to nanoseconds and back. *)
Theorem timespec_roundtrip tv : normal tv -> exists ts, TIMEVAL_TO_TIMESPEC tv = Some ts /\ TIMESPEC_TO_TIMEVAL ts = tv.
Proof.
  intros [_ Hu]. unfold TIMEVAL_TO_TIMESPEC. rewrite long_ok by lia. eexists. split; [done|].
  destruct tv. unfold TIMESPEC_TO_TIMEVAL. cbn in *. f_equal. by apply Z.quot_mul.
Qed.
