(* ===== verification/Bcache.v ===== *)
(** * Keys of the block cache (linux/bcache.h)

    Fields of bits in 64-bit words, and keys: a word with fields, an offset
    and as many pointers as one of the fields says.  Memory is an array of
    words; a key is the index of its first word.  Reading or writing outside
    the array is a fault. *)

From stdpp Require Import base numbers strings gmap list.
From S2P Require Import Prelude CMem ByteOrder.

#[local] Open Scope Z_scope.

(** ** Fields of bits: BITMASK *)

(** ~(~0ULL << size) *)
Definition field_mask (size : Z) : Z := u64 (Z.lnot (u64 (Z.shiftl (2 ^ 64 - 1) size))).

Definition BITMASK (offset size field : Z) : Z := Z.land (Z.shiftr field offset) (field_mask size).

Definition SET_BITMASK (offset size field v : Z) : Z :=
  let field := Z.land field (u64 (Z.lnot (u64 (Z.shiftl (field_mask size) offset)))) in
  Z.lor field (u64 (Z.shiftl (Z.land v (field_mask size)) offset)).

(** ** Memory *)

Abbreviation words := (list Z).
Definition rd (m : words) (i : nat) : res Z := lift_opt OutOfBounds (m !! i).
Definition wr (m : words) (i : nat) (x : Z) : res words := _ ← rd m i; Ok (<[i := x]> m).

(** struct bkey: high, low, ptr[]. *)
Definition high (m : words) (k : nat) : res Z := rd m k.
Definition low (m : words) (k : nat) : res Z := rd m (k + 1).
Definition ptr_word (m : words) (k i : nat) : res Z := rd m (k + 2 + i).

(** ** Fields of a key *)

Definition KEY_FIELD (offset size : Z) (m : words) (k : nat) : res Z := w ← high m k; Ok (BITMASK offset size w).
Definition SET_KEY_FIELD (offset size : Z) (m : words) (k : nat) (v : Z) : res words :=
  w ← high m k; wr m k (SET_BITMASK offset size w v).

Definition PTR_FIELD (offset size : Z) (m : words) (k i : nat) : res Z := w ← ptr_word m k i; Ok (BITMASK offset size w).
Definition SET_PTR_FIELD (offset size : Z) (m : words) (k i : nat) (v : Z) : res words :=
  w ← ptr_word m k i; wr m (k + 2 + i) (SET_BITMASK offset size w v).

Definition KEY_SIZE_BITS : Z := 16.
Definition KEY_PTRS := KEY_FIELD 60 3.
Definition SET_KEY_PTRS := SET_KEY_FIELD 60 3.
Definition HEADER_SIZE := KEY_FIELD 58 2.
Definition SET_HEADER_SIZE := SET_KEY_FIELD 58 2.
Definition KEY_CSUM := KEY_FIELD 56 2.
Definition SET_KEY_CSUM := SET_KEY_FIELD 56 2.
Definition KEY_PINNED := KEY_FIELD 55 1.
Definition SET_KEY_PINNED := SET_KEY_FIELD 55 1.
Definition KEY_DIRTY := KEY_FIELD 36 1.
Definition SET_KEY_DIRTY := SET_KEY_FIELD 36 1.
Definition KEY_SIZE := KEY_FIELD 20 KEY_SIZE_BITS.
Definition SET_KEY_SIZE := SET_KEY_FIELD 20 KEY_SIZE_BITS.
Definition KEY_INODE := KEY_FIELD 0 20.
Definition SET_KEY_INODE := SET_KEY_FIELD 0 20.

Definition KEY_OFFSET (m : words) (k : nat) : res Z := low m k.
Definition SET_KEY_OFFSET (m : words) (k : nat) (v : Z) : res words := wr m (k + 1) (u64 v).

(** The two words of a new key. *)
Definition KEY (inode offset size : Z) : Z * Z :=
  (Z.lor (Z.lor (u64 (Z.shiftl 1 63)) (u64 (Z.shiftl size 20))) inode, offset).
Definition ZERO_KEY : Z * Z := KEY 0 0 0.
Definition MAX_KEY_INODE : Z := Z.lnot (Z.shiftl (-1) 20).
Definition MAX_KEY_OFFSET : Z := Z.shiftr (2 ^ 64 - 1) 1.
Definition MAX_KEY : Z * Z := KEY MAX_KEY_INODE MAX_KEY_OFFSET 0.

Definition KEY_START (m : words) (k : nat) : res Z := o ← KEY_OFFSET m k; s ← KEY_SIZE m k; Ok (u64 (o - s)).
Definition START_KEY (m : words) (k : nat) : res (Z * Z) := i ← KEY_INODE m k; s ← KEY_START m k; Ok (KEY i s 0).

Definition PTR_DEV_BITS : Z := 12.
Definition PTR_DEV := PTR_FIELD 51 PTR_DEV_BITS.
Definition SET_PTR_DEV := SET_PTR_FIELD 51 PTR_DEV_BITS.
Definition PTR_OFFSET := PTR_FIELD 8 43.
Definition SET_PTR_OFFSET := SET_PTR_FIELD 8 43.
Definition PTR_GEN := PTR_FIELD 0 8.
Definition SET_PTR_GEN := SET_PTR_FIELD 0 8.
Definition MAKE_PTR (gen offset dev : Z) : Z := Z.lor (Z.lor (u64 (Z.shiftl dev 51)) (u64 (Z.shiftl offset 8))) gen.

(** ** Keys *)

Definition bkey_u64s (m : words) (k : nat) : res Z := n ← KEY_PTRS m k; Ok (2 + n).
Definition bkey_bytes (m : words) (k : nat) : res Z := n ← bkey_u64s m k; Ok (n * 8).

(** memcpy() of whole words. *)
Fixpoint load_words (m : words) (i n : nat) : res (list Z) :=
  match n with O => Ok [] | S n => x ← rd m i; l ← load_words m (S i) n; Ok (x :: l) end.
Fixpoint store_words (m : words) (i : nat) (l : list Z) : res words :=
  match l with [] => Ok m | x :: l => m ← wr m i x; store_words m (S i) l end.

Definition bkey_copy (m : words) (dest src : nat) : res words :=
  n ← bkey_bytes m src; l ← load_words m src (Z.to_nat (n / 8)); store_words m dest l.

Definition bkey_copy_key (m : words) (dest src : nat) : res words :=
  i ← KEY_INODE m src; m ← SET_KEY_INODE m dest i; o ← KEY_OFFSET m src; SET_KEY_OFFSET m dest o.

Definition bkey_next (m : words) (k : nat) : res nat := n ← bkey_u64s m k; Ok (k + Z.to_nat n)%nat.
Definition bkey_idx (k nr_keys : nat) : nat := (k + nr_keys)%nat.

Definition BKEY_PAD : nat := 8.

(** ** The superblock *)

(** The members that the functions use. *)
Record cache_sb : Type := CacheSb { sb_version : Z; sb_flags : Z; set_magic : Z }.

Definition BCACHE_SB_VERSION_BDEV : Z := 1.
Definition BCACHE_SB_VERSION_BDEV_WITH_OFFSET : Z := 4.
Definition SB_IS_BDEV (sb : cache_sb) : bool :=
  (sb_version sb =? BCACHE_SB_VERSION_BDEV) || (sb_version sb =? BCACHE_SB_VERSION_BDEV_WITH_OFFSET).

Definition SB_FIELD (offset size : Z) (sb : cache_sb) : Z := BITMASK offset size (sb_flags sb).
Definition SET_SB_FIELD (offset size : Z) (sb : cache_sb) (v : Z) : cache_sb :=
  CacheSb (sb_version sb) (SET_BITMASK offset size (sb_flags sb) v) (set_magic sb).
Definition CACHE_SYNC := SB_FIELD 0 1.
Definition SET_CACHE_SYNC := SET_SB_FIELD 0 1.
Definition CACHE_DISCARD := SB_FIELD 1 1.
Definition SET_CACHE_DISCARD := SET_SB_FIELD 1 1.
Definition CACHE_REPLACEMENT := SB_FIELD 2 3.
Definition SET_CACHE_REPLACEMENT := SET_SB_FIELD 2 3.
Definition BDEV_CACHE_MODE := SB_FIELD 0 4.
Definition SET_BDEV_CACHE_MODE := SET_SB_FIELD 0 4.
Definition BDEV_STATE := SB_FIELD 61 2.
Definition SET_BDEV_STATE := SET_SB_FIELD 61 2.

(** flags of struct uuid_entry has 32 bits. *)
Definition UUID_FLASH_ONLY (flags : Z) : Z := BITMASK 0 1 flags.
Definition SET_UUID_FLASH_ONLY (flags v : Z) : Z := u32 (SET_BITMASK 0 1 flags v).

Definition JSET_MAGIC : Z := 0x245235c1a3625032.
Definition PSET_MAGIC : Z := 0x6750e15f87337f91.
Definition BSET_MAGIC : Z := 0x90135c78b99e07f5.
Definition jset_magic (sb : cache_sb) : Z := Z.lxor (set_magic sb) JSET_MAGIC.
Definition pset_magic (sb : cache_sb) : Z := Z.lxor (set_magic sb) PSET_MAGIC.
Definition bset_magic (sb : cache_sb) : Z := Z.lxor (set_magic sb) BSET_MAGIC.

(** ** Facts: fields *)

(** A field that lies in a word. *)
Definition fits (offset size : Z) : Prop := 0 <= offset /\ 0 < size /\ offset + size <= 64.

Lemma field_mask_ones size : 0 < size <= 64 -> field_mask size = Z.ones size.
Proof.
  intros Hs. unfold field_mask, u64. rewrite <- !Z.land_ones by lia. apply Z.bits_inj'. intros n Hn.
  change (2 ^ 64 - 1) with (Z.ones 64).
  rewrite Z.land_spec, Z.lnot_spec, Z.land_spec, Z.shiftl_spec by lia.
  destruct (Z.lt_ge_cases n 64) as [H64|H64]; [|rewrite (Z.ones_spec_high 64 n), (Z.ones_spec_high size n) by lia; by rewrite andb_false_r].
  rewrite (Z.ones_spec_low 64 n), !andb_true_r by lia. destruct (Z.lt_ge_cases n size) as [Hns|Hns].
  - rewrite (Z.testbit_neg_r (Z.ones 64)) by lia. by rewrite Z.ones_spec_low by lia.
  - rewrite (Z.ones_spec_low 64 (n - size)) by lia. by rewrite Z.ones_spec_high by lia.
Qed.

(** The bits of a field that was set. *)
Lemma set_bits offset size w v n : fits offset size -> 0 <= w < 2 ^ 64 -> 0 <= n ->
  Z.testbit (SET_BITMASK offset size w v) n =
    if decide (offset <= n < offset + size) then Z.testbit v (n - offset) else Z.testbit w n.
Proof.
  intros (Ho & Hs & Hf) Hw Hn. unfold SET_BITMASK, u64. rewrite field_mask_ones by lia. rewrite <- !Z.land_ones by lia.
  rewrite Z.lor_spec, !Z.land_spec, Z.lnot_spec, Z.land_spec, !Z.shiftl_spec, Z.land_spec by lia.
  destruct (Z.lt_ge_cases n 64) as [H64|H64].
  - rewrite (Z.ones_spec_low 64 n), !andb_true_r by lia. case_decide as Hin.
    + rewrite (Z.ones_spec_low size) by lia. cbn. by rewrite andb_false_r, andb_true_r.
    + replace (Z.testbit (Z.ones size) (n - offset)) with false; [by rewrite andb_false_r, orb_false_r, andb_true_r|].
      destruct (Z.lt_ge_cases n offset); [by rewrite Z.testbit_neg_r by lia | by rewrite Z.ones_spec_high by lia].
  - rewrite (Z.ones_spec_high 64 n), !andb_false_r by lia. rewrite decide_False by lia. cbn. symmetry.
    destruct (decide (w = 0)) as [->|]; [apply Z.bits_0|]. apply Z.bits_above_log2; [lia|]. apply Z.log2_lt_pow2; [lia|].
    apply Z.lt_le_trans with (2 ^ 64); [lia|]. apply Z.pow_le_mono_r; lia.
Qed.

Lemma get_bits offset size w n : fits offset size -> 0 <= n ->
  Z.testbit (BITMASK offset size w) n = if decide (n < size) then Z.testbit w (n + offset) else false.
Proof.
  intros (Ho & Hs & Hf) Hn. unfold BITMASK. rewrite field_mask_ones by lia. rewrite Z.land_spec, Z.shiftr_spec by lia.
  case_decide; [by rewrite Z.ones_spec_low, andb_true_r by lia | by rewrite Z.ones_spec_high, andb_false_r by lia].
Qed.

Lemma set_range offset size w v : fits offset size -> 0 <= w < 2 ^ 64 -> 0 <= SET_BITMASK offset size w v < 2 ^ 64.
Proof.
  intros Hf Hw. assert (E : SET_BITMASK offset size w v = SET_BITMASK offset size w v mod 2 ^ 64).
  { rewrite <- Z.land_ones by lia. apply Z.bits_inj'. intros n Hn. rewrite Z.land_spec.
    destruct (Z.lt_ge_cases n 64) as [H|H]; [by rewrite Z.ones_spec_low, andb_true_r by lia|].
    rewrite Z.ones_spec_high, andb_false_r, set_bits by (done || lia). destruct Hf as (? & ? & ?). rewrite decide_False by lia.
    destruct (decide (w = 0)) as [->|]; [apply Z.bits_0|]. apply Z.bits_above_log2; [lia|]. apply Z.log2_lt_pow2; [lia|].
    apply Z.lt_le_trans with (2 ^ 64); [lia|]. apply Z.pow_le_mono_r; lia. }
  rewrite E. apply Z.mod_pos_bound. lia.
Qed.

(** What is set is read, cut to the field. *)
Lemma get_set offset size w v : fits offset size -> 0 <= w < 2 ^ 64 -> BITMASK offset size (SET_BITMASK offset size w v) = v mod 2 ^ size.
Proof.
  intros Hf Hw. pose proof Hf as (? & ? & ?). rewrite <- Z.land_ones by lia. apply Z.bits_inj'. intros n Hn.
  rewrite get_bits, Z.land_spec by done. case_decide as Hns.
  - rewrite set_bits by (done || lia). rewrite decide_True, Z.ones_spec_low, andb_true_r by lia. f_equal. lia.
  - by rewrite Z.ones_spec_high, andb_false_r by lia.
Qed.

(** The field of a word that is given by its parts. *)
Lemma field_of o s w q r t : fits o s -> w = (q * 2 ^ s + r) * 2 ^ o + t -> 0 <= r < 2 ^ s -> 0 <= t < 2 ^ o -> BITMASK o s w = r.
Proof.
  intros (Ho & Hsz & Hos) -> Hr Ht. unfold BITMASK. rewrite field_mask_ones, Z.land_ones, Z.shiftr_div_pow2 by lia.
  rewrite Z.div_add_l by lia. rewrite (Z.div_small t), Z.add_0_r, Z.add_comm, Z.mod_add by lia. by apply Z.mod_small.
Qed.

(** Fields that do not overlap. *)
Definition disjoint_fields (f g : Z * Z) : Prop := f.1 + f.2 <= g.1 \/ g.1 + g.2 <= f.1.

Lemma get_set_other f g w v : fits f.1 f.2 -> fits g.1 g.2 -> disjoint_fields f g -> 0 <= w < 2 ^ 64 ->
  BITMASK g.1 g.2 (SET_BITMASK f.1 f.2 w v) = BITMASK g.1 g.2 w.
Proof.
  intros Hf Hg Hd Hw. pose proof Hf as (? & ? & ?). pose proof Hg as (? & ? & ?). unfold disjoint_fields in Hd.
  apply Z.bits_inj'. intros n Hn. rewrite !get_bits by done. case_decide; [|done]. rewrite set_bits by (done || lia).
  by rewrite decide_False by lia.
Qed.

(** The fields of a key: KEY_PTRS, HEADER_SIZE, KEY_CSUM, KEY_PINNED,
    KEY_DIRTY, KEY_SIZE, KEY_INODE. *)
Definition key_fields : list (Z * Z) := [(60, 3); (58, 2); (56, 2); (55, 1); (36, 1); (20, 16); (0, 20)].

Lemma key_fields_fit f : f ∈ key_fields -> fits f.1 f.2.
Proof. intros Hf. repeat (apply elem_of_cons in Hf as [->|Hf]; [unfold fits; cbn; lia|]). by apply not_elem_of_nil in Hf. Qed.

Lemma key_fields_disjoint f g : f ∈ key_fields -> g ∈ key_fields -> f <> g -> disjoint_fields f g.
Proof.
  intros Hf Hg Hne. unfold disjoint_fields.
  repeat (apply elem_of_cons in Hf as [->|Hf]);
    [.. | by apply not_elem_of_nil in Hf];
    (repeat (apply elem_of_cons in Hg as [->|Hg]; [cbn; first [lia | done]|])); by apply not_elem_of_nil in Hg.
Qed.

(** ** Facts: words *)

Lemma load_words_ok pre l post i : i = length pre -> load_words (pre ++ l ++ post) i (length l) = Ok l.
Proof.
  intros ->. revert pre. induction l as [|x l IH]; intros pre; [done|]. cbn [length load_words app]. unfold rd.
  rewrite list_lookup_middle by done. cbn [lift_opt]. rewrite bind_ok.
  specialize (IH (pre ++ [x])). rewrite length_app in IH. cbn in IH. rewrite Nat.add_1_r in IH. rewrite <- app_assoc in IH. cbn in IH.
  by rewrite IH.
Qed.

Lemma store_words_ok pre old post l i : i = length pre -> length old = length l ->
  store_words (pre ++ old ++ post) i l = Ok (pre ++ l ++ post).
Proof.
  intros ->. revert pre old. induction l as [|x l IH]; intros pre [|y old] Hlen; try done. cbn [store_words]. unfold wr, rd.
  cbn [app]. rewrite list_lookup_middle by done. cbn [lift_opt]. rewrite !bind_ok.
  rewrite insert_app_r_alt, Nat.sub_diag by lia. cbn.
  specialize (IH (pre ++ [x]) old ltac:(cbn in Hlen; lia)). rewrite length_app in IH. cbn in IH. rewrite Nat.add_1_r in IH.
  rewrite <- !app_assoc in IH. cbn in IH. done.
Qed.

(** ** A log of keys *)

(** A key as its words; the field says how many pointers there are. *)
Record key : Type := Key { k_high : Z; k_low : Z; k_ptrs : list Z }.
Definition key_ok (x : key) : Prop := BITMASK 60 3 (k_high x) = zlen (k_ptrs x).
Definition key_words (x : key) : list Z := k_high x :: k_low x :: k_ptrs x.

Lemma length_key_words x : length (key_words x) = (2 + length (k_ptrs x))%nat.
Proof. done. Qed.

Lemma bkey_u64s_ok pre x post i : key_ok x -> i = length pre ->
  bkey_u64s (pre ++ key_words x ++ post) i = Ok (Z.of_nat (length (key_words x))).
Proof.
  intros Hx ->. unfold bkey_u64s, KEY_PTRS, KEY_FIELD, high, rd. cbn [key_words app]. rewrite list_lookup_middle by done.
  cbn [lift_opt]. rewrite !bind_ok, Hx. unfold zlen. rewrite length_key_words. f_equal. lia.
Qed.

Lemma bkey_copy_ok pre old post i src a x c : i = length pre -> key_ok x -> length old = length (key_words x) ->
  pre ++ old ++ post = a ++ key_words x ++ c -> src = length a ->
  bkey_copy (pre ++ old ++ post) i src = Ok (pre ++ key_words x ++ post).
Proof.
  intros Hi Hx Hold E ->. unfold bkey_copy, bkey_bytes. rewrite E, (bkey_u64s_ok a x c) by done. rewrite !bind_ok, Z.div_mul by done.
  rewrite Nat2Z.id, load_words_ok, bind_ok by done. rewrite <- E. by apply store_words_ok.
Qed.

(** [for (k = start; k != end; k = bkey_next (k))], reading each key. *)
Fixpoint bkey_walk (fuel : nat) (m : words) (k last : nat) : res (list (list Z)) :=
  match fuel with
  | O => Fault OutOfFuel
  | S fuel =>
      if decide (k = last) then Ok [] else
      n ← bkey_u64s m k;
      x ← load_words m k (Z.to_nat n);
      k ← bkey_next m k;
      xs ← bkey_walk fuel m k last;
      Ok (x :: xs)
  end.

(** Keys copied one behind the other, from where each is. *)
Fixpoint bkey_log (m : words) (dest : nat) (srcs : list nat) : res (words * nat) :=
  match srcs with
  | [] => Ok (m, dest)
  | src :: srcs =>
      m ← bkey_copy m dest src;
      dest ← bkey_next m dest;
      bkey_log m dest srcs
  end.

Lemma bkey_walk_ok post l : forall pre fuel, Forall key_ok l -> (length l < fuel)%nat ->
  bkey_walk fuel (pre ++ concat (key_words <$> l) ++ post) (length pre) (length pre + length (concat (key_words <$> l))) = Ok (key_words <$> l).
Proof.
  induction l as [|x l IH]; intros pre [|fuel] Hl Hfuel; try (cbn in Hfuel; lia).
  { cbn [bkey_walk]. by rewrite decide_True by (cbn; lia). }
  apply Forall_cons in Hl as [Hx Hl]. cbn [fmap list_fmap concat]. cbn [bkey_walk]. rewrite length_app, decide_False by (rewrite length_key_words; lia).
  rewrite <- !app_assoc. unfold bkey_next. rewrite (bkey_u64s_ok pre x) by done. rewrite !bind_ok, Nat2Z.id, load_words_ok, !bind_ok by done.
  specialize (IH (pre ++ key_words x) fuel Hl ltac:(cbn in Hfuel; lia)). rewrite length_app, <- app_assoc in IH.
  rewrite Nat.add_assoc, IH. done.
Qed.

(** The keys to be copied lie before the log. *)
Lemma bkey_log_ok l : forall pre copied room post k, Forall key_ok l ->
  length room = length (concat (key_words <$> l)) -> k = (length pre + length copied)%nat ->
  forall srcs, Forall2 (fun src x => exists a c, pre = a ++ key_words x ++ c /\ src = length a) srcs l ->
  bkey_log (pre ++ copied ++ room ++ post) k srcs
    = Ok (pre ++ copied ++ concat (key_words <$> l) ++ post, k + length (concat (key_words <$> l)))%nat.
Proof.
  induction l as [|x l IH]; intros pre copied room post k Hl Hroom Hk srcs Hs.
  - apply Forall2_nil_inv_r in Hs as ->. destruct room; [|done]. cbn. by rewrite Nat.add_0_r.
  - apply Forall2_cons_inv_r in Hs as (src & srcs' & (a & c & Hpre & Ha) & Hs & ->). apply Forall_cons in Hl as [Hx Hl].
    cbn [fmap list_fmap concat] in *. rewrite length_app in Hroom. cbn [bkey_log].
    set (r1 := take (length (key_words x)) room). set (r2 := drop (length (key_words x)) room).
    assert (Er : room = r1 ++ r2) by (unfold r1, r2; by rewrite take_drop).
    assert (Hr1 : length r1 = length (key_words x)) by (unfold r1; rewrite length_take; lia).
    assert (Hr2 : length r2 = length (concat (key_words <$> l))) by (unfold r2; rewrite length_drop; lia).
    replace (pre ++ copied ++ room ++ post) with ((pre ++ copied) ++ r1 ++ r2 ++ post) by (rewrite Er, <- !app_assoc; done).
    assert (Hk' : k = length (pre ++ copied)) by (by rewrite length_app).
    rewrite (bkey_copy_ok (pre ++ copied) r1 (r2 ++ post) k src a x (c ++ copied ++ r1 ++ r2 ++ post));
      [|done|done|done| by rewrite Hpre, <- !app_assoc |done].
    rewrite bind_ok. unfold bkey_next. rewrite bkey_u64s_ok, !bind_ok, Nat2Z.id by done.
    pose proof (IH pre (copied ++ key_words x) r2 post (k + length (key_words x))%nat Hl Hr2) as IH'.
    rewrite <- !app_assoc in IH' |- *. rewrite (IH' ltac:(rewrite length_app; lia) srcs' Hs). f_equal. f_equal. rewrite length_app. lia.
Qed.

(** ** Theorems *)

(** Keys that are copied one behind the other with bkey_copy and
    bkey_next, wherever they were before, are all found, word for word and in
    their order, by going from the first with bkey_next to the end; nothing
    else in memory changes. *)
Theorem bkey_log_roundtrip (l : list key) pre room post srcs : Forall key_ok l ->
  length room = length (concat (key_words <$> l)) ->
  Forall2 (fun src x => exists a c, pre = a ++ key_words x ++ c /\ src = length a) srcs l ->
  exists m last, bkey_log (pre ++ room ++ post) (length pre) srcs = Ok (m, last) /\
    last = bkey_idx (length pre) (length room) /\
    bkey_walk (S (length l)) m (length pre) last = Ok (key_words <$> l) /\
    take (length pre) m = pre /\ drop last m = post.
Proof.
  intros Hl Hroom Hs.
  pose proof (bkey_log_ok l pre [] room post (length pre) Hl Hroom ltac:(cbn; lia) srcs Hs) as E. cbn [app] in E.
  eexists _, _. split; [exact E|]. split; [unfold bkey_idx; by rewrite Hroom|].
  split; [apply bkey_walk_ok; [done | lia]|]. split; [by rewrite take_app_length|].
  rewrite app_assoc, <- length_app. apply drop_app_length.
Qed.

Definition demo_keys : list key := [Key (2 * 2 ^ 60 + 5) 40 [7; 8]; Key (2 ^ 63 + 9) 50 []].
Definition demo_before : list Z := concat (key_words <$> demo_keys).

Lemma bkey_log_roundtrip_witness : exists m last,
  bkey_log (demo_before ++ [0; 0; 0; 0; 0; 0] ++ [99]) 6 [4; 0]%nat = Ok (m, last) /\
  bkey_walk 3 m 6 last = Ok [[2 ^ 63 + 9; 50]; [2 * 2 ^ 60 + 5; 40; 7; 8]].
Proof.
  destruct (bkey_log_roundtrip (rev demo_keys) demo_before [0; 0; 0; 0; 0; 0] [99] [4; 0]%nat) as (m & last & E & _ & Hw & _).
  - repeat constructor.
  - reflexivity.
  - repeat constructor; [exists [2 * 2 ^ 60 + 5; 40; 7; 8], [] | exists [], [2 ^ 63 + 9; 50]]; done.
  - exists m, last. split; [exact E | exact Hw].
Defined.

(** Setting a field of a key changes that field alone: it reads back as the
    value cut to the size of the field, the other fields and all other words
    of memory are what they were. *)
Theorem key_field_set f m k v w : f ∈ key_fields -> m !! k = Some w -> 0 <= w < 2 ^ 64 ->
  exists m', SET_KEY_FIELD f.1 f.2 m k v = Ok m' /\ KEY_FIELD f.1 f.2 m' k = Ok (v mod 2 ^ f.2) /\
    (forall g, g ∈ key_fields -> g <> f -> KEY_FIELD g.1 g.2 m' k = KEY_FIELD g.1 g.2 m k) /\
    (forall j, j <> k -> m' !! j = m !! j).
Proof.
  intros Hf Hw Hr. pose proof (key_fields_fit f Hf) as Hfit. unfold SET_KEY_FIELD, KEY_FIELD, high, wr, rd. rewrite Hw.
  cbn [lift_opt]. rewrite !bind_ok. eexists. split; [done|]. rewrite list_lookup_insert_eq by (by eapply lookup_lt_Some). cbn [lift_opt].
  split; [by rewrite bind_ok, get_set|]. split.
  - intros g Hg Hne. rewrite !bind_ok. f_equal. apply get_set_other; [done | by apply key_fields_fit | by apply key_fields_disjoint | done].
  - intros j Hj. by rewrite list_lookup_insert_ne.
Qed.

(** The parts of a key and of a pointer come back from their words. *)
Theorem key_parts inode offset size gen poff dev ps :
  0 <= inode < 2 ^ 20 -> 0 <= size < 2 ^ 16 -> 0 <= gen < 2 ^ 8 -> 0 <= poff < 2 ^ 43 -> 0 <= dev < 2 ^ 12 ->
  let m := (KEY inode offset size).1 :: (KEY inode offset size).2 :: MAKE_PTR gen poff dev :: ps in
  KEY_INODE m 0 = Ok inode /\ KEY_SIZE m 0 = Ok size /\ KEY_OFFSET m 0 = Ok offset /\ KEY_PTRS m 0 = Ok 0 /\
  PTR_GEN m 0 0 = Ok gen /\ PTR_OFFSET m 0 0 = Ok poff /\ PTR_DEV m 0 0 = Ok dev.
Proof.
  intros Hi Hs Hg Hp Hd m.
  assert (EK : (KEY inode offset size).1 = 2 ^ 63 + size * 2 ^ 20 + inode).
  { unfold KEY. cbn [fst]. rewrite !Z.shiftl_mul_pow2 by lia. rewrite !u64_small by lia. rewrite <- Z.lor_assoc.
    rewrite (lor_disjoint size inode 20) by lia. rewrite (lor_disjoint 1 _ 63) by lia. lia. }
  assert (EP : MAKE_PTR gen poff dev = dev * 2 ^ 51 + poff * 2 ^ 8 + gen).
  { unfold MAKE_PTR. rewrite !Z.shiftl_mul_pow2 by lia. rewrite !u64_small by lia. rewrite <- Z.lor_assoc.
    rewrite (lor_disjoint poff gen 8) by lia. rewrite (lor_disjoint dev _ 51) by lia. lia. }
  unfold m, KEY_INODE, KEY_SIZE, KEY_PTRS, KEY_OFFSET, KEY_FIELD, PTR_GEN, PTR_OFFSET, PTR_DEV, PTR_FIELD, high, low, ptr_word, rd.
  cbn [lookup list_lookup lift_opt Nat.add]. rewrite !bind_ok, EK, EP.
  split_and!; try done; f_equal;
    [apply (field_of _ _ _ (2 ^ 43 + size) _ 0) | apply (field_of _ _ _ (2 ^ 27) _ inode) | apply (field_of _ _ _ 1 _ (size * 2 ^ 20 + inode))
    |apply (field_of _ _ _ (dev * 2 ^ 43 + poff) _ 0) | apply (field_of _ _ _ dev _ gen) | apply (field_of _ _ _ 0 _ (poff * 2 ^ 8 + gen))];
    unfold fits, KEY_SIZE_BITS, PTR_DEV_BITS; lia.
Qed.

(** A key with all the pointers its field can count does not fit into a
    padded key: bkey_copy writes one word behind the [BKEY_PAD] words. *)
Theorem bkey_copy_overruns x : key_ok x -> length (k_ptrs x) = 7%nat ->
  bkey_copy (key_words x ++ replicate BKEY_PAD 0) 9 0 = Fault OutOfBounds /\ (length (key_words x) = S BKEY_PAD)%nat.
Proof.
  intros Hx Hn. destruct x as [hi lo ps]. cbn [k_ptrs] in Hn. do 7 (destruct ps as [|? ps]; [done|]). destruct ps; [|done].
  split; [|done]. unfold bkey_copy, bkey_bytes, bkey_u64s, KEY_PTRS, KEY_FIELD, high, rd, key_ok in *. cbn [k_high k_ptrs] in Hx.
  cbn [key_words k_high k_low k_ptrs app lookup list_lookup lift_opt]. rewrite !bind_ok, Hx. reflexivity.
Qed.
