(* ===== verification/Obstack.v ===== *)
(** * Object stacks (obstack.h)

    The macros of obstack.h, in their version for GNU C.  Addresses are
    integers, because the macros align them; a cell of memory is absent,
    uninitialised or a character.  The functions in obstack.c are not in the
    sources: [_obstack_newchunk] and the freeing of older chunks are
    parameters. *)

From stdpp Require Import base numbers strings gmap list.
From S2P Require Import Prelude CMem ByteOrder.

#[local] Open Scope Z_scope.

Abbreviation cell := (option char).

(** Memory: its cells, and the member prev of each chunk. *)
Record omem : Type := OMem { cells : gmap Z cell; prev_of : gmap Z Z }.

(** struct obstack; the members for the functions of the caller and the
    temporary are not used by these macros. *)
Record obstack : Type := Obstack {
  chunk_size : Z;
  chunk : Z;
  object_base : Z;
  next_free : Z;
  chunk_limit : Z;
  alignment_mask : Z;
  maybe_empty_object : bool
}.

Definition state : Type := obstack * omem.

(** Members that the macros assign. *)
Definition set_next_free (o : obstack) (p : Z) : obstack :=
  Obstack (chunk_size o) (chunk o) (object_base o) p (chunk_limit o) (alignment_mask o) (maybe_empty_object o).
Definition set_object_base (o : obstack) (p : Z) : obstack :=
  Obstack (chunk_size o) (chunk o) p (next_free o) (chunk_limit o) (alignment_mask o) (maybe_empty_object o).
Definition set_maybe_empty (o : obstack) : obstack :=
  Obstack (chunk_size o) (chunk o) (object_base o) (next_free o) (chunk_limit o) (alignment_mask o) true.

(** Accesses to memory. *)
Fixpoint load (m : gmap Z cell) (a : Z) (n : nat) : res (list cell) :=
  match n with
  | O => Ok []
  | S n => c ← lift_opt OutOfBounds (m !! a); l ← load m (a + 1) n; Ok (c :: l)
  end.

Fixpoint put (m : gmap Z cell) (a : Z) (l : list cell) : res (gmap Z cell) :=
  match l with
  | [] => Ok m
  | c :: l => _ ← lift_opt OutOfBounds (m !! a); put (<[a := c]> m) (a + 1) l
  end.

(** memcpy(); a negative length is a huge size. *)
Definition copy_cells (m : gmap Z cell) (dst src n : Z) : res (gmap Z cell) :=
  if n <? 0 then Fault OutOfBounds else l ← load m src (Z.to_nat n); put m dst l.

(** sizeof(PTR_INT_TYPE) is sizeof(void star): aligned relative to 0. *)
Definition __BPTR_ALIGN (B P A : Z) : Z := B + Z.land (P - B + A) (Z.lnot A).
Definition __PTR_ALIGN (B P A : Z) : Z := __BPTR_ALIGN 0 P A.

Definition contents_offset : Z := 16.
Definition sizeof_ptr : nat := 8.
Definition sizeof_int : nat := 4.

(** _obstack_newchunk (h, length), and obstack_free() of obstack.c. *)
Class NewChunk : Type := newchunk : Z -> state -> state.
Class FreeOlder : Type := free_older : Z -> state -> state.

Definition obstack_base (st : state) : Z := object_base st.1.
Definition obstack_chunk_size (st : state) : Z := chunk_size st.1.
Definition obstack_next_free (st : state) : Z := next_free st.1.
Definition obstack_alignment_mask (st : state) : Z := alignment_mask st.1.

(** Stores at next_free, which moves behind. *)
Definition store_next (l : list cell) (st : state) : res state :=
  let '(o, m) := st in
  c ← put (cells m) (next_free o) l;
  Ok (set_next_free o (next_free o + zlen l), OMem c (prev_of m)).

(** An assignment through a pointer to a pointer or to an int: the address is
    a multiple of its size. *)
Definition store_word (l : list cell) (st : state) : res state :=
  if next_free st.1 mod zlen l =? 0 then store_next l st else Fault Misaligned.

Definition obstack_1grow_fast (achar : char) : state -> res state := store_next [Some achar].
Definition obstack_ptr_grow_fast (aptr : Z) : state -> res state := store_word (Some <$> le_bytes sizeof_ptr aptr).
Definition obstack_int_grow_fast (aint : Z) : state -> res state := store_word (Some <$> le_bytes sizeof_int aint).
Definition obstack_blank_fast (n : Z) (st : state) : state := (set_next_free st.1 (next_free st.1 + n), st.2).

Definition obstack_object_size (st : state) : Z := u32 (next_free st.1 - object_base st.1).
Definition obstack_room (st : state) : Z := u32 (chunk_limit st.1 - next_free st.1).

Definition obstack_empty_p (st : state) : res bool :=
  let '(o, m) := st in
  prev ← lift_opt UseAfterFree (prev_of m !! chunk o);
  Ok ((prev =? 0) && (next_free o =? __PTR_ALIGN (chunk o) (chunk o + contents_offset) (alignment_mask o))).

Section Obstack.
Context `{NewChunk}.

Definition obstack_make_room (length : Z) (st : state) : state :=
  let __len := s32 length in
  if chunk_limit st.1 - next_free st.1 <? __len then newchunk __len st else st.

Definition obstack_grow (where_ length : Z) (st : state) : res state :=
  let __len := s32 length in
  let '(o, m) := if chunk_limit st.1 <? next_free st.1 + __len then newchunk __len st else st in
  c ← copy_cells (cells m) (next_free o) where_ __len;
  Ok (set_next_free o (next_free o + __len), OMem c (prev_of m)).

Definition obstack_grow0 (where_ length : Z) (st : state) : res state :=
  let __len := s32 length in
  let '(o, m) := if chunk_limit st.1 <? next_free st.1 + __len + 1 then newchunk (__len + 1) st else st in
  c ← copy_cells (cells m) (next_free o) where_ __len;
  store_next [Some NUL] (set_next_free o (next_free o + __len), OMem c (prev_of m)).

Definition obstack_1grow (datum : char) (st : state) : res state :=
  obstack_1grow_fast datum (if chunk_limit st.1 <? next_free st.1 + 1 then newchunk 1 st else st).

Definition obstack_ptr_grow (datum : Z) (st : state) : res state :=
  obstack_ptr_grow_fast datum
    (if chunk_limit st.1 <? next_free st.1 + Z.of_nat sizeof_ptr then newchunk (Z.of_nat sizeof_ptr) st else st).

Definition obstack_int_grow (datum : Z) (st : state) : res state :=
  obstack_int_grow_fast datum
    (if chunk_limit st.1 <? next_free st.1 + Z.of_nat sizeof_int then newchunk (Z.of_nat sizeof_int) st else st).

Definition obstack_blank (length : Z) (st : state) : state :=
  let __len := s32 length in
  obstack_blank_fast __len (if chunk_limit st.1 - next_free st.1 <? __len then newchunk __len st else st).

Definition obstack_finish (st : state) : Z * state :=
  let '(o, m) := st in
  let __value := object_base o in
  let o := if next_free o =? __value then set_maybe_empty o else o in
  let o := set_next_free o (__PTR_ALIGN (object_base o) (next_free o) (alignment_mask o)) in
  let o := if chunk_limit o - chunk o <? next_free o - chunk o then set_next_free o (chunk_limit o) else o in
  let o := set_object_base o (next_free o) in
  (__value, (o, m)).

Definition obstack_alloc (length : Z) (st : state) : Z * state := obstack_finish (obstack_blank length st).

Definition obstack_copy (where_ length : Z) (st : state) : res (Z * state) :=
  st ← obstack_grow where_ length st; Ok (obstack_finish st).

Definition obstack_copy0 (where_ length : Z) (st : state) : res (Z * state) :=
  st ← obstack_grow0 where_ length st; Ok (obstack_finish st).

Definition obstack_free `{FreeOlder} (obj : Z) (st : state) : state :=
  let '(o, m) := st in
  if (chunk o <? obj) && (obj <? chunk_limit o) then (set_next_free (set_object_base o obj) obj, m)
  else free_older obj st.
End Obstack.

(** ** What an object stack holds *)

Definition first_object (o : obstack) : Z := __PTR_ALIGN (chunk o) (chunk o + contents_offset) (alignment_mask o).

(** The cells [l] are at [a]. *)
Definition reads (m : gmap Z cell) (a : Z) (l : list cell) : Prop :=
  forall i x, l !! i = Some x -> m !! (a + Z.of_nat i) = Some x.

(** Where the object that grows may be written, or the header of its chunk is. *)
Definition in_use (o : obstack) (a : Z) : Prop :=
  object_base o <= a < chunk_limit o \/ chunk o <= a < first_object o.

Record inv (k : Z) (st : state) (kept : list (Z * list cell)) (cur : list cell) : Prop := Inv {
  inv_mask : 0 <= k /\ alignment_mask st.1 = 2 ^ k - 1;
  inv_order : first_object st.1 <= object_base st.1 <= next_free st.1 /\ next_free st.1 <= chunk_limit st.1;
  inv_aligned : object_base st.1 mod 2 ^ k = 0 \/ object_base st.1 = chunk_limit st.1;
  inv_there : forall a, first_object st.1 <= a < chunk_limit st.1 -> is_Some (cells st.2 !! a);
  inv_cur : reads (cells st.2) (object_base st.1) cur /\ zlen cur = next_free st.1 - object_base st.1;
  inv_kept : Forall (fun '(p, c) => reads (cells st.2) p c /\ forall a, p <= a < p + zlen c -> ~ in_use st.1 a) kept
}.

(** What _obstack_newchunk() is documented to do: a new chunk in memory that
    was not in use, with room for [len] more characters behind the growing
    object, which is copied to its beginning; what else is in memory stays,
    but for the old place of the object and the header of its chunk, when it
    was the only object there. *)
Class NewChunkSpec (N : NewChunk) : Prop := newchunk_spec (len : Z) (st : state) k cur :
  0 <= len -> 0 <= k -> alignment_mask st.1 = 2 ^ k - 1 ->
  reads (cells st.2) (object_base st.1) cur -> zlen cur = next_free st.1 - object_base st.1 ->
  let st' := newchunk len st in
  alignment_mask st'.1 = alignment_mask st.1 /\ object_base st'.1 = first_object st'.1 /\
  next_free st'.1 = object_base st'.1 + zlen cur /\ next_free st'.1 + len <= chunk_limit st'.1 /\
  (forall a, object_base st'.1 <= a < chunk_limit st'.1 -> is_Some (cells st'.2 !! a)) /\
  (forall a, chunk st'.1 <= a < chunk_limit st'.1 -> cells st.2 !! a = None) /\
  reads (cells st'.2) (object_base st'.1) cur /\
  (forall a x, cells st.2 !! a = Some x -> ~ in_use st.1 a -> cells st'.2 !! a = Some x).
