(* ===== verification/ObstackFacts.v ===== *)
(** * Object stacks: facts

    Reading and writing of cells, and that each macro keeps the invariant. *)

From stdpp Require Import base numbers strings gmap list.
From S2P Require Import Prelude CMem ByteOrder Obstack.

#[local] Open Scope Z_scope.

(** ** Cells *)

Lemma load_ok m l : forall a, reads m a l -> load m a (length l) = Ok l.
Proof.
  induction l as [|c l IH]; intros a Hr; cbn [load length]; [done|].
  pose proof (Hr 0%nat c eq_refl) as H0. rewrite Z.add_0_r in H0. rewrite H0. cbn [lift_opt]. rewrite bind_ok, IH; [done|].
  intros i x Hx. replace (a + 1 + Z.of_nat i) with (a + Z.of_nat (S i)) by lia. by apply Hr.
Qed.

(** What a store leaves: the new cells, and the others as they were. *)
Lemma put_ok l : forall m a, (forall b, a <= b < a + zlen l -> is_Some (m !! b)) ->
  exists m', put m a l = Ok m' /\ reads m' a l /\ (forall b, ~ a <= b < a + zlen l -> m' !! b = m !! b) /\
    (forall b, is_Some (m !! b) -> is_Some (m' !! b)).
Proof.
  induction l as [|c l IH]; intros m a Hm; cbn [put].
  - exists m. by repeat split.
  - assert (Hz : zlen (c :: l) = zlen l + 1) by (unfold zlen; cbn [length]; lia). pose proof (zlen_nonneg l).
    destruct (Hm a ltac:(lia)) as [c0 ->]. cbn [lift_opt]. rewrite bind_ok.
    destruct (IH (<[a := c]> m) (a + 1)) as (m' & -> & Hr & Ho & Hs).
    { intros b Hb. rewrite lookup_insert_ne by lia. apply Hm. lia. }
    exists m'. split; [done|]. split; [|split].
    + intros [|i] x Hx.
      * injection Hx as <-. rewrite Z.add_0_r, Ho by lia. apply lookup_insert_eq.
      * replace (a + Z.of_nat (S i)) with (a + 1 + Z.of_nat i) by lia. by apply Hr.
    + intros b Hb. rewrite Ho by lia. apply lookup_insert_ne. lia.
    + intros b Hb. apply Hs. destruct (decide (a = b)) as [->|]; [rewrite lookup_insert_eq | rewrite lookup_insert_ne by done]; eauto.
Qed.

Lemma reads_other m m' a l : reads m a l -> (forall b, a <= b < a + zlen l -> m' !! b = m !! b) -> reads m' a l.
Proof.
  intros Hr Hm i x Hx. rewrite Hm; [by apply Hr|]. pose proof (lookup_lt_Some _ _ _ Hx). unfold zlen. lia.
Qed.

Lemma reads_app m a l k : reads m a (l ++ k) <-> reads m a l /\ reads m (a + zlen l) k.
Proof.
  unfold reads, zlen. split.
  - intros Hr. split; intros i x Hx.
    + apply Hr. by apply lookup_app_l_Some.
    + rewrite <- Z.add_assoc, <- Nat2Z.inj_add. apply Hr. rewrite lookup_app_r by lia. by rewrite Nat.add_sub'.
  - intros [Hl Hk] i x Hx. apply lookup_app_Some in Hx as [Hx|[Hi Hx]]; [by apply Hl|].
    replace (a + Z.of_nat i) with (a + Z.of_nat (length l) + Z.of_nat (i - length l)) by lia. by apply Hk.
Qed.

(** What is there can be read. *)
Lemma reads_some m n : forall a, (forall b, a <= b < a + Z.of_nat n -> is_Some (m !! b)) ->
  exists l, length l = n /\ reads m a l.
Proof.
  induction n as [|n IH]; intros a Ha; [by exists []|].
  destruct (Ha a ltac:(lia)) as [c Hc]. destruct (IH (a + 1)) as (l & Hl & Hr); [intros b Hb; apply Ha; lia|].
  exists (c :: l). split; [cbn; lia|]. intros [|i] x Hx.
  - injection Hx as <-. by rewrite Z.add_0_r.
  - replace (a + Z.of_nat (S i)) with (a + 1 + Z.of_nat i) by lia. by apply Hr.
Qed.

(** ** Alignment *)

Lemma ptr_align B P k : 0 <= k -> __PTR_ALIGN B P (2 ^ k - 1) = next_multiple P (2 ^ k).
Proof.
  intros Hk. unfold __PTR_ALIGN, __BPTR_ALIGN, next_multiple. rewrite land_not_mask by done.
  replace (P - 0 + (2 ^ k - 1)) with (P + 2 ^ k - 1) by lia. lia.
Qed.

Lemma first_object_aligned o k : 0 <= k -> alignment_mask o = 2 ^ k - 1 ->
  first_object o mod 2 ^ k = 0 /\ chunk o + contents_offset <= first_object o.
Proof.
  intros Hk Hm. unfold first_object. rewrite Hm, ptr_align by done. assert (0 < 2 ^ k) by (apply Z.pow_pos_nonneg; lia).
  split; [by apply next_multiple_mod | by apply next_multiple_bounds].
Qed.

(** ** The macros keep the invariant *)

Section facts.
Context `{Hs : NewChunkSpec} {k : Z}.

(** A kept object is in memory. *)
Lemma kept_there m p c a : reads m p c -> p <= a < p + zlen c -> exists x, m !! a = Some x.
Proof.
  intros Hr Ha. destruct (lookup_lt_is_Some_2 c (Z.to_nat (a - p))) as [x Hx]; [unfold zlen in Ha; lia|].
  exists x. replace a with (p + Z.of_nat (Z.to_nat (a - p))) by lia. by apply Hr.
Qed.

Lemma newchunk_inv st kept cur len : inv k st kept cur -> 0 <= len ->
  inv k (newchunk len st) kept cur /\ next_free (newchunk len st).1 + len <= chunk_limit (newchunk len st).1.
Proof.
  intros [[Hk Hm] Ho Hal Hth [Hcur Hlen] Hkept] Hn.
  destruct (newchunk_spec len st k cur Hn Hk Hm Hcur Hlen) as (Em & Eb & Ef & Hroom & Ht & Hfresh & Hc & Hrest).
  set (st' := newchunk len st) in *. pose proof (zlen_nonneg cur). split; [|done].
  destruct (first_object_aligned st'.1 k Hk ltac:(lia)) as [Ha1 Ha2]. split.
  - split; [done|]. lia.
  - lia.
  - left. by rewrite Eb.
  - by rewrite <- Eb.
  - split; [done|lia].
  - eapply Forall_impl; [exact Hkept|]. intros [p c] [Hr Hd]. split.
    + intros i x Hx. apply Hrest; [by apply Hr|]. apply Hd. pose proof (lookup_lt_Some _ _ _ Hx). unfold zlen. lia.
    + intros a Ha Hu. destruct (kept_there _ _ _ _ Hr Ha) as [x Hx]. rewrite Hfresh in Hx; [done|].
      unfold contents_offset in Ha2. destruct Hu; lia.
Qed.

(** Room is made where there is none. *)
Lemma room_inv st kept cur len b : inv k st kept cur -> 0 <= len ->
  b = (chunk_limit st.1 <? next_free st.1 + len) ->
  let st' := if b then newchunk len st else st in
  inv k st' kept cur /\ next_free st'.1 + len <= chunk_limit st'.1.
Proof.
  intros Hi Hn ->. destruct (Z.ltb_spec (chunk_limit st.1) (next_free st.1 + len)); cbn zeta; [by apply newchunk_inv|].
  split; [done|lia].
Qed.

(** The object grows by what is written behind it. *)
Lemma append_inv o m kept cur l c : inv k (o, m) kept cur -> next_free o + zlen l <= chunk_limit o ->
  put (cells m) (next_free o) l = Ok c ->
  inv k (set_next_free o (next_free o + zlen l), OMem c (prev_of m)) kept (cur ++ l).
Proof.
  intros [Hm Ho Hal Hth [Hcur Hlen] Hkept] Hroom Hp. cbn [fst snd] in *. pose proof (zlen_nonneg l).
  destruct (put_ok l (cells m) (next_free o)) as (c' & Hc & Hr & Hout & Hin); [intros b Hb; apply Hth; lia|].
  rewrite Hp in Hc. injection Hc as <-. split; cbn [fst snd set_next_free alignment_mask object_base next_free chunk_limit chunk cells] in *.
  - done.
  - unfold first_object in *. cbn in *. lia.
  - done.
  - intros a Ha. apply Hin, Hth, Ha.
  - split; [|unfold zlen in *; rewrite length_app; lia]. apply reads_app. rewrite Hlen. split.
    + eapply reads_other; [exact Hcur|]. intros b Hb. apply Hout. lia.
    + by replace (object_base o + (next_free o - object_base o)) with (next_free o) by lia.
  - eapply Forall_impl; [exact Hkept|]. intros [p d] [Hrd Hd]. split; [|done].
    eapply reads_other; [exact Hrd|]. intros b Hb. apply Hout. intros Hb'. apply (Hd b Hb). left. cbn. lia.
Qed.

Lemma put_room st kept cur l : inv k st kept cur -> next_free st.1 + zlen l <= chunk_limit st.1 ->
  exists c, put (cells st.2) (next_free st.1) l = Ok c.
Proof.
  intros [_ Ho _ Hth _ _] Hroom. destruct (put_ok l (cells st.2) (next_free st.1)) as (c & Hc & _); [|by exists c].
  intros b Hb. apply Hth. lia.
Qed.

Lemma store_next_inv st kept cur l : inv k st kept cur -> next_free st.1 + zlen l <= chunk_limit st.1 ->
  exists st', store_next l st = Ok st' /\ inv k st' kept (cur ++ l).
Proof.
  destruct st as [o m]. intros Hi Hroom. destruct (put_room _ _ _ l Hi Hroom) as [c Hc]. cbn [fst snd] in *.
  unfold store_next. rewrite Hc, bind_ok. eexists. split; [done|]. by apply append_inv.
Qed.

(** Copying of a kept object behind the growing one. *)
Lemma copy_inv o m kept cur p d : inv k (o, m) kept cur -> (p, d) ∈ kept -> next_free o + zlen d <= chunk_limit o ->
  exists c, copy_cells (cells m) (next_free o) p (zlen d) = Ok c /\
    inv k (set_next_free o (next_free o + zlen d), OMem c (prev_of m)) kept (cur ++ d).
Proof.
  intros Hi Hd Hroom. pose proof (zlen_nonneg d). destruct (put_room _ _ _ d Hi Hroom) as [c Hc]. cbn [fst snd] in Hc.
  exists c. split; [|by apply append_inv]. unfold copy_cells. rewrite (proj2 (Z.ltb_ge _ _)) by lia.
  destruct (Hi) as [_ _ _ _ _ Hkept]. destruct (proj1 (Forall_forall _ _) Hkept _ Hd) as [Hr _].
  unfold zlen. rewrite Nat2Z.id. cbn [snd] in Hr. by rewrite (load_ok _ _ _ Hr), bind_ok.
Qed.

(** obstack_blank: the object grows by cells with any contents, or gets shorter. *)
Lemma blank_inv st kept cur n : inv k st kept cur -> - zlen cur <= n < 2 ^ 31 -> - 2 ^ 31 <= n ->
  exists l, inv k (obstack_blank n st) kept (if n <? 0 then take (Z.to_nat (zlen cur + n)) cur else cur ++ l) /\
    (0 <= n -> zlen l = n).
Proof.
  intros Hi Hn Hn'. unfold obstack_blank. rewrite s32_small by lia.
  destruct (Z.ltb_spec n 0) as [Hneg|Hpos].
  - exists []. split; [|lia]. destruct (Hi) as [Hm Ho Hal Hth [Hcur Hlen] Hkept].
    rewrite (proj2 (Z.ltb_ge _ _)) by lia. unfold obstack_blank_fast.
    split; cbn [fst snd set_next_free alignment_mask object_base next_free chunk_limit chunk cells] in *; try done.
    + unfold first_object in *. cbn in *. lia.
    + split; [|unfold zlen in *; rewrite length_take; lia]. intros i x Hx. apply Hcur.
      apply lookup_take_Some in Hx. by destruct Hx.
  - destruct (room_inv st kept cur n (chunk_limit st.1 - next_free st.1 <? n) Hi Hpos) as [Hi' Hroom].
    { apply eq_true_iff_eq. rewrite !Z.ltb_lt. lia. }
    set (st' := if chunk_limit st.1 - next_free st.1 <? n then newchunk n st else st) in *. destruct (Hi') as [Hm Ho Hal Hth [Hcur Hlen] Hkept].
    destruct (reads_some (cells st'.2) (Z.to_nat n) (next_free st'.1)) as (l & Hl & Hr); [intros b Hb; apply Hth; lia|].
    assert (Hz : zlen l = n) by (unfold zlen; lia). exists l. split; [|done]. unfold obstack_blank_fast.
    split; cbn [fst snd set_next_free alignment_mask object_base next_free chunk_limit chunk cells] in *; try done.
    + unfold first_object in *. cbn in *. lia.
    + split; [|unfold zlen in *; rewrite length_app; lia]. apply reads_app. split; [done|].
      by replace (object_base st'.1 + zlen cur) with (next_free st'.1) by lia.
Qed.

(** obstack_finish: the object is kept where it is, and an empty one begins. *)
Lemma finish_inv st kept cur : inv k st kept cur ->
  let '(p, st') := obstack_finish st in
  inv k st' ((p, cur) :: kept) [] /\ (cur <> [] -> p mod 2 ^ k = 0) /\ p = object_base st.1.
Proof.
  destruct st as [o m]. intros [[Hk Hm] Ho Hal Hth [Hcur Hlen] Hkept]. cbn [fst snd] in *.
  unfold obstack_finish. set (o1 := if next_free o =? object_base o then set_maybe_empty o else o).
  assert (E : chunk o1 = chunk o /\ object_base o1 = object_base o /\ next_free o1 = next_free o /\
    chunk_limit o1 = chunk_limit o /\ alignment_mask o1 = alignment_mask o) by (unfold o1; by case_match).
  destruct E as (E1 & E2 & E3 & E4 & E5). rewrite E2, E3, E5, Hm, ptr_align by done.
  assert (H2k : 0 < 2 ^ k) by (apply Z.pow_pos_nonneg; lia).
  pose proof (next_multiple_bounds (next_free o) (2 ^ k) H2k) as Hb.
  pose proof (next_multiple_mod (next_free o) (2 ^ k) H2k) as Hmod. set (q := next_multiple (next_free o) (2 ^ k)) in *.
  cbn [set_next_free next_free chunk_limit chunk]. rewrite E1, E4. match goal with |- context [set_object_base ?x _] => set (o2 := x) end.
  assert (F : chunk o2 = chunk o /\ chunk_limit o2 = chunk_limit o /\ alignment_mask o2 = alignment_mask o /\
    next_free o2 = Z.min q (chunk_limit o)).
  { unfold o2. destruct (Z.ltb_spec (chunk_limit o - chunk o) (q - chunk o)); cbn; rewrite ?E1, ?E4, ?E5; repeat split; lia. }
  destruct F as (F1 & F4 & F5 & F3).
  assert (Ef : forall b, first_object (set_object_base o2 b) = first_object o) by (intros; unfold first_object; cbn; by rewrite F1, F5).
  split; [|split]; [|intros Hne|done].
  - split; cbn [fst snd]; rewrite ?Ef; cbn [set_object_base alignment_mask object_base next_free chunk_limit chunk cells].
    + split; [done|]. lia.
    + lia.
    + rewrite F3, F4.
      destruct (Z.min_spec q (chunk_limit o)) as [[_ ->]|[_ ->]]; [by left | by right].
    + by rewrite F4.
    + split; [done|]. unfold zlen. cbn. lia.
    + assert (Hu : forall a, in_use (set_object_base o2 (next_free o2)) a -> next_free o <= a < chunk_limit o \/ chunk o <= a < first_object o).
      { intros a. unfold in_use. rewrite Ef. cbn. rewrite F1, F4, F3. lia. }
      constructor.
      * split; [done|]. intros a Ha Hin. apply Hu in Hin. lia.
      * eapply Forall_impl; [exact Hkept|]. intros [p c] [Hr Hd]. split; [done|]. intros a Ha Hin. apply (Hd a Ha).
        apply Hu in Hin. unfold in_use. lia.
  - destruct Hal as [Hal|Hal]; [done|]. exfalso. apply Hne. destruct cur; [done|]. unfold zlen in Hlen. cbn in Hlen. lia.
Qed.

(** obstack_free of an object of the current chunk: it and what follows it is
    released, the rest is kept. *)
Lemma free_inv `{FreeOlder} st kept cur p : inv k st kept cur ->
  first_object st.1 <= p <= object_base st.1 -> p < chunk_limit st.1 -> p mod 2 ^ k = 0 ->
  inv k (obstack_free p st) (filter (fun x => x.1 + zlen x.2 <= p \/ chunk_limit st.1 <= x.1 \/ x.1 + zlen x.2 <= chunk st.1) kept) [].
Proof.
  destruct st as [o m]. intros [[Hk Hm] Ho Hal Hth [Hcur Hlen] Hkept] Hp Hlim Hmod. cbn [fst snd] in *.
  destruct (first_object_aligned o k Hk Hm) as [_ Hfirst]. unfold contents_offset in Hfirst.
  unfold obstack_free. rewrite (proj2 (Z.ltb_lt _ _)), (proj2 (Z.ltb_lt _ _)) by lia. cbn [andb].
  assert (Ef : first_object (set_next_free (set_object_base o p) p) = first_object o) by done.
  split; cbn [fst snd]; rewrite ?Ef; cbn [set_next_free set_object_base alignment_mask object_base next_free chunk_limit chunk cells].
  - done.
  - lia.
  - by left.
  - done.
  - split; [done|]. unfold zlen. cbn. lia.
  - apply Forall_forall. intros [q c] [Hq Hin]%list_elem_of_filter. cbn [fst snd] in Hq.
    destruct (proj1 (Forall_forall _ _) Hkept _ Hin) as [Hr Hd]. split; [done|]. intros a Ha. unfold in_use. rewrite Ef. cbn.
    specialize (Hd a Ha). unfold in_use in Hd. lia.
Qed.
End facts.
