(* ===== verification/ObstackProps.v ===== *)
(** * Properties of object stacks

    Objects that are grown piece by piece and finished: their contents, their
    addresses, and that they stay. *)

From stdpp Require Import base numbers strings gmap list.
From S2P Require Import Prelude CMem CText ByteOrder Obstack ObstackFacts.

#[local] Open Scope Z_scope.

(** ** Growing an object *)

(** The pieces of an object: what is copied is known by its address and its
    cells. *)
Inductive piece : Type :=
| Copy (p : Z) (d : list cell)
| Copy0 (p : Z) (d : list cell)
| Char (c : char)
| Ptr (z : Z)
| Int (z : Z)
| Blank (n : Z).

Definition valid (kept : list (Z * list cell)) (g : piece) : Prop :=
  match g with
  | Copy p d => (p, d) ∈ kept /\ zlen d < 2 ^ 31
  | Copy0 p d => (p, d) ∈ kept /\ zlen d < 2 ^ 31 - 1
  | Blank n => 0 <= n < 2 ^ 31
  | _ => True
  end.

(** obstack.h asks for an alignment of the object stack that is good enough
    for pointers or ints, and for such data only where the data added so far
    shares that alignment: [off] characters are in the object, which starts
    at a multiple of 2^k. *)
Definition piece_size (g : piece) : Z :=
  match g with Copy _ d => zlen d | Copy0 _ d => zlen d + 1 | Char _ => 1 | Ptr _ => 8 | Int _ => 4 | Blank n => n end.

Definition fitting (k off : Z) (g : piece) : Prop :=
  match g with
  | Ptr _ => 3 <= k /\ off mod 8 = 0
  | Int _ => 2 <= k /\ off mod 4 = 0
  | _ => True
  end.

Fixpoint placed (k off : Z) (gs : list piece) : Prop :=
  match gs with [] => True | g :: gs => fitting k off g /\ placed k (off + piece_size g) gs end.

Lemma placed_mono k k' gs : k <= k' -> forall off, placed k off gs -> placed k' off gs.
Proof.
  intros Hk. induction gs as [|g gs IH]; intros off Hp; [done|]. destruct Hp as [Hf Hp].
  split; [|by apply IH]. destruct g; cbn in *; try done; (split; [lia | apply Hf]).
Qed.

(** What a piece adds; the cells of a blank are not determined. *)
Inductive adds : piece -> list cell -> Prop :=
| adds_copy p d : adds (Copy p d) d
| adds_copy0 p d : adds (Copy0 p d) (d ++ [Some NUL])
| adds_char c : adds (Char c) [Some c]
| adds_ptr z : adds (Ptr z) (Some <$> le_bytes 8 z)
| adds_int z : adds (Int z) (Some <$> le_bytes 4 z)
| adds_blank n l : zlen l = n -> adds (Blank n) l.

Section build.
Context `{NewChunk}.

Definition grow (g : piece) (st : state) : res state :=
  match g with
  | Copy p d => obstack_grow p (zlen d) st
  | Copy0 p d => obstack_grow0 p (zlen d) st
  | Char c => obstack_1grow c st
  | Ptr z => obstack_ptr_grow z st
  | Int z => obstack_int_grow z st
  | Blank n => Ok (obstack_blank n st)
  end.

Fixpoint grows (gs : list piece) (st : state) : res state :=
  match gs with [] => Ok st | g :: gs => st ← grow g st; grows gs st end.

(** An object from its pieces, and several objects. *)
Fixpoint build (objects : list (list piece)) (st : state) : res (list Z * state) :=
  match objects with
  | [] => Ok ([], st)
  | gs :: rest =>
      st ← grows gs st;
      let '(p, st) := obstack_finish st in
      '(ps, st) ← build rest st;
      Ok (p :: ps, st)
  end.
End build.

Definition contents (gs : list piece) (c : list cell) : Prop := exists ls, Forall2 adds gs ls /\ c = concat ls.

(** Two objects that do not overlap. *)
Definition apart (x y : Z * list cell) : Prop :=
  x.2 = [] \/ y.2 = [] \/ x.1 + zlen x.2 <= y.1 \/ y.1 + zlen y.2 <= x.1.

Section facts.
Context `{Hs : NewChunkSpec} {k : Z}.

Lemma store_room st kept cur l : inv k st kept cur ->
  exists st', store_next l (if chunk_limit st.1 <? next_free st.1 + zlen l then newchunk (zlen l) st else st) = Ok st' /\
    inv k st' kept (cur ++ l).
Proof.
  intros Hi. destruct (room_inv st kept cur (zlen l) _ Hi (zlen_nonneg l) eq_refl) as [Hi' Hroom]. by apply store_next_inv.
Qed.

(** A pointer or an int where the object has the alignment for it. *)
Lemma word_room st kept cur l j : inv k st kept cur -> 0 <= j <= k -> zlen l = 2 ^ j -> zlen cur mod 2 ^ j = 0 ->
  exists st', store_word l (if chunk_limit st.1 <? next_free st.1 + zlen l then newchunk (zlen l) st else st) = Ok st' /\
    inv k st' kept (cur ++ l).
Proof.
  intros Hi Hj Hl Hcur. destruct (room_inv st kept cur (zlen l) _ Hi (zlen_nonneg l) eq_refl) as [Hi' Hroom].
  set (st1 := if chunk_limit st.1 <? next_free st.1 + zlen l then newchunk (zlen l) st else st) in *.
  assert (Hp : 0 < 2 ^ j) by (apply Z.pow_pos_nonneg; lia).
  destruct (Hi') as [_ Ho Hal _ [_ Hlen] _]. destruct Hal as [Hal|Hal]; [|lia].
  assert (Hm : next_free st1.1 mod 2 ^ j = 0).
  { replace (next_free st1.1) with (object_base st1.1 + zlen cur) by lia.
    apply Z.mod_divide; [lia|]. apply Z.divide_add_r; [|by apply Z.mod_divide; [lia|]].
    etrans; [|apply Z.mod_divide; [|exact Hal]; lia].
    exists (2 ^ (k - j)). rewrite <- Z.pow_add_r by lia. f_equal. lia. }
  unfold store_word. rewrite Hl, Hm. apply store_next_inv; [done|]. lia.
Qed.

Lemma adds_size g l : adds g l -> zlen l = piece_size g.
Proof.
  intros [p d|p d|c|z|z|n d Hd]; cbn [piece_size]; try done. by rewrite zlen_app.
Qed.

Lemma grow_inv st kept cur g : inv k st kept cur -> valid kept g -> fitting k (zlen cur) g ->
  exists st' l, grow g st = Ok st' /\ adds g l /\ inv k st' kept (cur ++ l).
Proof.
  intros Hi Hv Hf. destruct g as [p d|p d|c|z|z|n]; cbn [grow valid fitting] in *.
  - destruct Hv as [Hd Hlt]. pose proof (zlen_nonneg d). unfold obstack_grow. rewrite s32_small by lia.
    destruct (room_inv st kept cur (zlen d) _ Hi ltac:(lia) eq_refl) as [Hi' Hroom].
    set (st' := if chunk_limit st.1 <? next_free st.1 + zlen d then newchunk (zlen d) st else st) in *.
    destruct st' as [o m]. destruct (copy_inv o m kept cur p d Hi' Hd Hroom) as (c & -> & Hi'').
    rewrite bind_ok. eexists _, d. split; [done|]. split; [constructor | done].
  - destruct Hv as [Hd Hlt]. pose proof (zlen_nonneg d). unfold obstack_grow0. rewrite s32_small by lia.
    destruct (room_inv st kept cur (zlen d + 1) (chunk_limit st.1 <? next_free st.1 + zlen d + 1) Hi ltac:(lia)) as [Hi' Hroom].
    { by rewrite Z.add_assoc. }
    set (st' := if chunk_limit st.1 <? next_free st.1 + zlen d + 1 then newchunk (zlen d + 1) st else st) in *.
    destruct st' as [o m]. cbn [fst] in Hroom. destruct (copy_inv o m kept cur p d Hi' Hd ltac:(lia)) as (c & -> & Hi'').
    rewrite bind_ok. destruct (store_next_inv _ kept _ [Some NUL] Hi'') as (st2 & -> & Hi2).
    { unfold zlen at 2. cbn. lia. }
    exists st2, (d ++ [Some NUL]). split; [done|]. split; [constructor|]. by rewrite app_assoc.
  - destruct (store_room st kept cur [Some c] Hi) as (st' & E & Hi'). exists st', [Some c]. split; [exact E|]. split; [constructor | done].
  - destruct (word_room st kept cur (Some <$> le_bytes 8 z) 3 Hi) as (st' & E & Hi'); [lia|done|apply Hf|].
    unfold zlen in E. rewrite length_fmap, length_le_bytes in E. eexists st', _. split; [exact E|]. split; [constructor | done].
  - destruct (word_room st kept cur (Some <$> le_bytes 4 z) 2 Hi) as (st' & E & Hi'); [lia|done|apply Hf|].
    unfold zlen in E. rewrite length_fmap, length_le_bytes in E. eexists st', _. split; [exact E|]. split; [constructor | done].
  - pose proof (zlen_nonneg cur). destruct (blank_inv st kept cur n Hi ltac:(lia) ltac:(lia)) as (l & Hi' & Hl).
    rewrite (proj2 (Z.ltb_ge _ _)) in Hi' by lia. eexists _, l. split; [done|]. split; [constructor; lia | done].
Qed.

Lemma grows_inv gs : forall st kept cur, inv k st kept cur -> Forall (valid kept) gs -> placed k (zlen cur) gs ->
  exists st' c, grows gs st = Ok st' /\ contents gs c /\ inv k st' kept (cur ++ c).
Proof.
  induction gs as [|g gs IH]; intros st kept cur Hi Hv Hp; cbn [grows].
  - exists st, []. split; [done|]. split; [by exists []|]. by rewrite app_nil_r.
  - apply Forall_cons in Hv as [Hg Hv]. destruct Hp as [Hfit Hp]. destruct (grow_inv st kept cur g Hi Hg Hfit) as (st1 & l & -> & Hl & Hi1). rewrite bind_ok.
    destruct (IH st1 kept (cur ++ l) Hi1 Hv) as (st2 & c & -> & (ls & Hls & ->) & Hi2); [by rewrite zlen_app, (adds_size g l)|].
    exists st2, (l ++ concat ls). split; [done|]. split; [exists (l :: ls); split; [by constructor | done]|]. by rewrite app_assoc.
Qed.

(** The growing object overlaps nothing that is kept. *)
Lemma current_apart st kept cur : inv k st kept cur -> Forall (apart (object_base st.1, cur)) kept.
Proof.
  intros [_ Ho _ _ [_ Hlen] Hkept]. eapply Forall_impl; [exact Hkept|]. intros [q d] [_ Hd]. unfold apart. cbn [fst snd].
  destruct cur as [|c cur]; [by left|]. destruct d as [|x d]; [by right; left|]. right; right.
  pose proof (Hd (Z.max q (object_base st.1))) as Hm. unfold in_use in Hm.
  assert (0 < zlen (c :: cur) /\ 0 < zlen (x :: d)) by (unfold zlen; cbn; lia). lia.
Qed.

Lemma build_inv objects : forall st kept, inv k st kept [] -> Forall (Forall (valid kept)) objects -> Forall (placed k 0) objects ->
  exists ps st' cs, build objects st = Ok (ps, st') /\ Forall2 contents objects cs /\ length ps = length cs /\
    Forall (fun x => x.2 <> [] -> x.1 mod 2 ^ k = 0) (zip ps cs) /\
    Forall (fun x => Forall (apart x) kept) (zip ps cs) /\ ForallOrdPairs (fun x y => apart y x) (zip ps cs) /\
    inv k st' (rev (zip ps cs) ++ kept) [].
Proof.
  induction objects as [|gs objects IH]; intros st kept Hi Hv Hp; cbn [build].
  - exists [], st, []. split; [done|]. do 5 (split; [by constructor|]). done.
  - apply Forall_cons in Hv as [Hg Hv], Hp as [Hgp Hp]. destruct (grows_inv gs st kept [] Hi Hg Hgp) as (st1 & c & -> & Hc & Hi1). rewrite bind_ok.
    pose proof (finish_inv st1 kept c Hi1) as Hf. pose proof (current_apart st1 kept c Hi1) as Hap.
    destruct (obstack_finish st1) as [p st2]. destruct Hf as (Hi2 & Hal & ->).
    destruct (IH st2 ((object_base st1.1, c) :: kept) Hi2) as (ps & st' & cs & -> & Hcs & Hlen & Hps & Hsep & Hord & Hi').
    { eapply Forall_impl; [exact Hv|]. intros gs' Hgs'. eapply Forall_impl; [exact Hgs'|].
      intros [] Hx; cbn [valid] in *; try done; (split; [right; apply Hx | apply Hx]). }
    { done. }
    rewrite bind_ok. exists (object_base st1.1 :: ps), st', (c :: cs). cbn [zip zip_with].
    split; [done|]. split; [by constructor|]. split; [cbn; lia|]. split; [by constructor|]. split; [|split].
    + constructor; [done|]. eapply Forall_impl; [exact Hsep|]. intros x Hx. by apply Forall_cons in Hx as [_ Hx].
    + constructor; [|done]. eapply Forall_impl; [exact Hsep|]. intros x Hx. by apply Forall_cons in Hx as [Hx _].
    + cbn [rev]. by rewrite <- app_assoc.
Qed.
End facts.

(** ** A function that makes chunks *)

(** The first address above all memory in use. *)
Definition top (m : gmap Z cell) : Z := map_fold (fun a _ acc => Z.max (a + 1) acc) 0 m.

Lemma top_above m a x : m !! a = Some x -> a < top m.
Proof.
  revert a x. unfold top. apply (map_fold_weak_ind (fun r (m : gmap Z cell) => forall a x, m !! a = Some x -> a < r)).
  - intros a x Hx. by rewrite lookup_empty in Hx.
  - intros b y m' r Hb IH a x Hx. apply lookup_insert_Some in Hx as [[<- _]|[_ Hx]]; [lia|]. pose proof (IH a x Hx). lia.
Qed.

(** New cells from [a] on. *)
Fixpoint lay (m : gmap Z cell) (a : Z) (l : list cell) : gmap Z cell :=
  match l with [] => m | c :: l => <[a := c]> (lay m (a + 1) l) end.

Lemma lay_other m l : forall a b, ~ a <= b < a + zlen l -> lay m a l !! b = m !! b.
Proof.
  induction l as [|c l IH]; intros a b Hb; cbn [lay]; [done|].
  assert (zlen (c :: l) = zlen l + 1) by (unfold zlen; cbn; lia). pose proof (zlen_nonneg l).
  rewrite lookup_insert_ne by lia. apply IH. lia.
Qed.

Lemma lay_reads m l : forall a, reads (lay m a l) a l.
Proof.
  induction l as [|c l IH]; intros a i x Hx; [done|]. cbn [lay]. destruct i as [|i].
  - injection Hx as <-. rewrite Z.add_0_r. apply lookup_insert_eq.
  - rewrite lookup_insert_ne by lia. replace (a + Z.of_nat (S i)) with (a + 1 + Z.of_nat i) by lia. by apply IH.
Qed.

(** A chunk above all memory, with the object and room behind it; the old
    chunk stays. *)
Definition chunk_above : NewChunk := fun len st =>
  let '(o, m) := st in
  let obj := match load (cells m) (object_base o) (Z.to_nat (next_free o - object_base o)) with Ok l => l | Fault _ => [] end in
  let c := top (cells m) in
  let base := __PTR_ALIGN c (c + contents_offset) (alignment_mask o) in
  let l := obj ++ replicate (Z.to_nat (len + Z.max 0 (chunk_size o))) None in
  (Obstack (chunk_size o) c base (base + zlen obj) (base + zlen l) (alignment_mask o) false,
   OMem (lay (cells m) base l) (<[c := chunk o]> (prev_of m))).

#[global] Instance chunk_above_spec : NewChunkSpec chunk_above.
Proof.
  intros len [o m] k cur Hlen Hk Hm Hcur Hz. cbn [fst snd] in *. unfold chunk_above, newchunk.
  replace (Z.to_nat (next_free o - object_base o)) with (length cur) by (rewrite <- Hz; unfold zlen; lia).
  rewrite (load_ok _ _ _ Hcur). cbn [fst snd alignment_mask object_base next_free chunk_limit chunk cells].
  set (l := cur ++ replicate (Z.to_nat (len + Z.max 0 (chunk_size o))) None).
  set (base := __PTR_ALIGN _ _ _). assert (Hbase : top (cells m) <= base).
  { unfold base. rewrite Hm, ptr_align by done.
    pose proof (next_multiple_bounds (top (cells m) + contents_offset) (2 ^ k) ltac:(apply Z.pow_pos_nonneg; lia)).
    unfold contents_offset in *. lia. }
  assert (Hl : zlen l = zlen cur + len + Z.max 0 (chunk_size o)).
  { unfold l, zlen. rewrite length_app, length_replicate. lia. }
  do 3 (split; [done|]). split; [lia|]. split; [|split; [|split]].
  - intros a Ha. pose proof (lay_reads (cells m) l base (Z.to_nat (a - base))) as Hr.
    destruct (lookup_lt_is_Some_2 l (Z.to_nat (a - base))) as [x Hx]; [unfold zlen in *; lia|].
    apply Hr in Hx. replace (base + Z.of_nat (Z.to_nat (a - base))) with a in Hx by lia. by eexists.
  - intros a Ha. destruct (cells m !! a) as [x|] eqn:E; [|done]. apply top_above in E. lia.
  - exact (proj1 (proj1 (reads_app _ _ _ _) (lay_reads (cells m) l base))).
  - intros a x Hx _. rewrite lay_other; [done|]. apply top_above in Hx. lia.
Qed.

(** An empty object stack in a chunk of 8 characters, and a string elsewhere. *)
Definition demo_string : list cell := Some <$> lit "abcde".
Definition demo_stack : state :=
  (Obstack 8 984 1000 1000 1008 7 false, OMem (lay (lay ∅ 100 demo_string) 1000 (replicate 8 None)) {[ 984 := 0 ]}).

Lemma demo_stack_inv : inv 3 demo_stack [(100, demo_string)] [].
Proof.
  split; cbn [fst snd demo_stack alignment_mask object_base next_free chunk_limit].
  - done.
  - vm_compute. intuition discriminate.
  - by left.
  - intros a Ha. assert (Hr : 1000 <= a < 1008) by (vm_compute in Ha; vm_compute; exact Ha).
    destruct (lookup_lt_is_Some_2 (replicate 8 (None : cell)) (Z.to_nat (a - 1000))) as [x Hx]; [rewrite length_replicate; lia|].
    eapply (lay_reads (lay ∅ 100 demo_string)) in Hx. rewrite Z2Nat.id in Hx by lia.
    replace (1000 + (a - 1000)) with a in Hx by lia. by eexists.
  - done.
  - apply Forall_singleton. split.
    + intros i x Hx. pose proof (lookup_lt_Some _ _ _ Hx) as Hi. cbn in Hi. cbn [cells].
      rewrite lay_other by (change (zlen (replicate 8 None)) with 8; lia). by apply lay_reads.
    + intros a Ha. change (zlen demo_string) with 5 in Ha. unfold in_use.
      change (first_object (Obstack 8 984 1000 1000 1008 7 false)) with 1000. cbn. lia.
Qed.

(** ** Theorems *)

(** C30: objects built from pieces (copies with and without a terminator of
    what is kept, single characters, blanks, and integers and pointers where
    the alignment of the object stack and the data so far are good enough for
    them) are in memory at the end,
    each with the pieces in their order at the address obstack_finish gave
    for it; an object that is not empty is aligned, no two overlap, none
    overlaps what was kept before, and that is still there. *)
Theorem obstack_objects `{Hs : NewChunkSpec} k st kept objects : inv k st kept [] -> Forall (Forall (valid kept)) objects ->
  Forall (placed k 0) objects ->
  exists ps st' cs, build objects st = Ok (ps, st') /\ Forall2 contents objects cs /\
    Forall2 (fun p c => load (cells st'.2) p (length c) = Ok c /\ (c <> [] -> p mod 2 ^ k = 0)) ps cs /\
    ForallOrdPairs (fun x y => apart y x) (zip ps cs) /\ Forall (fun x => Forall (apart x) kept) (zip ps cs) /\
    Forall (fun '(p, d) => load (cells st'.2) p (length d) = Ok d) kept.
Proof.
  intros Hi Hv Hpl. destruct (build_inv objects st kept Hi Hv Hpl) as (ps & st' & cs & Hb & Hc & Hlen & Hal & Hsep & Hord & Hi').
  exists ps, st', cs. split; [done|]. split; [done|]. destruct Hi' as [_ _ _ _ _ Hkept]. apply Forall_app in Hkept as [Hnew Hold].
  apply Forall_rev in Hnew. rewrite rev_involutive in Hnew.
  split; [|split; [done|split; [done|]]].
  - apply Forall2_same_length_lookup_2; [done|]. intros i p c Hp Hcc.
    assert (Hz : (p, c) ∈ zip ps cs) by (apply list_elem_of_lookup; exists i; by rewrite lookup_zip_with, Hp, Hcc).
    split; [|apply (proj1 (Forall_forall _ _) Hal _ Hz)].
    apply load_ok, (proj1 (Forall_forall _ _) Hnew _ Hz).
  - eapply Forall_impl; [exact Hold|]. intros [p d] [Hr _]. by apply load_ok.
Qed.

Definition demo_objects : list (list piece) :=
  [[Int 258; Int 7; Ptr 100; Copy 100 demo_string]; [Copy0 100 demo_string; Char NUL]; [Blank 3]].

Lemma obstack_objects_witness : exists ps st',
  @build chunk_above demo_objects demo_stack = Ok (ps, st') /\ length ps = 3%nat /\
  Forall (fun '(p, d) => load (cells st'.2) p (length d) = Ok d) [(100, demo_string)].
Proof.
  destruct (@obstack_objects chunk_above _ 3 demo_stack [(100, demo_string)] demo_objects demo_stack_inv)
    as (ps & st' & cs & Hb & Hc & Hl & _ & _ & Hk).
  - repeat constructor; try (left || done); change (zlen demo_string) with 5; lia.
  - repeat apply Forall_cons_2; [..|apply Forall_nil_2]; vm_compute; intuition discriminate.
  - exists ps, st'. split; [exact Hb|]. split; [|exact Hk].
    rewrite (Forall2_length _ _ _ Hl), <- (Forall2_length _ _ _ Hc). reflexivity.
Defined.

(** obstack_free of an object in the current chunk releases it and what
    was finished after it, makes its place the next one to be given out, and
    keeps every object before it and in other chunks: the memory is not
    touched, and the stack can go on. *)
Theorem obstack_free_releases `{FreeOlder} k st kept cur p : inv k st kept cur ->
  first_object st.1 <= p <= object_base st.1 -> p < chunk_limit st.1 -> p mod 2 ^ k = 0 ->
  let st' := obstack_free p st in
  object_base st'.1 = p /\ next_free st'.1 = p /\ st'.2 = st.2 /\
  inv k st' (filter (fun x => x.1 + zlen x.2 <= p \/ chunk_limit st.1 <= x.1 \/ x.1 + zlen x.2 <= chunk st.1) kept) [].
Proof.
  intros Hi Hp Hlim Hmod. pose proof (free_inv st kept cur p Hi Hp Hlim Hmod) as Hf. cbn zeta.
  destruct st as [o m]. destruct (Hi) as [[Hk Hm] _ _ _ _ _]. cbn [fst snd] in *.
  destruct (first_object_aligned o k Hk Hm) as [_ Hfirst]. unfold contents_offset in Hfirst.
  unfold obstack_free in *. rewrite (proj2 (Z.ltb_lt _ _)), (proj2 (Z.ltb_lt _ _)) in * by lia. done.
Qed.

(** The stack after an object of three characters was finished. *)
Definition demo_finished : state :=
  match @build chunk_above [[Char NUL; Char NUL; Char NUL]] demo_stack with Ok (_, st) => st | Fault _ => demo_stack end.

Lemma demo_finished_inv : inv 3 demo_finished [(1000, [Some NUL; Some NUL; Some NUL]); (100, demo_string)] [].
Proof.
  destruct (@build_inv chunk_above _ 3 [[Char NUL; Char NUL; Char NUL]] demo_stack [(100, demo_string)] demo_stack_inv)
    as (ps & st' & cs & Hb & Hc & _ & _ & _ & _ & Hi); [by repeat constructor..|].
  assert (Ec : cs = [[Some NUL; Some NUL; Some NUL]]).
  { apply Forall2_cons_inv_l in Hc as (c & cs' & (ls & Hls & ->) & Hn & ->). apply Forall2_nil_inv_l in Hn as ->.
    by repeat match goal with
    | H : Forall2 adds (_ :: _) _ |- _ => apply Forall2_cons_inv_l in H as (? & ? & Ha & ? & ->); inversion Ha; subst; clear Ha
    | H : Forall2 adds [] _ |- _ => apply Forall2_nil_inv_l in H as ->
    end. }
  assert (Es : Ok (ps, st') = Ok ([1000], demo_finished)) by (rewrite <- Hb; vm_compute; reflexivity).
  injection Es as -> ->. by rewrite Ec in Hi.
Qed.

Lemma obstack_free_releases_witness : let st := @obstack_free (fun _ st => st) 1000 demo_finished in
  object_base st.1 = 1000 /\ next_free st.1 = 1000 /\ next_free demo_finished.1 = 1008 /\ inv 3 st [(100, demo_string)] [].
Proof.
  destruct (@obstack_free_releases (fun _ st => st) 3 demo_finished
    [(1000, [Some NUL; Some NUL; Some NUL]); (100, demo_string)] [] 1000 demo_finished_inv) as (H1 & H2 & _ & H4).
  - vm_compute. split; discriminate.
  - vm_compute. reflexivity.
  - reflexivity.
  - split; [exact H1|]. split; [exact H2|]. split; [vm_compute; reflexivity | exact H4].
Defined.
