(* ===== verification/ObstackPortable.v ===== *)
(** * Object stacks: setting them up, and the macros for other compilers

    obstack.h has its macros twice: as statements for GNU C ([Obstack]) and as
    expressions for other compilers, which keep intermediate values in the
    member temp of struct obstack.  The definitions here are the expressions,
    with the suffix _c, and the macros that set up an object stack. *)

From stdpp Require Import base numbers strings gmap list.
From S2P Require Import Prelude CMem CText ByteOrder Obstack ObstackFacts ObstackProps.

#[local] Open Scope Z_scope.

(** ** Setting up *)

(** The members for the functions of the caller, by address. *)
Record callbacks : Type := Callbacks {
  chunkfun : Z;
  freefun : Z;
  extra_arg : option Z            (* with use_extra_arg *)
}.

(** _obstack_begin() and _obstack_begin_1() of obstack.c, which is not in the
    sources: size, alignment, the functions, the argument. *)
Class ObstackBegin : Type := {
  _obstack_begin : Z -> Z -> Z -> Z -> omem -> Z * (state * callbacks);
  _obstack_begin_1 : Z -> Z -> Z -> Z -> Z -> omem -> Z * (state * callbacks)
}.

Section Begin.
Context `{ObstackBegin} (obstack_chunk_alloc obstack_chunk_free : Z).

Definition obstack_init (m : omem) : Z * (state * callbacks) :=
  _obstack_begin 0 0 obstack_chunk_alloc obstack_chunk_free m.
Definition obstack_begin (size : Z) (m : omem) : Z * (state * callbacks) :=
  _obstack_begin (s32 size) 0 obstack_chunk_alloc obstack_chunk_free m.
Definition obstack_specify_allocation (size alignment chunkfun freefun : Z) (m : omem) : Z * (state * callbacks) :=
  _obstack_begin (s32 size) (s32 alignment) chunkfun freefun m.
Definition obstack_specify_allocation_with_arg (size alignment chunkfun freefun arg : Z) (m : omem) : Z * (state * callbacks) :=
  _obstack_begin_1 (s32 size) (s32 alignment) chunkfun freefun arg m.
End Begin.

Definition obstack_chunkfun (newchunkfun : Z) (c : callbacks) : callbacks := Callbacks newchunkfun (freefun c) (extra_arg c).
Definition obstack_freefun (newfreefun : Z) (c : callbacks) : callbacks := Callbacks (chunkfun c) newfreefun (extra_arg c).

(** ** The expressions

    The state has the word temp beside the other members. *)

Definition cstate : Type := state * Z.

Definition obstack_object_size_c (st : cstate) : Z := u32 (next_free st.1.1 - object_base st.1.1).
Definition obstack_room_c (st : cstate) : Z := u32 (chunk_limit st.1.1 - next_free st.1.1).

Definition obstack_empty_p_c (st : cstate) : res bool :=
  let '(o, m, _) := st in
  prev ← lift_opt UseAfterFree (prev_of m !! chunk o);
  Ok ((prev =? 0) && (next_free o =? __PTR_ALIGN (chunk o) (chunk o + contents_offset) (alignment_mask o))).

(** next_free moves first, the value goes to index -1. *)
Definition store_behind (l : list cell) (st : cstate) : res cstate :=
  let '(o, m, t) := st in
  let o := set_next_free o (next_free o + zlen l) in
  if (next_free o - zlen l) mod zlen l =? 0 then
    c ← put (cells m) (next_free o - zlen l) l;
    Ok (o, OMem c (prev_of m), t)
  else Fault Misaligned.

Definition obstack_ptr_grow_fast_c (aptr : Z) : cstate -> res cstate := store_behind (Some <$> le_bytes sizeof_ptr aptr).
Definition obstack_int_grow_fast_c (aint : Z) : cstate -> res cstate := store_behind (Some <$> le_bytes sizeof_int aint).

(** The macro obstack_1grow_fast, which both versions share. *)
Definition obstack_1grow_fast_c (achar : char) (st : cstate) : res cstate :=
  s ← obstack_1grow_fast achar st.1; Ok (s, st.2).

Section Portable.
Context `{NewChunk}.

(** The parameter of _obstack_newchunk() is an int. *)
Definition call_newchunk (len : Z) (st : cstate) : cstate := (newchunk (s32 len) st.1, st.2).

(** temp.tempint = (length), and a new chunk when the room is too small. *)
Definition obstack_make_room_c (length : Z) (st : cstate) : cstate :=
  let st := (st.1, s64 length) in
  if chunk_limit st.1.1 <? next_free st.1.1 + st.2 then call_newchunk st.2 st else st.

Definition obstack_grow_c (where_ length : Z) (st : cstate) : res cstate :=
  let st := (st.1, s64 length) in
  let '(o, m, t) := if chunk_limit st.1.1 <? next_free st.1.1 + st.2 then call_newchunk st.2 st else st in
  c ← copy_cells (cells m) (next_free o) where_ t;
  Ok (set_next_free o (next_free o + t), OMem c (prev_of m), t).

Definition obstack_grow0_c (where_ length : Z) (st : cstate) : res cstate :=
  let st := (st.1, s64 length) in
  let '(o, m, t) := if chunk_limit st.1.1 <? next_free st.1.1 + st.2 + 1 then call_newchunk (st.2 + 1) st else st in
  c ← copy_cells (cells m) (next_free o) where_ t;
  obstack_1grow_fast_c NUL (set_next_free o (next_free o + t), OMem c (prev_of m), t).

Definition obstack_1grow_c (datum : char) (st : cstate) : res cstate :=
  obstack_1grow_fast_c datum (if chunk_limit st.1.1 <? next_free st.1.1 + 1 then call_newchunk 1 st else st).

Definition obstack_ptr_grow_c (datum : Z) (st : cstate) : res cstate :=
  obstack_ptr_grow_fast_c datum
    (if chunk_limit st.1.1 <? next_free st.1.1 + Z.of_nat sizeof_ptr then call_newchunk (Z.of_nat sizeof_ptr) st else st).

Definition obstack_int_grow_c (datum : Z) (st : cstate) : res cstate :=
  obstack_int_grow_fast_c datum
    (if chunk_limit st.1.1 <? next_free st.1.1 + Z.of_nat sizeof_int then call_newchunk (Z.of_nat sizeof_int) st else st).

Definition obstack_blank_c (length : Z) (st : cstate) : cstate :=
  let st := (st.1, s64 length) in
  let st := if chunk_limit st.1.1 - next_free st.1.1 <? st.2 then call_newchunk st.2 st else st in
  (obstack_blank_fast st.2 st.1, st.2).

(** The value is that of temp.tempptr. *)
Definition obstack_finish_c (st : cstate) : Z * cstate :=
  let '(o, m, _) := st in
  let o := if next_free o =? object_base o then set_maybe_empty o else o in
  let temp := object_base o in
  let o := set_next_free o (__PTR_ALIGN (object_base o) (next_free o) (alignment_mask o)) in
  let o := if chunk_limit o - chunk o <? next_free o - chunk o then set_next_free o (chunk_limit o) else o in
  let o := set_object_base o (next_free o) in
  (temp, (o, m, temp)).

Definition obstack_alloc_c (length : Z) (st : cstate) : Z * cstate := obstack_finish_c (obstack_blank_c length st).

Definition obstack_copy_c (where_ length : Z) (st : cstate) : res (Z * cstate) :=
  st ← obstack_grow_c where_ length st; Ok (obstack_finish_c st).

Definition obstack_copy0_c (where_ length : Z) (st : cstate) : res (Z * cstate) :=
  st ← obstack_grow0_c where_ length st; Ok (obstack_finish_c st).

(** temp.tempint is the distance from the chunk. *)
Definition obstack_free_c `{FreeOlder} (obj : Z) (st : cstate) : cstate :=
  let '(o, m, _) := st in
  let temp := obj - chunk o in
  if (0 <? temp) && (temp <? chunk_limit o - chunk o) then
    (set_next_free (set_object_base o (temp + chunk o)) (temp + chunk o), m, temp)
  else (free_older (temp + chunk o) (o, m), temp).
End Portable.

(** ** Programs of macros *)

Inductive omacro : Type :=
| MakeRoom (length : Z)
| Grow (where_ length : Z)
| Grow0 (where_ length : Z)
| Grow1 (datum : char)
| PtrGrow (datum : Z)
| IntGrow (datum : Z)
| Grow1Fast (datum : char)
| PtrGrowFast (datum : Z)
| IntGrowFast (datum : Z)
| BlankRoom (length : Z)
| Alloc (length : Z)
| CopyObject (where_ length : Z)
| CopyObject0 (where_ length : Z)
| Finish
| FreeObject (obj : Z)
| Sizes                       (* object size, room, and whether it is empty *)
.

(** What a macro gives: a value, or several. *)
Inductive given : Type := Nothing | Address (p : Z) | Measures (size room : Z) (empty : bool).

Section programs.
Context `{NewChunk} `{FreeOlder}.

Definition run_gnu (c : omacro) (st : state) : res (given * state) :=
  match c with
  | MakeRoom n => Ok (Nothing, obstack_make_room n st)
  | Grow p n => st ← obstack_grow p n st; Ok (Nothing, st)
  | Grow0 p n => st ← obstack_grow0 p n st; Ok (Nothing, st)
  | Grow1 d => st ← obstack_1grow d st; Ok (Nothing, st)
  | PtrGrow d => st ← obstack_ptr_grow d st; Ok (Nothing, st)
  | IntGrow d => st ← obstack_int_grow d st; Ok (Nothing, st)
  | Grow1Fast d => st ← obstack_1grow_fast d st; Ok (Nothing, st)
  | PtrGrowFast d => st ← obstack_ptr_grow_fast d st; Ok (Nothing, st)
  | IntGrowFast d => st ← obstack_int_grow_fast d st; Ok (Nothing, st)
  | BlankRoom n => Ok (Nothing, obstack_blank n st)
  | Alloc n => let '(p, st) := obstack_alloc n st in Ok (Address p, st)
  | CopyObject p n => '(q, st) ← obstack_copy p n st; Ok (Address q, st)
  | CopyObject0 p n => '(q, st) ← obstack_copy0 p n st; Ok (Address q, st)
  | Finish => let '(p, st) := obstack_finish st in Ok (Address p, st)
  | FreeObject p => Ok (Nothing, obstack_free p st)
  | Sizes => e ← obstack_empty_p st; Ok (Measures (obstack_object_size st) (obstack_room st) e, st)
  end.

Definition run_c (c : omacro) (st : cstate) : res (given * cstate) :=
  match c with
  | MakeRoom n => Ok (Nothing, obstack_make_room_c n st)
  | Grow p n => st ← obstack_grow_c p n st; Ok (Nothing, st)
  | Grow0 p n => st ← obstack_grow0_c p n st; Ok (Nothing, st)
  | Grow1 d => st ← obstack_1grow_c d st; Ok (Nothing, st)
  | PtrGrow d => st ← obstack_ptr_grow_c d st; Ok (Nothing, st)
  | IntGrow d => st ← obstack_int_grow_c d st; Ok (Nothing, st)
  | Grow1Fast d => st ← obstack_1grow_fast_c d st; Ok (Nothing, st)
  | PtrGrowFast d => st ← obstack_ptr_grow_fast_c d st; Ok (Nothing, st)
  | IntGrowFast d => st ← obstack_int_grow_fast_c d st; Ok (Nothing, st)
  | BlankRoom n => Ok (Nothing, obstack_blank_c n st)
  | Alloc n => let '(p, st) := obstack_alloc_c n st in Ok (Address p, st)
  | CopyObject p n => '(q, st) ← obstack_copy_c p n st; Ok (Address q, st)
  | CopyObject0 p n => '(q, st) ← obstack_copy0_c p n st; Ok (Address q, st)
  | Finish => let '(p, st) := obstack_finish_c st in Ok (Address p, st)
  | FreeObject p => Ok (Nothing, obstack_free_c p st)
  | Sizes => e ← obstack_empty_p_c st; Ok (Measures (obstack_object_size_c st) (obstack_room_c st) e, st)
  end.

Fixpoint runs_gnu (l : list omacro) (st : state) : res (list given * state) :=
  match l with
  | [] => Ok ([], st)
  | c :: l => '(v, st) ← run_gnu c st; '(vs, st) ← runs_gnu l st; Ok (v :: vs, st)
  end.

Fixpoint runs_c (l : list omacro) (st : cstate) : res (list given * cstate) :=
  match l with
  | [] => Ok ([], st)
  | c :: l => '(v, st) ← run_c c st; '(vs, st) ← runs_c l st; Ok (v :: vs, st)
  end.
End programs.

(** Lengths that are ints, with room for a terminator. *)
Definition int_length (n : Z) : Prop := - 2 ^ 31 <= n < 2 ^ 31 - 1.
Definition int_lengths (c : omacro) : Prop :=
  match c with
  | MakeRoom n | Grow _ n | Grow0 _ n | BlankRoom n | Alloc n | CopyObject _ n | CopyObject0 _ n => int_length n
  | _ => True
  end.

(** ** Facts *)

(** Both results are the same but for temp. *)
Definition forget {A} (r : res (A * cstate)) : res (A * state) := '(v, st) ← r; Ok (v, st.1).
Definition forget_temp (r : res cstate) : res state := st ← r; Ok st.1.

Section facts.
Context `{NewChunk} `{FreeOlder}.

Lemma s32_int n : int_length n -> s32 n = n.
Proof. unfold int_length. intros. apply s32_small. lia. Qed.

Lemma s64_int n : int_length n -> s64 n = n.
Proof. unfold int_length. intros. apply s64_small. lia. Qed.

Lemma store_behind_forget l st : forget_temp (store_behind l st) = store_word l st.1.
Proof.
  destruct st as [[o m] t]. unfold store_behind, store_word. cbn -[put Z.modulo].
  replace (next_free o + zlen l - zlen l) with (next_free o) by lia. destruct (_ =? 0); [|done].
  by destruct (put (cells m) (next_free o) l).
Qed.

Lemma grow_forget p n st : int_length n -> forget_temp (obstack_grow_c p n st) = obstack_grow p n st.1.
Proof.
  intros Hn. destruct st as [[o m] t]. unfold obstack_grow_c, obstack_grow, call_newchunk. cbn [fst snd].
  rewrite s64_int, s32_int by done. destruct (_ <? _); [destruct (newchunk n (o, m)) as [o' m'] |]; cbn [fst snd];
  by destruct (copy_cells _ _ _ _).
Qed.

Lemma grow1_fast_forget c st : forget_temp (obstack_1grow_fast_c c st) = obstack_1grow_fast c st.1.
Proof. unfold obstack_1grow_fast_c. by destruct (obstack_1grow_fast c st.1). Qed.

Lemma grow0_forget p n st : int_length n -> forget_temp (obstack_grow0_c p n st) = obstack_grow0 p n st.1.
Proof.
  intros Hn. destruct st as [[o m] t]. unfold obstack_grow0_c, obstack_grow0, call_newchunk. cbn [fst snd].
  rewrite s64_int, (s32_int n) by done. rewrite (s32_small (n + 1)) by (unfold int_length in Hn; lia).
  destruct (_ <? _); [destruct (newchunk (n + 1) (o, m)) as [o' m'] |]; cbn [fst snd];
    (destruct (copy_cells _ _ _ _); [|done]); rewrite !bind_ok; apply grow1_fast_forget.
Qed.

Lemma blank_forget n st : int_length n -> (obstack_blank_c n st).1 = obstack_blank n st.1.
Proof.
  intros Hn. destruct st as [[o m] t]. unfold obstack_blank_c, obstack_blank, call_newchunk. cbn [fst snd].
  rewrite s64_int, s32_int by done. by destruct (_ <? _).
Qed.

Lemma finish_forget st : let '(p, st') := obstack_finish_c st in (p, st'.1) = obstack_finish st.1.
Proof. destruct st as [[o m] t]. cbn. by destruct (next_free o =? object_base o). Qed.

(** A call that ends with obstack_finish. *)
Lemma finish_after r s : forget_temp r = s ->
  forget (st ← r; Ok (obstack_finish_c st)) = (st ← s; Ok (obstack_finish st)).
Proof.
  intros <-. destruct r as [st|]; [|done]. cbn -[obstack_finish obstack_finish_c]. pose proof (finish_forget st) as Hf.
  destruct (obstack_finish_c st) as [p st']. by rewrite <- Hf.
Qed.

Lemma forget_address (r : res (Z * cstate)) s : forget r = s ->
  forget ('(q, st) ← r; Ok (Address q, st)) = ('(q, st) ← s; Ok (Address q, st)).
Proof. intros <-. by destruct r as [[]|]. Qed.

(** A call that gives nothing. *)
Lemma forget_nothing (r : res cstate) s : forget_temp r = s -> forget (st ← r; Ok (Nothing, st)) = (st ← s; Ok (Nothing, st)).
Proof. intros <-. by destruct r. Qed.

Lemma run_forget c st : int_lengths c -> forget (run_c c st) = run_gnu c st.1.
Proof.
  intros Hl. destruct c as [n|p n|p n|d|d|d|d|d|d|n|n|p n|p n| |p|]; cbn [run_c run_gnu int_lengths] in *.
  - destruct st as [[o m] t]. unfold obstack_make_room_c, obstack_make_room, call_newchunk. cbn [fst snd]. rewrite s64_int, s32_int by done.
    replace (chunk_limit o <? next_free o + n) with (chunk_limit o - next_free o <? n) by lia. by destruct (_ <? _).
  - apply forget_nothing, grow_forget. done.
  - apply forget_nothing, grow0_forget. done.
  - apply forget_nothing. unfold obstack_1grow_c, obstack_1grow. rewrite grow1_fast_forget. by destruct (_ <? _).
  - apply forget_nothing. unfold obstack_ptr_grow_c, obstack_ptr_grow, obstack_ptr_grow_fast_c. rewrite store_behind_forget. by destruct (_ <? _).
  - apply forget_nothing. unfold obstack_int_grow_c, obstack_int_grow, obstack_int_grow_fast_c. rewrite store_behind_forget. by destruct (_ <? _).
  - apply forget_nothing, grow1_fast_forget.
  - apply forget_nothing, store_behind_forget.
  - apply forget_nothing, store_behind_forget.
  - by rewrite <- (blank_forget n st Hl).
  - unfold obstack_alloc_c, obstack_alloc. pose proof (finish_forget (obstack_blank_c n st)) as Hf. rewrite blank_forget in Hf by done.
    destruct (obstack_finish_c _) as [q st']. by rewrite <- Hf.
  - by apply forget_address, finish_after, grow_forget.
  - by apply forget_address, finish_after, grow0_forget.
  - pose proof (finish_forget st) as Hf. destruct (obstack_finish_c st) as [q st']. by rewrite <- Hf.
  - destruct st as [[o m] t]. cbn. replace (p - chunk o + chunk o) with p by lia.
    replace (0 <? p - chunk o) with (chunk o <? p) by lia.
    replace (p - chunk o <? chunk_limit o - chunk o) with (p <? chunk_limit o) by lia. by destruct (_ && _).
  - destruct st as [[o m] t]. cbn. by destruct (lift_opt _ _).
Qed.

End facts.

(** What _obstack_begin() is documented to do: when it returns 1, the object
    stack is empty, in a chunk of memory that was not in use; objects start at
    multiples of the alignment, or when that is 0 of a default that is good
    enough for any type of data. *)
Record begun (m : omem) (alignment : Z) (st : state) (k : Z) : Prop := Begun {
  begun_mask : 0 <= k /\ alignment_mask st.1 = 2 ^ k - 1 /\ (alignment <> 0 -> alignment = 2 ^ k) /\
    (alignment = 0 -> 3 <= k);
  begun_empty : object_base st.1 = first_object st.1 /\ next_free st.1 = first_object st.1 /\ first_object st.1 <= chunk_limit st.1;
  begun_there : forall a, first_object st.1 <= a < chunk_limit st.1 -> is_Some (cells st.2 !! a);
  begun_new : forall a, chunk st.1 <= a < chunk_limit st.1 -> cells m !! a = None;
  begun_same : forall a x, cells m !! a = Some x -> cells st.2 !! a = Some x }.

Class BeginSpec (B : ObstackBegin) : Prop := begin_spec (size alignment cf ff : Z) (m : omem) st cb :
  _obstack_begin size alignment cf ff m = (1, (st, cb)) ->
  (exists k, begun m alignment st k) /\ cb = Callbacks cf ff None.

Lemma begun_inv m alignment st k kept : begun m alignment st k -> Forall (fun '(p, d) => reads (cells m) p d) kept ->
  inv k st kept [].
Proof.
  intros [(Hk & Hm & _) (Hb & Hn & Hlim) Hth Hnew Hsame] Hkept.
  destruct (first_object_aligned st.1 k Hk Hm) as [Hal Hfirst]. unfold contents_offset in Hfirst.
  split; [done | lia | left; by rewrite Hb | done | split; [done | unfold zlen; cbn; lia] |].
  eapply Forall_impl; [exact Hkept|]. intros [p d] Hr. split; [intros i x Hx; by apply Hsame, Hr|].
  intros a Ha Hin. destruct (lookup_lt_is_Some_2 d (Z.to_nat (a - p))) as [x Hx]; [unfold zlen in *; lia|].
  apply Hr in Hx. replace (p + Z.of_nat (Z.to_nat (a - p))) with a in Hx by lia.
  rewrite Hnew in Hx; [done|]. destruct Hin; lia.
Qed.

(** A chunk above all memory, of the size that is asked for. *)
Definition start_above (cb : callbacks) (size alignment : Z) (m : omem) : Z * (state * callbacks) :=
  let c := top (cells m) in
  let mask := if alignment =? 0 then 15 else alignment - 1 in
  let base := __PTR_ALIGN c (c + contents_offset) mask in
  let n := Z.to_nat (if size <=? 0 then 4064 else size) in
  let st := (Obstack size c base base (base + Z.of_nat n) mask false,
             OMem (lay (cells m) base (replicate n None)) (<[c := 0]> (prev_of m))) in
  (if bool_decide (alignment ∈ [0; 1; 2; 4; 8; 16]) then 1 else 0, (st, cb)).

Definition begin_above : ObstackBegin := {|
  _obstack_begin size alignment cf ff m := start_above (Callbacks cf ff None) size alignment m;
  _obstack_begin_1 size alignment cf ff arg m := start_above (Callbacks cf ff (Some arg)) size alignment m |}.

Lemma alignment_power alignment : alignment ∈ [0; 1; 2; 4; 8; 16] ->
  exists k, 0 <= k /\ (if alignment =? 0 then 15 else alignment - 1) = 2 ^ k - 1 /\ (alignment <> 0 -> alignment = 2 ^ k) /\
    (alignment = 0 -> 3 <= k).
Proof.
  rewrite !elem_of_cons. intros [->|[->|[->|[->|[->|[->|[]%not_elem_of_nil]]]]]];
    [exists 4 | exists 0 | exists 1 | exists 2 | exists 3 | exists 4]; split_and!; try done; intros; lia.
Qed.

#[global] Instance begin_above_spec : BeginSpec begin_above.
Proof.
  intros size alignment cf ff m st cb E. cbn in E. unfold start_above in E. case_bool_decide as Hal; [|done].
  injection E as <- <-. split; [|done]. destruct (alignment_power alignment Hal) as (k & Hk & Hm & Ha). exists k.
  set (base := __PTR_ALIGN _ _ _). set (n := Z.to_nat _).
  assert (Hbase : top (cells m) + contents_offset <= base).
  { unfold base. rewrite Hm, ptr_align by done.
    pose proof (next_multiple_bounds (top (cells m) + contents_offset) (2 ^ k) ltac:(apply Z.pow_pos_nonneg; lia)). lia. }
  unfold contents_offset in Hbase.
  assert (Hlen : zlen (replicate n (None : cell)) = Z.of_nat n) by (unfold zlen; by rewrite length_replicate).
  split; cbn [fst snd alignment_mask object_base next_free chunk chunk_limit cells].
  - done.
  - split; [done|]. split; [done|]. change (base <= base + Z.of_nat n). lia.
  - intros a Ha'. change (base <= a < base + Z.of_nat n) in Ha'.
    destruct (lookup_lt_is_Some_2 (replicate n (None : cell)) (Z.to_nat (a - base))) as [x Hx]; [rewrite length_replicate; lia|].
    eapply (lay_reads (cells m)) in Hx. replace (base + Z.of_nat (Z.to_nat (a - base))) with a in Hx by lia. by eexists.
  - intros a Ha'. destruct (cells m !! a) as [x|] eqn:Ex; [|done]. apply top_above in Ex. lia.
  - intros a x Hx. rewrite lay_other; [done|]. rewrite Hlen. apply top_above in Hx. lia.
Qed.

(** ** Theorems *)

(** C31: the macros for other compilers do what those for GNU C do: any
    program of macros with lengths that are ints below INT_MAX gives the same
    values, the same object stack and the same memory in both, or the same
    fault. *)
Theorem obstack_portable `{NewChunk} `{FreeOlder} l st temp : Forall int_lengths l ->
  forget (runs_c l (st, temp)) = runs_gnu l st.
Proof.
  intros Hl. revert st temp. induction Hl as [|c l Hc Hl IH]; intros st temp; [done|]. cbn [runs_c runs_gnu].
  rewrite <- (run_forget c (st, temp) Hc). destruct (run_c c (st, temp)) as [[v [st1 t1]]|]; [|done]. cbn [forget mbind res_bind fst].
  rewrite <- (IH st1 t1). by destruct (runs_c l (st1, t1)) as [[vs st2]|].
Qed.

Definition demo_macros : list omacro :=
  [IntGrow 258; Grow 100 5; Finish; CopyObject0 100 5; Alloc 3; Sizes; FreeObject 1000; Sizes].

Lemma obstack_portable_witness :
  forget (@runs_c chunk_above (fun _ st => st) demo_macros (demo_stack, 0)) = @runs_gnu chunk_above (fun _ st => st) demo_macros demo_stack /\
  length <$> (fst <$> match @runs_gnu chunk_above (fun _ st => st) demo_macros demo_stack with Ok r => Some r | _ => None end) = Some 8%nat.
Proof.
  split.
  - apply (@obstack_portable chunk_above (fun _ st => st)). repeat constructor; unfold int_length; lia.
  - vm_compute. reflexivity.
Defined.

(** An object stack that was set up with obstack_begin() or obstack_init()
    is empty, and objects built on it from any pieces are complete, do not
    overlap and leave what was in memory. *)
Theorem begun_objects `{BS : BeginSpec} `{NS : NewChunkSpec} alloc free size m st cb kept objects :
  obstack_begin alloc free size m = (1, (st, cb)) \/ obstack_init alloc free m = (1, (st, cb)) ->
  Forall (fun '(p, d) => reads (cells m) p d) kept -> Forall (Forall (valid kept)) objects ->
  Forall (placed 3 0) objects ->
  cb = Callbacks alloc free None /\
  exists ps st' cs, build objects st = Ok (ps, st') /\ Forall2 contents objects cs /\
    ForallOrdPairs (fun x y => apart y x) (zip ps cs) /\ Forall (fun '(p, d) => reads (cells st'.2) p d) kept.
Proof.
  intros Hb Hk Hv Hp. assert (Hbegin : exists size', _obstack_begin size' 0 alloc free m = (1, (st, cb))) by (by destruct Hb; eexists).
  destruct Hbegin as [size' Hs]. destruct (begin_spec _ _ _ _ _ _ _ Hs) as [[k Hbg] Hcb]. split; [done|].
  assert (Hk3 : 3 <= k) by (by apply Hbg). assert (Hpk : Forall (placed k 0) objects)
    by (eapply Forall_impl; [exact Hp|]; intros gs Hgs; by apply (placed_mono 3 k)).
  destruct (build_inv objects st kept (begun_inv _ _ _ _ _ Hbg Hk) Hv Hpk) as (ps & st' & cs & E & Hc & _ & _ & _ & Hap & Hi).
  exists ps, st', cs. split; [done|]. split; [done|]. split; [done|]. destruct Hi as [_ _ _ _ _ Hall].
  apply Forall_app in Hall as [_ Hall]. eapply Forall_impl; [exact Hall|]. by intros [p d] [Hr _].
Qed.

Lemma begun_objects_witness : exists st, @obstack_begin begin_above 1 2 64 demo_stack.2 = (1, (st, Callbacks 1 2 None)) /\
  exists ps st', @build chunk_above demo_objects st = Ok (ps, st').
Proof.
  pose (r := @obstack_begin begin_above 1 2 64 demo_stack.2).
  assert (E : r = (1, (r.2.1, Callbacks 1 2 None))) by (vm_compute; reflexivity). exists r.2.1. split; [exact E|].
  destruct (@begun_objects begin_above _ chunk_above _ 1 2 64 demo_stack.2 r.2.1 (Callbacks 1 2 None) [(100, demo_string)] demo_objects)
    as (_ & ps & st' & cs & Hb & _).
  - left. exact E.
  - destruct demo_stack_inv as [_ _ _ _ _ Hk]. eapply Forall_impl; [exact Hk|]. by intros [p d] [Hr _].
  - repeat constructor; try (left || done); change (zlen demo_string) with 5; lia.
  - repeat apply Forall_cons_2; [..|apply Forall_nil_2]; vm_compute; intuition discriminate.
  - by exists ps, st'.
Defined.

(** With a length that is not an int the versions differ: the one for GNU C
    makes it an int first, the other passes it through the int parameter of
    _obstack_newchunk() and then moves next_free by all of it, behind the end
    of the chunk. *)
Theorem wide_blank_differs : let st := (obstack_blank_c (2 ^ 32 + 9) (demo_stack, 0) (H := chunk_above)).1 in
  chunk_limit st.1 < next_free st.1 /\
  next_free (obstack_blank (2 ^ 32 + 9) demo_stack (H := chunk_above)).1 <= chunk_limit (obstack_blank (2 ^ 32 + 9) demo_stack (H := chunk_above)).1.
Proof. split; vm_compute; [reflexivity | discriminate]. Qed.
